(** * AI-Pathfinding-Visualizer: the grid model and the four searches

    A shallow embedding of [grid.py], [utils/heuristics.py] and
    [algorithms.py].  Python objects that are shared and mutated (the [Node]s
    of a grid) live in an explicit store, the list of rows [grid_nodes]; a
    reference to a node is the pair of indices where [make_grid] put it.
    Integers are [Z]; a colour is the RGB triple the source compares with
    [==]; dictionaries and sets keyed by nodes are [gmap]s and [gset]s keyed
    by references. *)

From Stdlib Require Import String.
From stdpp Require Import base option list gmap sets.
From Stdlib Require Import ZArith Lia Sorted.

Local Open Scope Z_scope.

(** ** Colours (grid.py, lines 4-11) *)

Definition Color : Type := (Z * Z * Z)%type.

Definition RED : Color := (255, 0, 0).
Definition GREEN : Color := (0, 255, 0).
Definition WHITE : Color := (255, 255, 255).
Definition BLACK : Color := (0, 0, 0).
Definition PURPLE : Color := (128, 0, 128).
Definition ORANGE : Color := (255, 165, 0).
Definition GREY : Color := (128, 128, 128).
Definition TURQUOISE : Color := (64, 224, 208).

(** A reference to a node of the store: (row index, column index). *)
Abbreviation Ref := (Z * Z)%type.

(** ** class Node *)

Module Node.

Record t : Type := mk {
  row : Z;
  col : Z;
  x : Z;
  y : Z;
  color : Color;
  neighbors : list Ref;
  size : Z;
  total_rows : Z
}.

(** [Node.__init__(row, col, size, total_rows)] *)
Definition init (row col size total_rows : Z) : t :=
  {| row := row; col := col;
     x := col * size; y := row * size;
     color := WHITE; neighbors := [];
     size := size; total_rows := total_rows |}.

Definition get_pos (n : t) : Z * Z := (row n, col n).
Arguments get_pos : simpl never.

Definition is_closed (n : t) : bool := bool_decide (color n = RED).
Definition is_open (n : t) : bool := bool_decide (color n = GREEN).
Definition is_barrier (n : t) : bool := bool_decide (color n = BLACK).
Definition is_start (n : t) : bool := bool_decide (color n = ORANGE).
Definition is_end (n : t) : bool := bool_decide (color n = TURQUOISE).

Definition set_color (c : Color) (n : t) : t :=
  {| row := row n; col := col n; x := x n; y := y n;
     color := c; neighbors := neighbors n;
     size := size n; total_rows := total_rows n |}.

Definition set_neighbors (ns : list Ref) (n : t) : t :=
  {| row := row n; col := col n; x := x n; y := y n;
     color := color n; neighbors := ns;
     size := size n; total_rows := total_rows n |}.

Definition reset : t → t := set_color WHITE.
Definition make_start : t → t := set_color ORANGE.
Definition make_closed : t → t := set_color RED.
Definition make_open : t → t := set_color GREEN.
Definition make_barrier : t → t := set_color BLACK.
Definition make_end : t → t := set_color TURQUOISE.
Definition make_path : t → t := set_color PURPLE.

End Node.

(** ** The store: [grid_nodes], a list of rows *)

Abbreviation Cells := (list (list Node.t)).

(** Python's [l[i]]: a negative index counts from the end, an index out of
    range raises [IndexError] (here [None]).  The index actually read is
    returned with the element; it is the reference of the object found. *)
Definition py_getitem {A} (l : list A) (i : Z) : option (Z * A) :=
  let n := Z.of_nat (length l) in
  if bool_decide (0 ≤ i) then (λ a, (i, a)) <$> l !! Z.to_nat i
  else if bool_decide (0 ≤ i + n) then (λ a, (i + n, a)) <$> l !! Z.to_nat (i + n)
  else None.

(** [grid[r][c]] *)
Definition py_getitem2 (g : Cells) (r c : Z) : option (Ref * Node.t) :=
  '(r', rw) ← py_getitem g r;
  '(c', nd) ← py_getitem rw c;
  Some ((r', c'), nd).

(** Dereferencing. *)
Definition get (g : Cells) (p : Ref) : option Node.t :=
  if bool_decide (0 ≤ p.1 ∧ 0 ≤ p.2)
  then g !! Z.to_nat p.1 ≫= (λ rw, rw !! Z.to_nat p.2)
  else None.

(** Mutating the object behind a reference. *)
Definition modify (f : Node.t → Node.t) (p : Ref) (g : Cells) : Cells :=
  if bool_decide (0 ≤ p.1 ∧ 0 ≤ p.2)
  then alter (alter f (Z.to_nat p.2)) (Z.to_nat p.1) g
  else g.

Definition color_at (g : Cells) (p : Ref) : option Color := Node.color <$> get g p.
Definition neighbors_at (g : Cells) (p : Ref) : option (list Ref) :=
  Node.neighbors <$> get g p.

(** [Node.update_neighbors(self, grid)] (grid.py, lines 99-121): the new
    value of [self.neighbors], or [None] when an index is out of range.
    [and] is short-circuit: the grid is read only after the bound test. *)
Definition check_dir (grid : Cells) (guard : bool) (r c : Z) (acc : list Ref)
  : option (list Ref) :=
  if guard then
    '(p, nd) ← py_getitem2 grid r c;
    if Node.is_barrier nd then Some acc
    else
      '(p', _) ← py_getitem2 grid r c;
      Some (acc ++ [p'])
  else Some acc.

Definition node_update_neighbors (self : Node.t) (grid : Cells) : option Node.t :=
  let r := Node.row self in
  let c := Node.col self in
  let n := Node.total_rows self in
  ns ← check_dir grid (bool_decide (r < n - 1)) (r + 1) c [];
  ns ← check_dir grid (bool_decide (r > 0)) (r - 1) c ns;
  ns ← check_dir grid (bool_decide (c < n - 1)) r (c + 1) ns;
  ns ← check_dir grid (bool_decide (c > 0)) r (c - 1) ns;
  Some (Node.set_neighbors ns self).

(** Monadic left fold: a [for] loop whose body may raise. *)
Fixpoint foldM {A S} (f : S → A → option S) (s : S) (l : list A) : option S :=
  match l with
  | [] => Some s
  | a :: l' => s' ← f s a; foldM f s' l'
  end.

(** The references of a store in the order of
    [for row in grid_nodes: for node in row]. *)
Definition row_refs (i : nat) (rw : list Node.t) : list Ref :=
  (λ j, (Z.of_nat i, Z.of_nat j)) <$> seq 0 (length rw).

Definition all_refs (g : Cells) : list Ref :=
  mjoin (imap row_refs g).

(** ** class Grid *)

Module Grid.

Record t : Type := mk {
  rows : Z;
  width : Z;
  gap : Z;
  grid_nodes : Cells
}.

(** [make_grid] (lines 150-163); [range] of a non-positive number is empty. *)
Definition make_grid (rows gap : Z) : Cells :=
  (λ i, (λ j, Node.init (Z.of_nat i) (Z.of_nat j) gap rows) <$> seq 0 (Z.to_nat rows))
    <$> seq 0 (Z.to_nat rows).

(** [Grid.__init__(rows, width)] (lines 137-148): [width // rows] raises
    [ZeroDivisionError] when [rows] is 0; Python's [//] is floor division,
    as is [Z.div]. *)
Definition init (rows width : Z) : option t :=
  if bool_decide (rows = 0) then None
  else
    let gap := width `div` rows in
    Some {| rows := rows; width := width; gap := gap;
            grid_nodes := make_grid rows gap |}.

Definition get_node (self : t) (row col : Z) : option (Ref * Node.t) :=
  py_getitem2 (grid_nodes self) row col.

(** [get_clicked_pos] (lines 197-210); [gap] may be 0. *)
Definition get_clicked_pos (self : t) (pos : Z * Z) : option (Z * Z) :=
  let '(px, py) := pos in
  if bool_decide (gap self = 0) then None
  else Some (py `div` gap self, px `div` gap self).

(** [update_all_neighbors] (lines 212-219), on the store. *)
Definition update_all_neighbors_cells (g : Cells) : option Cells :=
  foldM (λ g p,
           nd ← get g p;
           nd' ← node_update_neighbors nd g;
           Some (modify (λ _, nd') p g))
        g (all_refs g).

Definition update_all_neighbors (self : t) : option t :=
  g' ← update_all_neighbors_cells (grid_nodes self);
  Some {| rows := rows self; width := width self; gap := gap self;
          grid_nodes := g' |}.

(** [clear_path_nodes(start_node, end_node)] (lines 221-238), on the store.
    [None] is Python's [None]; a [Node] is always truthy. *)
Definition clear_node (nd : Node.t) : Node.t :=
  if negb (Node.is_start nd || Node.is_end nd || Node.is_barrier nd)
  then Node.reset nd else nd.

Definition clear_path_nodes_cells (g : Cells) (start_node end_node : option Ref)
  : Cells :=
  let g1 := (λ rw : list Node.t, clear_node <$> rw) <$> g in
  let g2 := match start_node with
            | Some s => modify Node.make_start s g1
            | None => g1
            end in
  match end_node with
  | Some e => modify Node.make_end e g2
  | None => g2
  end.

Definition clear_path_nodes (self : t) (start_node end_node : option Ref) : t :=
  {| rows := rows self; width := width self; gap := gap self;
     grid_nodes := clear_path_nodes_cells (grid_nodes self) start_node end_node |}.

End Grid.

(** ** utils/heuristics.py *)

Definition manhattan (p1 p2 : Z * Z) : Z :=
  let '(x1, y1) := p1 in
  let '(x2, y2) := p2 in
  Z.abs (x1 - x2) + Z.abs (y1 - y2).

Definition diagonal (p1 p2 : Z * Z) : Z :=
  let '(x1, y1) := p1 in
  let '(x2, y2) := p2 in
  Z.max (Z.abs (x1 - x2)) (Z.abs (y1 - y2)).

Arguments manhattan : simpl never.
Arguments diagonal : simpl never.

(** ** algorithms.py: what all four searches share *)

(** The tuple a search returns:
    [(found_path_boolean, visited_nodes_count, path_length)]. *)
Definition result : Type := (bool * Z * Z)%type.

Definition found (r : result) : bool := r.1.1.
Definition visited_count (r : result) : Z := r.1.2.
Definition path_length (r : result) : Z := r.2.

(** What the pause block at the top of an iteration (lines 57-71) comes to:
    it either falls through ([Proceed]: not paused, or paused and resumed), or
    a [pygame.QUIT] event is fetched while paused and the search returns at
    once ([Quit]).  A run is driven by a schedule, one signal per iteration;
    when the schedule is exhausted every further iteration proceeds. *)
Inductive signal : Type := Proceed | Quit.

(** One iteration either returns from the search or goes round the loop. *)
Inductive outcome (S : Type) : Type :=
  | Return (r : result) (g : Cells)
  | Continue (s : S).
Arguments Return {S} r g.
Arguments Continue {S} s.

(** [while frontier: <pause block>; <body>] followed by
    [return False, visited_nodes_count, 0].  [None]: an exception, or the
    fuel does not suffice. *)
Section Loop.
Context {S : Type}.
Variable pending : S → bool.
Variable grid_of : S → Cells.
Variable count_of : S → Z.
Variable body : S → option (outcome S).

Fixpoint while_loop (fuel : nat) (sched : list signal) (s : S)
  : option (result * Cells) :=
  if pending s then
    match fuel with
    | O => None
    | Datatypes.S fuel' =>
        match sched with
        | Quit :: _ => Some ((false, count_of s, 0), grid_of s)
        | _ =>
            match body s with
            | None => None
            | Some (Return r g) => Some (r, g)
            | Some (Continue s') => while_loop fuel' (tail sched) s'
            end
        end
    end
  else Some ((false, count_of s, 0), grid_of s).
End Loop.

(** [reconstruct_path(came_from, current, draw_func)] (lines 8-29): the list
    [path_nodes] and the store after the [make_path] calls. *)
Fixpoint reconstruct_path (fuel : nat) (came_from : gmap Ref Ref) (current : Ref)
    (g : Cells) (path_nodes : list Ref) : option (list Ref * Cells) :=
  match came_from !! current with
  | None => Some (path_nodes, g)
  | Some current' =>
      match fuel with
      | O => None
      | Datatypes.S fuel' =>
          nd ← get g current';
          if negb (Node.is_start nd)
          then reconstruct_path fuel' came_from current'
                 (modify Node.make_path current' g) (path_nodes ++ [current'])
          else reconstruct_path fuel' came_from current' g path_nodes
      end
  end.

(** The three lines every search runs when it pops [end] (e.g. lines 76-79). *)
Definition finish (fuel : nat) (came_from : gmap Ref Ref) (start end_ : Ref)
    (g : Cells) (visited_nodes_count : Z) : option (result * Cells) :=
  '(path_nodes, g1) ← reconstruct_path fuel came_from end_ g [];
  let g2 := modify Node.make_end end_ g1 in
  let g3 := modify Node.make_start start g2 in
  Some ((true, visited_nodes_count, Z.of_nat (length path_nodes) + 1), g3).

(** ** BFS (lines 32-96) and DFS (lines 99-163) *)

Module Uninformed.

(** The locals of [bfs] and of [dfs].  [frontier] is the deque of [bfs], its
    left end first, and the list [stack] of [dfs], its top (the right end of
    the Python list) first. *)
Record state : Type := mk {
  grid : Cells;
  frontier : list Ref;
  visited : gset Ref;
  came_from : gmap Ref Ref;
  visited_nodes_count : Z
}.

Definition init (grid : Cells) (start : Ref) : state :=
  {| grid := grid; frontier := [start]; visited := {[start]};
     came_from := ∅; visited_nodes_count := 0 |}.

Definition pending (s : state) : bool :=
  match frontier s with [] => false | _ => true end.

(** The body of [for neighbor in ...]; [push] is [queue.append] or
    [stack.append]. *)
Definition discover (push : Ref → list Ref → list Ref) (current end_ : Ref)
    (s : state) (neighbor : Ref) : option state :=
  if bool_decide (neighbor ∈ visited s) then Some s
  else
    nd ← get (grid s) neighbor;
    if Node.is_barrier nd then Some s
    else
      Some {| grid := if bool_decide (neighbor ≠ end_)
                      then modify Node.make_open neighbor (grid s) else grid s;
              frontier := push neighbor (frontier s);
              visited := {[neighbor]} ∪ visited s;
              came_from := <[neighbor := current]> (came_from s);
              visited_nodes_count := visited_nodes_count s |}.

(** [if current != start and current != end: make_closed; count += 1] *)
Definition close (current start end_ : Ref) (s : state) : state :=
  if bool_decide (current ≠ start ∧ current ≠ end_)
  then {| grid := modify Node.make_closed current (grid s);
          frontier := frontier s; visited := visited s;
          came_from := came_from s;
          visited_nodes_count := visited_nodes_count s + 1 |}
  else s.

Definition with_frontier (q : list Ref) (s : state) : state :=
  {| grid := grid s; frontier := q; visited := visited s;
     came_from := came_from s; visited_nodes_count := visited_nodes_count s |}.

Definition enqueue (n : Ref) (q : list Ref) : list Ref := q ++ [n].
Definition push (n : Ref) (stack : list Ref) : list Ref := n :: stack.

(** Lines 73-94. *)
Definition bfs_body (fuel : nat) (start end_ : Ref) (s : state)
  : option (outcome state) :=
  match frontier s with
  | [] => None
  | current :: q =>
      if bool_decide (current = end_) then
        '(r, g) ← finish fuel (came_from s) start end_ (grid s) (visited_nodes_count s);
        Some (Return r g)
      else
        nd ← get (grid s) current;
        s1 ← foldM (discover enqueue current end_) (with_frontier q s)
                   (Node.neighbors nd);
        Some (Continue (close current start end_ s1))
  end.

(** Lines 136-161. *)
Definition dfs_body (fuel : nat) (start end_ : Ref) (s : state)
  : option (outcome state) :=
  match frontier s with
  | [] => None
  | current :: q =>
      if bool_decide (current = end_) then
        '(r, g) ← finish fuel (came_from s) start end_ (grid s) (visited_nodes_count s);
        Some (Return r g)
      else
        let s0 := close current start end_ (with_frontier q s) in
        nd ← get (grid s0) current;
        s1 ← foldM (discover push current end_) s0 (reverse (Node.neighbors nd));
        Some (Continue s1)
  end.

(** The cell the iteration at [s] expands: the one it pops, unless that is
    [end]. *)
Definition expanding (end_ : Ref) (s : state) : option Ref :=
  match frontier s with
  | [] => None
  | current :: _ => if bool_decide (current = end_) then None else Some current
  end.

End Uninformed.

(** ** Dijkstra (lines 167-250) and A* (lines 254-341) *)

(** A value of [g_score] or [f_score]: an [int], or [float("inf")]. *)
Inductive score : Type := Num (z : Z) | Infty.

(** [a + 1] *)
Definition score_succ (a : score) : score :=
  match a with Num z => Num (z + 1) | Infty => Infty end.

(** [a < b] *)
Definition score_lt (a b : score) : bool :=
  match a, b with
  | Num x, Num y => bool_decide (x < y)
  | Num _, Infty => true
  | Infty, _ => false
  end.

Arguments score_succ : simpl never.
Arguments score_lt : simpl never.

(** [{node: float("inf") for row in grid for node in row}] *)
Definition all_infty (g : Cells) : gmap Ref score :=
  list_to_map ((λ p, (p, Infty)) <$> all_refs g).

(** An entry of [open_set]: [(priority, tie_breaker, node)]. *)
Abbreviation entry := (Z * Z * Ref)%type.

(** Python compares the tuples from the left; the tie-breakers of the
    entries of one run are pairwise distinct, so the comparison never reaches
    the nodes (whose [__lt__] answers [False]). *)
Definition entry_lt (a b : entry) : bool :=
  bool_decide (a.1.1 < b.1.1 ∨ (a.1.1 = b.1.1 ∧ a.1.2 < b.1.2)).

(** [heapq] keeps a binary heap in a list; [heappop] returns a least entry.
    Here [open_set] is the same entries in increasing order: [heappush]
    inserts in place and [heappop] takes the head. *)
Fixpoint heappush (h : list entry) (e : entry) : list entry :=
  match h with
  | [] => [e]
  | a :: h' => if entry_lt e a then e :: a :: h' else a :: heappush h' e
  end.

Definition heappop (h : list entry) : option (entry * list entry) :=
  match h with
  | [] => None
  | a :: h' => Some (a, h')
  end.

Module Informed.

(** The locals of [dijkstra] and of [astar]; [dijkstra] has no [f_score]
    (it stays empty). *)
Record state : Type := mk {
  grid : Cells;
  g_score : gmap Ref score;
  f_score : gmap Ref score;
  count : Z;
  open_set : list entry;
  came_from : gmap Ref Ref;
  open_set_hash : gset Ref;
  visited_nodes_count : Z
}.

Definition pending (s : state) : bool :=
  match open_set s with [] => false | _ => true end.

(** Lines 184-196. *)
Definition dijkstra_init (grid : Cells) (start : Ref) : state :=
  {| grid := grid;
     g_score := <[start := Num 0]> (all_infty grid);
     f_score := ∅;
     count := 0;
     open_set := [(0, 0, start)];
     came_from := ∅;
     open_set_hash := {[start]};
     visited_nodes_count := 0 |}.

(** Lines 271-286; [h(..., method="manhattan")] is [manhattan]. *)
Definition astar_init (grid : Cells) (start end_ : Ref) : option state :=
  s_nd ← get grid start;
  e_nd ← get grid end_;
  Some {| grid := grid;
          g_score := <[start := Num 0]> (all_infty grid);
          f_score := <[start := Num (manhattan (Node.get_pos s_nd) (Node.get_pos e_nd))]>
                       (all_infty grid);
          count := 0;
          open_set := heappush [] (0, 0, start);
          came_from := ∅;
          open_set_hash := {[start]};
          visited_nodes_count := 0 |}.

(** [if neighbor not in open_set_hash: ...] (lines 236-241, 327-332), with
    the priority [key] that is pushed. *)
Definition push_if_new (key : Z) (end_ : Ref) (neighbor : Ref) (s : state) : state :=
  if bool_decide (neighbor ∈ open_set_hash s) then s
  else
    {| grid := if bool_decide (neighbor ≠ end_)
               then modify Node.make_open neighbor (grid s) else grid s;
       g_score := g_score s; f_score := f_score s;
       count := count s + 1;
       open_set := heappush (open_set s) (key, count s + 1, neighbor);
       came_from := came_from s;
       open_set_hash := {[neighbor]} ∪ open_set_hash s;
       visited_nodes_count := visited_nodes_count s |}.

(** The body of [for neighbor in current.neighbors] of [dijkstra]
    (lines 226-241).  A dictionary read of a missing key raises. *)
Definition dijkstra_relax (current end_ : Ref) (s : state) (neighbor : Ref)
  : option state :=
  nd ← get (grid s) neighbor;
  if Node.is_barrier nd then Some s
  else
    gc ← g_score s !! current;
    let temp_g_score := score_succ gc in
    gn ← g_score s !! neighbor;
    if score_lt temp_g_score gn then
      match temp_g_score with
      | Infty => None
      | Num t =>
          let s1 :=
            {| grid := grid s;
               g_score := <[neighbor := Num t]> (g_score s);
               f_score := f_score s;
               count := count s; open_set := open_set s;
               came_from := <[neighbor := current]> (came_from s);
               open_set_hash := open_set_hash s;
               visited_nodes_count := visited_nodes_count s |} in
          Some (push_if_new t end_ neighbor s1)
      end
    else Some s.

(** The same for [astar] (lines 316-332). *)
Definition astar_relax (current end_ : Ref) (s : state) (neighbor : Ref)
  : option state :=
  nd ← get (grid s) neighbor;
  if Node.is_barrier nd then Some s
  else
    gc ← g_score s !! current;
    let temp_g_score := score_succ gc in
    gn ← g_score s !! neighbor;
    if score_lt temp_g_score gn then
      match temp_g_score with
      | Infty => None
      | Num t =>
          e_nd ← get (grid s) end_;
          let f := t + manhattan (Node.get_pos nd) (Node.get_pos e_nd) in
          let s1 :=
            {| grid := grid s;
               g_score := <[neighbor := Num t]> (g_score s);
               f_score := <[neighbor := Num f]> (f_score s);
               count := count s; open_set := open_set s;
               came_from := <[neighbor := current]> (came_from s);
               open_set_hash := open_set_hash s;
               visited_nodes_count := visited_nodes_count s |} in
          Some (push_if_new f end_ neighbor s1)
      end
    else Some s.

Definition close (current start end_ : Ref) (s : state) : state :=
  if bool_decide (current ≠ start ∧ current ≠ end_)
  then {| grid := modify Node.make_closed current (grid s);
          g_score := g_score s; f_score := f_score s;
          count := count s; open_set := open_set s;
          came_from := came_from s; open_set_hash := open_set_hash s;
          visited_nodes_count := visited_nodes_count s + 1 |}
  else s.

(** [heappop] and [open_set_hash.remove(current)]: the state after both. *)
Definition popped (h : list entry) (current : Ref) (s : state) : state :=
  {| grid := grid s; g_score := g_score s; f_score := f_score s;
     count := count s; open_set := h;
     came_from := came_from s;
     open_set_hash := open_set_hash s ∖ {[current]};
     visited_nodes_count := visited_nodes_count s |}.

(** One iteration of the two loops; they differ in the dictionary the
    popped priority is compared with ([best]) and in the relaxation. *)
Definition body (best : state → gmap Ref score)
    (relax : Ref → Ref → state → Ref → option state)
    (fuel : nat) (start end_ : Ref) (s : state) : option (outcome state) :=
  '((current_score, tie_breaker, current), h) ← heappop (open_set s);
  if bool_decide (current ∈ open_set_hash s) then
    let s0 := popped h current s in
    b ← best s0 !! current;
    if score_lt b (Num current_score) then Some (Continue s0)
    else if bool_decide (current = end_) then
      '(r, g) ← finish fuel (came_from s0) start end_ (grid s0) (visited_nodes_count s0);
      Some (Return r g)
    else
      nd ← get (grid s0) current;
      s1 ← foldM (relax current end_) s0 (Node.neighbors nd);
      Some (Continue (close current start end_ s1))
  else None.

Definition dijkstra_body := body g_score dijkstra_relax.
Definition astar_body := body f_score astar_relax.

(** The cell the iteration at [s] expands: the one it pops, unless the entry
    is stale or the cell is [end]. *)
Definition expanding (best : state → gmap Ref score) (end_ : Ref) (s : state)
  : option Ref :=
  match open_set s with
  | [] => None
  | (current_score, _, current) :: _ =>
      match best s !! current with
      | None => None
      | Some b =>
          if score_lt b (Num current_score) then None
          else if bool_decide (current = end_) then None
          else Some current
      end
  end.

End Informed.

(** ** The four searches behind one signature

    [algorithm(draw_func, grid, start, end, delay_ms, paused_ref, manager,
    window_surface)]: the locals, the loop test, the statements before the
    loop and the loop body.  The drawing and the delays do not touch the
    store; the pause block is the schedule of [while_loop].  [expanding]
    belongs to the statements, not to the code: the cell that the next
    iteration pops and expands, if it expands one. *)
Record search : Type := Search {
  state : Type;
  pending : state → bool;
  grid_of : state → Cells;
  count_of : state → Z;
  init : Cells → Ref → Ref → option state;
  body : nat → Ref → Ref → state → option (outcome state);
  expanding : Ref → state → option Ref
}.

(** [start] and [end] are nodes of the grid: the store holds no others. *)
Definition in_grid (g : Cells) (p : Ref) : bool := bool_decide (is_Some (get g p)).

Definition run (A : search) (fuel : nat) (sched : list signal) (grid : Cells)
    (start end_ : Ref) : option (result * Cells) :=
  if in_grid grid start && in_grid grid end_ then
    s ← init A grid start end_;
    while_loop (pending A) (grid_of A) (count_of A) (body A fuel start end_)
      fuel sched s
  else None.

Definition BFS : search :=
  {| state := Uninformed.state;
     pending := Uninformed.pending;
     grid_of := Uninformed.grid;
     count_of := Uninformed.visited_nodes_count;
     init := λ grid start _, Some (Uninformed.init grid start);
     body := Uninformed.bfs_body;
     expanding := Uninformed.expanding |}.

Definition DFS : search :=
  {| state := Uninformed.state;
     pending := Uninformed.pending;
     grid_of := Uninformed.grid;
     count_of := Uninformed.visited_nodes_count;
     init := λ grid start _, Some (Uninformed.init grid start);
     body := Uninformed.dfs_body;
     expanding := Uninformed.expanding |}.

Definition DIJKSTRA : search :=
  {| state := Informed.state;
     pending := Informed.pending;
     grid_of := Informed.grid;
     count_of := Informed.visited_nodes_count;
     init := λ grid start _, Some (Informed.dijkstra_init grid start);
     body := Informed.dijkstra_body;
     expanding := Informed.expanding Informed.g_score |}.

Definition ASTAR : search :=
  {| state := Informed.state;
     pending := Informed.pending;
     grid_of := Informed.grid;
     count_of := Informed.visited_nodes_count;
     init := Informed.astar_init;
     body := Informed.astar_body;
     expanding := Informed.expanding Informed.f_score |}.

Definition bfs : nat → list signal → Cells → Ref → Ref → option (result * Cells) :=
  run BFS.
Definition dfs : nat → list signal → Cells → Ref → Ref → option (result * Cells) :=
  run DFS.
Definition dijkstra : nat → list signal → Cells → Ref → Ref → option (result * Cells) :=
  run DIJKSTRA.
Definition astar : nat → list signal → Cells → Ref → Ref → option (result * Cells) :=
  run ASTAR.

(** The algorithms of the session's drop-down menu. *)
Definition algorithms : list search := [BFS; DFS; DIJKSTRA; ASTAR].

(** ** main.py: how a run is prepared *)

(** What the session does before it calls a search: the grid is built
    ([PathfindingVisualizer.__init__]), the clicks set the start, the end and
    the barriers ([set_start_node], [set_end_node], [make_barrier]), and the
    start button runs [clear_path()] and [update_all_neighbors()]
    (main.py, lines 222-226). *)
Definition prepare (rows width : Z) (start end_ : Ref) (barriers : list Ref)
  : option Cells :=
  G ← Grid.init rows width;
  let g := modify Node.make_start start (Grid.grid_nodes G) in
  let g := modify Node.make_end end_ g in
  let g := foldr (modify Node.make_barrier) g barriers in
  Grid.update_all_neighbors_cells
    (Grid.clear_path_nodes_cells g (Some start) (Some end_)).


(** ** main.py: the session

    [PathfindingVisualizer] (lines 38-101) and the main loop (lines 125-341).
    Left out: the drawing, the clock, [last_time_taken] (a difference of
    [time.time()] values) and [status_message]; the loop writes them and
    only the display reads them.  [self.start] and [self.end] hold a node of
    the current grid or [None]: [reset_grid], the only place where the grid
    is replaced, sets both to [None]; so the identity of nodes that [==] and
    [!=] compare ([Node] defines no [__eq__]) is the equality of references.
    A [Node] is always truthy: [if self.start] tests for [None]. *)

Definition GRID_WIDTH : Z := 600.
Definition TOTAL_HEIGHT : Z := GRID_WIDTH.

Module Visualizer.

Record t : Type := mk {
  rows : Z;
  grid_width : Z;
  grid_obj : Grid.t;
  start : option Ref;
  end_ : option Ref;
  selected_algorithm : String.string;
  last_visited_count : Z;
  last_path_length : Z;
  paused : bool
}.

(** [__init__(rows, grid_width)] (lines 43-54) *)
Definition init (rows grid_width : Z) : option t :=
  G ← Grid.init rows grid_width;
  Some {| rows := rows; grid_width := grid_width; grid_obj := G;
          start := None; end_ := None;
          selected_algorithm := "A*"%string;
          last_visited_count := 0; last_path_length := 0;
          paused := false |}.

(** [reset_stats] (lines 69-75) *)
Definition reset_stats (self : t) : t :=
  {| rows := rows self; grid_width := grid_width self; grid_obj := grid_obj self;
     start := start self; end_ := end_ self;
     selected_algorithm := selected_algorithm self;
     last_visited_count := 0; last_path_length := 0;
     paused := false |}.

(** [reset_grid] (lines 56-61) *)
Definition reset_grid (self : t) : option t :=
  G ← Grid.init (rows self) (grid_width self);
  Some (reset_stats
          {| rows := rows self; grid_width := grid_width self; grid_obj := G;
             start := None; end_ := None;
             selected_algorithm := selected_algorithm self;
             last_visited_count := last_visited_count self;
             last_path_length := last_path_length self;
             paused := paused self |}).

(** The nodes are mutated in place: the grid object stays, its store changes. *)
Definition with_cells (g : Cells) (self : t) : t :=
  {| rows := rows self; grid_width := grid_width self;
     grid_obj := {| Grid.rows := Grid.rows (grid_obj self);
                    Grid.width := Grid.width (grid_obj self);
                    Grid.gap := Grid.gap (grid_obj self);
                    Grid.grid_nodes := g |};
     start := start self; end_ := end_ self;
     selected_algorithm := selected_algorithm self;
     last_visited_count := last_visited_count self;
     last_path_length := last_path_length self;
     paused := paused self |}.

Definition cells (self : t) : Cells := Grid.grid_nodes (grid_obj self).

Definition with_start (s : option Ref) (self : t) : t :=
  {| rows := rows self; grid_width := grid_width self; grid_obj := grid_obj self;
     start := s; end_ := end_ self;
     selected_algorithm := selected_algorithm self;
     last_visited_count := last_visited_count self;
     last_path_length := last_path_length self;
     paused := paused self |}.

Definition with_end (e : option Ref) (self : t) : t :=
  {| rows := rows self; grid_width := grid_width self; grid_obj := grid_obj self;
     start := start self; end_ := e;
     selected_algorithm := selected_algorithm self;
     last_visited_count := last_visited_count self;
     last_path_length := last_path_length self;
     paused := paused self |}.

(** [clear_path] (lines 63-67) *)
Definition clear_path (self : t) : t :=
  reset_stats
    match start self, end_ self with
    | Some s, Some e =>
        with_cells (Grid.clear_path_nodes_cells (cells self) (Some s) (Some e)) self
    | _, _ => self
    end.

(** [set_start_node(node)] (lines 77-82) *)
Definition set_start_node (node : Ref) (self : t) : t :=
  let g := match start self with
           | Some s => modify Node.reset s (cells self)
           | None => cells self
           end in
  with_start (Some node) (with_cells (modify Node.make_start node g) self).

(** [set_end_node(node)] (lines 84-89) *)
Definition set_end_node (node : Ref) (self : t) : t :=
  let g := match end_ self with
           | Some e => modify Node.reset e (cells self)
           | None => cells self
           end in
  with_end (Some node) (with_cells (modify Node.make_end node g) self).

End Visualizer.

(** The events of the main loop: what the loop reads of a pygame event is
    its [type] and, of an event of the GUI, its [ui_element] and [text]. *)
Inductive element : Type :=
  | algo_dropdown | start_button | clear_button | clear_all_button
  | pause_button | speed_slider | other_element.

Inductive event_type : Type :=
  | QUIT | UI_DROP_DOWN_MENU_CHANGED | UI_HORIZONTAL_SLIDER_MOVED
  | UI_BUTTON_PRESSED | MOUSEBUTTONDOWN | OTHER_EVENT.

#[global] Instance element_eq_dec : EqDecision element.
Proof. solve_decision. Defined.
#[global] Instance event_type_eq_dec : EqDecision event_type.
Proof. solve_decision. Defined.

Record event : Type := Event {
  type : event_type;
  ui_element : element;
  text : String.string
}.

(** What one turn of [while run] reads from outside: the events of
    [pygame.event.get()], the mouse position, the three mouse buttons, and
    [quits], the signals the pause block of a search started in this turn
    would see. *)
Record input : Type := Input {
  events : list event;
  mouse_pos : Z * Z;
  pressed : bool * bool * bool;
  quits : list signal
}.

(** The locals of [main]: the visualizer, [run], and [event], the variable
    of the [for] loop, which the mouse block below the loop reads
    (lines 297, 308); it is unbound until the first event arrives. *)
Record main_state : Type := MainState {
  vis : Visualizer.t;
  running : bool;
  last_event : option event
}.

(** The [if ... elif] chain of lines 241-248; no branch for another name. *)
Definition selected (name : String.string) : option search :=
  if String.eqb name "BFS"%string then Some BFS
  else if String.eqb name "DFS"%string then Some DFS
  else if String.eqb name "Dijkstra"%string then Some DIJKSTRA
  else if String.eqb name "A*"%string then Some ASTAR
  else None.

(** The start button (lines 221-272).  The search is handed [paused]; the
    flag is what its pause block tests, and the block only sees the signals
    when the flag is set. *)
Definition press_start (fuel : nat) (sig : list signal) (v : Visualizer.t)
  : option Visualizer.t :=
  match Visualizer.start v, Visualizer.end_ v with
  | Some s, Some e =>
      let v1 := Visualizer.clear_path v in
      g ← Grid.update_all_neighbors_cells (Visualizer.cells v1);
      let v2 := Visualizer.with_cells g v1 in
      match selected (Visualizer.selected_algorithm v2) with
      | Some A =>
          '(r, g') ← run A fuel (if Visualizer.paused v2 then sig else []) g s e;
          let v3 := Visualizer.with_cells g' v2 in
          Some {| Visualizer.rows := Visualizer.rows v3;
                  Visualizer.grid_width := Visualizer.grid_width v3;
                  Visualizer.grid_obj := Visualizer.grid_obj v3;
                  Visualizer.start := Visualizer.start v3;
                  Visualizer.end_ := Visualizer.end_ v3;
                  Visualizer.selected_algorithm := Visualizer.selected_algorithm v3;
                  Visualizer.last_visited_count := visited_count r;
                  Visualizer.last_path_length := path_length r;
                  Visualizer.paused := Visualizer.paused v3 |}
      | None => Some v2
      end
  | _, _ => Some v
  end.

Definition with_selected (name : String.string) (v : Visualizer.t) : Visualizer.t :=
  {| Visualizer.rows := Visualizer.rows v;
     Visualizer.grid_width := Visualizer.grid_width v;
     Visualizer.grid_obj := Visualizer.grid_obj v;
     Visualizer.start := Visualizer.start v;
     Visualizer.end_ := Visualizer.end_ v;
     Visualizer.selected_algorithm := name;
     Visualizer.last_visited_count := Visualizer.last_visited_count v;
     Visualizer.last_path_length := Visualizer.last_path_length v;
     Visualizer.paused := Visualizer.paused v |}.

Definition toggle_pause (v : Visualizer.t) : Visualizer.t :=
  {| Visualizer.rows := Visualizer.rows v;
     Visualizer.grid_width := Visualizer.grid_width v;
     Visualizer.grid_obj := Visualizer.grid_obj v;
     Visualizer.start := Visualizer.start v;
     Visualizer.end_ := Visualizer.end_ v;
     Visualizer.selected_algorithm := Visualizer.selected_algorithm v;
     Visualizer.last_visited_count := Visualizer.last_visited_count v;
     Visualizer.last_path_length := Visualizer.last_path_length v;
     Visualizer.paused := negb (Visualizer.paused v) |}.

(** The body of [for event in pygame.event.get()] (lines 207-292). *)
Definition handle_event (fuel : nat) (sig : list signal) (st : main_state)
    (e : event) : option main_state :=
  let run1 := if bool_decide (type e = QUIT) then false else running st in
  let v1 := if bool_decide (type e = UI_DROP_DOWN_MENU_CHANGED)
            then if bool_decide (ui_element e = algo_dropdown)
                 then with_selected (text e) (vis st) else vis st
            else vis st in
  v2 ← (if bool_decide (type e = UI_BUTTON_PRESSED) then
          match ui_element e with
          | start_button => press_start fuel sig v1
          | clear_button => Some (Visualizer.clear_path v1)
          | clear_all_button => Visualizer.reset_grid v1
          | pause_button => Some (toggle_pause v1)
          | _ => Some v1
          end
        else Some v1);
  Some {| vis := v2; running := run1; last_event := Some e |}.

(** [pygame.mouse.get_pressed()[i] and event.type == pygame.MOUSEBUTTONDOWN]:
    the name [event] is looked up only when the button is down. *)
Definition button_down (button : bool) (ev : option event) : option bool :=
  if button then e ← ev; Some (bool_decide (type e = MOUSEBUTTONDOWN))
  else Some false.

Definition in_rows (ROWS : Z) (rc : Z * Z) : bool :=
  bool_decide (0 ≤ rc.1 < ROWS) && bool_decide (0 ≤ rc.2 < ROWS).

(** Lines 298-307. *)
Definition left_click (ROWS : Z) (pos : Z * Z) (v : Visualizer.t)
  : option Visualizer.t :=
  rc ← Grid.get_clicked_pos (Visualizer.grid_obj v) pos;
  if in_rows ROWS rc then
    '(node, _) ← Grid.get_node (Visualizer.grid_obj v) rc.1 rc.2;
    if bool_decide (Visualizer.start v = None) && bool_decide (Some node ≠ Visualizer.end_ v)
    then Some (Visualizer.set_start_node node v)
    else if bool_decide (Visualizer.end_ v = None) && bool_decide (Some node ≠ Visualizer.start v)
    then Some (Visualizer.set_end_node node v)
    else if bool_decide (Some node ≠ Visualizer.start v) && bool_decide (Some node ≠ Visualizer.end_ v)
    then Some (Visualizer.with_cells (modify Node.make_barrier node (Visualizer.cells v)) v)
    else Some v
  else Some v.

(** Lines 309-316. *)
Definition right_click (ROWS : Z) (pos : Z * Z) (v : Visualizer.t)
  : option Visualizer.t :=
  rc ← Grid.get_clicked_pos (Visualizer.grid_obj v) pos;
  if in_rows ROWS rc then
    '(node, _) ← Grid.get_node (Visualizer.grid_obj v) rc.1 rc.2;
    let v1 := Visualizer.with_cells (modify Node.reset node (Visualizer.cells v)) v in
    if bool_decide (Some node = Visualizer.start v1)
    then Some (Visualizer.with_start None v1)
    else if bool_decide (Some node = Visualizer.end_ v1)
    then Some (Visualizer.with_end None v1)
    else Some v1
  else Some v.

(** Lines 319-331. *)
Definition drag (ROWS : Z) (pos : Z * Z) (buttons : bool * bool * bool)
    (v : Visualizer.t) : option Visualizer.t :=
  rc ← Grid.get_clicked_pos (Visualizer.grid_obj v) pos;
  if in_rows ROWS rc then
    '(node, nd) ← Grid.get_node (Visualizer.grid_obj v) rc.1 rc.2;
    if buttons.1.1 then
      if bool_decide (Some node ≠ Visualizer.start v)
         && bool_decide (Some node ≠ Visualizer.end_ v)
         && negb (Node.is_barrier nd)
      then Some (Visualizer.with_cells
                   (modify Node.make_barrier node (Visualizer.cells v)) v)
      else Some v
    else if buttons.2 then
      if bool_decide (Some node ≠ Visualizer.start v)
         && bool_decide (Some node ≠ Visualizer.end_ v)
      then Some (Visualizer.with_cells (modify Node.reset node (Visualizer.cells v)) v)
      else Some v
    else Some v
  else Some v.

(** The mouse block (lines 295-331); it stands below the [for] loop and runs
    once a turn. *)
Definition mouse (ROWS : Z) (pos : Z * Z) (buttons : bool * bool * bool)
    (ev : option event) (v : Visualizer.t) : option Visualizer.t :=
  if bool_decide (0 ≤ pos.1 < GRID_WIDTH) && bool_decide (0 ≤ pos.2 < TOTAL_HEIGHT)
  then
    down1 ← button_down buttons.1.1 ev;
    v1 ← (if down1 : bool then left_click ROWS pos v
          else
            down3 ← button_down buttons.2 ev;
            if down3 : bool then right_click ROWS pos v else Some v);
    drag ROWS pos buttons v1
  else Some v.

(** One turn of [while run] (lines 202-339). *)
Definition frame (fuel : nat) (ROWS : Z) (i : input) (st : main_state)
  : option main_state :=
  st1 ← foldM (handle_event fuel (quits i)) st (events i);
  v ← mouse ROWS (mouse_pos i) (pressed i) (last_event st1) (vis st1);
  Some {| vis := v; running := running st1; last_event := last_event st1 |}.

Fixpoint main_loop (fuel : nat) (ROWS : Z) (inputs : list input) (st : main_state)
  : option main_state :=
  if running st then
    match inputs with
    | [] => Some st
    | i :: rest => st' ← frame fuel ROWS i st; main_loop fuel ROWS rest st'
    end
  else Some st.

(** [main(win, width)] (lines 125-341) under the global [ROWS], on the turns
    [inputs]: the state when the loop ends, or when the inputs are used up. *)
Definition main (fuel : nat) (ROWS width : Z) (inputs : list input)
  : option main_state :=
  v ← Visualizer.init ROWS width;
  main_loop fuel ROWS inputs {| vis := v; running := true; last_event := None |}.
(** ** Notions the statements use *)

(** *** Runs *)

Section Runs.
Context {S : Type}.
Variable pending : S → bool.
Variable body : S → option (outcome S).

(** The states a run goes through: [reaches s s'] when some number of
    iterations lead from [s] to [s']. *)
Inductive reaches (s : S) : S → Prop :=
  | reaches_here : reaches s s
  | reaches_step s' s'' :
      reaches s s' → pending s' = true → body s' = Some (Continue s'') →
      reaches s s''.

(** The run under [sched] ends in the [return] of the pause block. *)
Fixpoint cancelled (fuel : nat) (sched : list signal) (s : S) : bool :=
  if pending s then
    match fuel with
    | O => false
    | Datatypes.S fuel' =>
        match sched with
        | Quit :: _ => true
        | _ =>
            match body s with
            | Some (Continue s') => cancelled fuel' (tail sched) s'
            | _ => false
            end
        end
    end
  else false.

(** The state after [k] full iterations of the loop from [s], if the loop
    makes that many: each one finds the loop test true and goes on. *)
Fixpoint iterations (k : nat) (s : S) : option S :=
  match k with
  | O => Some s
  | Datatypes.S k' =>
      if pending s then
        match body s with
        | Some (Continue s') => iterations k' s'
        | _ => None
        end
      else None
  end.

(** The cells a run expands, in order. *)
Fixpoint expansions (expanding : S → option Ref) (fuel : nat)
    (sched : list signal) (s : S) : list Ref :=
  if pending s then
    match fuel with
    | O => []
    | Datatypes.S fuel' =>
        match sched with
        | Quit :: _ => []
        | _ =>
            match body s with
            | Some (Continue s') =>
                option_list (expanding s) ++ expansions expanding fuel' (tail sched) s'
            | _ => []
            end
        end
    end
  else [].
End Runs.

(** How many of the cells of [l] are neither [start] nor [end]. *)
Definition counted (start end_ : Ref) (l : list Ref) : Z :=
  Z.of_nat (length (filter (λ c, c ≠ start ∧ c ≠ end_) l)).

Definition run_cancelled (A : search) (fuel : nat) (sched : list signal)
    (grid : Cells) (start end_ : Ref) : bool :=
  in_grid grid start && in_grid grid end_ &&
  match init A grid start end_ with
  | Some s => cancelled (pending A) (body A fuel start end_) fuel sched s
  | None => false
  end.

(** The pause block of iteration [k] (counted from 0) is the first to see
    the quit signal. *)
Definition quit_at (sched : list signal) (k : nat) : Prop :=
  take k sched = replicate k Proceed ∧ sched !! k = Some Quit.

(** The run from [s0] is cancelled in its iteration [k], in the state [sk]
    that the [k] iterations before have left: the loop test still holds
    there. *)
Definition cancelled_at (A : search) (fuel : nat) (sched : list signal)
    (grid : Cells) (start end_ : Ref) (k : nat) (s0 sk : state A) : Prop :=
  in_grid grid start = true ∧ in_grid grid end_ = true ∧
  init A grid start end_ = Some s0 ∧
  quit_at sched k ∧ (k < fuel)%nat ∧
  iterations (pending A) (body A fuel start end_) k s0 = Some sk ∧
  pending A sk = true.

Definition run_expansions (A : search) (fuel : nat) (sched : list signal)
    (grid : Cells) (start end_ : Ref) : list Ref :=
  match init A grid start end_ with
  | Some s => expansions (pending A) (body A fuel start end_)
                (expanding A end_) fuel sched s
  | None => []
  end.


(** A store is a square grid of side [n] when the node at (i, j) knows its
    place: what [make_grid] builds, whatever the colours and the neighbour
    lists have become since. *)
Definition in_bounds (n : Z) (p : Ref) : bool :=
  bool_decide (0 ≤ p.1 < n ∧ 0 ≤ p.2 < n).

Definition square (n : Z) (g : Cells) : Prop :=
  (∀ p, is_Some (get g p) ↔ in_bounds n p) ∧
  (∀ p nd, get g p = Some nd →
     Node.row nd = p.1 ∧ Node.col nd = p.2 ∧ Node.total_rows nd = n).

Definition barrier_at (g : Cells) (p : Ref) : bool :=
  bool_decide (color_at g p = Some BLACK).

(** The spec's [neighborsOf]: down, up, right, left, kept when in bounds and
    not a barrier. *)
Definition adjacent (p : Ref) : list Ref :=
  [(p.1 + 1, p.2); (p.1 - 1, p.2); (p.1, p.2 + 1); (p.1, p.2 - 1)].

Definition neighborsOf_spec (n : Z) (g : Cells) (p : Ref) : list Ref :=
  List.filter (λ q, in_bounds n q && negb (barrier_at g q)) (adjacent p).

(** Two stores that differ in the neighbour lists only. *)
Definition same_frame (g g' : Cells) : Prop :=
  ∀ p, Node.set_neighbors [] <$> get g' p = Node.set_neighbors [] <$> get g p.

(** The colours [clear_path_nodes] leaves alone. *)
Definition protected (c : Color) : Prop := c = ORANGE ∨ c = TURQUOISE ∨ c = BLACK.

(** A store is refreshed when it is a square grid whose neighbour lists are
    the ones [update_all_neighbors] computes for its barriers: what the
    start button hands to a search. *)
Definition refreshed (n : Z) (g : Cells) : Prop :=
  square n g ∧
  ∀ p, in_bounds n p → neighbors_at g p = Some (neighborsOf_spec n g p).

(** The four searches run without interruption on the grid the session
    prepares ([ROWS = 50], [GRID_WIDTH = 600]). *)
Definition run_all (fuel : nat) (rows width : Z) (start end_ : Ref)
    (barriers : list Ref) : option (result * result * result * result) :=
  g ← prepare rows width start end_ barriers;
  b ← bfs fuel [] g start end_;
  d ← dfs fuel [] g start end_;
  j ← dijkstra fuel [] g start end_;
  a ← astar fuel [] g start end_;
  Some (b.1, d.1, j.1, a.1).

(** What the counter of a search does in one iteration: it grows by one when
    the iteration expands a cell that is neither [start] nor [end], and only
    then; a search that returns from the loop body returns "found" and the
    counter; whether an iteration goes on does not depend on the fuel. *)
Definition counting (A : search) : Prop :=
  (∀ g start end_ s, init A g start end_ = Some s → count_of A s = 0) ∧
  (∀ fuel start end_ s s',
     body A fuel start end_ s = Some (Continue s') →
     count_of A s' =
     count_of A s + counted start end_ (option_list (expanding A end_ s))) ∧
  (∀ fuel start end_ s r g,
     body A fuel start end_ s = Some (Return r g) →
     found r = true ∧ visited_count r = count_of A s) ∧
  (∀ fuel fuel' start end_ s s',
     body A fuel start end_ s = Some (Continue s') →
     body A fuel' start end_ s = Some (Continue s')).


(** *** The relaxation rule, in the spec's words

    For neighbour [n] of the expanded cell [c]: if [g[c] + 1 < g[n]], update
    [g[n]], set the predecessor of [n] to [c], recompute [f[n]] (A* only, [h]
    being the heuristic of [n]), and if [n] is not already pending push it
    with the next sequence number and tag it Frontier (unless it is [end]);
    if it is pending leave the heap as it is.  Otherwise change nothing. *)
Definition relaxed (is_astar : bool) (c n end_ : Ref) (gc gn : score) (h : Z)
    (s s' : Informed.state) : Prop :=
  match score_succ gc with
  | Num t =>
      if score_lt (Num t) gn then
        Informed.g_score s' = <[n := Num t]> (Informed.g_score s) ∧
        Informed.came_from s' = <[n := c]> (Informed.came_from s) ∧
        Informed.f_score s' =
          (if is_astar then <[n := Num (t + h)]> (Informed.f_score s)
           else Informed.f_score s) ∧
        Informed.visited_nodes_count s' = Informed.visited_nodes_count s ∧
        if bool_decide (n ∈ Informed.open_set_hash s) then
          Informed.open_set s' = Informed.open_set s ∧
          Informed.count s' = Informed.count s ∧
          Informed.open_set_hash s' = Informed.open_set_hash s ∧
          Informed.grid s' = Informed.grid s
        else
          Informed.count s' = Informed.count s + 1 ∧
          Informed.open_set s' =
            heappush (Informed.open_set s)
              ((if is_astar then t + h else t), Informed.count s + 1, n) ∧
          Informed.open_set_hash s' = {[n]} ∪ Informed.open_set_hash s ∧
          Informed.grid s' =
            (if bool_decide (n ≠ end_)
             then modify Node.make_open n (Informed.grid s) else Informed.grid s)
      else s' = s
  | Infty => s' = s
  end.

(** The bookkeeping of the heap: every sequence number in it is at most
    [count], no node has two entries, and [open_set_hash] is the set of the
    nodes that have one. *)
Definition heap_ok (s : Informed.state) : Prop :=
  (∀ e, e ∈ Informed.open_set s → e.1.2 ≤ Informed.count s) ∧
  NoDup (snd <$> Informed.open_set s) ∧
  (∀ p, p ∈ Informed.open_set_hash s ↔ p ∈ (snd <$> Informed.open_set s)).

(** *** What a search may do to the store

    [repaints g g']: [g'] is [g] with some nodes repainted, no node turned
    into a barrier or out of one, and none turned orange. *)
Definition calm (c c' : Color) : Prop :=
  (c = BLACK ↔ c' = BLACK) ∧ (c' = ORANGE → c = ORANGE).

Definition repaints (g g' : Cells) : Prop :=
  ∀ p, match get g p, get g' p with
       | Some n, Some n' =>
           Node.set_color WHITE n' = Node.set_color WHITE n ∧
           calm (Node.color n) (Node.color n')
       | None, None => True
       | _, _ => False
       end.

(** What holds between the iterations of [bfs] and of [dfs] run on [g]. *)
Definition uninformed_inv (g : Cells) (start end_ : Ref) (s : Uninformed.state)
  : Prop :=
  repaints g (Uninformed.grid s) ∧
  color_at (Uninformed.grid s) start = color_at g start ∧
  color_at (Uninformed.grid s) end_ = color_at g end_ ∧
  start ∈ Uninformed.visited s ∧
  (∀ p, p ∈ Uninformed.frontier s → p = start ∨ barrier_at g p = false) ∧
  (∀ k v, Uninformed.came_from s !! k = Some v → v = start ∨ barrier_at g v = false).

(** The same for [dijkstra] and [astar]. *)
Definition informed_inv (g : Cells) (start end_ : Ref) (s : Informed.state)
  : Prop :=
  repaints g (Informed.grid s) ∧
  color_at (Informed.grid s) start = color_at g start ∧
  color_at (Informed.grid s) end_ = color_at g end_ ∧
  Informed.g_score s !! start = Some (Num 0) ∧
  (∀ p z, Informed.g_score s !! p = Some (Num z) → 0 ≤ z) ∧
  (∀ e, e ∈ Informed.open_set s → e.2 = start ∨ barrier_at g e.2 = false) ∧
  (∀ k v, Informed.came_from s !! k = Some v → v = start ∨ barrier_at g v = false).

(** *** What a search reads of the store

    Of a node a search reads the neighbour list and the position, and of its
    colour only whether it is black ([is_barrier]) and whether it is orange
    ([is_start]). *)
Definition view (nd : Node.t) : Node.t * bool * bool :=
  (Node.set_color WHITE nd, Node.is_barrier nd, Node.is_start nd).

Definition same_view (g1 g2 : Cells) : Prop :=
  ∀ p, view <$> get g1 p = view <$> get g2 p.

(** Two states of [bfs] or [dfs], or of [dijkstra] or [astar], that differ
    only in stores with the same view. *)
Definition uninformed_sim (s1 s2 : Uninformed.state) : Prop :=
  same_view (Uninformed.grid s1) (Uninformed.grid s2) ∧
  Uninformed.frontier s1 = Uninformed.frontier s2 ∧
  Uninformed.visited s1 = Uninformed.visited s2 ∧
  Uninformed.came_from s1 = Uninformed.came_from s2 ∧
  Uninformed.visited_nodes_count s1 = Uninformed.visited_nodes_count s2.

Definition informed_sim (s1 s2 : Informed.state) : Prop :=
  same_view (Informed.grid s1) (Informed.grid s2) ∧
  Informed.g_score s1 = Informed.g_score s2 ∧
  Informed.f_score s1 = Informed.f_score s2 ∧
  Informed.count s1 = Informed.count s2 ∧
  Informed.open_set s1 = Informed.open_set s2 ∧
  Informed.came_from s1 = Informed.came_from s2 ∧
  Informed.open_set_hash s1 = Informed.open_set_hash s2 ∧
  Informed.visited_nodes_count s1 = Informed.visited_nodes_count s2.

(** *** A small session

    A 5 x 5 grid with barriers at (1,1), (3,0) and (3,1), the start at (0,1)
    and the end at (4,0), prepared as the start button does. *)
Definition demo_start : Ref := (0, 1).
Definition demo_end : Ref := (4, 0).
Definition demo_grid : Cells :=
  default [] (prepare 5 600 demo_start demo_end [(1, 1); (3, 0); (3, 1)]).

(** The start is the only orange cell of the store. *)
Definition only_start_orange (g : Cells) (start : Ref) : bool :=
  forallb (λ p, implb (bool_decide (color_at g p = Some ORANGE))
                      (bool_decide (p = start)))
          (all_refs g).

(** *** Termination

    The nodes of a store, as a set; a store is [closed] when the neighbour
    lists hold nodes of the store only (what [update_all_neighbors] leaves);
    [chain cf p k]: following the predecessors [cf] from [p] stops after [k]
    steps. *)
Definition cells (g : Cells) : gset Ref := list_to_set (all_refs g).

Definition cell_count (g : Cells) : nat := size (cells g).

Definition closed (g : Cells) : Prop :=
  ∀ p nd n, get g p = Some nd → n ∈ Node.neighbors nd → in_grid g n = true.

Inductive chain (cf : gmap Ref Ref) : Ref → nat → Prop :=
  | chain_end p : cf !! p = None → chain cf p 0
  | chain_step p p' k : cf !! p = Some p' → chain cf p' k → chain cf p (S k).

(** What makes [bfs] and [dfs] on [g] terminate: the discovered nodes are
    nodes of [g], the frontier and the predecessor map stay within them, and
    every discovered node has a chain of predecessors shorter than their
    number. *)
Definition uninformed_term (g : Cells) (s : Uninformed.state) : Prop :=
  Uninformed.visited s ⊆ cells g ∧
  (∀ p, p ∈ Uninformed.frontier s → p ∈ Uninformed.visited s) ∧
  (∀ p v, Uninformed.came_from s !! p = Some v →
          p ∈ Uninformed.visited s ∧ v ∈ Uninformed.visited s) ∧
  (∀ p, p ∈ Uninformed.visited s →
        ∃ k, (k < size (Uninformed.visited s))%nat ∧ chain (Uninformed.came_from s) p k).

Definition uninformed_measure (g : Cells) (s : Uninformed.state) : nat :=
  (cell_count g - size (Uninformed.visited s)) + length (Uninformed.frontier s).

(** What makes [dijkstra] and [astar] on [g] terminate.  A finite cost is
    smaller than the number of nodes that have one ([F] below), so there are
    at most [cell_count g] values a cost can take; a cost only decreases, and
    a push follows a decrease: the sum of the [weight]s of the costs plus the
    length of the heap decreases with every iteration.  A predecessor has a
    smaller cost than its successor, so the chains of predecessors end. *)
Definition weight (N : nat) (o : option score) : nat :=
  match o with
  | Some (Num z) => Z.to_nat z
  | _ => N
  end.

Definition potential (g : Cells) (s : Informed.state) : nat :=
  sum_list_with (λ p, weight (cell_count g) (Informed.g_score s !! p))
    (elements (cells g))
  + length (Informed.open_set s).

Definition informed_term (best : Informed.state → gmap Ref score) (g : Cells)
    (s : Informed.state) : Prop :=
  (∀ p, in_grid g p = true →
        is_Some (Informed.g_score s !! p) ∧ is_Some (best s !! p)) ∧
  (∀ e, e ∈ Informed.open_set s → in_grid g e.2 = true) ∧
  (∃ F : gset Ref,
     F ⊆ cells g ∧
     (∀ p, p ∈ F ↔ ∃ z, Informed.g_score s !! p = Some (Num z)) ∧
     (∀ p z, Informed.g_score s !! p = Some (Num z) → z < Z.of_nat (size F))) ∧
  (∀ p c, Informed.came_from s !! p = Some c →
          in_grid g c = true ∧
          ∃ a b, Informed.g_score s !! c = Some (Num a) ∧
                 Informed.g_score s !! p = Some (Num b) ∧ a < b).

(** Fuel that suffices for any of the four searches on [g]. *)
Definition enough_fuel (g : Cells) : nat := cell_count g * cell_count g + 2.

(** The frontier of [bfs] and [dfs] holds discovered nodes, each once. *)
Definition frontier_ok (s : Uninformed.state) : Prop :=
  NoDup (Uninformed.frontier s) ∧
  ∀ p, p ∈ Uninformed.frontier s → p ∈ Uninformed.visited s.

(** *** Expanding a cell once

    [score_add h a] is [a + h].  [best_of] picks the dictionary a search
    compares the popped priority with; [heuristic g end_ p] is what [astar]
    adds to the cost of [p], [h(p.get_pos(), end.get_pos())], read in the
    store [g]. *)
Definition score_add (h : Z) (a : score) : score :=
  match a with Num z => Num (z + h) | Infty => Infty end.

Definition best_of (is_astar : bool) (s : Informed.state) : gmap Ref score :=
  if is_astar then Informed.f_score s else Informed.g_score s.

Definition heuristic (g : Cells) (end_ p : Ref) : Z :=
  match get g p, get g end_ with
  | Some nd, Some e_nd => manhattan (Node.get_pos nd) (Node.get_pos e_nd)
  | _, _ => 0
  end.

(** One turn of [for neighbor in current.neighbors], for the neighbour [n]
    of [c]: a node that is a barrier is passed over, any other is relaxed by
    the rule, with the heuristic of [n] in [astar]. *)
Definition relax_step (is_astar : bool) (c end_ n : Ref)
    (s s' : Informed.state) : Prop :=
  ∃ nd, get (Informed.grid s) n = Some nd ∧
    if Node.is_barrier nd then s' = s
    else ∃ gc gn,
      Informed.g_score s !! c = Some gc ∧ Informed.g_score s !! n = Some gn ∧
      relaxed is_astar c n end_ gc gn (heuristic (Informed.grid s) end_ n) s s'.

(** The whole [for] loop over the list [ns], in its order. *)
Fixpoint relax_all (is_astar : bool) (c end_ : Ref) (ns : list Ref)
    (s s' : Informed.state) : Prop :=
  match ns with
  | [] => s' = s
  | n :: ns' =>
      ∃ s1, relax_step is_astar c end_ n s s1 ∧ relax_all is_astar c end_ ns' s1 s'
  end.

(** The relaxation of the two searches, by name. *)
Definition relax_of (is_astar : bool)
  : Ref → Ref → Informed.state → Ref → option Informed.state :=
  if is_astar then Informed.astar_relax else Informed.dijkstra_relax.

(** An iteration of [dijkstra] or [astar] that goes on to the next: it pops
    the least entry; an entry whose priority is larger than the best score of
    its cell is dropped and nothing else happens; otherwise the cell is not
    [end], every node of its neighbour list is passed through the relaxation,
    in the order of the list, and the cell is closed. *)
Definition iteration_spec (is_astar : bool) (start end_ : Ref)
    (s s' : Informed.state) : Prop :=
  ∃ k t c h b,
    Informed.open_set s = (k, t, c) :: h ∧
    c ∈ Informed.open_set_hash s ∧
    best_of is_astar s !! c = Some b ∧
    if score_lt b (Num k) then s' = Informed.popped h c s
    else c ≠ end_ ∧
         ∃ nd s1, get (Informed.grid s) c = Some nd ∧
                  relax_all is_astar c end_ (Node.neighbors nd)
                    (Informed.popped h c s) s1 ∧
                  s' = Informed.close c start end_ s1.

(** A store is wired when every node knows its place and its neighbour list
    holds adjacent cells only: what [make_grid] and [update_all_neighbors]
    leave. *)
Definition wired (g : Cells) : Prop :=
  ∀ p nd, get g p = Some nd →
    Node.get_pos nd = p ∧ ∀ q, q ∈ Node.neighbors nd → q ∈ adjacent p.

(** The order of the entries of [open_set]: Python's comparison of the
    tuples, which the priority and then the tie-breaker decide. *)
Definition entry_le (a b : entry) : Prop :=
  a.1.1 < b.1.1 ∨ (a.1.1 = b.1.1 ∧ a.1.2 ≤ b.1.2).

(** What makes [dijkstra] and [astar] expand a cell once.  [X] are the cells
    expanded so far and [L] is the priority of the last entry that was not
    stale: the heap is in order and holds no smaller priority; the best score
    of a cell is its cost plus its heuristic [H]; the entry of a cell (other
    than the first entry of [start]) has at least the best score of the cell
    as priority; an expanded cell has no entry, and a best score of at most
    [L]. *)
Definition informed_once (is_astar : bool) (H : Ref → Z) (start : Ref)
    (X : gset Ref) (L : Z) (s : Informed.state) : Prop :=
  heap_ok s ∧
  StronglySorted entry_le (Informed.open_set s) ∧
  (∀ p, best_of is_astar s !! p = (score_add (H p) <$> Informed.g_score s !! p)) ∧
  (∀ e, e ∈ Informed.open_set s →
        L ≤ e.1.1 ∧
        (e.2 = start ∨ ∃ b, best_of is_astar s !! e.2 = Some (Num b) ∧ b ≤ e.1.1)) ∧
  (∀ p, p ∈ X →
        ¬ (p ∈ Informed.open_set_hash s) ∧
        (p = start ∨ ∃ b, best_of is_astar s !! p = Some (Num b) ∧ b ≤ L)).

(** *** The path a search finds

    [climb start cf p l]: following the predecessors [cf] from [p] leads to
    [start] through the cells [l], in this order, none of them [start].
    [linked g c n]: [n] is in the neighbour list of [c].  [traced g t]: the
    list [t] is a path read backwards, every cell being in the neighbour list
    of the next one. *)
Inductive climb (start : Ref) (cf : gmap Ref Ref) : Ref → list Ref → Prop :=
  | climb_end p : cf !! p = Some start → climb start cf p []
  | climb_step p p' l :
      cf !! p = Some p' → p' ≠ start → climb start cf p' l →
      climb start cf p (p' :: l).

Definition linked (g : Cells) (c n : Ref) : Prop :=
  ∃ nd, get g c = Some nd ∧ n ∈ Node.neighbors nd.


(** The predecessors [bfs] and [dfs] record form a tree rooted at [start]
    that spans the discovered cells, along the neighbour lists of [g]. *)
Definition uninformed_tree (g : Cells) (start : Ref) (s : Uninformed.state)
  : Prop :=
  Uninformed.came_from s !! start = None ∧
  (∀ p, p ∈ Uninformed.visited s ↔
        p = start ∨ is_Some (Uninformed.came_from s !! p)) ∧
  (∀ p, p ∈ Uninformed.frontier s → p ∈ Uninformed.visited s) ∧
  (∀ n c, Uninformed.came_from s !! n = Some c →
          c ∈ Uninformed.visited s ∧ linked g c n) ∧
  (∀ p, is_Some (Uninformed.came_from s !! p) →
        ∃ l, climb start (Uninformed.came_from s) p l).

(** The same for [dijkstra] and [astar]: a predecessor has a smaller cost,
    every cell with a cost other than [start] has a predecessor, and the
    cells in the heap have a cost. *)
Definition informed_tree (g : Cells) (start : Ref) (s : Informed.state) : Prop :=
  Informed.came_from s !! start = None ∧
  (∀ p c, Informed.came_from s !! p = Some c →
          (∃ a b, Informed.g_score s !! c = Some (Num a) ∧
                  Informed.g_score s !! p = Some (Num b) ∧ a < b) ∧
          linked g c p) ∧
  (∀ p z, Informed.g_score s !! p = Some (Num z) →
          p = start ∨ is_Some (Informed.came_from s !! p)) ∧
  (∀ e, e ∈ Informed.open_set s →
        ∃ z, Informed.g_score s !! e.2 = Some (Num z)).

(** *** Reachable cells

    [reach g start p k]: [k] steps along the neighbour lists of [g] lead from
    [start] to [p], every cell stepped on being no barrier. *)
Inductive reach (g : Cells) (start : Ref) : Ref → nat → Prop :=
  | reach_start : reach g start start 0
  | reach_step c n k :
      reach g start c k → linked g c n → barrier_at g n = false →
      reach g start n (S k).

(** What [bfs] and [dfs] have covered: the discovered cells are reachable,
    and a discovered cell is in the frontier or all its neighbours that are
    no barriers are discovered too; [end] stays in the frontier. *)
Definition uninformed_cover (g : Cells) (start end_ : Ref) (s : Uninformed.state)
  : Prop :=
  start ∈ Uninformed.visited s ∧
  (∀ p, p ∈ Uninformed.frontier s → p ∈ Uninformed.visited s) ∧
  (∀ p, p ∈ Uninformed.visited s → ∃ k, reach g start p k) ∧
  (∀ c, c ∈ Uninformed.visited s →
        c ∈ Uninformed.frontier s ∨
        ∀ n, linked g c n → barrier_at g n = false → n ∈ Uninformed.visited s) ∧
  (end_ ∈ Uninformed.visited s → end_ ∈ Uninformed.frontier s).

(** While the neighbours of the popped cell [c] are gone through. *)
Definition cover_but (g : Cells) (start end_ c : Ref) (s : Uninformed.state) : Prop :=
  start ∈ Uninformed.visited s ∧
  (∀ p, p ∈ Uninformed.frontier s → p ∈ Uninformed.visited s) ∧
  (∀ p, p ∈ Uninformed.visited s → ∃ k, reach g start p k) ∧
  (∀ v, v ∈ Uninformed.visited s →
        v = c ∨ v ∈ Uninformed.frontier s ∨
        ∀ n, linked g v n → barrier_at g n = false → n ∈ Uninformed.visited s) ∧
  (end_ ∈ Uninformed.visited s → end_ = c ∨ end_ ∈ Uninformed.frontier s) ∧
  c ∈ Uninformed.visited s.

(** *** Shortest paths

    What makes [dijkstra] find a shortest path.  [L] is the priority of the
    entry popped last: an entry of the heap carries the cost of its cell,
    which is [L] or [L + 1]; no cost is larger; a cell with a cost is in the
    heap or its neighbours that are no barriers cost at most one more (the
    cell [ex] that is being expanded apart); the cost of a cell is one more
    than the cost of its predecessor; [end] stays in the heap. *)
Definition dijkstra_levels (g : Cells) (end_ : Ref) (ex : option Ref) (L : Z)
    (s : Informed.state) : Prop :=
  heap_ok s ∧
  StronglySorted entry_le (Informed.open_set s) ∧
  (∀ e, e ∈ Informed.open_set s →
        Informed.g_score s !! e.2 = Some (Num e.1.1) ∧ L ≤ e.1.1) ∧
  (∀ p z, Informed.g_score s !! p = Some (Num z) → z ≤ L + 1) ∧
  (∀ c zc, Informed.g_score s !! c = Some (Num zc) →
        Some c = ex ∨ c ∈ Informed.open_set_hash s ∨
        ∀ n, linked g c n → barrier_at g n = false →
             ∃ zn, Informed.g_score s !! n = Some (Num zn) ∧ zn ≤ zc + 1) ∧
  (∀ p c, Informed.came_from s !! p = Some c →
        ∃ a, Informed.g_score s !! c = Some (Num a) ∧
             Informed.g_score s !! p = Some (Num (a + 1))) ∧
  (∀ z, Informed.g_score s !! end_ = Some (Num z) →
        Some end_ = ex ∨ end_ ∈ Informed.open_set_hash s).

(** The same for [bfs], whose queue holds the discovered cells in the order
    of their depth [D], the number of steps of the path the predecessors
    record: first the cells of depth [m], then those of depth [m + 1]. *)
Definition bfs_levels (g : Cells) (start : Ref) (ex : option Ref)
    (D : gmap Ref Z) (m : Z) (s : Uninformed.state) : Prop :=
  D !! start = Some 0 ∧
  (∀ p, p ∈ Uninformed.visited s ↔ is_Some (D !! p)) ∧
  (∀ n c, Uninformed.came_from s !! n = Some c →
        ∃ a, D !! c = Some a ∧ D !! n = Some (a + 1)) ∧
  (∃ q1 q2, Uninformed.frontier s = q1 ++ q2 ∧
        (∀ p, p ∈ q1 → D !! p = Some m) ∧
        (∀ p, p ∈ q2 → D !! p = Some (m + 1))) ∧
  (∀ p d, D !! p = Some d → d ≤ m + 1) ∧
  (∀ c dc, D !! c = Some dc →
        Some c = ex ∨ c ∈ Uninformed.frontier s ∨
        ∀ n, linked g c n → barrier_at g n = false →
             ∃ dn, D !! n = Some dn ∧ dn ≤ dc + 1).

(** What holds between the iterations of [dijkstra] and of [bfs], put
    together. *)
Definition dijkstra_I (g : Cells) (start end_ : Ref) (s : Informed.state) : Prop :=
  (informed_inv g start end_ s ∧ informed_tree g start s) ∧
  ∃ L, dijkstra_levels g end_ None L s.

Definition bfs_I (g : Cells) (start end_ : Ref) (s : Uninformed.state) : Prop :=
  (uninformed_inv g start end_ s ∧ uninformed_tree g start s) ∧
  ∃ D m, bfs_levels g start None D m s.

(** A second small session: the start at (0,0) is walled in by barriers at
    (0,1) and (1,0); the end is at (4,4). *)
Definition walled_grid : Cells :=
  default [] (prepare 5 600 (0, 0) (4, 4) [(0, 1); (1, 0)]).

(** The index Python reads in a list of length [n] when given [i] between
    [-n] and [n - 1]: a negative index counts from the end. *)
Definition wrap_index (n i : Z) : Z := if bool_decide (i < 0) then i + n else i.

(** *** The colours of a search

    The colours a search paints with, [tints g g']: every node of [g'] has
    the colour it has in [g] or one of these; and a store as the start
    button hands it to a search, [start] orange, [end] turquoise and every
    other node white or black. *)
Definition tint (c : Color) : Prop := c = GREEN ∨ c = RED ∨ c = PURPLE.

Definition tints (g g' : Cells) : Prop :=
  ∀ p, color_at g' p = color_at g p ∨ ∃ c, color_at g' p = Some c ∧ tint c.

Definition clean (g : Cells) (start end_ : Ref) : Prop :=
  color_at g start = Some ORANGE ∧ color_at g end_ = Some TURQUOISE ∧
  ∀ p c, p ≠ start → p ≠ end_ → color_at g p = Some c → c = WHITE ∨ c = BLACK.

(** *** The session

    What holds of the visualizer between the turns of the main loop: the
    grid is the one [Grid(ROWS, width)] built, up to colours and neighbour
    lists; the start node, if there is one, is the one orange node, and the
    end node the one turquoise node. *)
Definition session_ok (ROWS width : Z) (v : Visualizer.t) : Prop :=
  Visualizer.rows v = ROWS ∧ Visualizer.grid_width v = width ∧
  Grid.gap (Visualizer.grid_obj v) = width `div` ROWS ∧
  square ROWS (Visualizer.cells v) ∧
  (∀ p, Visualizer.start v = Some p ↔
        color_at (Visualizer.cells v) p = Some ORANGE) ∧
  (∀ p, Visualizer.end_ v = Some p ↔
        color_at (Visualizer.cells v) p = Some TURQUOISE).

(** The turns in which the mouse block looks up [event]: the mouse is over
    the grid and the left or the right button is down.  [events_first]: no
    such turn comes before the first event has been fetched. *)
Definition needs_event (i : input) : bool :=
  bool_decide (0 ≤ (mouse_pos i).1 < GRID_WIDTH)
  && bool_decide (0 ≤ (mouse_pos i).2 < TOTAL_HEIGHT)
  && ((pressed i).1.1 || (pressed i).2).

Fixpoint events_first (bound : bool) (inputs : list input) : Prop :=
  match inputs with
  | [] => True
  | i :: rest =>
      let bound' := bound || bool_decide (events i ≠ []) in
      (needs_event i = true → bound' = true) ∧ events_first bound' rest
  end.

(** Every node but [start] and [end] is white or black. *)
Definition only_white_or_black (g : Cells) (start end_ : Ref) : bool :=
  forallb (λ p, bool_decide (p = start) || bool_decide (p = end_)
                || bool_decide (color_at g p = Some WHITE)
                || bool_decide (color_at g p = Some BLACK))
          (all_refs g).

(** The grid of the small sessions as [Grid(5, 600)] builds it. *)
Definition demo_Grid : Grid.t :=
  {| Grid.rows := 5; Grid.width := 600; Grid.gap := 120;
     Grid.grid_nodes := Grid.make_grid 5 120 |}.

(** A small run of the main loop with [ROWS = 5]: a left click on the node
    at (0, 1) sets the start, one on (4, 0) the end, one on (1, 1) draws a
    barrier; "Pause" is pressed, then "Start Algorithm" (the menu still
    shows "A*"), and the window is closed. *)
Definition click_at (x y : Z) : input :=
  {| events := [Event MOUSEBUTTONDOWN other_element ""];
     mouse_pos := (x, y); pressed := (true, false, false); quits := [] |}.

Definition press (b : element) : input :=
  {| events := [Event UI_BUTTON_PRESSED b ""];
     mouse_pos := (650, 60); pressed := (false, false, false); quits := [Quit] |}.

Definition demo_setup : list input :=
  [click_at 130 10; click_at 10 490; click_at 130 130; press pause_button].

Definition demo_inputs : list input :=
  demo_setup ++
  [press start_button;
   {| events := [Event QUIT other_element ""]; mouse_pos := (650, 60);
      pressed := (false, false, false); quits := [] |}].
(** * Properties *)

(** ** The store *)

Lemma get_Some (g : Cells) (p : Ref) (nd : Node.t) :
  get g p = Some nd ↔
  0 ≤ p.1 ∧ 0 ≤ p.2 ∧ ∃ rw, g !! Z.to_nat p.1 = Some rw ∧ rw !! Z.to_nat p.2 = Some nd.
Proof.
  unfold get. case_bool_decide as Hp.
  - destruct (g !! Z.to_nat p.1) as [rw|] eqn:Hr; simpl.
    + split; [intros H; destruct Hp; eauto|].
      by intros (_ & _ & rw' & [= <-] & H).
    + split; [done|]. by intros (_ & _ & rw' & [=] & _).
  - split; [done|]. intros (? & ? & _). by destruct Hp.
Qed.

Lemma get_modify_eq (f : Node.t → Node.t) (g : Cells) (p : Ref) :
  get (modify f p g) p = f <$> get g p.
Proof.
  unfold get, modify. case_bool_decide as Hp; [|done].
  rewrite list_lookup_alter_eq.
  destruct (g !! Z.to_nat p.1) as [rw|]; simpl; [|done].
  by rewrite list_lookup_alter_eq.
Qed.

Lemma get_modify_ne (f : Node.t → Node.t) (g : Cells) (p q : Ref) :
  p ≠ q → get (modify f p g) q = get g q.
Proof.
  intros Hne. unfold get, modify.
  case_bool_decide as Hp; [|done]. case_bool_decide as Hq; [|done].
  destruct (decide (Z.to_nat p.1 = Z.to_nat q.1)) as [He|He].
  - rewrite He, list_lookup_alter_eq.
    destruct (g !! Z.to_nat q.1) as [rw|]; simpl; [|done].
    rewrite list_lookup_alter_ne; [done|].
    intros He2. apply Hne. destruct p, q; simpl in *. f_equal; lia.
  - by rewrite list_lookup_alter_ne.
Qed.

Lemma get_modify (f : Node.t → Node.t) (g : Cells) (p q : Ref) :
  get (modify f p g) q = if decide (p = q) then f <$> get g q else get g q.
Proof.
  case_decide as H; [subst; apply get_modify_eq | by apply get_modify_ne].
Qed.

Lemma color_at_modify (c : Color) (g : Cells) (p q : Ref) :
  color_at (modify (Node.set_color c) p g) q =
  if decide (p = q) then (λ _, c) <$> color_at g q else color_at g q.
Proof.
  unfold color_at. rewrite get_modify. case_decide; [|done].
  by destruct (get g q).
Qed.

Lemma neighbors_at_set_color (c : Color) (g : Cells) (p q : Ref) :
  neighbors_at (modify (Node.set_color c) p g) q = neighbors_at g q.
Proof.
  unfold neighbors_at. rewrite get_modify. case_decide; [|done].
  by destruct (get g q).
Qed.

Lemma in_grid_modify (f : Node.t → Node.t) (g : Cells) (p q : Ref) :
  in_grid (modify f p g) q = in_grid g q.
Proof.
  unfold in_grid. apply bool_decide_ext. rewrite get_modify.
  case_decide; [|done]. by rewrite fmap_is_Some.
Qed.

(** ** C9: building a grid *)

Lemma make_grid_lookup (rows gap i j : Z) :
  0 ≤ i < rows → 0 ≤ j < rows →
  get (Grid.make_grid rows gap) (i, j) = Some (Node.init i j gap rows).
Proof.
  intros Hi Hj. apply get_Some. simpl. split_and!; [lia..|].
  unfold Grid.make_grid. eexists. split.
  - rewrite list_lookup_fmap, lookup_seq_lt by lia. done.
  - rewrite list_lookup_fmap, lookup_seq_lt by lia. simpl.
    by rewrite !Z2Nat.id by lia.
Qed.

Lemma make_grid_length (rows gap : Z) :
  length (Grid.make_grid rows gap) = Z.to_nat rows.
Proof. unfold Grid.make_grid. by rewrite length_fmap, length_seq. Qed.

Lemma make_grid_row_length (rows gap : Z) (rw : list Node.t) :
  rw ∈ Grid.make_grid rows gap → length rw = Z.to_nat rows.
Proof.
  unfold Grid.make_grid. intros (i & -> & _)%list_elem_of_fmap.
  by rewrite length_fmap, length_seq.
Qed.

(** The claim as the spec has it fails: a width of 0 is a non-positive
    dimension, and the grid is built all the same. *)
Lemma Grid_init_zero_width_succeeds :
  ¬ (Grid.init 5 0 = None ↔ (5 ≤ 0 ∨ 0 ≤ 0)).
Proof. intros [_ H]. specialize (H (or_intror (Z.le_refl 0))). discriminate H. Qed.

(** Nor is a negative number of rows refused: [range] of it is empty and the
    grid has no rows. *)
Lemma Grid_init_negative_rows_succeeds :
  Grid.grid_nodes <$> Grid.init (-1) 600 = Some [].
Proof. reflexivity. Qed.

(** C9 (amended): [Grid(rows, width)] fails exactly when [rows] is 0, the
    division [width // rows]; with a positive [rows] it builds [rows] rows of
    [rows] nodes, the node at (i, j) white, without neighbours, of size
    [gap = width // rows] and at pixel (j * gap, i * gap); a non-positive
    [width] or a negative [rows] is not refused. *)
Theorem Grid_init_spec (rows width : Z) :
  (Grid.init rows width = None ↔ rows = 0) ∧
  (∀ G, Grid.init rows width = Some G →
     Grid.rows G = rows ∧ Grid.width G = width ∧ Grid.gap G = width `div` rows ∧
     length (Grid.grid_nodes G) = Z.to_nat rows ∧
     (∀ rw, rw ∈ Grid.grid_nodes G → length rw = Z.to_nat rows) ∧
     (∀ i j, 0 ≤ i < rows → 0 ≤ j < rows →
        get (Grid.grid_nodes G) (i, j) =
        Some {| Node.row := i; Node.col := j;
                Node.x := j * (width `div` rows); Node.y := i * (width `div` rows);
                Node.color := WHITE; Node.neighbors := [];
                Node.size := width `div` rows; Node.total_rows := rows |})).
Proof.
  unfold Grid.init. case_bool_decide as H0; split; try done.
  intros G [= <-]. simpl. split_and!; try done.
  - apply make_grid_length.
  - apply make_grid_row_length.
  - intros i j Hi Hj. by rewrite make_grid_lookup.
Qed.

Lemma Grid_init_spec_witness :
  Grid.init 0 600 = None ∧
  ∃ G, Grid.init 50 600 = Some G ∧ Grid.gap G = 12 ∧
       length (Grid.grid_nodes G) = 50%nat ∧
       color_at (Grid.grid_nodes G) (3, 7) = Some WHITE ∧
       Node.x <$> get (Grid.grid_nodes G) (3, 7) = Some 84.
Proof.
  split.
  - by apply (Grid_init_spec 0 600).
  - destruct (Grid.init 50 600) as [G|] eqn:HG.
    + destruct (proj2 (Grid_init_spec 50 600) G HG) as (_ & _ & Hgap & Hlen & _ & Hget).
      exists G. split_and!; [done|done|done|..]; unfold color_at;
        rewrite (Hget 3 7) by lia; reflexivity.
    + exfalso. apply (proj1 (Grid_init_spec 50 600)) in HG. lia.
Defined.

(** ** C5: the neighbour lists *)

Lemma elem_of_all_refs (g : Cells) (p : Ref) :
  p ∈ all_refs g ↔ is_Some (get g p).
Proof.
  unfold all_refs. rewrite list_elem_of_join. split.
  - intros (l & Hp & Hl). apply elem_of_lookup_imap in Hl as (i & rw & -> & Hi).
    unfold row_refs in Hp. apply list_elem_of_fmap in Hp as (j & -> & Hj).
    apply elem_of_seq in Hj.
    destruct (lookup_lt_is_Some_2 rw j) as [nd Hnd]; [lia|].
    exists nd. apply get_Some. simpl. rewrite !Nat2Z.id. split_and!; [lia..|eauto].
  - intros [nd (H1 & H2 & rw & Hrw & Hnd)%get_Some].
    exists (row_refs (Z.to_nat p.1) rw). split.
    + unfold row_refs. apply list_elem_of_fmap. exists (Z.to_nat p.2). split.
      * destruct p; simpl in *. f_equal; lia.
      * apply elem_of_seq. apply lookup_lt_Some in Hnd. lia.
    + by apply elem_of_lookup_imap_2.
Qed.

Lemma py_getitem_nonneg {A} (l : list A) (i : Z) :
  0 ≤ i → py_getitem l i = (λ a, (i, a)) <$> l !! Z.to_nat i.
Proof. intros. unfold py_getitem. by rewrite bool_decide_true. Qed.

Lemma py_getitem2_nonneg (g : Cells) (r c : Z) :
  0 ≤ r → 0 ≤ c → py_getitem2 g r c = (λ nd, ((r, c), nd)) <$> get g (r, c).
Proof.
  intros Hr Hc. unfold py_getitem2, get. simpl.
  rewrite bool_decide_true by done. rewrite py_getitem_nonneg by done.
  destruct (g !! Z.to_nat r) as [rw|]; simpl; [|done].
  rewrite py_getitem_nonneg by done.
  by destruct (rw !! Z.to_nat c).
Qed.

Lemma check_dir_spec (n : Z) (g : Cells) (guard : bool) (r c : Z) (acc : list Ref) :
  (∀ p, in_bounds n p → is_Some (get g p)) →
  guard = in_bounds n (r, c) →
  check_dir g guard r c acc =
  Some (acc ++ List.filter (λ q, in_bounds n q && negb (barrier_at g q)) [(r, c)]).
Proof.
  intros Hg ->. unfold check_dir. simpl.
  destruct (in_bounds n (r, c)) eqn:Hb; simpl; [|by rewrite app_nil_r].
  destruct (Hg (r, c)) as [nd Hnd]; [by rewrite Hb|].
  unfold in_bounds in Hb. apply bool_decide_eq_true in Hb. simpl in Hb.
  rewrite py_getitem2_nonneg by lia. rewrite Hnd. simpl.
  unfold barrier_at, color_at. rewrite Hnd. simpl. unfold Node.is_barrier.
  destruct (decide (Node.color nd = BLACK)) as [Hc|Hc].
  - rewrite !bool_decide_true by congruence. simpl. by rewrite app_nil_r.
  - rewrite !bool_decide_false by congruence. simpl. done.
Qed.

Lemma node_update_neighbors_spec (n : Z) (g : Cells) (self : Node.t) :
  (∀ p, in_bounds n p → is_Some (get g p)) →
  Node.total_rows self = n →
  in_bounds n (Node.row self, Node.col self) →
  node_update_neighbors self g =
  Some (Node.set_neighbors (neighborsOf_spec n g (Node.row self, Node.col self)) self).
Proof.
  intros Hg Hn Hb. unfold in_bounds in Hb. apply bool_decide_unpack in Hb.
  simpl in Hb. unfold node_update_neighbors. rewrite Hn.
  rewrite (check_dir_spec n) by
    (try done; unfold in_bounds; simpl; apply bool_decide_ext; lia).
  simpl.
  rewrite (check_dir_spec n) by
    (try done; unfold in_bounds; simpl; apply bool_decide_ext; lia).
  simpl.
  rewrite (check_dir_spec n) by
    (try done; unfold in_bounds; simpl; apply bool_decide_ext; lia).
  simpl.
  rewrite (check_dir_spec n) by
    (try done; unfold in_bounds; simpl; apply bool_decide_ext; lia).
  simpl. do 2 f_equal. unfold neighborsOf_spec, adjacent. simpl.
  repeat (match goal with |- context [if ?b then _ else _] => destruct b end;
          simpl); reflexivity.
Qed.

Lemma same_frame_color (g g' : Cells) (p : Ref) :
  same_frame g g' → color_at g' p = color_at g p.
Proof.
  intros H. specialize (H p). unfold color_at.
  destruct (get g' p), (get g p); simpl in *; try done.
  apply (inj Some) in H. apply (f_equal Node.color) in H. simpl in H. by f_equal.
Qed.

Lemma same_frame_is_Some (g g' : Cells) (p : Ref) :
  same_frame g g' → is_Some (get g' p) ↔ is_Some (get g p).
Proof.
  intros H. specialize (H p).
  destruct (get g' p), (get g p); simpl in *; try done;
    split; intros [? ?]; done.
Qed.

Lemma same_frame_spec (n : Z) (g g' : Cells) (p : Ref) :
  same_frame g g' → neighborsOf_spec n g' p = neighborsOf_spec n g p.
Proof.
  intros H. unfold neighborsOf_spec. apply filter_ext. intros q.
  unfold barrier_at. by rewrite (same_frame_color g g').
Qed.

Lemma same_frame_square (n : Z) (g g' : Cells) :
  same_frame g g' → square n g → square n g'.
Proof.
  intros H [Hs1 Hs2]. split.
  - intros p. by rewrite (same_frame_is_Some g g').
  - intros p nd' Hnd'. specialize (H p). rewrite Hnd' in H.
    destruct (get g p) as [nd|] eqn:Hnd; [|done].
    destruct (Hs2 p nd Hnd) as (? & ? & ?).
    apply (inj Some) in H.
    pose proof (f_equal Node.row H) as Hr.
    pose proof (f_equal Node.col H) as Hc.
    pose proof (f_equal Node.total_rows H) as Ht.
    simpl in *. split_and!; congruence.
Qed.

Lemma update_neighbors_fold (n : Z) (g : Cells) (l : list Ref) :
  square n g → (∀ p, p ∈ l → in_bounds n p) →
  ∀ gk, same_frame g gk →
    ∃ g', foldM (λ g p, nd ← get g p;
                        nd' ← node_update_neighbors nd g;
                        Some (modify (λ _, nd') p g)) gk l = Some g' ∧
          same_frame g g' ∧
          ∀ p, (p ∈ l → neighbors_at g' p = Some (neighborsOf_spec n g p)) ∧
               (p ∉ l → get g' p = get gk p).
Proof.
  intros Hsq. induction l as [|p l IH]; intros Hl gk Hk.
  - exists gk. split_and!; [done|done|]. intros p. split; [|done].
    by intros ?%not_elem_of_nil.
  - assert (Hp : in_bounds n p) by (apply Hl; left).
    pose proof (same_frame_square n g gk Hk Hsq) as [Hk1 Hk2].
    destruct (proj2 (Hk1 p) Hp) as [nd Hnd].
    destruct (Hk2 p nd Hnd) as (Hr & Hc & Ht).
    simpl. rewrite Hnd. simpl.
    rewrite (node_update_neighbors_spec n); [|intros q; apply Hk1|done|].
    2:{ rewrite Hr, Hc. by destruct p. }
    simpl. rewrite Hr, Hc. replace (p.1, p.2) with p by (by destruct p).
    rewrite (same_frame_spec n g gk) by done.
    set (g1 := modify _ p gk).
    assert (H1 : same_frame g g1).
    { intros q. unfold g1. rewrite get_modify. case_decide as Hq; [subst q|apply Hk].
      rewrite <- Hk, Hnd. done. }
    destruct (IH (λ q Hq, Hl q (list_elem_of_further _ _ _ Hq)) g1 H1)
      as (g' & Hf & Hg' & Hall).
    exists g'. split_and!; [done|done|]. intros q. split.
    + intros Hq. destruct (decide (q ∈ l)) as [Hin|Hin]; [by apply Hall|].
      apply elem_of_cons in Hq as [->|Hq]; [|done].
      unfold neighbors_at. rewrite (proj2 (Hall p) Hin). unfold g1.
      rewrite get_modify_eq, Hnd. done.
    + intros Hq. apply not_elem_of_cons in Hq as [Hne Hq].
      rewrite (proj2 (Hall q) Hq). unfold g1. by rewrite get_modify_ne.
Qed.

Lemma neighborsOf_spec_length (n : Z) (g : Cells) (p : Ref) :
  (length (neighborsOf_spec n g p) ≤ 4)%nat.
Proof. unfold neighborsOf_spec. etrans; [apply List.filter_length_le|]. done. Qed.

(** The refresh on a square grid: it returns, changes the neighbour lists
    only, and leaves in every cell the list [neighborsOf_spec]. *)
Lemma update_all_neighbors_frame (n : Z) (g : Cells) :
  square n g →
  ∃ g', Grid.update_all_neighbors_cells g = Some g' ∧
        same_frame g g' ∧
        ∀ p, in_bounds n p → neighbors_at g' p = Some (neighborsOf_spec n g p).
Proof.
  intros Hsq. unfold Grid.update_all_neighbors_cells.
  destruct (update_neighbors_fold n g (all_refs g) Hsq) with (gk := g)
    as (g' & Hf & Hg' & Hall).
  - intros p Hp. apply Hsq. by apply elem_of_all_refs.
  - done.
  - exists g'. split_and!; [done|done|]. intros p Hp.
    apply Hall. apply elem_of_all_refs. by apply Hsq.
Qed.

(** C5: after [update_all_neighbors] on a square grid, the neighbour list of
    every cell is, in this order, the cells below, above, right and left of
    it that are in bounds and not black when the refresh runs; it has at most
    four elements, and the refresh changes nothing else. *)
Theorem update_all_neighbors_spec (n : Z) (g : Cells) :
  square n g →
  ∃ g', Grid.update_all_neighbors_cells g = Some g' ∧
        same_frame g g' ∧
        ∀ p, in_bounds n p →
          neighbors_at g' p = Some (neighborsOf_spec n g p) ∧
          (length (neighborsOf_spec n g p) ≤ 4)%nat.
Proof.
  intros Hsq.
  destruct (update_all_neighbors_frame n g Hsq) as (g' & Hup & Hfr & Hnb).
  exists g'. split_and!; [done|done|]. intros p Hp. split.
  - by apply Hnb.
  - apply neighborsOf_spec_length.
Qed.

Lemma make_grid_square (n gap : Z) : square n (Grid.make_grid n gap).
Proof.
  split.
  - intros p. split.
    + intros [nd (H1 & H2 & rw & Hrw & Hnd)%get_Some].
      apply bool_decide_pack.
      pose proof (lookup_lt_Some _ _ _ Hrw) as Hl1. rewrite make_grid_length in Hl1.
      pose proof (lookup_lt_Some _ _ _ Hnd) as Hl2.
      rewrite (make_grid_row_length n gap) in Hl2
        by (apply list_elem_of_lookup; eauto).
      lia.
    + intros Hp%bool_decide_unpack. destruct p as [i j]. simpl in Hp.
      exists (Node.init i j gap n). apply make_grid_lookup; lia.
  - intros p nd Hnd.
    assert (Hp : in_bounds n p).
    { apply bool_decide_pack.
      apply get_Some in Hnd as (H1 & H2 & rw & Hrw & Hnd).
      pose proof (lookup_lt_Some _ _ _ Hrw) as Hl1. rewrite make_grid_length in Hl1.
      pose proof (lookup_lt_Some _ _ _ Hnd) as Hl2.
      rewrite (make_grid_row_length n gap) in Hl2
        by (apply list_elem_of_lookup; eauto).
      lia. }
    apply bool_decide_unpack in Hp. destruct p as [i j]. simpl in Hp.
    rewrite make_grid_lookup in Hnd by lia.
    by injection Hnd as <-.
Qed.

Lemma square_set_color (n : Z) (c : Color) (p : Ref) (g : Cells) :
  square n g → square n (modify (Node.set_color c) p g).
Proof.
  intros [H1 H2]. split.
  - intros q. rewrite <- H1. rewrite get_modify. case_decide; [|done].
    by rewrite fmap_is_Some.
  - intros q nd. rewrite get_modify. case_decide; [|apply H2].
    destruct (get g q) as [nd0|] eqn:Hq; [|done].
    intros [= <-]. simpl. by apply H2.
Qed.

Lemma update_all_neighbors_spec_witness :
  let g := modify Node.make_barrier (1, 1) (Grid.make_grid 3 200) in
  square 3 g ∧
  ∃ g', Grid.update_all_neighbors_cells g = Some g' ∧
        neighbors_at g' (0, 1) = Some [(0, 2); (0, 0)] ∧
        neighbors_at g' (2, 2) = Some [(1, 2); (2, 1)].
Proof.
  intros g.
  assert (Hsq : square 3 g) by apply square_set_color, make_grid_square.
  split; [exact Hsq|].
  destruct (update_all_neighbors_spec 3 g Hsq) as (g' & Hg' & _ & Hn).
  exists g'. split; [exact Hg'|]. split.
  - exact (proj1 (Hn (0, 1) I)).
  - exact (proj1 (Hn (2, 2) I)).
Defined.

(** ** C6: clearing the path *)

Lemma get_clear_nodes (g : Cells) (p : Ref) :
  get ((λ rw : list Node.t, Grid.clear_node <$> rw) <$> g) p =
  Grid.clear_node <$> get g p.
Proof.
  unfold get. case_bool_decide; [|done].
  rewrite list_lookup_fmap. destruct (g !! Z.to_nat p.1) as [rw|]; simpl; [|done].
  by rewrite list_lookup_fmap.
Qed.

Lemma set_color_same (nd : Node.t) (c : Color) :
  Node.color nd = c → Node.set_color c nd = nd.
Proof. intros <-. by destruct nd. Qed.

Lemma clear_node_protected (nd : Node.t) :
  protected (Node.color nd) → Grid.clear_node nd = nd.
Proof.
  unfold Grid.clear_node, Node.is_start, Node.is_end, Node.is_barrier.
  intros [H|[H|H]]; rewrite H; reflexivity.
Qed.

Lemma clear_node_other (nd : Node.t) :
  ¬ protected (Node.color nd) → Grid.clear_node nd = Node.set_color WHITE nd.
Proof.
  unfold Grid.clear_node, Node.is_start, Node.is_end, Node.is_barrier, protected.
  intros H. rewrite !bool_decide_false by tauto. reflexivity.
Qed.


(** ** Loops *)

Lemma foldM_inv {A S} (P : S → Prop) (f : S → A → option S) (l : list A) :
  (∀ s a s', a ∈ l → P s → f s a = Some s' → P s') →
  ∀ s s', P s → foldM f s l = Some s' → P s'.
Proof.
  induction l as [|a l IH]; intros Hf s s' Hs Hfold; simpl in Hfold.
  - by injection Hfold as <-.
  - destruct (f s a) as [s1|] eqn:Hs1; simpl in Hfold; [|done].
    apply (IH (λ s a s' Ha, Hf s a s' (list_elem_of_further _ _ _ Ha)) s1); [|done].
    apply (Hf s a); [left|done..].
Qed.

Section LoopFacts.
Context {S : Type}.
Variable pending : S → bool.
Variable grid_of : S → Cells.
Variable count_of : S → Z.
Variable body : S → option (outcome S).

Lemma while_loop_unfold (fuel : nat) (sched : list signal) (s : S) :
  while_loop pending grid_of count_of body fuel sched s =
  if pending s then
    match fuel with
    | O => None
    | Datatypes.S fuel' =>
        match sched with
        | Quit :: _ => Some ((false, count_of s, 0), grid_of s)
        | _ =>
            match body s with
            | None => None
            | Some (Return r g) => Some (r, g)
            | Some (Continue s') =>
                while_loop pending grid_of count_of body fuel' (tail sched) s'
            end
        end
    end
  else Some ((false, count_of s, 0), grid_of s).
Proof. by destruct fuel. Qed.

(** An invariant of the iterations gives a property of what is returned. *)
Lemma while_loop_inv (I : S → Prop) (Q : result * Cells → Prop) :
  (∀ s, I s → Q ((false, count_of s, 0), grid_of s)) →
  (∀ s r g, I s → pending s = true → body s = Some (Return r g) → Q (r, g)) →
  (∀ s s', I s → pending s = true → body s = Some (Continue s') → I s') →
  ∀ fuel sched s rg,
    I s → while_loop pending grid_of count_of body fuel sched s = Some rg → Q rg.
Proof.
  intros Hexit Hret Hstep fuel.
  induction fuel as [|fuel IH]; intros sched s rg Hs Hrun;
    rewrite while_loop_unfold in Hrun;
    destruct (pending s) eqn:Hp; try done;
    try (injection Hrun as <-; by apply Hexit).
  assert (Hgo : match body s with
                | None => None
                | Some (Return r g) => Some (r, g)
                | Some (Continue s') =>
                    while_loop pending grid_of count_of body fuel (tail sched) s'
                end = Some rg → Q rg).
  { destruct (body s) as [[r g|s']|] eqn:Hb; [|by eauto|done].
    intros [= <-]. by eapply Hret. }
  destruct sched as [|[|] sched]; [by apply Hgo|by apply Hgo|].
  injection Hrun as <-. by apply Hexit.
Qed.

Lemma reaches_inv (I : S → Prop) :
  (∀ s s', I s → pending s = true → body s = Some (Continue s') → I s') →
  ∀ s s', I s → reaches pending body s s' → I s'.
Proof. intros Hstep s s' Hs Hr. induction Hr; eauto. Qed.

(** A cancelled run returns "not found" with the count and the store of the
    state it was cancelled in. *)
Lemma cancelled_result (fuel : nat) (sched : list signal) (s : S) :
  cancelled pending body fuel sched s = true →
  ∃ sk, reaches pending body s sk ∧ pending sk = true ∧
        while_loop pending grid_of count_of body fuel sched s
        = Some ((false, count_of sk, 0), grid_of sk).
Proof.
  revert sched s. induction fuel as [|fuel IH]; intros sched s Hc;
    simpl in Hc; destruct (pending s) eqn:Hp; try done.
  rewrite while_loop_unfold, Hp.
  assert (Hgo : match body s with
                | Some (Continue s') => cancelled pending body fuel (tail sched) s'
                | _ => false
                end = true →
                ∃ sk, reaches pending body s sk ∧ pending sk = true ∧
                  match body s with
                  | None => None
                  | Some (Return r g) => Some (r, g)
                  | Some (Continue s') =>
                      while_loop pending grid_of count_of body fuel (tail sched) s'
                  end = Some ((false, count_of sk, 0), grid_of sk)).
  { destruct (body s) as [[r g|s']|] eqn:Hb; try done.
    intros (sk & Hr & Hpk & Hrun)%IH. exists sk. split_and!; [|done..].
    clear Hrun. induction Hr.
    - eapply reaches_step; [apply reaches_here|done..].
    - eapply reaches_step; eauto. }
  destruct sched as [|[|] sched]; [by apply Hgo|by apply Hgo|].
  exists s. split_and!; [apply reaches_here|done..].
Qed.

(** The uninterrupted run from a state of the run is the rest of the
    uninterrupted run. *)
Lemma reaches_run (s sk : S) (fuel : nat) (rg : result * Cells) :
  reaches pending body s sk →
  while_loop pending grid_of count_of body fuel [] s = Some rg →
  ∃ fuel', while_loop pending grid_of count_of body fuel' [] sk = Some rg.
Proof.
  intros Hr Hrun. induction Hr as [|s' s'' Hr IH Hp Hb]; [eauto|].
  destruct IH as [fuel' Hrun']. rewrite while_loop_unfold, Hp in Hrun'.
  destruct fuel' as [|fuel']; [done|]. rewrite Hb in Hrun'. simpl in Hrun'. eauto.
Qed.

End LoopFacts.

(** ** The iterations of the four searches, case by case *)

Lemma finish_inv (fuel : nat) (cf : gmap Ref Ref) (start end_ : Ref) (g : Cells)
    (n : Z) (r : result) (g' : Cells) :
  finish fuel cf start end_ g n = Some (r, g') →
  ∃ path_nodes g1,
    reconstruct_path fuel cf end_ g [] = Some (path_nodes, g1) ∧
    r = (true, n, Z.of_nat (length path_nodes) + 1) ∧
    g' = modify Node.make_start start (modify Node.make_end end_ g1).
Proof.
  unfold finish. destruct (reconstruct_path fuel cf end_ g []) as [[pn g1]|]; [|done].
  simpl. intros [= <- <-]. eauto.
Qed.

Lemma bfs_body_continue (fuel : nat) (start end_ : Ref) (s s' : Uninformed.state) :
  Uninformed.bfs_body fuel start end_ s = Some (Continue s') →
  ∃ current q nd s1,
    Uninformed.frontier s = current :: q ∧ current ≠ end_ ∧
    get (Uninformed.grid s) current = Some nd ∧
    foldM (Uninformed.discover Uninformed.enqueue current end_)
      (Uninformed.with_frontier q s) (Node.neighbors nd) = Some s1 ∧
    s' = Uninformed.close current start end_ s1.
Proof.
  unfold Uninformed.bfs_body. destruct (Uninformed.frontier s) as [|current q]; [done|].
  case_bool_decide as He.
  - destruct (finish _ _ _ _ _ _) as [[r g]|]; done.
  - destruct (get (Uninformed.grid s) current) as [nd|] eqn:Hnd; [|done]. simpl.
    destruct (foldM _ _ _) as [s1|] eqn:Hs1; [|done]. simpl.
    intros [= <-]. by exists current, q, nd, s1.
Qed.

Lemma bfs_body_return (fuel : nat) (start end_ : Ref) (s : Uninformed.state)
    (r : result) (g : Cells) :
  Uninformed.bfs_body fuel start end_ s = Some (Return r g) →
  ∃ q, Uninformed.frontier s = end_ :: q ∧
       finish fuel (Uninformed.came_from s) start end_ (Uninformed.grid s)
         (Uninformed.visited_nodes_count s) = Some (r, g).
Proof.
  unfold Uninformed.bfs_body. destruct (Uninformed.frontier s) as [|current q]; [done|].
  case_bool_decide as He.
  - subst current. destruct (finish _ _ _ _ _ _) as [[r' g']|]; [|done].
    simpl. intros [= <- <-]. eauto.
  - destruct (get (Uninformed.grid s) current) as [nd|]; [|done]. simpl.
    destruct (foldM _ _ _) as [s1|]; done.
Qed.

Lemma dfs_body_continue (fuel : nat) (start end_ : Ref) (s s' : Uninformed.state) :
  Uninformed.dfs_body fuel start end_ s = Some (Continue s') →
  ∃ current q nd,
    Uninformed.frontier s = current :: q ∧ current ≠ end_ ∧
    get (Uninformed.grid (Uninformed.close current start end_
                            (Uninformed.with_frontier q s))) current = Some nd ∧
    foldM (Uninformed.discover Uninformed.push current end_)
      (Uninformed.close current start end_ (Uninformed.with_frontier q s))
      (reverse (Node.neighbors nd)) = Some s'.
Proof.
  unfold Uninformed.dfs_body. destruct (Uninformed.frontier s) as [|current q]; [done|].
  case_bool_decide as He.
  - destruct (finish _ _ _ _ _ _) as [[r g]|]; done.
  - destruct (get _ current) as [nd|] eqn:Hnd; [|done]. simpl.
    destruct (foldM _ _ _) as [s1|] eqn:Hs1; [|done]. simpl.
    intros [= <-]. by exists current, q, nd.
Qed.

Lemma dfs_body_return (fuel : nat) (start end_ : Ref) (s : Uninformed.state)
    (r : result) (g : Cells) :
  Uninformed.dfs_body fuel start end_ s = Some (Return r g) →
  ∃ q, Uninformed.frontier s = end_ :: q ∧
       finish fuel (Uninformed.came_from s) start end_ (Uninformed.grid s)
         (Uninformed.visited_nodes_count s) = Some (r, g).
Proof.
  unfold Uninformed.dfs_body. destruct (Uninformed.frontier s) as [|current q]; [done|].
  case_bool_decide as He.
  - subst current. destruct (finish _ _ _ _ _ _) as [[r' g']|]; [|done].
    simpl. intros [= <- <-]. eauto.
  - destruct (get _ current) as [nd|]; [|done]. simpl.
    destruct (foldM _ _ _) as [s1|]; done.
Qed.

(** An iteration of [dijkstra] or [astar] that goes on either drops a stale
    entry or expands the popped cell. *)
Lemma informed_body_continue (best : Informed.state → gmap Ref score)
    (relax : Ref → Ref → Informed.state → Ref → option Informed.state)
    (fuel : nat) (start end_ : Ref) (s s' : Informed.state) :
  Informed.body best relax fuel start end_ s = Some (Continue s') →
  ∃ k t current h b,
    Informed.open_set s = (k, t, current) :: h ∧
    current ∈ Informed.open_set_hash s ∧
    best (Informed.popped h current s) !! current = Some b ∧
    ((score_lt b (Num k) = true ∧ s' = Informed.popped h current s) ∨
     (score_lt b (Num k) = false ∧ current ≠ end_ ∧
      ∃ nd s1, get (Informed.grid s) current = Some nd ∧
               foldM (relax current end_) (Informed.popped h current s)
                 (Node.neighbors nd) = Some s1 ∧
               s' = Informed.close current start end_ s1)).
Proof.
  unfold Informed.body, heappop.
  destruct (Informed.open_set s) as [|[[k t] current] h]; [done|]. simpl.
  case_bool_decide as Hin; [|done].
  destruct (best _ !! current) as [b|] eqn:Hb; [|done]. simpl.
  destruct (score_lt b (Num k)) eqn:Hlt.
  - intros [= <-]. exists k, t, current, h, b. split_and!; [done..|]. by left.
  - case_bool_decide as He.
    + destruct (finish _ _ _ _ _ _) as [[r g]|]; done.
    + destruct (get _ current) as [nd|] eqn:Hnd; [|done]. simpl.
      destruct (foldM _ _ _) as [s1|] eqn:Hs1; [|done]. simpl.
      intros [= <-]. exists k, t, current, h, b. split_and!; [done..|].
      right. split_and!; [done..|]. by exists nd, s1.
Qed.

Lemma informed_body_return (best : Informed.state → gmap Ref score)
    (relax : Ref → Ref → Informed.state → Ref → option Informed.state)
    (fuel : nat) (start end_ : Ref) (s : Informed.state) (r : result) (g : Cells) :
  Informed.body best relax fuel start end_ s = Some (Return r g) →
  ∃ k t h b,
    Informed.open_set s = (k, t, end_) :: h ∧
    end_ ∈ Informed.open_set_hash s ∧
    best (Informed.popped h end_ s) !! end_ = Some b ∧
    score_lt b (Num k) = false ∧
    finish fuel (Informed.came_from s) start end_ (Informed.grid s)
      (Informed.visited_nodes_count s) = Some (r, g).
Proof.
  unfold Informed.body, heappop.
  destruct (Informed.open_set s) as [|[[k t] current] h]; [done|]. simpl.
  case_bool_decide as Hin; [|done].
  destruct (best _ !! current) as [b|] eqn:Hb; [|done]. simpl.
  destruct (score_lt b (Num k)) eqn:Hlt; [done|].
  case_bool_decide as He.
  - subst current. destruct (finish _ _ _ _ _ _) as [[r' g']|] eqn:Hf; [|done].
    simpl. intros [= <- <-]. by exists k, t, h, b.
  - destruct (get _ current) as [nd|]; [|done]. simpl.
    destruct (foldM _ _ _) as [s1|]; done.
Qed.

(** ** C4 and C7: the counter *)

Lemma counted_app (start end_ : Ref) (l1 l2 : list Ref) :
  counted start end_ (l1 ++ l2) = counted start end_ l1 + counted start end_ l2.
Proof. unfold counted. rewrite filter_app, length_app. lia. Qed.

Lemma counted_nonneg (start end_ : Ref) (l : list Ref) : 0 ≤ counted start end_ l.
Proof. unfold counted. lia. Qed.

Lemma counted_singleton (start end_ c : Ref) :
  counted start end_ [c] = if bool_decide (c ≠ start ∧ c ≠ end_) then 1 else 0.
Proof.
  unfold counted. rewrite filter_cons, filter_nil.
  case_decide; case_bool_decide; done.
Qed.

Section CountFacts.
Context {S : Type}.
Variable pending : S → bool.
Variable grid_of : S → Cells.
Variable count_of : S → Z.
Variable body : S → option (outcome S).
Variable expanding : S → option Ref.
Variables start end_ : Ref.

Hypothesis Hcont : ∀ s s',
  body s = Some (Continue s') →
  count_of s' = count_of s + counted start end_ (option_list (expanding s)).
Hypothesis Hret : ∀ s r g,
  body s = Some (Return r g) → found r = true ∧ visited_count r = count_of s.

Lemma while_loop_count (fuel : nat) (sched : list signal) (s : S)
    (rg : result * Cells) :
  while_loop pending grid_of count_of body fuel sched s = Some rg →
  visited_count rg.1 =
  count_of s + counted start end_ (expansions pending body expanding fuel sched s).
Proof.
  revert sched s. induction fuel as [|fuel IH]; intros sched s Hrun;
    rewrite while_loop_unfold in Hrun; simpl;
    destruct (pending s) eqn:Hp; try done;
    try (injection Hrun as <-; unfold visited_count, counted; simpl; lia).
  assert (Hgo : match body s with
                | None => None
                | Some (Return r g) => Some (r, g)
                | Some (Continue s') =>
                    while_loop pending grid_of count_of body fuel (tail sched) s'
                end = Some rg →
                visited_count rg.1 =
                count_of s + counted start end_
                  match body s with
                  | Some (Continue s') =>
                      option_list (expanding s) ++
                      expansions pending body expanding fuel (tail sched) s'
                  | _ => []
                  end).
  { destruct (body s) as [[r g|s']|] eqn:Hb; [| |done].
    - intros [= <-]. simpl. destruct (Hret s r g Hb) as [_ ->].
      unfold counted; simpl; lia.
    - intros Hrun'. rewrite (IH _ _ Hrun'), counted_app, (Hcont s s' Hb). lia. }
  destruct sched as [|[|] sched]; [by apply Hgo|by apply Hgo|].
  injection Hrun as <-. unfold visited_count, counted; simpl; lia.
Qed.

Lemma count_le_final (fuel : nat) (sched : list signal) (s : S)
    (rg : result * Cells) :
  while_loop pending grid_of count_of body fuel sched s = Some rg →
  count_of s ≤ visited_count rg.1.
Proof.
  intros ->%while_loop_count.
  pose proof (counted_nonneg start end_
                (expansions pending body expanding fuel sched s)). lia.
Qed.

End CountFacts.

Lemma discover_count (push : Ref → list Ref → list Ref) (current end_ : Ref)
    (s s' : Uninformed.state) (n : Ref) :
  Uninformed.discover push current end_ s n = Some s' →
  Uninformed.visited_nodes_count s' = Uninformed.visited_nodes_count s.
Proof.
  unfold Uninformed.discover. case_bool_decide; [by intros [= <-]|].
  destruct (get _ n) as [nd|]; [|done]. simpl.
  destruct (Node.is_barrier nd); by intros [= <-].
Qed.

Lemma uninformed_close_count (current start end_ : Ref) (s : Uninformed.state) :
  Uninformed.visited_nodes_count (Uninformed.close current start end_ s) =
  Uninformed.visited_nodes_count s + counted start end_ [current].
Proof.
  rewrite counted_singleton. unfold Uninformed.close.
  case_bool_decide; simpl; lia.
Qed.

Lemma BFS_counting : counting BFS.
Proof.
  split_and!.
  - intros g start end_ s [= <-]. done.
  - intros fuel start end_ s s' Hb. simpl in *.
    apply bfs_body_continue in Hb as (c & q & nd & s1 & Hf & Hne & _ & Hfold & ->).
    unfold Uninformed.expanding. rewrite Hf, bool_decide_false by done. simpl.
    rewrite uninformed_close_count. f_equal.
    apply (foldM_inv (λ s1, Uninformed.visited_nodes_count s1
                            = Uninformed.visited_nodes_count s)) in Hfold; [done| |done].
    intros s2 a s3 _ <-. apply discover_count.
  - intros fuel start end_ s r g Hb. simpl in *.
    apply bfs_body_return in Hb as (q & _ & (pn & g1 & _ & -> & _)%finish_inv). done.
  - intros fuel fuel' start end_ s s' Hb. simpl in *.
    unfold Uninformed.bfs_body in *.
    destruct (Uninformed.frontier s) as [|c q]; [done|].
    case_bool_decide; [|done].
    destruct (finish fuel _ _ _ _ _) as [[r g]|]; done.
Qed.

Lemma DFS_counting : counting DFS.
Proof.
  split_and!.
  - intros g start end_ s [= <-]. done.
  - intros fuel start end_ s s' Hb. simpl in *.
    apply dfs_body_continue in Hb as (c & q & nd & Hf & Hne & _ & Hfold).
    unfold Uninformed.expanding. rewrite Hf, bool_decide_false by done. simpl.
    apply (foldM_inv (λ s1, Uninformed.visited_nodes_count s1
                            = Uninformed.visited_nodes_count s
                              + counted start end_ [c])) in Hfold; [done| |].
    + intros s2 a s3 _ <-. apply discover_count.
    + by rewrite uninformed_close_count.
  - intros fuel start end_ s r g Hb. simpl in *.
    apply dfs_body_return in Hb as (q & _ & (pn & g1 & _ & -> & _)%finish_inv). done.
  - intros fuel fuel' start end_ s s' Hb. simpl in *.
    unfold Uninformed.dfs_body in *.
    destruct (Uninformed.frontier s) as [|c q]; [done|].
    case_bool_decide; [|done].
    destruct (finish fuel _ _ _ _ _) as [[r g]|]; done.
Qed.

Lemma push_if_new_count (key : Z) (end_ n : Ref) (s : Informed.state) :
  Informed.visited_nodes_count (Informed.push_if_new key end_ n s) =
  Informed.visited_nodes_count s.
Proof. unfold Informed.push_if_new. by case_bool_decide. Qed.

Lemma dijkstra_relax_count (current end_ : Ref) (s s' : Informed.state) (n : Ref) :
  Informed.dijkstra_relax current end_ s n = Some s' →
  Informed.visited_nodes_count s' = Informed.visited_nodes_count s.
Proof.
  unfold Informed.dijkstra_relax.
  destruct (get _ n) as [nd|]; [|done]. simpl.
  destruct (Node.is_barrier nd); [by intros [= <-]|].
  destruct (Informed.g_score s !! current) as [gc|]; [|done]. simpl.
  destruct (Informed.g_score s !! n) as [gn|]; [|done]. simpl.
  destruct (score_lt _ gn); [|by intros [= <-]].
  destruct (score_succ gc); [|done].
  intros [= <-]. by rewrite push_if_new_count.
Qed.

Lemma astar_relax_count (current end_ : Ref) (s s' : Informed.state) (n : Ref) :
  Informed.astar_relax current end_ s n = Some s' →
  Informed.visited_nodes_count s' = Informed.visited_nodes_count s.
Proof.
  unfold Informed.astar_relax.
  destruct (get _ n) as [nd|]; [|done]. simpl.
  destruct (Node.is_barrier nd); [by intros [= <-]|].
  destruct (Informed.g_score s !! current) as [gc|]; [|done]. simpl.
  destruct (Informed.g_score s !! n) as [gn|]; [|done]. simpl.
  destruct (score_lt _ gn); [|by intros [= <-]].
  destruct (score_succ gc); [|done].
  destruct (get _ end_) as [e_nd|]; [|done]. simpl.
  intros [= <-]. by rewrite push_if_new_count.
Qed.

Lemma informed_close_count (current start end_ : Ref) (s : Informed.state) :
  Informed.visited_nodes_count (Informed.close current start end_ s) =
  Informed.visited_nodes_count s + counted start end_ [current].
Proof.
  rewrite counted_singleton. unfold Informed.close.
  case_bool_decide; simpl; lia.
Qed.

Lemma informed_counting (best : Informed.state → gmap Ref score)
    (relax : Ref → Ref → Informed.state → Ref → option Informed.state)
    (init : Cells → Ref → Ref → option Informed.state) :
  (∀ s h c, best (Informed.popped h c s) = best s) →
  (∀ c e s n s', relax c e s n = Some s' →
     Informed.visited_nodes_count s' = Informed.visited_nodes_count s) →
  (∀ g start end_ s, init g start end_ = Some s → Informed.visited_nodes_count s = 0) →
  counting {| state := Informed.state; pending := Informed.pending;
              grid_of := Informed.grid; count_of := Informed.visited_nodes_count;
              init := init; body := Informed.body best relax;
              expanding := Informed.expanding best |}.
Proof.
  intros Hbest Hrelax Hinit. split_and!; simpl.
  - done.
  - intros fuel start end_ s s' Hb.
    apply informed_body_continue in Hb
      as (k & t & c & h & b & Ho & _ & Hbc & [[Hlt ->]|(Hlt & Hne & nd & s1 & _ & Hfold & ->)]);
      unfold Informed.expanding; rewrite Ho; rewrite Hbest in Hbc; rewrite Hbc, Hlt.
    + unfold counted; simpl; lia.
    + rewrite bool_decide_false by done. simpl.
      rewrite informed_close_count. f_equal.
      apply (foldM_inv (λ s1, Informed.visited_nodes_count s1
                              = Informed.visited_nodes_count s)) in Hfold; [done| |done].
      intros s2 a s3 _ <-. apply Hrelax.
  - intros fuel start end_ s r g Hb.
    apply informed_body_return in Hb
      as (k & t & h & b & _ & _ & _ & _ & (pn & g1 & _ & -> & _)%finish_inv). done.
  - intros fuel fuel' start end_ s s'. unfold Informed.body, heappop.
    destruct (Informed.open_set s) as [|[[k t] c] h]; [done|]. simpl.
    case_bool_decide; [|done].
    destruct (best _ !! c) as [b|]; [|done]. simpl.
    destruct (score_lt b (Num k)); [done|].
    case_bool_decide; [|done].
    destruct (finish fuel _ _ _ _ _) as [[r g]|]; done.
Qed.

Lemma DIJKSTRA_counting : counting DIJKSTRA.
Proof.
  apply informed_counting; [done|intros; by eapply dijkstra_relax_count|].
  by intros g start end_ s [= <-].
Qed.

Lemma ASTAR_counting : counting ASTAR.
Proof.
  apply informed_counting; [done|intros; by eapply astar_relax_count|].
  intros g start end_ s. unfold Informed.astar_init.
  destruct (get g start); [|done]. destruct (get g end_); [|done].
  by intros [= <-].
Qed.

Lemma algorithms_counting (A : search) : A ∈ algorithms → counting A.
Proof.
  unfold algorithms. rewrite !elem_of_cons, elem_of_nil.
  intros [->|[->|[->|[->|[]]]]];
    [apply BFS_counting|apply DFS_counting|apply DIJKSTRA_counting|apply ASTAR_counting].
Qed.

Section TwoFuels.
Context {S : Type}.
Variable pending : S → bool.
Variable grid_of : S → Cells.
Variable count_of : S → Z.
Variables body body' : S → option (outcome S).
Hypothesis Hsame : ∀ s s', body s = Some (Continue s') → body' s = Some (Continue s').

Lemma reaches_run_other (s sk : S) (fuel : nat) (rg : result * Cells) :
  reaches pending body s sk →
  while_loop pending grid_of count_of body' fuel [] s = Some rg →
  ∃ fuel', while_loop pending grid_of count_of body' fuel' [] sk = Some rg.
Proof.
  intros Hr Hrun. induction Hr as [|s' s'' Hr IH Hp Hb]; [eauto|].
  destruct IH as [fuel' Hrun']. rewrite while_loop_unfold, Hp in Hrun'.
  destruct fuel' as [|fuel']; [done|].
  rewrite (Hsame _ _ Hb) in Hrun'. simpl in Hrun'. eauto.
Qed.
End TwoFuels.


(** ** C3: relaxation, sequence numbers, stale entries *)

Lemma elem_of_heappush (h : list entry) (e e' : entry) :
  e' ∈ heappush h e ↔ e' = e ∨ e' ∈ h.
Proof.
  induction h as [|a h IH]; simpl.
  - rewrite list_elem_of_singleton, elem_of_nil. tauto.
  - destruct (entry_lt e a).
    + by rewrite elem_of_cons.
    + rewrite !elem_of_cons, IH. tauto.
Qed.

Lemma heappush_perm (h : list entry) (e : entry) : heappush h e ≡ₚ e :: h.
Proof.
  induction h as [|a h IH]; simpl; [done|].
  destruct (entry_lt e a); [done|]. rewrite IH. apply Permutation_swap.
Qed.

Lemma dijkstra_relax_relaxed (c n end_ : Ref) (s : Informed.state) (nd : Node.t)
    (gc gn : score) :
  get (Informed.grid s) n = Some nd → Node.is_barrier nd = false →
  Informed.g_score s !! c = Some gc → Informed.g_score s !! n = Some gn →
  ∃ s', Informed.dijkstra_relax c end_ s n = Some s' ∧
        relaxed false c n end_ gc gn 0 s s'.
Proof.
  intros Hnd Hb Hgc Hgn. unfold Informed.dijkstra_relax, relaxed.
  rewrite Hnd. simpl. rewrite Hb, Hgc. simpl. rewrite Hgn. simpl.
  destruct (score_succ gc) as [t|] eqn:Ht; simpl; [|eauto].
  destruct (score_lt (Num t) gn); [|eauto].
  eexists. split; [done|]. unfold Informed.push_if_new. simpl.
  case_bool_decide; simpl; done.
Qed.

Lemma astar_relax_relaxed (c n end_ : Ref) (s : Informed.state) (nd e_nd : Node.t)
    (gc gn : score) :
  get (Informed.grid s) n = Some nd → Node.is_barrier nd = false →
  get (Informed.grid s) end_ = Some e_nd →
  Informed.g_score s !! c = Some gc → Informed.g_score s !! n = Some gn →
  ∃ s', Informed.astar_relax c end_ s n = Some s' ∧
        relaxed true c n end_ gc gn
          (manhattan (Node.get_pos nd) (Node.get_pos e_nd)) s s'.
Proof.
  intros Hnd Hb He Hgc Hgn. unfold Informed.astar_relax, relaxed.
  rewrite Hnd. simpl. rewrite Hb, Hgc. simpl. rewrite Hgn. simpl.
  destruct (score_succ gc) as [t|] eqn:Ht; simpl; [|eauto].
  destruct (score_lt (Num t) gn); [|eauto].
  rewrite He. simpl.
  eexists. split; [done|]. unfold Informed.push_if_new. simpl.
  case_bool_decide; simpl; done.
Qed.

Lemma stale_entry_skipped (best : Informed.state → gmap Ref score)
    (relax : Ref → Ref → Informed.state → Ref → option Informed.state)
    (fuel : nat) (start end_ : Ref) (s : Informed.state)
    (k t : Z) (c : Ref) (h : list entry) (b : score) :
  (∀ s h c, best (Informed.popped h c s) = best s) →
  Informed.open_set s = (k, t, c) :: h →
  c ∈ Informed.open_set_hash s →
  best s !! c = Some b → score_lt b (Num k) = true →
  Informed.body best relax fuel start end_ s
  = Some (Continue (Informed.popped h c s)).
Proof.
  intros Hbest Ho Hin Hb Hlt. unfold Informed.body. rewrite Ho. simpl.
  rewrite bool_decide_true by done. rewrite Hbest, Hb. simpl. by rewrite Hlt.
Qed.

(** The sequence number of a push is larger than every one in the heap. *)
Lemma relaxed_heap_ok (is_astar : bool) (c n end_ : Ref) (gc gn : score) (h : Z)
    (s s' : Informed.state) :
  heap_ok s → relaxed is_astar c n end_ gc gn h s s' →
  heap_ok s' ∧ Informed.count s ≤ Informed.count s' ∧
  (∀ e, e ∈ Informed.open_set s' → ¬ (e ∈ Informed.open_set s) →
        e.2 = n ∧ ¬ (n ∈ Informed.open_set_hash s) ∧
        e.1.2 = Informed.count s' ∧
        ∀ e0, e0 ∈ Informed.open_set s → e0.1.2 < e.1.2).
Proof.
  intros (Hties & Hnd & Hhash). unfold relaxed.
  assert (Hsame : heap_ok s ∧ Informed.count s ≤ Informed.count s ∧
            (∀ e, e ∈ Informed.open_set s → ¬ (e ∈ Informed.open_set s) →
               e.2 = n ∧ ¬ (n ∈ Informed.open_set_hash s) ∧
               e.1.2 = Informed.count s ∧
               ∀ e0, e0 ∈ Informed.open_set s → e0.1.2 < e.1.2)).
  { split_and!; [done|lia|]. intros e He Hn. by destruct Hn. }
  destruct (score_succ gc) as [t|]; [|by intros ->].
  destruct (score_lt (Num t) gn); [|by intros ->].
  intros (_ & _ & _ & _ & H). case_bool_decide as Hin.
  - destruct H as (Ho & Hc & Hh & _). unfold heap_ok. rewrite Ho, Hc.
    split; [|split].
    + split; [done|]. split; [done|]. intros p. by rewrite Hh.
    + lia.
    + intros e He Hn. by destruct Hn.
  - destruct H as (Hc & Ho & Hh & _). unfold heap_ok. rewrite Ho, Hc.
    split; [|split].
    + split; [|split].
      * intros e [->|He]%elem_of_heappush; simpl; [lia|].
        specialize (Hties e He). lia.
      * rewrite heappush_perm. simpl. apply NoDup_cons. split; [|done].
        by rewrite <- Hhash.
      * intros p. rewrite Hh, heappush_perm. simpl.
        rewrite elem_of_union, elem_of_singleton, elem_of_cons, Hhash. done.
    + lia.
    + intros e [->|He]%elem_of_heappush Hnot; [|done]. simpl.
      split_and!; [done..|]. intros e0 He0. specialize (Hties e0 He0). lia.
Qed.

Lemma dijkstra_relax_cases (c n end_ : Ref) (s s' : Informed.state) :
  Informed.dijkstra_relax c end_ s n = Some s' →
  s' = s ∨ ∃ gc gn, relaxed false c n end_ gc gn 0 s s'.
Proof.
  intros H. pose proof H as H0. unfold Informed.dijkstra_relax in H.
  destruct (get _ n) as [nd|] eqn:Hnd; [|done]. simpl in H.
  destruct (Node.is_barrier nd) eqn:Hb; [left; congruence|].
  destruct (Informed.g_score s !! c) as [gc|] eqn:Hgc; [|done]. simpl in H.
  destruct (Informed.g_score s !! n) as [gn|] eqn:Hgn; [|done].
  destruct (dijkstra_relax_relaxed c n end_ s nd gc gn) as (s'' & Hs'' & Hr); [done..|].
  right. exists gc, gn. congruence.
Qed.

Lemma astar_relax_cases (c n end_ : Ref) (s s' : Informed.state) :
  Informed.astar_relax c end_ s n = Some s' →
  s' = s ∨ ∃ gc gn h, relaxed true c n end_ gc gn h s s'.
Proof.
  intros H. pose proof H as H0. unfold Informed.astar_relax in H.
  destruct (get _ n) as [nd|] eqn:Hnd; [|done]. simpl in H.
  destruct (Node.is_barrier nd) eqn:Hb; [left; congruence|].
  destruct (Informed.g_score s !! c) as [gc|] eqn:Hgc; [|done]. simpl in H.
  destruct (Informed.g_score s !! n) as [gn|] eqn:Hgn; [|done]. simpl in H.
  destruct (score_lt (score_succ gc) gn) eqn:Hlt; [|left; congruence].
  destruct (score_succ gc) as [t|] eqn:Ht; [|done].
  destruct (get _ end_) as [e_nd|] eqn:He; [|done].
  destruct (astar_relax_relaxed c n end_ s nd e_nd gc gn) as (s'' & Hs'' & Hr); [done..|].
  right. exists gc, gn, (manhattan (Node.get_pos nd) (Node.get_pos e_nd)). congruence.
Qed.

Lemma popped_heap_ok (s : Informed.state) (e : entry) (h : list entry) :
  heap_ok s → Informed.open_set s = e :: h →
  heap_ok (Informed.popped h e.2 s).
Proof.
  intros (Hties & Hnd & Hhash) Ho. rewrite Ho in *. simpl in Hnd.
  apply NoDup_cons in Hnd as [Hc Hnd]. split; [|split]; simpl.
  - intros e' He'. apply Hties. by right.
  - done.
  - intros p. rewrite elem_of_difference, elem_of_singleton, Hhash. simpl.
    rewrite elem_of_cons. split; [tauto|]. intros Hp. split; [by right|].
    by intros ->.
Qed.

Lemma informed_close_heap_ok (c start end_ : Ref) (s : Informed.state) :
  heap_ok s → heap_ok (Informed.close c start end_ s).
Proof. unfold Informed.close. by case_bool_decide. Qed.

Lemma informed_body_heap_ok (best : Informed.state → gmap Ref score)
    (relax : Ref → Ref → Informed.state → Ref → option Informed.state)
    (fuel : nat) (start end_ : Ref) (s s' : Informed.state) :
  (∀ c e s n s', relax c e s n = Some s' → heap_ok s → heap_ok s') →
  heap_ok s →
  Informed.body best relax fuel start end_ s = Some (Continue s') →
  heap_ok s'.
Proof.
  intros Hrelax Hs Hb.
  apply informed_body_continue in Hb
    as (k & t & c & h & b & Ho & _ & _ & [[_ ->]|(_ & _ & nd & s1 & _ & Hfold & ->)]).
  - by apply (popped_heap_ok s (k, t, c)).
  - apply informed_close_heap_ok.
    eapply (foldM_inv heap_ok); [|exact (popped_heap_ok s (k, t, c) h Hs Ho)|exact Hfold].
    intros s2 a s3 _ H2 H3. by eapply Hrelax.
Qed.

Lemma dijkstra_heap_ok (g : Cells) (fuel : nat) (start end_ : Ref) (s : Informed.state) :
  reaches Informed.pending (Informed.dijkstra_body fuel start end_)
    (Informed.dijkstra_init g start) s →
  heap_ok s.
Proof.
  apply reaches_inv.
  - intros s1 s2 H1 _ Hb. eapply informed_body_heap_ok; [|done..].
    intros c e s3 n s4 [->|(gc & gn & Hr)]%dijkstra_relax_cases H3; [done|].
    by eapply relaxed_heap_ok.
  - split; [|split]; simpl.
    + intros e ->%list_elem_of_singleton. done.
    + apply NoDup_singleton.
    + intros p. by rewrite elem_of_singleton, list_elem_of_singleton.
Qed.

Lemma astar_heap_ok (g : Cells) (fuel : nat) (start end_ : Ref)
    (s0 s : Informed.state) :
  Informed.astar_init g start end_ = Some s0 →
  reaches Informed.pending (Informed.astar_body fuel start end_) s0 s →
  heap_ok s.
Proof.
  intros H0. apply reaches_inv.
  - intros s1 s2 H1 _ Hb. eapply informed_body_heap_ok; [|done..].
    intros c e s3 n s4 [->|(gc & gn & h & Hr)]%astar_relax_cases H3; [done|].
    by eapply relaxed_heap_ok.
  - unfold Informed.astar_init in H0.
    destruct (get g start); [|done]. destruct (get g end_); [|done].
    injection H0 as <-. split; [|split]; simpl.
    + intros e ->%list_elem_of_singleton. done.
    + apply NoDup_singleton.
    + intros p. by rewrite elem_of_singleton, list_elem_of_singleton.
Qed.


(** ** What a search does to the store *)

Lemma calm_refl (c : Color) : calm c c.
Proof. by split. Qed.

Lemma calm_trans (c1 c2 c3 : Color) : calm c1 c2 → calm c2 c3 → calm c1 c3.
Proof. unfold calm. intros [H1 H2] [H3 H4]. split; [by rewrite H1|auto]. Qed.

Lemma repaints_refl (g : Cells) : repaints g g.
Proof. intros p. destruct (get g p); [|done]. split; [done|apply calm_refl]. Qed.

Lemma repaints_trans (g1 g2 g3 : Cells) :
  repaints g1 g2 → repaints g2 g3 → repaints g1 g3.
Proof.
  intros H12 H23 p. specialize (H12 p). specialize (H23 p).
  destruct (get g1 p), (get g2 p), (get g3 p); try done.
  destruct H12 as [H1 H2], H23 as [H3 H4]. split; [congruence|].
  by eapply calm_trans.
Qed.

Lemma repaints_barrier_at (g g' : Cells) (p : Ref) :
  repaints g g' → barrier_at g' p = barrier_at g p.
Proof.
  intros H. specialize (H p). unfold barrier_at, color_at.
  apply bool_decide_ext.
  destruct (get g p), (get g' p); simpl; try done.
  destruct H as [_ [H _]]. split; intros [= ?]; f_equal; by apply H.
Qed.

Lemma repaints_in_grid (g g' : Cells) (p : Ref) :
  repaints g g' → in_grid g' p = in_grid g p.
Proof.
  intros H. specialize (H p). unfold in_grid. apply bool_decide_ext.
  destruct (get g p), (get g' p); try done; split; intros [? ?]; done.
Qed.

Lemma repaints_orange (g g' : Cells) (p : Ref) :
  repaints g g' → color_at g' p = Some ORANGE → color_at g p = Some ORANGE.
Proof.
  intros H. specialize (H p). unfold color_at.
  destruct (get g p), (get g' p); simpl; try done.
  destruct H as [_ [_ H]]. intros [= ?]. f_equal. by apply H.
Qed.

Lemma set_color_set_color (c c' : Color) (n : Node.t) :
  Node.set_color c (Node.set_color c' n) = Node.set_color c n.
Proof. done. Qed.

(** Painting a node that is not a barrier in a colour that is neither black
    nor, unless the node was orange, orange. *)
Lemma repaints_paint (g g1 : Cells) (p : Ref) (c : Color) :
  repaints g g1 → barrier_at g p = false → c ≠ BLACK →
  (c = ORANGE → color_at g p = Some ORANGE) →
  repaints g (modify (Node.set_color c) p g1).
Proof.
  intros H Hb Hc Ho q. specialize (H q). rewrite get_modify.
  case_decide as Hq; [subst q|done].
  destruct (get g p) as [n|] eqn:Hn, (get g1 p) as [n1|]; simpl; try done.
  destruct H as [H1 H2]. split; [done|]. simpl.
  unfold barrier_at, color_at in Hb. rewrite Hn in Hb. simpl in Hb.
  apply bool_decide_eq_false in Hb.
  unfold color_at in Ho. rewrite Hn in Ho. simpl in Ho.
  split; [split; intros ?; [destruct Hb; congruence|done]|].
  intros Hc'. specialize (Ho Hc'). congruence.
Qed.

Lemma barrier_at_false_get (g : Cells) (p : Ref) (nd : Node.t) :
  get g p = Some nd → Node.is_barrier nd = false → barrier_at g p = false.
Proof.
  intros Hnd Hb. unfold barrier_at, color_at. rewrite Hnd. simpl.
  unfold Node.is_barrier in Hb. apply bool_decide_eq_false in Hb.
  apply bool_decide_eq_false. congruence.
Qed.

Lemma color_at_paint_ne (c : Color) (g : Cells) (p q : Ref) :
  p ≠ q → color_at (modify (Node.set_color c) p g) q = color_at g q.
Proof. intros H. rewrite color_at_modify. by case_decide. Qed.

Lemma color_at_paint_eq (c : Color) (g : Cells) (p : Ref) :
  in_grid g p = true → color_at (modify (Node.set_color c) p g) p = Some c.
Proof.
  intros [nd Hnd]%bool_decide_eq_true. rewrite color_at_modify.
  case_decide; [|done]. unfold color_at. by rewrite Hnd.
Qed.

Ltac unfold_make :=
  unfold Node.make_open, Node.make_closed, Node.make_path, Node.make_start,
    Node.make_end, Node.make_barrier, Node.reset in *.

(** ** The invariant of [bfs] and [dfs] *)

Lemma uninformed_init_inv (g : Cells) (start end_ : Ref) :
  uninformed_inv g start end_ (Uninformed.init g start).
Proof.
  unfold uninformed_inv. simpl. split_and!; try done.
  - apply repaints_refl.
  - by apply elem_of_singleton.
  - intros p ->%list_elem_of_singleton. by left.
Qed.

Lemma discover_inv (push : Ref → list Ref → list Ref) (g : Cells)
    (start end_ current : Ref) (s s' : Uninformed.state) (n : Ref) :
  (∀ x a q, x ∈ push a q → x = a ∨ x ∈ q) →
  current = start ∨ barrier_at g current = false →
  uninformed_inv g start end_ s →
  Uninformed.discover push current end_ s n = Some s' →
  uninformed_inv g start end_ s'.
Proof.
  intros Hpush Hcur (Hrep & Hcs & Hce & Hsv & Hfr & Hcf).
  unfold Uninformed.discover. case_bool_decide as Hv; [by intros [= <-]|].
  destruct (get _ n) as [nd|] eqn:Hnd; [|done]. simpl.
  destruct (Node.is_barrier nd) eqn:Hb; [by intros [= <-]|].
  intros [= <-].
  assert (Hbn : barrier_at g n = false).
  { rewrite <- (repaints_barrier_at g (Uninformed.grid s)) by done.
    by eapply barrier_at_false_get. }
  assert (Hns : n ≠ start) by (by intros ->).
  unfold uninformed_inv. simpl. unfold_make. split_and!.
  - case_bool_decide; [|done]. by apply repaints_paint.
  - case_bool_decide; [|done]. by rewrite color_at_paint_ne.
  - case_bool_decide as He; [|done]. by rewrite color_at_paint_ne.
  - apply elem_of_union. by right.
  - intros p [->|Hp]%Hpush; [by right|by apply Hfr].
  - intros k v. rewrite lookup_insert. case_decide; [|by apply Hcf].
    by intros [= <-].
Qed.

Lemma uninformed_close_inv (g : Cells) (start end_ current : Ref)
    (s : Uninformed.state) :
  current = start ∨ barrier_at g current = false →
  uninformed_inv g start end_ s →
  uninformed_inv g start end_ (Uninformed.close current start end_ s).
Proof.
  intros Hcur (Hrep & Hcs & Hce & Hsv & Hfr & Hcf). unfold Uninformed.close.
  case_bool_decide as Hc; [|done]. destruct Hc as [Hc1 Hc2].
  destruct Hcur as [?|Hcur]; [done|].
  unfold uninformed_inv. simpl. unfold_make. split_and!; try done.
  - by apply repaints_paint.
  - by rewrite color_at_paint_ne.
  - by rewrite color_at_paint_ne.
Qed.

Lemma with_frontier_inv (g : Cells) (start end_ c : Ref) (q : list Ref)
    (s : Uninformed.state) :
  Uninformed.frontier s = c :: q →
  uninformed_inv g start end_ s →
  uninformed_inv g start end_ (Uninformed.with_frontier q s) ∧
  (c = start ∨ barrier_at g c = false).
Proof.
  intros Hf (Hrep & Hcs & Hce & Hsv & Hfr & Hcf). rewrite Hf in Hfr.
  split; [|apply Hfr; by left].
  unfold uninformed_inv. simpl. split_and!; try done.
  intros p Hp. apply Hfr. by right.
Qed.

Lemma enqueue_elem (x a : Ref) (q : list Ref) :
  x ∈ Uninformed.enqueue a q → x = a ∨ x ∈ q.
Proof.
  unfold Uninformed.enqueue. rewrite elem_of_app, list_elem_of_singleton. tauto.
Qed.

Lemma push_elem (x a : Ref) (q : list Ref) :
  x ∈ Uninformed.push a q → x = a ∨ x ∈ q.
Proof. unfold Uninformed.push. by rewrite elem_of_cons. Qed.

Lemma bfs_body_inv (g : Cells) (fuel : nat) (start end_ : Ref)
    (s s' : Uninformed.state) :
  uninformed_inv g start end_ s →
  Uninformed.bfs_body fuel start end_ s = Some (Continue s') →
  uninformed_inv g start end_ s'.
Proof.
  intros Hs (c & q & nd & s1 & Hf & Hne & _ & Hfold & ->)%bfs_body_continue.
  destruct (with_frontier_inv g start end_ c q s Hf Hs) as [Hs0 Hc].
  apply uninformed_close_inv; [done|].
  eapply (foldM_inv (uninformed_inv g start end_)); [|exact Hs0|exact Hfold].
  intros s2 a s3 _ H2 H3. eapply discover_inv; [apply enqueue_elem|done..].
Qed.

Lemma dfs_body_inv (g : Cells) (fuel : nat) (start end_ : Ref)
    (s s' : Uninformed.state) :
  uninformed_inv g start end_ s →
  Uninformed.dfs_body fuel start end_ s = Some (Continue s') →
  uninformed_inv g start end_ s'.
Proof.
  intros Hs (c & q & nd & Hf & Hne & _ & Hfold)%dfs_body_continue.
  destruct (with_frontier_inv g start end_ c q s Hf Hs) as [Hs0 Hc].
  eapply (foldM_inv (uninformed_inv g start end_)); [| |exact Hfold].
  - intros s2 a s3 _ H2 H3. eapply discover_inv; [apply push_elem|done..].
  - by apply uninformed_close_inv.
Qed.

(** ** The invariant of [dijkstra] and [astar] *)

Lemma all_infty_lookup (g : Cells) (p : Ref) (z : Z) :
  all_infty g !! p = Some (Num z) → False.
Proof.
  unfold all_infty. intros H%elem_of_list_to_map_2.
  by apply list_elem_of_fmap in H as (q & [= _ ?] & _).
Qed.

Lemma informed_init_inv (g : Cells) (start end_ : Ref) (f : gmap Ref score)
    (h : list entry) :
  (∀ e, e ∈ h → e.2 = start) →
  informed_inv g start end_
    {| Informed.grid := g;
       Informed.g_score := <[start := Num 0]> (all_infty g);
       Informed.f_score := f; Informed.count := 0;
       Informed.open_set := h; Informed.came_from := ∅;
       Informed.open_set_hash := {[start]};
       Informed.visited_nodes_count := 0 |}.
Proof.
  intros Hh. unfold informed_inv. simpl. split_and!; try done.
  - apply repaints_refl.
  - by rewrite lookup_insert_eq.
  - intros p z. rewrite lookup_insert. case_decide; [by intros [= <-]|].
    by intros ?%all_infty_lookup.
  - intros e He. left. by apply Hh.
Qed.

Lemma relaxed_inv (is_astar : bool) (g : Cells) (start end_ c n : Ref)
    (gc gn : score) (h : Z) (s s' : Informed.state) :
  c = start ∨ barrier_at g c = false →
  barrier_at g n = false →
  Informed.g_score s !! c = Some gc → Informed.g_score s !! n = Some gn →
  informed_inv g start end_ s →
  relaxed is_astar c n end_ gc gn h s s' →
  informed_inv g start end_ s'.
Proof.
  intros Hc Hn Hgc Hgn (Hrep & Hcs & Hce & Hg0 & Hpos & Hos & Hcf). unfold relaxed.
  destruct gc as [a|]; [|by intros ->]. unfold score_succ.
  destruct (score_lt (Num (a + 1)) gn) eqn:Hlt; [|by intros ->].
  assert (Ha : 0 ≤ a) by (by eapply Hpos).
  assert (Hns : n ≠ start).
  { intros ->. rewrite Hg0 in Hgn. injection Hgn as <-.
    unfold score_lt in Hlt. apply bool_decide_eq_true in Hlt. lia. }
  intros (Hg & Hcame & _ & _ & Hrest).
  assert (Hgs : Informed.g_score s' !! start = Some (Num 0) ∧
                (∀ p z, Informed.g_score s' !! p = Some (Num z) → 0 ≤ z) ∧
                (∀ k v, Informed.came_from s' !! k = Some v →
                        v = start ∨ barrier_at g v = false)).
  { rewrite Hg, Hcame. split_and!.
    - by rewrite lookup_insert_ne.
    - intros p z. destruct (decide (n = p)) as [<-|Hnp].
      + rewrite lookup_insert_eq. intros [= <-]. lia.
      + rewrite lookup_insert_ne by done. apply Hpos.
    - intros k v. destruct (decide (n = k)) as [<-|Hnk].
      + rewrite lookup_insert_eq. by intros [= <-].
      + rewrite lookup_insert_ne by done. apply Hcf. }
  destruct Hgs as (Hg0' & Hpos' & Hcf').
  case_bool_decide as Hin.
  - destruct Hrest as (Ho & _ & _ & Hgr). unfold informed_inv.
    rewrite Ho, Hgr. done.
  - destruct Hrest as (_ & Ho & _ & Hgr). unfold informed_inv.
    rewrite Ho, Hgr. unfold_make. split_and!; try done.
    + case_bool_decide; [|done]. by apply repaints_paint.
    + case_bool_decide; [|done]. by rewrite color_at_paint_ne.
    + case_bool_decide; [|done]. by rewrite color_at_paint_ne.
    + intros e [->|He]%elem_of_heappush; [by right|by apply Hos].
Qed.

Lemma dijkstra_relax_inv (g : Cells) (start end_ c n : Ref)
    (s s' : Informed.state) :
  c = start ∨ barrier_at g c = false →
  informed_inv g start end_ s →
  Informed.dijkstra_relax c end_ s n = Some s' →
  informed_inv g start end_ s'.
Proof.
  intros Hc Hs H. pose proof H as H0. unfold Informed.dijkstra_relax in H.
  destruct (get _ n) as [nd|] eqn:Hnd; [|done]. simpl in H.
  destruct (Node.is_barrier nd) eqn:Hb; [by injection H as <-|].
  destruct (Informed.g_score s !! c) as [gc|] eqn:Hgc; [|done]. simpl in H.
  destruct (Informed.g_score s !! n) as [gn|] eqn:Hgn; [|done].
  destruct (dijkstra_relax_relaxed c n end_ s nd gc gn) as (s'' & Hs'' & Hr); [done..|].
  assert (s'' = s') as -> by congruence.
  eapply relaxed_inv; [exact Hc| |exact Hgc|exact Hgn|exact Hs|exact Hr].
  rewrite <- (repaints_barrier_at g (Informed.grid s)) by apply Hs.
  by eapply barrier_at_false_get.
Qed.

Lemma astar_relax_inv (g : Cells) (start end_ c n : Ref)
    (s s' : Informed.state) :
  c = start ∨ barrier_at g c = false →
  informed_inv g start end_ s →
  Informed.astar_relax c end_ s n = Some s' →
  informed_inv g start end_ s'.
Proof.
  intros Hc Hs H. pose proof H as H0. unfold Informed.astar_relax in H.
  destruct (get _ n) as [nd|] eqn:Hnd; [|done]. simpl in H.
  destruct (Node.is_barrier nd) eqn:Hb; [by injection H as <-|].
  destruct (Informed.g_score s !! c) as [gc|] eqn:Hgc; [|done]. simpl in H.
  destruct (Informed.g_score s !! n) as [gn|] eqn:Hgn; [|done]. simpl in H.
  destruct (score_lt (score_succ gc) gn) eqn:Hlt; [|by injection H as <-].
  destruct (score_succ gc) as [t|] eqn:Ht; [|done].
  destruct (get _ end_) as [e_nd|] eqn:He; [|done].
  destruct (astar_relax_relaxed c n end_ s nd e_nd gc gn) as (s'' & Hs'' & Hr); [done..|].
  assert (s'' = s') as -> by congruence.
  eapply relaxed_inv; [exact Hc| |exact Hgc|exact Hgn|exact Hs|exact Hr].
  rewrite <- (repaints_barrier_at g (Informed.grid s)) by apply Hs.
  by eapply barrier_at_false_get.
Qed.

Lemma informed_body_inv (best : Informed.state → gmap Ref score)
    (relax : Ref → Ref → Informed.state → Ref → option Informed.state)
    (g : Cells) (fuel : nat) (start end_ : Ref) (s s' : Informed.state) :
  (∀ c n s s', c = start ∨ barrier_at g c = false →
     informed_inv g start end_ s → relax c end_ s n = Some s' →
     informed_inv g start end_ s') →
  informed_inv g start end_ s →
  Informed.body best relax fuel start end_ s = Some (Continue s') →
  informed_inv g start end_ s'.
Proof.
  intros Hrelax Hs Hb.
  assert (Hpop : ∀ k t c h, Informed.open_set s = (k, t, c) :: h →
            informed_inv g start end_ (Informed.popped h c s) ∧
            (c = start ∨ barrier_at g c = false)).
  { intros k t c h Ho. destruct Hs as (Hrep & Hcs & Hce & Hg0 & Hpos & Hos & Hcf).
    rewrite Ho in Hos. split; [|apply (Hos (k, t, c)); by left].
    unfold informed_inv. simpl. split_and!; try done.
    intros e He. apply Hos. by right. }
  apply informed_body_continue in Hb
    as (k & t & c & h & b & Ho & _ & _ & [[_ ->]|(_ & _ & nd & s1 & _ & Hfold & ->)]);
    destruct (Hpop k t c h Ho) as [Hs0 Hc]; [done|].
  assert (H1 : informed_inv g start end_ s1).
  { eapply (foldM_inv (informed_inv g start end_)); [|exact Hs0|exact Hfold].
    intros s2 a s3 _ H2 H3. by eapply Hrelax. }
  destruct H1 as (Hrep & Hcs & Hce & Hg0 & Hpos & Hos & Hcf).
  unfold Informed.close. case_bool_decide as Hcc; [|done].
  destruct Hcc as [Hc1 Hc2]. destruct Hc as [?|Hc]; [done|].
  unfold informed_inv. simpl. unfold_make. split_and!; try done.
  - by apply repaints_paint.
  - by rewrite color_at_paint_ne.
  - by rewrite color_at_paint_ne.
Qed.

(** ** What is returned: the store after a run *)

Lemma reconstruct_path_in_grid (fuel : nat) (cf : gmap Ref Ref) (cur : Ref)
    (g : Cells) (pn pn' : list Ref) (g1 : Cells) (p : Ref) :
  reconstruct_path fuel cf cur g pn = Some (pn', g1) →
  in_grid g1 p = in_grid g p.
Proof.
  revert cur g pn. induction fuel as [|fuel IH]; intros cur g pn; simpl;
    destruct (cf !! cur) as [v|]; try done; try (by intros [= _ <-]).
  destruct (get g v) as [nd|]; [|done]. simpl.
  destruct (Node.is_start nd); simpl; [apply IH|].
  intros ->%IH. apply in_grid_modify.
Qed.

Lemma reconstruct_path_repaints (g0 : Cells) (start : Ref) (fuel : nat)
    (cf : gmap Ref Ref) (cur : Ref) (g : Cells) (pn pn' : list Ref) (g1 : Cells) :
  (∀ k v, cf !! k = Some v → v = start ∨ barrier_at g0 v = false) →
  repaints g0 g → color_at g start = Some ORANGE →
  reconstruct_path fuel cf cur g pn = Some (pn', g1) →
  repaints g0 g1 ∧ color_at g1 start = Some ORANGE.
Proof.
  intros Hcf. revert cur g pn.
  induction fuel as [|fuel IH]; intros cur g pn Hrep Hs; simpl;
    destruct (cf !! cur) as [v|] eqn:Hv; try done; try (by intros [= _ <-]).
  destruct (get g v) as [nd|] eqn:Hnd; [|done]. simpl.
  destruct (Node.is_start nd) eqn:Hst; simpl; [by apply IH|].
  assert (Hvs : v ≠ start).
  { intros ->. unfold color_at in Hs. rewrite Hnd in Hs. injection Hs as Hs.
    unfold Node.is_start in Hst. by rewrite Hs in Hst. }
  unfold_make. apply IH.
  - apply repaints_paint; [done| |done|done].
    by destruct (Hcf cur v Hv).
  - by rewrite color_at_paint_ne.
Qed.

Section Footprint.
Variable A : search.
Variable cf_of : state A → gmap Ref Ref.
Variables (g : Cells) (start end_ : Ref) (fuel : nat).
Variable I : state A → Prop.

Hypothesis Hinit : ∀ s0, init A g start end_ = Some s0 → I s0.
Hypothesis Hstep : ∀ s s',
  I s → body A fuel start end_ s = Some (Continue s') → I s'.
Hypothesis Hfacts : ∀ s, I s →
  repaints g (grid_of A s) ∧
  color_at (grid_of A s) start = color_at g start ∧
  color_at (grid_of A s) end_ = color_at g end_ ∧
  (∀ k v, cf_of s !! k = Some v → v = start ∨ barrier_at g v = false).
Hypothesis Hret : ∀ s r g',
  body A fuel start end_ s = Some (Return r g') →
  finish fuel (cf_of s) start end_ (grid_of A s) (count_of A s) = Some (r, g').

Lemma footprint_reaches (s0 s : state A) :
  init A g start end_ = Some s0 →
  reaches (pending A) (body A fuel start end_) s0 s →
  color_at (grid_of A s) start = color_at g start ∧
  color_at (grid_of A s) end_ = color_at g end_.
Proof.
  intros H0 Hr. apply (reaches_inv _ _ I) in Hr; [|by eauto|by auto].
  by destruct (Hfacts s Hr) as (_ & ? & ? & _).
Qed.

Lemma footprint_colors (sched : list signal) (r : result) (g' : Cells) :
  run A fuel sched g start end_ = Some (r, g') →
  if found r
  then color_at g' start = Some ORANGE ∧
       (start ≠ end_ → color_at g' end_ = Some TURQUOISE)
  else color_at g' start = color_at g start ∧
       color_at g' end_ = color_at g end_.
Proof.
  unfold run. destruct (in_grid g start) eqn:Hgs; [|done].
  destruct (in_grid g end_) eqn:Hge; [|done]. simpl.
  destruct (init A g start end_) as [s0|] eqn:H0; [|done]. simpl.
  apply (while_loop_inv _ _ _ _ I
           (λ rg, if found rg.1
                  then color_at rg.2 start = Some ORANGE ∧
                       (start ≠ end_ → color_at rg.2 end_ = Some TURQUOISE)
                  else color_at rg.2 start = color_at g start ∧
                       color_at rg.2 end_ = color_at g end_)); [| |by eauto|by auto].
  - intros s Hs. simpl. by destruct (Hfacts s Hs) as (_ & ? & ? & _).
  - intros s r' g'' Hs _ Hb. apply Hret in Hb.
    apply finish_inv in Hb as (pn & g1 & Hrec & -> & ->). simpl.
    destruct (Hfacts s Hs) as (Hrep & _).
    assert (Hin : ∀ p, in_grid g1 p = in_grid g p).
    { intros p. rewrite (reconstruct_path_in_grid _ _ _ _ _ _ _ _ Hrec).
      by apply repaints_in_grid. }
    unfold_make. split.
    + apply color_at_paint_eq. by rewrite in_grid_modify, Hin.
    + intros Hne. rewrite color_at_paint_ne by done.
      apply color_at_paint_eq. by rewrite Hin.
Qed.

Lemma footprint_repaints (sched : list signal) (r : result) (g' : Cells) :
  color_at g start = Some ORANGE → color_at g end_ = Some TURQUOISE →
  run A fuel sched g start end_ = Some (r, g') →
  repaints g g'.
Proof.
  intros Hcs Hce. unfold run.
  destruct (in_grid g start && in_grid g end_); [|done].
  destruct (init A g start end_) as [s0|] eqn:H0; [|done]. simpl.
  apply (while_loop_inv _ _ _ _ I (λ rg, repaints g rg.2)); [| |by eauto|by auto].
  - intros s Hs. simpl. by destruct (Hfacts s Hs) as (? & _).
  - intros s r' g'' Hs _ Hb. apply Hret in Hb.
    apply finish_inv in Hb as (pn & g1 & Hrec & -> & ->). simpl.
    destruct (Hfacts s Hs) as (Hrep & Hs1 & _ & Hcf).
    eapply reconstruct_path_repaints in Hrec as [Hrep1 _];
      [|exact Hcf|exact Hrep|by rewrite Hs1].
    assert (Hbs : barrier_at g start = false).
    { unfold barrier_at. rewrite Hcs. by apply bool_decide_eq_false. }
    assert (Hbe : barrier_at g end_ = false).
    { unfold barrier_at. rewrite Hce. by apply bool_decide_eq_false. }
    unfold_make. apply repaints_paint; [|done..].
    apply repaints_paint; done.
Qed.

End Footprint.

Lemma uninformed_inv_facts (g : Cells) (start end_ : Ref) (s : Uninformed.state) :
  uninformed_inv g start end_ s →
  repaints g (Uninformed.grid s) ∧
  color_at (Uninformed.grid s) start = color_at g start ∧
  color_at (Uninformed.grid s) end_ = color_at g end_ ∧
  (∀ k v, Uninformed.came_from s !! k = Some v → v = start ∨ barrier_at g v = false).
Proof. by intros (? & ? & ? & _ & _ & ?). Qed.

Lemma informed_inv_facts (g : Cells) (start end_ : Ref) (s : Informed.state) :
  informed_inv g start end_ s →
  repaints g (Informed.grid s) ∧
  color_at (Informed.grid s) start = color_at g start ∧
  color_at (Informed.grid s) end_ = color_at g end_ ∧
  (∀ k v, Informed.came_from s !! k = Some v → v = start ∨ barrier_at g v = false).
Proof. by intros (? & ? & ? & _ & _ & _ & ?). Qed.

Lemma BFS_return (fuel : nat) (start end_ : Ref) (s : state BFS) (r : result)
    (g' : Cells) :
  body BFS fuel start end_ s = Some (Return r g') →
  finish fuel (Uninformed.came_from s) start end_ (grid_of BFS s) (count_of BFS s)
  = Some (r, g').
Proof. by intros (q & _ & H)%bfs_body_return. Qed.

Lemma DFS_return (fuel : nat) (start end_ : Ref) (s : state DFS) (r : result)
    (g' : Cells) :
  body DFS fuel start end_ s = Some (Return r g') →
  finish fuel (Uninformed.came_from s) start end_ (grid_of DFS s) (count_of DFS s)
  = Some (r, g').
Proof. by intros (q & _ & H)%dfs_body_return. Qed.

Lemma DIJKSTRA_return (fuel : nat) (start end_ : Ref) (s : state DIJKSTRA)
    (r : result) (g' : Cells) :
  body DIJKSTRA fuel start end_ s = Some (Return r g') →
  finish fuel (Informed.came_from s) start end_ (grid_of DIJKSTRA s)
    (count_of DIJKSTRA s) = Some (r, g').
Proof. by intros (k & t & h & b & _ & _ & _ & _ & H)%informed_body_return. Qed.

Lemma ASTAR_return (fuel : nat) (start end_ : Ref) (s : state ASTAR)
    (r : result) (g' : Cells) :
  body ASTAR fuel start end_ s = Some (Return r g') →
  finish fuel (Informed.came_from s) start end_ (grid_of ASTAR s)
    (count_of ASTAR s) = Some (r, g').
Proof. by intros (k & t & h & b & _ & _ & _ & _ & H)%informed_body_return. Qed.

Lemma DIJKSTRA_init_inv (g : Cells) (start end_ : Ref) (s0 : state DIJKSTRA) :
  init DIJKSTRA g start end_ = Some s0 → informed_inv g start end_ s0.
Proof.
  intros [= <-]. apply informed_init_inv.
  by intros e ->%list_elem_of_singleton.
Qed.

Lemma ASTAR_init_inv (g : Cells) (start end_ : Ref) (s0 : state ASTAR) :
  init ASTAR g start end_ = Some s0 → informed_inv g start end_ s0.
Proof.
  simpl. unfold Informed.astar_init.
  destruct (get g start); [|done]. destruct (get g end_); [|done]. simpl.
  intros [= <-]. apply informed_init_inv.
  by intros e ->%list_elem_of_singleton.
Qed.

Lemma DIJKSTRA_step_inv (g : Cells) (fuel : nat) (start end_ : Ref)
    (s s' : state DIJKSTRA) :
  informed_inv g start end_ s →
  body DIJKSTRA fuel start end_ s = Some (Continue s') →
  informed_inv g start end_ s'.
Proof.
  intros Hs Hb. eapply informed_body_inv; [|exact Hs|exact Hb].
  intros c n s1 s2. apply dijkstra_relax_inv.
Qed.

Lemma ASTAR_step_inv (g : Cells) (fuel : nat) (start end_ : Ref)
    (s s' : state ASTAR) :
  informed_inv g start end_ s →
  body ASTAR fuel start end_ s = Some (Continue s') →
  informed_inv g start end_ s'.
Proof.
  intros Hs Hb. eapply informed_body_inv; [|exact Hs|exact Hb].
  intros c n s1 s2. apply astar_relax_inv.
Qed.

(** The three facts about the store, for each of the four searches. *)
Lemma algorithms_footprint (A : search) (fuel : nat) (g : Cells) (start end_ : Ref) :
  A ∈ algorithms →
  (∀ s0 s, init A g start end_ = Some s0 →
     reaches (pending A) (body A fuel start end_) s0 s →
     color_at (grid_of A s) start = color_at g start ∧
     color_at (grid_of A s) end_ = color_at g end_) ∧
  (∀ sched r g', run A fuel sched g start end_ = Some (r, g') →
     if found r
     then color_at g' start = Some ORANGE ∧
          (start ≠ end_ → color_at g' end_ = Some TURQUOISE)
     else color_at g' start = color_at g start ∧
          color_at g' end_ = color_at g end_) ∧
  (∀ sched r g', color_at g start = Some ORANGE → color_at g end_ = Some TURQUOISE →
     run A fuel sched g start end_ = Some (r, g') → repaints g g').
Proof.
  unfold algorithms. rewrite !elem_of_cons, elem_of_nil.
  intros [->|[->|[->|[->|[]]]]].
  - split_and!.
    + apply (footprint_reaches BFS Uninformed.came_from g start end_ fuel
               (uninformed_inv g start end_));
        [by intros s0 [= <-]; apply uninformed_init_inv
        |apply bfs_body_inv|apply uninformed_inv_facts].
    + apply (footprint_colors BFS Uninformed.came_from g start end_ fuel
               (uninformed_inv g start end_));
        [by intros s0 [= <-]; apply uninformed_init_inv
        |apply bfs_body_inv|apply uninformed_inv_facts|apply BFS_return].
    + apply (footprint_repaints BFS Uninformed.came_from g start end_ fuel
               (uninformed_inv g start end_));
        [by intros s0 [= <-]; apply uninformed_init_inv
        |apply bfs_body_inv|apply uninformed_inv_facts|apply BFS_return].
  - split_and!.
    + apply (footprint_reaches DFS Uninformed.came_from g start end_ fuel
               (uninformed_inv g start end_));
        [by intros s0 [= <-]; apply uninformed_init_inv
        |apply dfs_body_inv|apply uninformed_inv_facts].
    + apply (footprint_colors DFS Uninformed.came_from g start end_ fuel
               (uninformed_inv g start end_));
        [by intros s0 [= <-]; apply uninformed_init_inv
        |apply dfs_body_inv|apply uninformed_inv_facts|apply DFS_return].
    + apply (footprint_repaints DFS Uninformed.came_from g start end_ fuel
               (uninformed_inv g start end_));
        [by intros s0 [= <-]; apply uninformed_init_inv
        |apply dfs_body_inv|apply uninformed_inv_facts|apply DFS_return].
  - split_and!.
    + apply (footprint_reaches DIJKSTRA Informed.came_from g start end_ fuel
               (informed_inv g start end_));
        [apply DIJKSTRA_init_inv|apply DIJKSTRA_step_inv|apply informed_inv_facts].
    + apply (footprint_colors DIJKSTRA Informed.came_from g start end_ fuel
               (informed_inv g start end_));
        [apply DIJKSTRA_init_inv|apply DIJKSTRA_step_inv|apply informed_inv_facts
        |apply DIJKSTRA_return].
    + apply (footprint_repaints DIJKSTRA Informed.came_from g start end_ fuel
               (informed_inv g start end_));
        [apply DIJKSTRA_init_inv|apply DIJKSTRA_step_inv|apply informed_inv_facts
        |apply DIJKSTRA_return].
  - split_and!.
    + apply (footprint_reaches ASTAR Informed.came_from g start end_ fuel
               (informed_inv g start end_));
        [apply ASTAR_init_inv|apply ASTAR_step_inv|apply informed_inv_facts].
    + apply (footprint_colors ASTAR Informed.came_from g start end_ fuel
               (informed_inv g start end_));
        [apply ASTAR_init_inv|apply ASTAR_step_inv|apply informed_inv_facts
        |apply ASTAR_return].
    + apply (footprint_repaints ASTAR Informed.came_from g start end_ fuel
               (informed_inv g start end_));
        [apply ASTAR_init_inv|apply ASTAR_step_inv|apply informed_inv_facts
        |apply ASTAR_return].
Qed.


(** ** C8: a search reads the store through its view only *)

Lemma same_view_refl (g : Cells) : same_view g g.
Proof. done. Qed.

Lemma same_view_get (g1 g2 : Cells) (p : Ref) (n1 : Node.t) :
  same_view g1 g2 → get g1 p = Some n1 →
  ∃ n2, get g2 p = Some n2 ∧
        Node.is_barrier n2 = Node.is_barrier n1 ∧
        Node.is_start n2 = Node.is_start n1 ∧
        Node.neighbors n2 = Node.neighbors n1 ∧
        Node.get_pos n2 = Node.get_pos n1.
Proof.
  intros H Hn. specialize (H p). rewrite Hn in H.
  destruct (get g2 p) as [n2|]; [|done]. exists n2. split; [done|].
  simpl in H. apply (inj Some) in H. unfold view in H.
  pose proof (f_equal (λ x, x.1.1) H) as H1.
  pose proof (f_equal (λ x, x.1.2) H) as H2.
  pose proof (f_equal (λ x, x.2) H) as H3. simpl in H1, H2, H3.
  split_and!; [done|done|..].
  - by apply (f_equal Node.neighbors) in H1.
  - unfold Node.get_pos.
    pose proof (f_equal Node.row H1). pose proof (f_equal Node.col H1).
    simpl in *. congruence.
Qed.

Lemma same_view_in_grid (g1 g2 : Cells) (p : Ref) :
  same_view g1 g2 → in_grid g1 p = in_grid g2 p.
Proof.
  intros H. specialize (H p). unfold in_grid. apply bool_decide_ext.
  destruct (get g1 p), (get g2 p); try done; split; intros [? ?]; done.
Qed.

Lemma same_view_paint (c : Color) (p : Ref) (g1 g2 : Cells) :
  same_view g1 g2 →
  same_view (modify (Node.set_color c) p g1) (modify (Node.set_color c) p g2).
Proof.
  intros H q. specialize (H q). rewrite !get_modify. case_decide; [|done].
  destruct (get g1 q) as [n1|], (get g2 q) as [n2|]; simpl in *; try done.
  apply (inj Some) in H. unfold view in H.
  pose proof (f_equal (λ x, x.1.1) H) as H1. simpl in H1.
  unfold view. simpl.
  rewrite !set_color_set_color. unfold Node.is_barrier, Node.is_start. simpl.
  by rewrite H1.
Qed.

Lemma all_infty_in_grid (g : Cells) (p : Ref) :
  all_infty g !! p = if in_grid g p then Some Infty else None.
Proof.
  unfold all_infty, in_grid. case_bool_decide as Hp.
  - apply elem_of_list_to_map_1'.
    + intros y (q & [= <- ->] & _)%list_elem_of_fmap. done.
    + apply list_elem_of_fmap. exists p. split; [done|]. by apply elem_of_all_refs.
  - apply not_elem_of_list_to_map_1. rewrite <- list_fmap_compose.
    intros (q & -> & Hq)%list_elem_of_fmap. simpl in Hp.
    by apply elem_of_all_refs in Hq.
Qed.

Lemma same_view_all_infty (g1 g2 : Cells) :
  same_view g1 g2 → all_infty g1 = all_infty g2.
Proof.
  intros H. apply map_eq. intros p.
  by rewrite !all_infty_in_grid, (same_view_in_grid g1 g2).
Qed.

Lemma foldM_sim {A S} (R : S → S → Prop) (f : S → A → option S) (l : list A) :
  (∀ s1 s2 a s1', R s1 s2 → f s1 a = Some s1' → ∃ s2', f s2 a = Some s2' ∧ R s1' s2') →
  ∀ s1 s2 s1', R s1 s2 → foldM f s1 l = Some s1' →
    ∃ s2', foldM f s2 l = Some s2' ∧ R s1' s2'.
Proof.
  intros Hf. induction l as [|a l IH]; intros s1 s2 s1' HR Hfold; simpl in *.
  - injection Hfold as <-. eauto.
  - destruct (f s1 a) as [t1|] eqn:Ht1; [|done]. simpl in Hfold.
    destruct (Hf s1 s2 a t1 HR Ht1) as (t2 & -> & HR'). simpl. eauto.
Qed.

Section LoopSim.
Context {S : Type}.
Variable pending : S → bool.
Variable grid_of : S → Cells.
Variable count_of : S → Z.
Variable body : S → option (outcome S).
Variable R : S → S → Prop.

Hypothesis Hpend : ∀ s1 s2, R s1 s2 → pending s1 = pending s2.
Hypothesis Hcount : ∀ s1 s2, R s1 s2 → count_of s1 = count_of s2.
Hypothesis Hgrid : ∀ s1 s2, R s1 s2 → same_view (grid_of s1) (grid_of s2).
Hypothesis Hcont : ∀ s1 s2 s1',
  R s1 s2 → body s1 = Some (Continue s1') →
  ∃ s2', body s2 = Some (Continue s2') ∧ R s1' s2'.
Hypothesis Hret : ∀ s1 s2 r g1,
  R s1 s2 → body s1 = Some (Return r g1) →
  ∃ g2, body s2 = Some (Return r g2) ∧ same_view g1 g2.

Lemma while_loop_sim (fuel : nat) (sched : list signal) (s1 s2 : S)
    (r : result) (g1 : Cells) :
  R s1 s2 →
  while_loop pending grid_of count_of body fuel sched s1 = Some (r, g1) →
  ∃ g2, while_loop pending grid_of count_of body fuel sched s2 = Some (r, g2) ∧
        same_view g1 g2.
Proof.
  revert sched s1 s2. induction fuel as [|fuel IH]; intros sched s1 s2 HR Hrun;
    rewrite while_loop_unfold in *; rewrite <- (Hpend s1 s2 HR);
    destruct (pending s1) eqn:Hp; try done;
    try (injection Hrun as <- <-; rewrite <- (Hcount s1 s2 HR); by eauto).
  assert (Hgo : match body s1 with
                | None => None
                | Some (Return r g) => Some (r, g)
                | Some (Continue s') =>
                    while_loop pending grid_of count_of body fuel (tail sched) s'
                end = Some (r, g1) →
                ∃ g2, match body s2 with
                      | None => None
                      | Some (Return r g) => Some (r, g)
                      | Some (Continue s') =>
                          while_loop pending grid_of count_of body fuel (tail sched) s'
                      end = Some (r, g2) ∧ same_view g1 g2).
  { destruct (body s1) as [[r' g'|s1']|] eqn:Hb; [| |done].
    - intros [= -> ->]. destruct (Hret _ _ _ _ HR Hb) as (g2 & -> & Hv). eauto.
    - intros Hrun'. destruct (Hcont _ _ _ HR Hb) as (s2' & -> & HR'). eauto. }
  destruct sched as [|[|] sched]; [by apply Hgo|by apply Hgo|].
  injection Hrun as <- <-. rewrite <- (Hcount s1 s2 HR). eauto.
Qed.
End LoopSim.

Lemma reconstruct_path_sim (fuel : nat) (cf : gmap Ref Ref) (cur : Ref)
    (g1 g2 : Cells) (pn pn' : list Ref) (g1' : Cells) :
  same_view g1 g2 →
  reconstruct_path fuel cf cur g1 pn = Some (pn', g1') →
  ∃ g2', reconstruct_path fuel cf cur g2 pn = Some (pn', g2') ∧ same_view g1' g2'.
Proof.
  revert cur g1 g2 pn. induction fuel as [|fuel IH]; intros cur g1 g2 pn Hv; simpl;
    destruct (cf !! cur) as [v|]; try done; try (intros [= <- <-]; by eauto).
  destruct (get g1 v) as [n1|] eqn:Hn1; [|done]. simpl.
  destruct (same_view_get g1 g2 v n1 Hv Hn1) as (n2 & Hn2 & _ & Hst & _).
  rewrite Hn2. simpl. rewrite Hst.
  destruct (Node.is_start n1); simpl; [by apply IH|].
  apply IH. by apply same_view_paint.
Qed.

Lemma finish_sim (fuel : nat) (cf : gmap Ref Ref) (start end_ : Ref)
    (g1 g2 : Cells) (n : Z) (r : result) (g1' : Cells) :
  same_view g1 g2 →
  finish fuel cf start end_ g1 n = Some (r, g1') →
  ∃ g2', finish fuel cf start end_ g2 n = Some (r, g2') ∧ same_view g1' g2'.
Proof.
  intros Hv (pn & g1a & Hrec & -> & ->)%finish_inv.
  destruct (reconstruct_path_sim _ _ _ _ _ _ _ _ Hv Hrec) as (g2a & Hrec2 & Hv2).
  unfold finish. rewrite Hrec2. simpl. eexists. split; [done|].
  by do 2 apply same_view_paint.
Qed.

Lemma discover_sim (push : Ref → list Ref → list Ref) (c e : Ref)
    (s1 s2 : Uninformed.state) (n : Ref) (s1' : Uninformed.state) :
  uninformed_sim s1 s2 →
  Uninformed.discover push c e s1 n = Some s1' →
  ∃ s2', Uninformed.discover push c e s2 n = Some s2' ∧ uninformed_sim s1' s2'.
Proof.
  destruct s1 as [g1 fr1 vis1 cf1 k1], s2 as [g2 fr2 vis2 cf2 k2].
  intros (Hv & Hf & Hvis & Hcf & Hk). simpl in *. subst fr2 vis2 cf2 k2.
  unfold Uninformed.discover. simpl.
  case_bool_decide; [intros [= <-]; eexists; by split|].
  destruct (get g1 n) as [n1|] eqn:Hn1; [|done]. simpl.
  destruct (same_view_get g1 g2 n n1 Hv Hn1) as (n2 & Hn2 & Hb & _).
  rewrite Hn2. simpl. rewrite Hb.
  destruct (Node.is_barrier n1); [intros [= <-]; eexists; by split|].
  intros [= <-]. eexists. split; [done|].
  unfold uninformed_sim. simpl. split_and!; try done.
  case_bool_decide; [|done]. by apply same_view_paint.
Qed.

Lemma uninformed_close_sim (c start e : Ref) (s1 s2 : Uninformed.state) :
  uninformed_sim s1 s2 →
  uninformed_sim (Uninformed.close c start e s1) (Uninformed.close c start e s2).
Proof.
  intros (Hv & Hf & Hvis & Hcf & Hk). unfold Uninformed.close.
  case_bool_decide; [|done]. unfold uninformed_sim. simpl.
  split_and!; [by apply same_view_paint|done..|by rewrite Hk].
Qed.

Lemma with_frontier_sim (q : list Ref) (s1 s2 : Uninformed.state) :
  uninformed_sim s1 s2 →
  uninformed_sim (Uninformed.with_frontier q s1) (Uninformed.with_frontier q s2).
Proof. by intros (Hv & Hf & Hvis & Hcf & Hk). Qed.

Lemma bfs_body_sim (fuel : nat) (start end_ : Ref) (s1 s2 : Uninformed.state) :
  uninformed_sim s1 s2 →
  (∀ s1', Uninformed.bfs_body fuel start end_ s1 = Some (Continue s1') →
     ∃ s2', Uninformed.bfs_body fuel start end_ s2 = Some (Continue s2') ∧
            uninformed_sim s1' s2') ∧
  (∀ r g1, Uninformed.bfs_body fuel start end_ s1 = Some (Return r g1) →
     ∃ g2, Uninformed.bfs_body fuel start end_ s2 = Some (Return r g2) ∧
           same_view g1 g2).
Proof.
  intros Hsim. pose proof Hsim as (Hv & Hf & Hvis & Hcf & Hk). split.
  - intros s1' (c & q & nd & t1 & Hfr & Hne & Hnd & Hfold & ->)%bfs_body_continue.
    destruct (same_view_get _ _ c nd Hv Hnd) as (nd2 & Hnd2 & _ & _ & Hnb & _).
    eapply (foldM_sim uninformed_sim) in Hfold as (t2 & Hfold2 & Ht);
      [|intros ? ? ? ?; apply discover_sim|apply (with_frontier_sim q _ _ Hsim)].
    exists (Uninformed.close c start end_ t2). split; [|by apply uninformed_close_sim].
    unfold Uninformed.bfs_body. rewrite <- Hf, Hfr, bool_decide_false by done.
    rewrite Hnd2. simpl. rewrite Hnb, Hfold2. done.
  - intros r g1 (q & Hfr & Hfin)%bfs_body_return.
    destruct (finish_sim _ _ _ _ _ _ _ _ _ Hv Hfin) as (g2 & Hfin2 & Hv2).
    exists g2. split; [|done].
    unfold Uninformed.bfs_body. rewrite <- Hf, Hfr, bool_decide_true by done.
    rewrite <- Hcf, <- Hk, Hfin2. done.
Qed.

Lemma dfs_body_sim (fuel : nat) (start end_ : Ref) (s1 s2 : Uninformed.state) :
  uninformed_sim s1 s2 →
  (∀ s1', Uninformed.dfs_body fuel start end_ s1 = Some (Continue s1') →
     ∃ s2', Uninformed.dfs_body fuel start end_ s2 = Some (Continue s2') ∧
            uninformed_sim s1' s2') ∧
  (∀ r g1, Uninformed.dfs_body fuel start end_ s1 = Some (Return r g1) →
     ∃ g2, Uninformed.dfs_body fuel start end_ s2 = Some (Return r g2) ∧
           same_view g1 g2).
Proof.
  intros Hsim. pose proof Hsim as (Hv & Hf & Hvis & Hcf & Hk). split.
  - intros s1' (c & q & nd & Hfr & Hne & Hnd & Hfold)%dfs_body_continue.
    pose proof (uninformed_close_sim c start end_ _ _ (with_frontier_sim q _ _ Hsim))
      as Hsim0.
    destruct (same_view_get _ _ c nd (proj1 Hsim0) Hnd) as (nd2 & Hnd2 & _ & _ & Hnb & _).
    eapply (foldM_sim uninformed_sim) in Hfold as (t2 & Hfold2 & Ht);
      [|intros ? ? ? ?; apply discover_sim|exact Hsim0].
    exists t2. split; [|done].
    unfold Uninformed.dfs_body. rewrite <- Hf, Hfr, bool_decide_false by done.
    rewrite Hnd2. simpl. rewrite Hnb, Hfold2. done.
  - intros r g1 (q & Hfr & Hfin)%dfs_body_return.
    destruct (finish_sim _ _ _ _ _ _ _ _ _ Hv Hfin) as (g2 & Hfin2 & Hv2).
    exists g2. split; [|done].
    unfold Uninformed.dfs_body. rewrite <- Hf, Hfr, bool_decide_true by done.
    rewrite <- Hcf, <- Hk, Hfin2. done.
Qed.

Lemma push_if_new_sim (key : Z) (e n : Ref) (s1 s2 : Informed.state) :
  informed_sim s1 s2 →
  informed_sim (Informed.push_if_new key e n s1) (Informed.push_if_new key e n s2).
Proof.
  intros (Hv & Hg & Hf & Hc & Ho & Hcf & Hh & Hk). unfold Informed.push_if_new.
  rewrite <- Hh. case_bool_decide; [done|].
  unfold informed_sim. simpl. rewrite <- Hc, <- Ho.
  split_and!; try done.
  case_bool_decide; [|done]. by apply same_view_paint.
Qed.

Lemma dijkstra_relax_sim (c e : Ref) (s1 s2 : Informed.state) (n : Ref)
    (s1' : Informed.state) :
  informed_sim s1 s2 →
  Informed.dijkstra_relax c e s1 n = Some s1' →
  ∃ s2', Informed.dijkstra_relax c e s2 n = Some s2' ∧ informed_sim s1' s2'.
Proof.
  intros Hsim. pose proof Hsim as (Hv & Hg & Hf & Hc & Ho & Hcf & Hh & Hk).
  unfold Informed.dijkstra_relax.
  destruct (get _ n) as [n1|] eqn:Hn1; [|done]. simpl.
  destruct (same_view_get _ _ n n1 Hv Hn1) as (n2 & Hn2 & Hb & _).
  rewrite Hn2. simpl. rewrite Hb, <- Hg.
  destruct (Node.is_barrier n1); [intros [= <-]; eauto|].
  destruct (Informed.g_score s1 !! c) as [gc|]; [|done]. simpl.
  destruct (Informed.g_score s1 !! n) as [gn|]; [|done]. simpl.
  destruct (score_lt _ gn); [|intros [= <-]; eauto].
  destruct (score_succ gc) as [t|]; [|done].
  intros [= <-]. eexists. split; [done|]. apply push_if_new_sim.
  unfold informed_sim. simpl. by rewrite <- Hcf.
Qed.

Lemma astar_relax_sim (c e : Ref) (s1 s2 : Informed.state) (n : Ref)
    (s1' : Informed.state) :
  informed_sim s1 s2 →
  Informed.astar_relax c e s1 n = Some s1' →
  ∃ s2', Informed.astar_relax c e s2 n = Some s2' ∧ informed_sim s1' s2'.
Proof.
  intros Hsim. pose proof Hsim as (Hv & Hg & Hf & Hc & Ho & Hcf & Hh & Hk).
  unfold Informed.astar_relax.
  destruct (get _ n) as [n1|] eqn:Hn1; [|done]. simpl.
  destruct (same_view_get _ _ n n1 Hv Hn1) as (n2 & Hn2 & Hb & _ & _ & Hpos).
  rewrite Hn2. simpl. rewrite Hb, <- Hg.
  destruct (Node.is_barrier n1); [intros [= <-]; eauto|].
  destruct (Informed.g_score s1 !! c) as [gc|]; [|done]. simpl.
  destruct (Informed.g_score s1 !! n) as [gn|]; [|done]. simpl.
  destruct (score_lt _ gn); [|intros [= <-]; eauto].
  destruct (score_succ gc) as [t|]; [|done].
  destruct (get _ e) as [e1|] eqn:He1; [|done]. simpl.
  destruct (same_view_get _ _ e e1 Hv He1) as (e2 & He2 & _ & _ & _ & Hpe).
  rewrite He2. simpl. rewrite Hpos, Hpe.
  intros [= <-]. eexists. split; [done|]. apply push_if_new_sim.
  unfold informed_sim. simpl. by rewrite <- Hcf, <- Hf.
Qed.

Lemma informed_close_sim (c start e : Ref) (s1 s2 : Informed.state) :
  informed_sim s1 s2 →
  informed_sim (Informed.close c start e s1) (Informed.close c start e s2).
Proof.
  intros (Hv & Hg & Hf & Hc & Ho & Hcf & Hh & Hk). unfold Informed.close.
  case_bool_decide; [|done]. unfold informed_sim. simpl.
  split_and!; [by apply same_view_paint|done..|by rewrite Hk].
Qed.

Lemma popped_sim (h : list entry) (c : Ref) (s1 s2 : Informed.state) :
  informed_sim s1 s2 →
  informed_sim (Informed.popped h c s1) (Informed.popped h c s2).
Proof.
  intros (Hv & Hg & Hf & Hc & Ho & Hcf & Hh & Hk).
  unfold informed_sim. simpl. by rewrite Hh.
Qed.

Lemma informed_body_sim (best : Informed.state → gmap Ref score)
    (relax : Ref → Ref → Informed.state → Ref → option Informed.state)
    (fuel : nat) (start end_ : Ref) (s1 s2 : Informed.state) :
  (∀ s1 s2, informed_sim s1 s2 → best s1 = best s2) →
  (∀ c e s1 s2 n s1', informed_sim s1 s2 → relax c e s1 n = Some s1' →
     ∃ s2', relax c e s2 n = Some s2' ∧ informed_sim s1' s2') →
  informed_sim s1 s2 →
  (∀ s1', Informed.body best relax fuel start end_ s1 = Some (Continue s1') →
     ∃ s2', Informed.body best relax fuel start end_ s2 = Some (Continue s2') ∧
            informed_sim s1' s2') ∧
  (∀ r g1, Informed.body best relax fuel start end_ s1 = Some (Return r g1) →
     ∃ g2, Informed.body best relax fuel start end_ s2 = Some (Return r g2) ∧
           same_view g1 g2).
Proof.
  intros Hbest Hrelax Hsim.
  pose proof Hsim as (Hv & Hg & Hf & Hc & Ho & Hcf & Hh & Hk). split.
  - intros s1' (k & t & c & h & b & Hos & Hin & Hb &
                [[Hlt ->]|(Hlt & Hne & nd & t1 & Hnd & Hfold & ->)])%informed_body_continue.
    + exists (Informed.popped h c s2). split; [|by apply popped_sim].
      unfold Informed.body. rewrite <- Ho, Hos. simpl.
      rewrite <- Hh, bool_decide_true by done.
      rewrite <- (Hbest _ _ (popped_sim h c _ _ Hsim)), Hb. simpl. by rewrite Hlt.
    + destruct (same_view_get _ _ c nd Hv Hnd) as (nd2 & Hnd2 & _ & _ & Hnb & _).
      eapply (foldM_sim informed_sim) in Hfold as (t2 & Hfold2 & Ht);
        [|intros ? ? ? ?; apply Hrelax|apply (popped_sim h c _ _ Hsim)].
      exists (Informed.close c start end_ t2). split; [|by apply informed_close_sim].
      unfold Informed.body. rewrite <- Ho, Hos. simpl.
      rewrite <- Hh, bool_decide_true by done.
      rewrite <- (Hbest _ _ (popped_sim h c _ _ Hsim)), Hb. simpl. rewrite Hlt.
      rewrite bool_decide_false by done. rewrite Hnd2. simpl.
      rewrite Hnb, Hfold2. done.
  - intros r g1 (k & t & h & b & Hos & Hin & Hb & Hlt & Hfin)%informed_body_return.
    destruct (finish_sim _ _ _ _ _ _ _ _ _ Hv Hfin) as (g2 & Hfin2 & Hv2).
    exists g2. split; [|done].
    unfold Informed.body. rewrite <- Ho, Hos. simpl.
    rewrite <- Hh, bool_decide_true by done.
    rewrite <- (Hbest _ _ (popped_sim h end_ _ _ Hsim)), Hb. simpl. rewrite Hlt.
    rewrite bool_decide_true by done. rewrite <- Hcf, <- Hk, Hfin2. done.
Qed.

Lemma run_sim (A : search) (fuel : nat) (sched : list signal) (g1 g2 : Cells)
    (start end_ : Ref) (r : result) (g1' : Cells) :
  A ∈ algorithms → same_view g1 g2 →
  run A fuel sched g1 start end_ = Some (r, g1') →
  ∃ g2', run A fuel sched g2 start end_ = Some (r, g2') ∧ same_view g1' g2'.
Proof.
  unfold algorithms. rewrite !elem_of_cons, elem_of_nil.
  intros HA Hv. unfold run.
  rewrite <- !(same_view_in_grid g1 g2) by done.
  destruct (in_grid g1 start && in_grid g1 end_); [|done].
  destruct HA as [->|[->|[->|[->|[]]]]]; simpl.
  - apply (while_loop_sim _ _ _ _ uninformed_sim).
    + by intros s1 s2 (_ & Hf & _); unfold Uninformed.pending; rewrite Hf.
    + by intros s1 s2 (_ & _ & _ & _ & ?).
    + by intros s1 s2 (? & _).
    + intros s1 s2 s1' H. by apply bfs_body_sim.
    + intros s1 s2 r' g' H. by apply bfs_body_sim.
    + by split.
  - apply (while_loop_sim _ _ _ _ uninformed_sim).
    + by intros s1 s2 (_ & Hf & _); unfold Uninformed.pending; rewrite Hf.
    + by intros s1 s2 (_ & _ & _ & _ & ?).
    + by intros s1 s2 (? & _).
    + intros s1 s2 s1' H. by apply dfs_body_sim.
    + intros s1 s2 r' g' H. by apply dfs_body_sim.
    + by split.
  - apply (while_loop_sim _ _ _ _ informed_sim).
    + by intros s1 s2 (_ & _ & _ & _ & Ho & _); unfold Informed.pending; rewrite Ho.
    + by intros s1 s2 (_ & _ & _ & _ & _ & _ & _ & ?).
    + by intros s1 s2 (? & _).
    + intros s1 s2 s1' H.
      apply (informed_body_sim Informed.g_score Informed.dijkstra_relax); [| |done].
      * by intros ? ? (_ & ? & _).
      * intros ? ? ? ? ? ?. apply dijkstra_relax_sim.
    + intros s1 s2 r' g' H.
      apply (informed_body_sim Informed.g_score Informed.dijkstra_relax); [| |done].
      * by intros ? ? (_ & ? & _).
      * intros ? ? ? ? ? ?. apply dijkstra_relax_sim.
    + unfold informed_sim, Informed.dijkstra_init. simpl.
      by rewrite (same_view_all_infty g1 g2).
  - unfold Informed.astar_init.
    destruct (get g1 start) as [s1|] eqn:Hs1; [|done]. simpl.
    destruct (same_view_get g1 g2 start s1 Hv Hs1) as (s2 & -> & _ & _ & _ & Hps).
    destruct (get g1 end_) as [e1|] eqn:He1; [|done]. simpl.
    destruct (same_view_get g1 g2 end_ e1 Hv He1) as (e2 & -> & _ & _ & _ & Hpe).
    simpl. rewrite Hps, Hpe, (same_view_all_infty g1 g2) by done.
    apply (while_loop_sim _ _ _ _ informed_sim).
    + by intros t1 t2 (_ & _ & _ & _ & Ho & _); unfold Informed.pending; rewrite Ho.
    + by intros t1 t2 (_ & _ & _ & _ & _ & _ & _ & ?).
    + by intros t1 t2 (? & _).
    + intros t1 t2 t1' H.
      apply (informed_body_sim Informed.f_score Informed.astar_relax); [| |done].
      * by intros ? ? (_ & _ & ? & _).
      * intros ? ? ? ? ? ?. apply astar_relax_sim.
    + intros t1 t2 r' g' H.
      apply (informed_body_sim Informed.f_score Informed.astar_relax); [| |done].
      * by intros ? ? (_ & _ & ? & _).
      * intros ? ? ? ? ? ?. apply astar_relax_sim.
    + by unfold informed_sim.
Qed.

Lemma get_clear_path_nodes (g : Cells) (start end_ p : Ref) :
  get (Grid.clear_path_nodes_cells g (Some start) (Some end_)) p =
  (λ nd, if decide (end_ = p) then Node.set_color TURQUOISE nd
         else if decide (start = p) then Node.set_color ORANGE nd
         else Grid.clear_node nd) <$> get g p.
Proof.
  unfold Grid.clear_path_nodes_cells. unfold_make.
  rewrite !get_modify, get_clear_nodes.
  destruct (get g p) as [nd|]; simpl; [|by repeat case_decide].
  repeat case_decide; simpl; unfold Grid.clear_node;
    try destruct (negb _); done.
Qed.

Lemma clear_same_view (g g' : Cells) (start end_ : Ref) :
  repaints g g' →
  color_at g start = Some ORANGE → color_at g end_ = Some TURQUOISE →
  (∀ p, color_at g p = Some ORANGE → p = start) →
  same_view g (Grid.clear_path_nodes_cells g' (Some start) (Some end_)).
Proof.
  intros Hrep Hs He Huniq p. rewrite get_clear_path_nodes.
  specialize (Hrep p). pose proof (Huniq p) as Hup.
  unfold color_at in *.
  destruct (get g p) as [n|] eqn:Hn, (get g' p) as [n'|] eqn:Hn'; simpl; try done.
  destruct Hrep as [Hw [Hbl Hor]]. simpl in Hup.
  f_equal. unfold view.
  destruct (decide (end_ = p)) as [->|Hpe].
  - rewrite Hn in He. injection He as He.
    rewrite set_color_set_color, Hw.
    unfold Node.is_barrier, Node.is_start. simpl. by rewrite He.
  - destruct (decide (start = p)) as [->|Hps].
    + rewrite Hn in Hs. injection Hs as Hs.
      rewrite set_color_set_color, Hw.
      unfold Node.is_barrier, Node.is_start. simpl. by rewrite Hs.
    + assert (Hno : Node.color n ≠ ORANGE).
      { intros Hc. destruct Hps. symmetry. apply Hup. by f_equal. }
      assert (Hno' : Node.color n' ≠ ORANGE) by (intros Hc; by apply Hno, Hor).
      assert (Hbb : bool_decide (Node.color n' = BLACK)
                    = bool_decide (Node.color n = BLACK))
        by (by apply bool_decide_ext).
      unfold Grid.clear_node, Node.is_barrier, Node.is_start, Node.is_end.
      rewrite !(bool_decide_false (Node.color n' = ORANGE)) by done.
      rewrite !(bool_decide_false (Node.color n = ORANGE)) by done. simpl.
      destruct (bool_decide (Node.color n' = TURQUOISE)) eqn:Ht; simpl.
      { rewrite !(bool_decide_false (Node.color n' = ORANGE)) by done.
        by rewrite Hw, Hbb. }
      destruct (bool_decide (Node.color n' = BLACK)) eqn:Hb; simpl.
      { rewrite !(bool_decide_false (Node.color n' = ORANGE)) by done.
        by rewrite Hw, Hb, <- Hbb. }
      rewrite <- Hw, <- Hbb. done.
Qed.

(** The start button refreshes the neighbour lists before every run
    (main.py, line 226); on a refreshed store that changes nothing a search
    reads. *)
Lemma same_view_barrier_at (g1 g2 : Cells) (p : Ref) :
  same_view g1 g2 → barrier_at g1 p = barrier_at g2 p.
Proof.
  intros H. unfold barrier_at, color_at. apply bool_decide_ext.
  destruct (get g1 p) as [n1|] eqn:H1.
  - destruct (same_view_get g1 g2 p n1 H H1) as (n2 & -> & Hb & _). simpl.
    unfold Node.is_barrier in Hb.
    split; intros [= Hc]; f_equal.
    + eapply bool_decide_eq_true. rewrite Hb. by apply bool_decide_eq_true.
    + eapply bool_decide_eq_true. rewrite <- Hb. by apply bool_decide_eq_true.
  - specialize (H p). rewrite H1 in H. by destruct (get g2 p).
Qed.

Lemma same_view_square (n : Z) (g1 g2 : Cells) :
  same_view g1 g2 → square n g1 → square n g2.
Proof.
  intros H [Hs1 Hs2]. split.
  - intros p. rewrite <- Hs1. specialize (H p).
    destruct (get g1 p), (get g2 p); try done; split; intros [? ?]; done.
  - intros p n2 Hn2. specialize (H p). rewrite Hn2 in H.
    destruct (get g1 p) as [n1|] eqn:Hn1; [|done].
    destruct (Hs2 p n1 Hn1) as (Hr & Hc & Ht).
    simpl in H. apply (inj Some) in H. unfold view in H.
    pose proof (f_equal (λ x, x.1.1) H) as H1. simpl in H1.
    pose proof (f_equal Node.row H1). pose proof (f_equal Node.col H1).
    pose proof (f_equal Node.total_rows H1). simpl in *. split_and!; congruence.
Qed.

Lemma update_all_neighbors_refreshed (n : Z) (g g' : Cells) :
  square n g → Grid.update_all_neighbors_cells g = Some g' → refreshed n g'.
Proof.
  intros Hsq Hup.
  destruct (update_all_neighbors_frame n g Hsq) as (g'' & Hup' & Hfr & Hnb).
  assert (g'' = g') as -> by congruence.
  split; [by apply (same_frame_square n g g')|].
  intros p Hp. rewrite (same_frame_spec n g g') by done. by apply Hnb.
Qed.

Lemma refresh_same_view (n : Z) (g gc : Cells) :
  refreshed n g → same_view g gc →
  ∃ g2, Grid.update_all_neighbors_cells gc = Some g2 ∧ same_view g g2.
Proof.
  intros [Hsq Hnb] Hv.
  pose proof (same_view_square n g gc Hv Hsq) as Hsqc.
  destruct (update_all_neighbors_frame n gc Hsqc) as (g2 & Hup & Hfr & Hnb2).
  exists g2. split; [done|]. intros p.
  destruct (get g p) as [nd|] eqn:Hnd.
  - assert (Hp : in_bounds n p) by (apply Hsq; by eexists).
    specialize (Hnb p Hp). specialize (Hnb2 p Hp).
    assert (Hspec : neighborsOf_spec n gc p = neighborsOf_spec n g p).
    { unfold neighborsOf_spec. apply filter_ext. intros q.
      by rewrite (same_view_barrier_at g gc). }
    rewrite Hspec in Hnb2. unfold neighbors_at in Hnb, Hnb2. rewrite Hnd in Hnb.
    pose proof (Hv p) as Hvp. rewrite Hnd in Hvp.
    pose proof (Hfr p) as Hfp.
    destruct (get gc p) as [ndc|]; [|done].
    destruct (get g2 p) as [nd2|]; [|done].
    simpl in *. f_equal.
    apply (inj Some) in Hvp, Hfp, Hnb, Hnb2.
    unfold view in *. destruct nd, ndc, nd2.
    unfold Node.set_color, Node.set_neighbors, Node.is_barrier, Node.is_start in *.
    simpl in *. injection Hvp as ? ? ? ? ? ? ? Hb Ho.
    injection Hfp as ? ? ? ? ? ? ?. subst. by rewrite Hb, Ho.
  - assert (Hp : ¬ is_Some (get g2 p)).
    { rewrite (same_frame_is_Some gc g2) by done.
      pose proof (Hv p) as Hvp. rewrite Hnd in Hvp.
      destruct (get gc p); [done|]. by intros [? ?]. }
    destruct (get g2 p); [|done]. destruct Hp. by eexists.
Qed.

Lemma same_view_trans (g1 g2 g3 : Cells) :
  same_view g1 g2 → same_view g2 g3 → same_view g1 g3.
Proof. intros H1 H2 p. by rewrite H1. Qed.

(** C8: a search run on a grid whose start and end carry their colours (the
    start being the only orange cell), then [clear_path_nodes], then the same
    search under the same schedule on the store so obtained: the second run
    returns what the first returned, the same "found", the same count of
    visited nodes and the same path length.  It does so too when, as the
    start button does, the neighbour lists are refreshed between
    [clear_path_nodes] and the second run, the first run having started from
    a refreshed store. *)
Theorem rerun_same_result (A : search) (fuel : nat) (sched : list signal)
    (g : Cells) (start end_ : Ref) (r : result) (g' : Cells) :
  A ∈ algorithms →
  color_at g start = Some ORANGE → color_at g end_ = Some TURQUOISE →
  (∀ p, color_at g p = Some ORANGE → p = start) →
  run A fuel sched g start end_ = Some (r, g') →
  (∃ g'', run A fuel sched
            (Grid.clear_path_nodes_cells g' (Some start) (Some end_)) start end_
          = Some (r, g'')) ∧
  (∀ n, refreshed n g →
     ∃ g2 g'',
       Grid.update_all_neighbors_cells
         (Grid.clear_path_nodes_cells g' (Some start) (Some end_)) = Some g2 ∧
       run A fuel sched g2 start end_ = Some (r, g'')).
Proof.
  intros HA Hs He Huniq Hrun.
  destruct (algorithms_footprint A fuel g start end_ HA) as (_ & _ & Hrep).
  specialize (Hrep sched r g' Hs He Hrun).
  pose proof (clear_same_view g g' start end_ Hrep Hs He Huniq) as Hv.
  split.
  - destruct (run_sim A fuel sched _ _ start end_ r g' HA Hv Hrun) as (g'' & H & _).
    eauto.
  - intros n Hn. destruct (refresh_same_view n g _ Hn Hv) as (g2 & Hup & Hv2).
    destruct (run_sim A fuel sched _ _ start end_ r g' HA Hv2 Hrun) as (g'' & H & _).
    eauto.
Qed.

(** ** Termination *)

Lemma foldM_total {A S} (P : S → Prop) (f : S → A → option S) (l : list A) :
  (∀ s a, a ∈ l → P s → ∃ s', f s a = Some s' ∧ P s') →
  ∀ s, P s → ∃ s', foldM f s l = Some s' ∧ P s'.
Proof.
  induction l as [|a l IH]; intros Hf s Hs; simpl; [eauto|].
  destruct (Hf s a) as (s1 & -> & Hs1); [left|done|]. simpl.
  apply IH; [|done]. intros s2 b Hb. apply Hf. by right.
Qed.

Section LoopTotal.
Context {S : Type}.
Variable pending : S → bool.
Variable grid_of : S → Cells.
Variable count_of : S → Z.
Variable body : S → option (outcome S).
Variable I : S → Prop.
Variable measure : S → nat.

Hypothesis Hbody : ∀ s, I s → pending s = true →
  ∃ o, body s = Some o ∧
       match o with
       | Continue s' => I s' ∧ (measure s' < measure s)%nat
       | Return _ _ => True
       end.

Lemma while_loop_total (fuel : nat) (sched : list signal) (s : S) :
  I s → (measure s < fuel)%nat →
  ∃ rg, while_loop pending grid_of count_of body fuel sched s = Some rg.
Proof.
  revert sched s. induction fuel as [|fuel IH]; intros sched s Hs Hm; [lia|].
  rewrite while_loop_unfold. destruct (pending s) eqn:Hp; [|eauto].
  destruct (Hbody s Hs Hp) as (o & Hb & Ho). rewrite Hb.
  destruct sched as [|[|] sched]; [| |eauto];
    (destruct o as [r g|s']; [eauto|]; destruct Ho as [Hs' Hm']; apply IH; [done|lia]).
Qed.
End LoopTotal.

Lemma elem_of_cells (g : Cells) (p : Ref) : p ∈ cells g ↔ in_grid g p = true.
Proof.
  unfold cells, in_grid. rewrite elem_of_list_to_set, elem_of_all_refs.
  by rewrite bool_decide_eq_true.
Qed.

Lemma repaints_get (g g' : Cells) (p : Ref) (n' : Node.t) :
  repaints g g' → get g' p = Some n' →
  ∃ n, get g p = Some n ∧ Node.neighbors n' = Node.neighbors n.
Proof.
  intros H Hn'. specialize (H p). rewrite Hn' in H.
  destruct (get g p) as [n|]; [|done]. exists n. split; [done|].
  destruct H as [H _]. by apply (f_equal Node.neighbors) in H.
Qed.

Lemma chain_insert_fresh (cf : gmap Ref Ref) (n c p : Ref) (k : nat) :
  (∀ q v, cf !! q = Some v → v ≠ n) → p ≠ n →
  chain cf p k → chain (<[n := c]> cf) p k.
Proof.
  intros Hv Hp Hc. induction Hc as [p Hnone|p p' k Hsome Hc IH].
  - apply chain_end. by rewrite lookup_insert_ne.
  - eapply chain_step; [by rewrite lookup_insert_ne|]. apply IH. by eapply Hv.
Qed.

Lemma reconstruct_path_total (fuel : nat) (cf : gmap Ref Ref) (cur : Ref) (k : nat)
    (g : Cells) (pn : list Ref) :
  chain cf cur k → (k ≤ fuel)%nat →
  (∀ q v, cf !! q = Some v → in_grid g v = true) →
  ∃ pn' g1, reconstruct_path fuel cf cur g pn = Some (pn', g1).
Proof.
  intros Hc. revert fuel g pn.
  induction Hc as [p Hnone|p p' k Hsome Hc IH]; intros fuel g pn Hk Hin.
  - destruct fuel; simpl; rewrite Hnone; eauto.
  - destruct fuel as [|fuel]; [lia|]. simpl. rewrite Hsome.
    pose proof (Hin p p' Hsome) as Hp'.
    apply bool_decide_eq_true in Hp' as [nd Hnd]. rewrite Hnd. simpl.
    destruct (negb (Node.is_start nd)); apply IH; try lia; try done.
    intros q v Hq. rewrite in_grid_modify. by eapply Hin.
Qed.

Lemma finish_total (fuel : nat) (cf : gmap Ref Ref) (start end_ : Ref) (k : nat)
    (g : Cells) (n : Z) :
  chain cf end_ k → (k ≤ fuel)%nat →
  (∀ q v, cf !! q = Some v → in_grid g v = true) →
  ∃ r g', finish fuel cf start end_ g n = Some (r, g').
Proof.
  intros Hc Hk Hin.
  destruct (reconstruct_path_total fuel cf end_ k g [] Hc Hk Hin) as (pn & g1 & H).
  unfold finish. rewrite H. simpl. eauto.
Qed.

(** *** [bfs] and [dfs] *)

Lemma uninformed_init_term (g : Cells) (start : Ref) :
  in_grid g start = true → uninformed_term g (Uninformed.init g start).
Proof.
  intros Hs. unfold uninformed_term, Uninformed.init.
  cbn [Uninformed.visited Uninformed.frontier Uninformed.came_from]. split_and!.
  - intros p ->%elem_of_singleton. by apply elem_of_cells.
  - intros p ->%list_elem_of_singleton. by apply elem_of_singleton.
  - intros p v. by rewrite lookup_empty.
  - intros p _. exists 0%nat. rewrite size_singleton. split; [lia|].
    apply chain_end. by rewrite lookup_empty.
Qed.

Lemma discover_total (push : Ref → list Ref → list Ref) (g : Cells)
    (start end_ current : Ref) (s : Uninformed.state) (n : Ref) (m : nat) :
  (∀ x a q, x ∈ push a q → x = a ∨ x ∈ q) →
  (∀ a q, length (push a q) = Datatypes.S (length q)) →
  current = start ∨ barrier_at g current = false →
  current ∈ Uninformed.visited s →
  in_grid g n = true →
  uninformed_inv g start end_ s ∧ uninformed_term g s ∧ uninformed_measure g s = m →
  ∃ s', Uninformed.discover push current end_ s n = Some s' ∧
        (uninformed_inv g start end_ s' ∧ uninformed_term g s' ∧
         uninformed_measure g s' = m) ∧
        current ∈ Uninformed.visited s'.
Proof.
  intros Hpush Hlen Hcur Hcv Hn (Hinv & Hterm & Hm).
  pose proof Hterm as (Hsub & Hfr & Hcf & Hch).
  assert (Hget : in_grid (Uninformed.grid s) n = true)
    by (by rewrite (repaints_in_grid g); [|apply Hinv]).
  apply bool_decide_eq_true in Hget as [nd Hnd].
  destruct (Uninformed.discover push current end_ s n) as [s'|] eqn:Hd.
  2:{ unfold Uninformed.discover in Hd. case_bool_decide; [done|].
      rewrite Hnd in Hd. simpl in Hd. by destruct (Node.is_barrier nd). }
  exists s'. split; [done|].
  assert (Hinv' : uninformed_inv g start end_ s') by (by eapply discover_inv).
  unfold Uninformed.discover in Hd. case_bool_decide as Hv.
  { injection Hd as <-. done. }
  rewrite Hnd in Hd. simpl in Hd.
  destruct (Node.is_barrier nd); [injection Hd as <-; done|].
  injection Hd as <-.
  assert (Hnc : n ∈ cells g) by (by apply elem_of_cells).
  assert (Hsize : size ({[n]} ∪ Uninformed.visited s)
                  = Datatypes.S (size (Uninformed.visited s))).
  { rewrite size_union by set_solver. by rewrite size_singleton. }
  assert (Hle : (size ({[n]} ∪ Uninformed.visited s) ≤ cell_count g)%nat).
  { unfold cell_count. apply subseteq_size. set_solver. }
  split; [split_and!|]; [done| |..].
  - unfold uninformed_term. simpl. split_and!.
    + set_solver.
    + intros p [->|Hp]%Hpush; [set_solver|]. specialize (Hfr p Hp). set_solver.
    + intros p v. destruct (decide (n = p)) as [<-|Hnp].
      * rewrite lookup_insert_eq. intros [= <-]. set_solver.
      * rewrite lookup_insert_ne by done. intros Hpv.
        destruct (Hcf p v Hpv). set_solver.
    + intros p [->%elem_of_singleton|Hp]%elem_of_union.
      * destruct (Hch current Hcv) as (k & Hk & Hc). exists (Datatypes.S k).
        split; [lia|]. eapply chain_step; [by rewrite lookup_insert_eq|].
        apply chain_insert_fresh; [|by intros ->|done].
        intros q v Hqv ->. by destruct (Hcf q n Hqv).
      * destruct (Hch p Hp) as (k & Hk & Hc). exists k. split; [lia|].
        apply chain_insert_fresh; [|by intros ->|done].
        intros q v Hqv ->. by destruct (Hcf q n Hqv).
  - unfold uninformed_measure in *. simpl. rewrite Hlen. lia.
  - simpl. set_solver.
Qed.

Lemma uninformed_close_term (g : Cells) (c start end_ : Ref) (s : Uninformed.state) :
  uninformed_term g (Uninformed.close c start end_ s) ↔ uninformed_term g s.
Proof. unfold Uninformed.close. by case_bool_decide. Qed.

Lemma uninformed_close_measure (g : Cells) (c start end_ : Ref)
    (s : Uninformed.state) :
  uninformed_measure g (Uninformed.close c start end_ s) = uninformed_measure g s.
Proof. unfold Uninformed.close. by case_bool_decide. Qed.

Lemma uninformed_popped (g : Cells) (start end_ c : Ref) (q : list Ref)
    (s : Uninformed.state) :
  closed g →
  Uninformed.frontier s = c :: q →
  uninformed_inv g start end_ s → uninformed_term g s →
  uninformed_term g (Uninformed.with_frontier q s) ∧
  Datatypes.S (uninformed_measure g (Uninformed.with_frontier q s))
  = uninformed_measure g s ∧
  c ∈ Uninformed.visited s ∧
  ∃ nd, get (Uninformed.grid s) c = Some nd ∧
        ∀ n, n ∈ Node.neighbors nd → in_grid g n = true.
Proof.
  intros Hclosed Hf Hinv (Hsub & Hfr & Hcf & Hch). rewrite Hf in Hfr.
  assert (Hc : c ∈ Uninformed.visited s) by (apply Hfr; left).
  split_and!; [|by unfold uninformed_measure; rewrite Hf; simpl; lia|done|].
  - unfold uninformed_term. simpl. split_and!; try done.
    intros p Hp. apply Hfr. by right.
  - assert (Hin : in_grid (Uninformed.grid s) c = true).
    { rewrite (repaints_in_grid g) by apply Hinv. apply elem_of_cells. by apply Hsub. }
    apply bool_decide_eq_true in Hin as [nd Hnd]. exists nd. split; [done|].
    destruct (repaints_get g _ c nd (proj1 Hinv) Hnd) as (n0 & Hn0 & ->).
    intros n Hn. by eapply Hclosed.
Qed.

Lemma uninformed_finish_total (g : Cells) (fuel : nat) (start end_ : Ref)
    (s : Uninformed.state) :
  (cell_count g ≤ fuel)%nat →
  uninformed_inv g start end_ s → uninformed_term g s →
  end_ ∈ Uninformed.visited s →
  ∃ r g', finish fuel (Uninformed.came_from s) start end_ (Uninformed.grid s)
            (Uninformed.visited_nodes_count s) = Some (r, g').
Proof.
  intros Hfuel Hinv (Hsub & Hfr & Hcf & Hch) He.
  destruct (Hch end_ He) as (k & Hk & Hc).
  apply (finish_total fuel _ start end_ k); [done| |].
  - pose proof (subseteq_size _ _ Hsub). unfold cell_count in Hfuel. lia.
  - intros p v Hpv. rewrite (repaints_in_grid g) by apply Hinv.
    apply elem_of_cells, Hsub. by destruct (Hcf p v Hpv).
Qed.

Lemma bfs_body_total (g : Cells) (fuel : nat) (start end_ : Ref)
    (s : Uninformed.state) :
  closed g → (cell_count g ≤ fuel)%nat →
  uninformed_inv g start end_ s ∧ uninformed_term g s →
  Uninformed.pending s = true →
  ∃ o, Uninformed.bfs_body fuel start end_ s = Some o ∧
       match o with
       | Continue s' =>
           (uninformed_inv g start end_ s' ∧ uninformed_term g s') ∧
           (uninformed_measure g s' < uninformed_measure g s)%nat
       | Return _ _ => True
       end.
Proof.
  intros Hclosed Hfuel [Hinv Hterm] Hp. unfold Uninformed.pending in Hp.
  destruct (Uninformed.frontier s) as [|c q] eqn:Hf; [done|].
  destruct (uninformed_popped g start end_ c q s Hclosed Hf Hinv Hterm)
    as (Hterm0 & Hm0 & Hcv & nd & Hnd & Hnb).
  destruct (with_frontier_inv g start end_ c q s Hf Hinv) as [Hinv0 Hc].
  unfold Uninformed.bfs_body. rewrite Hf. case_bool_decide as He.
  - subst c.
    destruct (uninformed_finish_total g fuel start end_ s Hfuel Hinv Hterm Hcv)
      as (r & g' & ->).
    simpl. by exists (Return r g').
  - rewrite Hnd. simpl.
    destruct (foldM_total
                (λ t, (uninformed_inv g start end_ t ∧ uninformed_term g t ∧
                       uninformed_measure g t
                       = uninformed_measure g (Uninformed.with_frontier q s)) ∧
                      c ∈ Uninformed.visited t)
                (Uninformed.discover Uninformed.enqueue c end_)
                (Node.neighbors nd)) with (s := Uninformed.with_frontier q s)
      as (s1 & -> & (Hinv1 & Hterm1 & Hm1) & _).
    + intros t n Hn [Ht Hct].
      apply (discover_total Uninformed.enqueue g start end_ c t n _);
        [apply enqueue_elem| |done|done|by apply Hnb|done].
      intros a l. unfold Uninformed.enqueue. rewrite length_app. simpl. lia.
    + done.
    + simpl. eexists. split; [done|]. simpl. split; [split|].
      * by apply uninformed_close_inv.
      * by apply uninformed_close_term.
      * rewrite uninformed_close_measure. lia.
Qed.

Lemma dfs_body_total (g : Cells) (fuel : nat) (start end_ : Ref)
    (s : Uninformed.state) :
  closed g → (cell_count g ≤ fuel)%nat →
  uninformed_inv g start end_ s ∧ uninformed_term g s →
  Uninformed.pending s = true →
  ∃ o, Uninformed.dfs_body fuel start end_ s = Some o ∧
       match o with
       | Continue s' =>
           (uninformed_inv g start end_ s' ∧ uninformed_term g s') ∧
           (uninformed_measure g s' < uninformed_measure g s)%nat
       | Return _ _ => True
       end.
Proof.
  intros Hclosed Hfuel [Hinv Hterm] Hp. unfold Uninformed.pending in Hp.
  destruct (Uninformed.frontier s) as [|c q] eqn:Hf; [done|].
  destruct (uninformed_popped g start end_ c q s Hclosed Hf Hinv Hterm)
    as (Hterm0 & Hm0 & Hcv & nd & Hnd & Hnb).
  destruct (with_frontier_inv g start end_ c q s Hf Hinv) as [Hinv0 Hc].
  unfold Uninformed.dfs_body. rewrite Hf. case_bool_decide as He.
  - subst c.
    destruct (uninformed_finish_total g fuel start end_ s Hfuel Hinv Hterm Hcv)
      as (r & g' & ->).
    simpl. by exists (Return r g').
  - set (s0 := Uninformed.close c start end_ (Uninformed.with_frontier q s)).
    assert (Hinv0' : uninformed_inv g start end_ s0)
      by (by apply uninformed_close_inv).
    assert (Hnd0 : ∃ nd0, get (Uninformed.grid s0) c = Some nd0 ∧
                          Node.neighbors nd0 = Node.neighbors nd).
    { unfold s0, Uninformed.close. case_bool_decide; simpl; [|eauto].
      rewrite get_modify_eq, Hnd. simpl. eauto. }
    destruct Hnd0 as (nd0 & -> & Hnb0). simpl. rewrite Hnb0.
    destruct (foldM_total
                (λ t, (uninformed_inv g start end_ t ∧ uninformed_term g t ∧
                       uninformed_measure g t
                       = uninformed_measure g (Uninformed.with_frontier q s)) ∧
                      c ∈ Uninformed.visited t)
                (Uninformed.discover Uninformed.push c end_)
                (reverse (Node.neighbors nd))) with (s := s0)
      as (s1 & -> & (Hinv1 & Hterm1 & Hm1) & _).
    + intros t n Hn [Ht Hct]. rewrite elem_of_reverse in Hn.
      apply (discover_total Uninformed.push g start end_ c t n _);
        [apply push_elem|intros; reflexivity|done|done|by apply Hnb|done].
    + split_and!; [done|by apply uninformed_close_term
                  |by unfold s0; rewrite uninformed_close_measure|].
      unfold s0, Uninformed.close. by case_bool_decide.
    + simpl. eexists. split; [done|]. simpl. split; [done|lia].
Qed.

(** *** [dijkstra] and [astar] *)

Lemma sum_list_with_update (w w' : Ref → nat) (n : Ref) (l : list Ref) :
  (∀ p, p ≠ n → w' p = w p) → (w' n < w n)%nat →
  (sum_list_with w' l ≤ sum_list_with w l)%nat ∧
  (n ∈ l → (sum_list_with w' l < sum_list_with w l)%nat).
Proof.
  intros Hne Hn. induction l as [|p l [IH1 IH2]]; simpl.
  - split; [lia|]. by intros ?%elem_of_nil.
  - destruct (decide (p = n)) as [->|Hp].
    + split; [lia|]. intros _. lia.
    + rewrite (Hne p Hp). split; [lia|].
      intros [?|Hl]%elem_of_cons; [done|]. specialize (IH2 Hl). lia.
Qed.

Lemma sum_list_with_bound (w : Ref → nat) (N : nat) (l : list Ref) :
  (∀ p, (w p ≤ N)%nat) → (sum_list_with w l ≤ N * length l)%nat.
Proof.
  intros Hw. induction l as [|p l IH]; simpl; [lia|]. specialize (Hw p). lia.
Qed.

Lemma heappush_length (h : list entry) (e : entry) :
  length (heappush h e) = Datatypes.S (length h).
Proof. by rewrite heappush_perm. Qed.

Lemma chain_of_scores (g : Cells) (cf : gmap Ref Ref) (gs : gmap Ref score) :
  (∀ p z, gs !! p = Some (Num z) → 0 ≤ z) →
  (∀ p c, cf !! p = Some c →
          ∃ a b, gs !! c = Some (Num a) ∧ gs !! p = Some (Num b) ∧ a < b) →
  ∀ (m : nat) p, (cf !! p = None ∨ ∃ b, gs !! p = Some (Num b) ∧ b ≤ Z.of_nat m) →
    ∃ k, (k ≤ m)%nat ∧ chain cf p k.
Proof.
  intros Hpos Hcf m. induction m as [|m IH]; intros p Hp.
  - destruct (cf !! p) as [c|] eqn:Hc.
    + destruct (Hcf p c Hc) as (a & b & Ha & Hb & Hab).
      destruct Hp as [?|(b' & Hb' & Hle)]; [done|].
      specialize (Hpos c a Ha). rewrite Hb in Hb'. injection Hb' as <-. lia.
    + exists 0%nat. split; [lia|]. by apply chain_end.
  - destruct (cf !! p) as [c|] eqn:Hc.
    + destruct (Hcf p c Hc) as (a & b & Ha & Hb & Hab).
      destruct Hp as [?|(b' & Hb' & Hle)]; [done|].
      rewrite Hb in Hb'. injection Hb' as <-.
      destruct (IH c) as (k & Hk & Hch).
      { right. exists a. split; [done|lia]. }
      exists (Datatypes.S k). split; [lia|]. by eapply chain_step.
    + exists 0%nat. split; [lia|]. by apply chain_end.
Qed.

Lemma insert_is_Some (m : gmap Ref score) (n p : Ref) (x : score) :
  is_Some (m !! p) → is_Some (<[n := x]> m !! p).
Proof.
  intros H. destruct (decide (n = p)) as [<-|Hnp].
  - rewrite lookup_insert_eq. by eexists.
  - by rewrite lookup_insert_ne.
Qed.

(** A relaxation keeps what termination rests on and does not increase the
    potential. *)
Lemma relaxed_term (best : Informed.state → gmap Ref score) (is_astar : bool)
    (g : Cells) (start end_ c n : Ref) (gc gn : score) (h : Z)
    (s s' : Informed.state) :
  (best s' = Informed.g_score s' ∨
   (is_astar = true ∧ best s = Informed.f_score s ∧ best s' = Informed.f_score s')) →
  in_grid g c = true → in_grid g n = true →
  Informed.g_score s !! c = Some gc → Informed.g_score s !! n = Some gn →
  informed_inv g start end_ s → informed_term best g s →
  relaxed is_astar c n end_ gc gn h s s' →
  informed_term best g s' ∧ (potential g s' ≤ potential g s)%nat.
Proof.
  intros Hbest Hc Hn Hgc Hgn Hinv Hterm. unfold relaxed.
  destruct gc as [a|]; [|by intros ->]. unfold score_succ.
  destruct (score_lt (Num (a + 1)) gn) eqn:Hlt; [|by intros ->].
  destruct Hinv as (_ & _ & _ & _ & Hpos & _).
  destruct Hterm as (Hdom & Hheap & (F & HF1 & HF2 & HF3) & Hcf).
  assert (Ha : 0 ≤ a) by (by eapply Hpos).
  assert (HcF : c ∈ F) by (apply HF2; eauto).
  assert (Hcn : c ≠ n).
  { intros ->. rewrite Hgc in Hgn. injection Hgn as <-.
    unfold score_lt in Hlt. apply bool_decide_eq_true in Hlt. lia. }
  assert (Hsz : (size ({[n]} ∪ F) ≤ cell_count g)%nat).
  { unfold cell_count. apply subseteq_size.
    apply union_subseteq. split; [|done].
    apply singleton_subseteq_l. by apply elem_of_cells. }
  assert (Hwt : a + 1 < Z.of_nat (size ({[n]} ∪ F)) ∧
                (Z.to_nat (a + 1) < weight (cell_count g) (Some gn))%nat ∧
                (∀ b, gn = Num b → a + 1 < b)).
  { pose proof (HF3 c a Hgc) as Hac.
    destruct gn as [b|]; simpl.
    - unfold score_lt in Hlt. apply bool_decide_eq_true in Hlt.
      pose proof (HF3 n b Hgn) as Hb.
      assert ((size F ≤ size ({[n]} ∪ F))%nat) by (apply subseteq_size; set_solver).
      split_and!; [lia|lia|]. by intros b' [= <-].
    - assert (HnF : n ∉ F).
      { intros (z & Hz)%HF2. rewrite Hgn in Hz. done. }
      rewrite size_union, size_singleton by set_solver.
      rewrite size_union, size_singleton in Hsz by set_solver.
      split_and!; [lia|lia|done]. }
  destruct Hwt as (Hw1 & Hw2 & Hw3).
  intros (Hg & Hcame & Hf & _ & Hrest).
  assert (Hopen : (∀ e, e ∈ Informed.open_set s' → in_grid g e.2 = true) ∧
                  (length (Informed.open_set s')
                   ≤ Datatypes.S (length (Informed.open_set s)))%nat).
  { case_bool_decide.
    - destruct Hrest as (-> & _). split; [done|lia].
    - destruct Hrest as (_ & -> & _). rewrite heappush_length. split; [|lia].
      intros e [->|He]%elem_of_heappush; [done|by apply Hheap]. }
  destruct Hopen as [Hopen Hlen]. split.
  - unfold informed_term. split_and!; [|done| |].
    + intros p Hp. destruct (Hdom p Hp) as [H1 H2]. rewrite Hg. split.
      * by apply insert_is_Some.
      * destruct Hbest as [->|(-> & Hb & ->)].
        -- rewrite Hg. by apply insert_is_Some.
        -- rewrite Hf. apply insert_is_Some. by rewrite <- Hb.
    + exists ({[n]} ∪ F). rewrite Hg. split_and!.
      * apply union_subseteq. split; [|done].
        apply singleton_subseteq_l. by apply elem_of_cells.
      * intros p. rewrite elem_of_union, elem_of_singleton, HF2.
        destruct (decide (n = p)) as [<-|Hnp].
        -- rewrite lookup_insert_eq. split; [eauto|by left].
        -- rewrite lookup_insert_ne by done. split; [intros [?|?]; done|by right].
      * intros p z. destruct (decide (n = p)) as [<-|Hnp].
        -- rewrite lookup_insert_eq. by intros [= <-].
        -- rewrite lookup_insert_ne by done. intros Hz%HF3.
           assert ((size F ≤ size ({[n]} ∪ F))%nat) by (apply subseteq_size; set_solver).
           lia.
    + intros p c'. rewrite Hcame, Hg. destruct (decide (n = p)) as [<-|Hnp].
      * rewrite lookup_insert_eq. intros [= <-]. split; [done|].
        exists a, (a + 1). rewrite lookup_insert_eq.
        rewrite lookup_insert_ne by (by intros ->).
        split_and!; [done|done|lia].
      * rewrite lookup_insert_ne by done. intros Hpc.
        destruct (Hcf p c' Hpc) as (Hin & a' & b' & Ha' & Hb' & Hab').
        split; [done|]. rewrite (lookup_insert_ne _ n p) by done.
        destruct (decide (n = c')) as [<-|Hnc].
        -- rewrite lookup_insert_eq. exists (a + 1), b'.
           split_and!; [done|done|]. rewrite Hgn in Ha'. injection Ha' as ->.
           specialize (Hw3 a' eq_refl). lia.
        -- rewrite lookup_insert_ne by done. eauto.
  - unfold potential. rewrite Hg.
    destruct (sum_list_with_update
                (λ p, weight (cell_count g) (Informed.g_score s !! p))
                (λ p, weight (cell_count g)
                        (<[n := Num (a + 1)]> (Informed.g_score s) !! p))
                n (elements (cells g))) as [_ Hsum].
    + intros p Hp. by rewrite lookup_insert_ne.
    + by rewrite lookup_insert_eq, Hgn.
    + assert (Hin : n ∈ elements (cells g)).
      { apply elem_of_elements. by apply elem_of_cells. }
      specialize (Hsum Hin). lia.
Qed.

Lemma popped_inv (g : Cells) (start end_ : Ref) (s : Informed.state)
    (e : entry) (h : list entry) :
  Informed.open_set s = e :: h →
  informed_inv g start end_ s →
  informed_inv g start end_ (Informed.popped h e.2 s) ∧
  (e.2 = start ∨ barrier_at g e.2 = false).
Proof.
  intros Ho (Hrep & Hcs & Hce & Hg0 & Hpos & Hos & Hcf).
  rewrite Ho in Hos. split; [|apply Hos; by left].
  unfold informed_inv. simpl. split_and!; try done.
  intros e' He'. apply Hos. by right.
Qed.

Lemma popped_term (best : Informed.state → gmap Ref score) (g : Cells)
    (s : Informed.state) (e : entry) (h : list entry) :
  (∀ s h c, best (Informed.popped h c s) = best s) →
  Informed.open_set s = e :: h →
  informed_term best g s →
  informed_term best g (Informed.popped h e.2 s) ∧
  Datatypes.S (potential g (Informed.popped h e.2 s)) = potential g s ∧
  in_grid g e.2 = true.
Proof.
  intros Hbest Ho (Hdom & Hheap & HF & Hcf). rewrite Ho in Hheap.
  split_and!.
  - unfold informed_term. rewrite Hbest. simpl. split_and!; try done.
    intros e' He'. apply Hheap. by right.
  - unfold potential. rewrite Ho. simpl. lia.
  - apply Hheap. by left.
Qed.

Lemma informed_close_term (best : Informed.state → gmap Ref score) (g : Cells)
    (c start end_ : Ref) (s : Informed.state) :
  (∀ c start end_ s, best (Informed.close c start end_ s) = best s) →
  informed_term best g s →
  informed_term best g (Informed.close c start end_ s) ∧
  potential g (Informed.close c start end_ s) = potential g s.
Proof.
  intros Hbest H. split.
  - unfold informed_term. rewrite Hbest. unfold Informed.close.
    by case_bool_decide.
  - unfold Informed.close. by case_bool_decide.
Qed.

Lemma informed_close_inv (g : Cells) (c start end_ : Ref) (s : Informed.state) :
  c = start ∨ barrier_at g c = false →
  informed_inv g start end_ s →
  informed_inv g start end_ (Informed.close c start end_ s).
Proof.
  intros Hc (Hrep & Hcs & Hce & Hg0 & Hpos & Hos & Hcf). unfold Informed.close.
  case_bool_decide as Hcc; [|done].
  destruct Hcc as [Hc1 Hc2]. destruct Hc as [?|Hc]; [done|].
  unfold informed_inv. simpl. unfold_make. split_and!; try done.
  - by apply repaints_paint.
  - by rewrite color_at_paint_ne.
  - by rewrite color_at_paint_ne.
Qed.

Lemma dijkstra_relax_total (g : Cells) (start end_ c n : Ref) (s : Informed.state) :
  in_grid g c = true → c = start ∨ barrier_at g c = false → in_grid g n = true →
  informed_inv g start end_ s ∧ heap_ok s ∧ informed_term Informed.g_score g s →
  ∃ s', Informed.dijkstra_relax c end_ s n = Some s' ∧
        (informed_inv g start end_ s' ∧ heap_ok s' ∧
         informed_term Informed.g_score g s') ∧
        (potential g s' ≤ potential g s)%nat.
Proof.
  intros Hc Hcb Hn (Hinv & Hheap & Hterm).
  assert (Hget : in_grid (Informed.grid s) n = true)
    by (by rewrite (repaints_in_grid g); [|apply Hinv]).
  apply bool_decide_eq_true in Hget as [nd Hnd].
  destruct (Node.is_barrier nd) eqn:Hb.
  { exists s. unfold Informed.dijkstra_relax. rewrite Hnd. simpl. rewrite Hb.
    split; [done|]. split; [done|lia]. }
  destruct (proj1 (proj1 Hterm c Hc)) as [gc Hgc].
  destruct (proj1 (proj1 Hterm n Hn)) as [gn Hgn].
  destruct (dijkstra_relax_relaxed c n end_ s nd gc gn) as (s' & Hs' & Hr); [done..|].
  exists s'. split; [done|].
  assert (Hbn : barrier_at g n = false).
  { rewrite <- (repaints_barrier_at g (Informed.grid s)) by apply Hinv.
    by eapply barrier_at_false_get. }
  destruct (relaxed_term Informed.g_score false g start end_ c n gc gn 0 s s')
    as [Ht Hp]; [by left|done..|].
  split; [split_and!|done]; [|by eapply relaxed_heap_ok|done].
  by eapply relaxed_inv.
Qed.

Lemma astar_relax_total (g : Cells) (start end_ c n : Ref) (s : Informed.state) :
  in_grid g end_ = true →
  in_grid g c = true → c = start ∨ barrier_at g c = false → in_grid g n = true →
  informed_inv g start end_ s ∧ heap_ok s ∧ informed_term Informed.f_score g s →
  ∃ s', Informed.astar_relax c end_ s n = Some s' ∧
        (informed_inv g start end_ s' ∧ heap_ok s' ∧
         informed_term Informed.f_score g s') ∧
        (potential g s' ≤ potential g s)%nat.
Proof.
  intros He Hc Hcb Hn (Hinv & Hheap & Hterm).
  assert (Hget : in_grid (Informed.grid s) n = true)
    by (by rewrite (repaints_in_grid g); [|apply Hinv]).
  apply bool_decide_eq_true in Hget as [nd Hnd].
  assert (Hgete : in_grid (Informed.grid s) end_ = true)
    by (by rewrite (repaints_in_grid g); [|apply Hinv]).
  apply bool_decide_eq_true in Hgete as [e_nd Hend].
  destruct (Node.is_barrier nd) eqn:Hb.
  { exists s. unfold Informed.astar_relax. rewrite Hnd. simpl. rewrite Hb.
    split; [done|]. split; [done|lia]. }
  destruct (proj1 (proj1 Hterm c Hc)) as [gc Hgc].
  destruct (proj1 (proj1 Hterm n Hn)) as [gn Hgn].
  destruct (astar_relax_relaxed c n end_ s nd e_nd gc gn) as (s' & Hs' & Hr); [done..|].
  exists s'. split; [done|].
  assert (Hbn : barrier_at g n = false).
  { rewrite <- (repaints_barrier_at g (Informed.grid s)) by apply Hinv.
    by eapply barrier_at_false_get. }
  destruct (relaxed_term Informed.f_score true g start end_ c n gc gn
              (manhattan (Node.get_pos nd) (Node.get_pos e_nd)) s s')
    as [Ht Hp]; [by right|done..|].
  split; [split_and!|done]; [|by eapply relaxed_heap_ok|done].
  by eapply relaxed_inv.
Qed.

Lemma informed_body_total (best : Informed.state → gmap Ref score)
    (relax : Ref → Ref → Informed.state → Ref → option Informed.state)
    (g : Cells) (fuel : nat) (start end_ : Ref) (s : Informed.state) :
  (∀ s h c, best (Informed.popped h c s) = best s) →
  (∀ c start end_ s, best (Informed.close c start end_ s) = best s) →
  (∀ c n s, in_grid g c = true → c = start ∨ barrier_at g c = false →
     in_grid g n = true →
     informed_inv g start end_ s ∧ heap_ok s ∧ informed_term best g s →
     ∃ s', relax c end_ s n = Some s' ∧
           (informed_inv g start end_ s' ∧ heap_ok s' ∧ informed_term best g s') ∧
           (potential g s' ≤ potential g s)%nat) →
  closed g → (cell_count g ≤ fuel)%nat →
  informed_inv g start end_ s ∧ heap_ok s ∧ informed_term best g s →
  Informed.pending s = true →
  ∃ o, Informed.body best relax fuel start end_ s = Some o ∧
       match o with
       | Continue s' =>
           (informed_inv g start end_ s' ∧ heap_ok s' ∧ informed_term best g s') ∧
           (potential g s' < potential g s)%nat
       | Return _ _ => True
       end.
Proof.
  intros Hbp Hbc Hrelax Hclosed Hfuel (Hinv & Hheap & Hterm) Hp.
  unfold Informed.pending in Hp.
  destruct (Informed.open_set s) as [|[[k t] c] h] eqn:Ho; [done|].
  destruct (popped_inv g start end_ s (k, t, c) h Ho Hinv) as [Hinv0 Hcb].
  pose proof (popped_heap_ok s (k, t, c) h Hheap Ho) as Hheap0.
  destruct (popped_term best g s (k, t, c) h Hbp Ho Hterm) as (Hterm0 & Hpot0 & Hc).
  simpl in *.
  assert (Hin : c ∈ Informed.open_set_hash s).
  { apply Hheap. rewrite Ho. simpl. by left. }
  destruct (proj2 (proj1 Hterm0 c Hc)) as [b Hb].
  unfold Informed.body. rewrite Ho. simpl. rewrite bool_decide_true by done.
  rewrite Hb. simpl. destruct (score_lt b (Num k)).
  { eexists. split; [done|]. simpl. split; [done|lia]. }
  case_bool_decide as He.
  - subst c. destruct Hterm as (_ & _ & (F & HF1 & HF2 & HF3) & Hcf).
    destruct (chain_of_scores g (Informed.came_from s) (Informed.g_score s))
      with (m := cell_count g) (p := end_) as (kk & Hkk & Hch).
    + apply Hinv.
    + intros p c Hpc. by destruct (Hcf p c Hpc) as [_ ?].
    + destruct (Informed.came_from s !! end_) as [c|] eqn:Hce; [|by left].
      right. destruct (Hcf end_ c Hce) as (_ & a & b' & _ & Hb' & _).
      exists b'. split; [done|]. pose proof (HF3 end_ b' Hb').
      pose proof (subseteq_size _ _ HF1). unfold cell_count. lia.
    + destruct (finish_total fuel (Informed.came_from s) start end_ kk
                  (Informed.grid s) (Informed.visited_nodes_count s))
        as (r & g' & Hfin); [done|lia| |].
      * intros p v Hpv. rewrite (repaints_in_grid g) by apply Hinv.
        by destruct (Hcf p v Hpv).
      * rewrite Hfin. simpl. by exists (Return r g').
  - assert (Hgc : in_grid (Informed.grid s) c = true)
      by (by rewrite (repaints_in_grid g); [|apply Hinv]).
    apply bool_decide_eq_true in Hgc as [nd Hnd]. rewrite Hnd. simpl.
    destruct (repaints_get g _ c nd (proj1 Hinv) Hnd) as (n0 & Hn0 & Hnb).
    destruct (foldM_total
                (λ t, (informed_inv g start end_ t ∧ heap_ok t ∧
                       informed_term best g t) ∧
                      (potential g t ≤ potential g (Informed.popped h c s))%nat)
                (relax c end_) (Node.neighbors nd))
      with (s := Informed.popped h c s) as (s1 & -> & (Hinv1 & Hheap1 & Hterm1) & Hpot1).
    + intros t' n Hn [Ht Hpt].
      destruct (Hrelax c n t') as (t'' & Ht'' & HT & Hpp); [done|done| |done|].
      * rewrite Hnb in Hn. by eapply Hclosed.
      * exists t''. split; [done|]. split; [done|lia].
    + split; [done|lia].
    + simpl. eexists. split; [done|]. simpl.
      destruct (informed_close_term best g c start end_ s1 Hbc Hterm1) as [Ht2 Hp2].
      split; [split_and!|lia]; [|by apply informed_close_heap_ok|done].
      by apply informed_close_inv.
Qed.

(** The neighbour lists that [update_all_neighbors] computes on a square
    grid hold nodes of the grid. *)
Lemma update_all_neighbors_closed (n : Z) (g g' : Cells) :
  square n g → Grid.update_all_neighbors_cells g = Some g' → closed g'.
Proof.
  intros Hsq Hup.
  destruct (update_all_neighbors_frame n g Hsq) as (g'' & Hup' & Hfr & Hnb).
  assert (g'' = g') as -> by congruence.
  intros p nd q Hnd Hq.
  assert (Hp : in_bounds n p).
  { apply Hsq. apply (same_frame_is_Some g g'); [done|]. by eexists. }
  pose proof (Hnb p Hp) as Hn. unfold neighbors_at in Hn. rewrite Hnd in Hn.
  injection Hn as Hn. rewrite Hn in Hq. unfold neighborsOf_spec in Hq.
  apply list_elem_of_In, filter_In in Hq as [_ Hq].
  apply andb_true_iff in Hq as [Hq _].
  apply bool_decide_eq_true. apply (same_frame_is_Some g g'); [done|].
  apply Hsq. by rewrite Hq.
Qed.

Lemma cells_size (g : Cells) : length (elements (cells g)) = cell_count g.
Proof. done. Qed.

Lemma informed_init_total (best : Informed.state → gmap Ref score) (g : Cells)
    (start end_ : Ref) (f : gmap Ref score) :
  in_grid g start = true →
  let s := {| Informed.grid := g;
              Informed.g_score := <[start := Num 0]> (all_infty g);
              Informed.f_score := f; Informed.count := 0;
              Informed.open_set := [(0, 0, start)]; Informed.came_from := ∅;
              Informed.open_set_hash := {[start]};
              Informed.visited_nodes_count := 0 |} in
  (∀ p, in_grid g p = true → is_Some (best s !! p)) →
  (informed_inv g start end_ s ∧ heap_ok s ∧ informed_term best g s) ∧
  (potential g s < enough_fuel g)%nat.
Proof.
  intros Hs s Hbest. split; [split_and!|].
  - apply informed_init_inv. by intros e ->%list_elem_of_singleton.
  - split; [|split]; simpl.
    + intros e ->%list_elem_of_singleton. done.
    + apply NoDup_singleton.
    + intros p. by rewrite elem_of_singleton, list_elem_of_singleton.
  - unfold informed_term. simpl. split_and!.
    + intros p Hp. split; [|by apply Hbest]. apply insert_is_Some.
      rewrite all_infty_in_grid, Hp. by eexists.
    + by intros e ->%list_elem_of_singleton.
    + exists {[start]}. split_and!.
      * apply singleton_subseteq_l. by apply elem_of_cells.
      * intros p. rewrite elem_of_singleton. split.
        -- intros ->. exists 0. by rewrite lookup_insert_eq.
        -- intros [z Hz]. destruct (decide (start = p)) as [|Hne]; [done|].
           rewrite lookup_insert_ne in Hz by done. by apply all_infty_lookup in Hz.
      * intros p z. rewrite size_singleton.
        destruct (decide (start = p)) as [<-|Hne].
        -- rewrite lookup_insert_eq. intros [= <-]. lia.
        -- rewrite lookup_insert_ne by done. by intros ?%all_infty_lookup.
    + intros p c. by rewrite lookup_empty.
  - unfold potential, enough_fuel. simpl.
    pose proof (sum_list_with_bound
                  (λ p, weight (cell_count g)
                          (<[start := Num 0]> (all_infty g) !! p))
                  (cell_count g) (elements (cells g))) as Hsum.
    rewrite cells_size in Hsum.
    assert (Hw : ∀ p, (weight (cell_count g)
                         (<[start := Num 0]> (all_infty g) !! p)
                       ≤ cell_count g)%nat).
    { intros p. destruct (decide (start = p)) as [<-|Hne].
      - rewrite lookup_insert_eq. simpl. lia.
      - rewrite lookup_insert_ne by done.
        destruct (all_infty g !! p) as [[z|]|] eqn:Hz; simpl; try lia.
        by apply all_infty_lookup in Hz. }
    specialize (Hsum Hw). lia.
Qed.

(** With [enough_fuel] every search on a closed grid returns, whatever the
    schedule. *)
Theorem run_total (A : search) (fuel : nat) (sched : list signal) (g : Cells)
    (start end_ : Ref) :
  A ∈ algorithms → closed g →
  in_grid g start = true → in_grid g end_ = true →
  (enough_fuel g ≤ fuel)%nat →
  ∃ r g', run A fuel sched g start end_ = Some (r, g').
Proof.
  unfold algorithms. rewrite !elem_of_cons, elem_of_nil.
  intros HA Hclosed Hs He Hfuel. unfold run. rewrite Hs, He. simpl.
  assert (HN : (cell_count g ≤ fuel)%nat ∧ (cell_count g < enough_fuel g)%nat).
  { unfold enough_fuel in *. nia. }
  destruct HN as [HN1 HN2].
  assert (Hpos : (0 < cell_count g)%nat).
  { unfold cell_count. destruct (size (cells g)) eqn:Hsz; [|lia].
    apply size_empty_inv in Hsz. apply elem_of_cells in Hs. set_solver. }
  assert (Huninit : (uninformed_measure g (Uninformed.init g start) < fuel)%nat).
  { unfold uninformed_measure, Uninformed.init.
    cbn [Uninformed.visited Uninformed.frontier]. rewrite size_singleton.
    simpl. lia. }
  assert (Hres : ∀ o : option (result * Cells),
            (∃ rg, o = Some rg) → ∃ r g', o = Some (r, g')).
  { intros o [[r g'] ->]. eauto. }
  apply Hres. destruct HA as [->|[->|[->|[->|[]]]]]; simpl.
  - eapply (while_loop_total _ _ _ _
              (λ s, uninformed_inv g start end_ s ∧ uninformed_term g s)
              (uninformed_measure g)); [|split|done].
    + intros s. by apply bfs_body_total.
    + apply uninformed_init_inv.
    + by apply uninformed_init_term.
  - eapply (while_loop_total _ _ _ _
              (λ s, uninformed_inv g start end_ s ∧ uninformed_term g s)
              (uninformed_measure g)); [|split|done].
    + intros s. by apply dfs_body_total.
    + apply uninformed_init_inv.
    + by apply uninformed_init_term.
  - destruct (informed_init_total Informed.g_score g start end_ ∅ Hs) as [HT Hpot].
    { intros p Hp. simpl. apply insert_is_Some.
      rewrite all_infty_in_grid, Hp. by eexists. }
    eapply (while_loop_total _ _ _ _
              (λ s, informed_inv g start end_ s ∧ heap_ok s ∧
                    informed_term Informed.g_score g s)
              (potential g)); [|exact HT|unfold Informed.dijkstra_init; lia].
    intros s. apply informed_body_total;
      [done|intros; unfold Informed.close; by case_bool_decide| |done|done].
    intros c n s'. by apply dijkstra_relax_total.
  - unfold Informed.astar_init.
    pose proof Hs as [s_nd Hsn]%bool_decide_eq_true.
    pose proof He as [e_nd Hen]%bool_decide_eq_true.
    rewrite Hsn, Hen. simpl.
    destruct (informed_init_total Informed.f_score g start end_
                (<[start := Num (manhattan (Node.get_pos s_nd) (Node.get_pos e_nd))]>
                   (all_infty g)) Hs) as [HT Hpot].
    { intros p Hp. simpl. apply insert_is_Some.
      rewrite all_infty_in_grid, Hp. by eexists. }
    eapply (while_loop_total _ _ _ _
              (λ s, informed_inv g start end_ s ∧ heap_ok s ∧
                    informed_term Informed.f_score g s)
              (potential g)); [|exact HT|lia].
    intros s. apply informed_body_total;
      [done|intros; unfold Informed.close; by case_bool_decide| |done|done].
    intros c n s'. by apply astar_relax_total.
Qed.

(** ** [dijkstra] and [astar] expand no cell twice *)

Lemma heappush_sorted (h : list entry) (e : entry) :
  StronglySorted entry_le h → StronglySorted entry_le (heappush h e).
Proof.
  induction 1 as [|a h Hh IH Ha]; simpl.
  - repeat constructor.
  - destruct (entry_lt e a) eqn:Hlt.
    + unfold entry_lt in Hlt. apply bool_decide_eq_true in Hlt.
      assert (Hea : entry_le e a) by (unfold entry_le; lia).
      constructor; [by constructor|]. constructor; [done|].
      eapply Forall_impl; [exact Ha|]. unfold entry_le in *. intros x Hx. lia.
    + unfold entry_lt in Hlt. apply bool_decide_eq_false in Hlt.
      constructor; [done|]. apply Forall_forall.
      intros x [->|Hx]%elem_of_heappush.
      * unfold entry_le. lia.
      * rewrite Forall_forall in Ha. by apply Ha.
Qed.

(** [heappop] takes a least entry. *)
Lemma heappop_least (h h' : list entry) (a : entry) :
  StronglySorted entry_le h → heappop h = Some (a, h') →
  StronglySorted entry_le h' ∧ ∀ e, e ∈ h' → entry_le a e.
Proof.
  intros Hs. destruct h as [|a0 h0]; [done|]. simpl. intros [= <- <-].
  apply StronglySorted_inv in Hs as [Hs Ha]. split; [done|].
  by apply Forall_forall.
Qed.

(** In every state of a run of [dijkstra] or of [astar] the heap of the
    model is in order: its head, which [heappop] takes, is a least entry, the
    one [heapq.heappop] returns. *)
Lemma relaxed_sorted (is_astar : bool) (c n end_ : Ref) (gc gn : score) (h : Z)
    (s s' : Informed.state) :
  StronglySorted entry_le (Informed.open_set s) →
  relaxed is_astar c n end_ gc gn h s s' →
  StronglySorted entry_le (Informed.open_set s').
Proof.
  intros Hs. unfold relaxed.
  destruct (score_succ gc) as [t|]; [|by intros ->].
  destruct (score_lt (Num t) gn); [|by intros ->].
  intros (_ & _ & _ & _ & H). case_bool_decide.
  - destruct H as (-> & _). done.
  - destruct H as (_ & -> & _). by apply heappush_sorted.
Qed.

Lemma informed_body_sorted (best : Informed.state → gmap Ref score)
    (relax : Ref → Ref → Informed.state → Ref → option Informed.state)
    (fuel : nat) (start end_ : Ref) (s s' : Informed.state) :
  (∀ c e s n s', relax c e s n = Some s' →
     StronglySorted entry_le (Informed.open_set s) →
     StronglySorted entry_le (Informed.open_set s')) →
  StronglySorted entry_le (Informed.open_set s) →
  Informed.body best relax fuel start end_ s = Some (Continue s') →
  StronglySorted entry_le (Informed.open_set s').
Proof.
  intros Hrelax Hs Hb.
  apply informed_body_continue in Hb
    as (k & t & c & h & b & Ho & _ & _ & [[_ ->]|(_ & _ & nd & s1 & _ & Hfold & ->)]);
    rewrite Ho in Hs; apply StronglySorted_inv in Hs as [Hs _]; [done|].
  assert (H1 : StronglySorted entry_le (Informed.open_set s1)).
  { eapply (foldM_inv (λ t, StronglySorted entry_le (Informed.open_set t)));
      [| |exact Hfold]; [|exact Hs].
    intros s2 a s3 _ H2 H3. by eapply Hrelax. }
  unfold Informed.close. by case_bool_decide.
Qed.

Lemma dijkstra_open_set_sorted (g : Cells) (fuel : nat) (start end_ : Ref)
    (s : Informed.state) :
  reaches Informed.pending (Informed.dijkstra_body fuel start end_)
    (Informed.dijkstra_init g start) s →
  StronglySorted entry_le (Informed.open_set s).
Proof.
  apply (reaches_inv _ _ (λ s, StronglySorted entry_le (Informed.open_set s))).
  - intros s1 s2 H1 _ Hb. eapply informed_body_sorted; [|done..].
    intros c e s3 n s4 [->|(gc & gn & Hr)]%dijkstra_relax_cases H3; [done|].
    by eapply relaxed_sorted.
  - simpl. repeat constructor.
Qed.

Lemma astar_open_set_sorted (g : Cells) (fuel : nat) (start end_ : Ref)
    (s0 s : Informed.state) :
  Informed.astar_init g start end_ = Some s0 →
  reaches Informed.pending (Informed.astar_body fuel start end_) s0 s →
  StronglySorted entry_le (Informed.open_set s).
Proof.
  intros H0.
  apply (reaches_inv _ _ (λ s, StronglySorted entry_le (Informed.open_set s))).
  - intros s1 s2 H1 _ Hb. eapply informed_body_sorted; [|done..].
    intros c e s3 n s4 [->|(gc & gn & h & Hr)]%astar_relax_cases H3; [done|].
    by eapply relaxed_sorted.
  - unfold Informed.astar_init in H0.
    destruct (get g start); [|done]. destruct (get g end_); [|done].
    injection H0 as <-. simpl. repeat constructor.
Qed.

Lemma score_lt_Num (a b : Z) : score_lt (Num a) (Num b) = bool_decide (a < b).
Proof. done. Qed.

Section Once.
Variable is_astar : bool.
Variable H : Ref → Z.
Variable g0 : Cells.
Variables start end_ : Ref.
Variable relax : Ref → Ref → Informed.state → Ref → option Informed.state.

Hypothesis H_dijkstra : is_astar = false → ∀ p, H p = 0.
Hypothesis relax_inv : ∀ c n s s',
  c = start ∨ barrier_at g0 c = false →
  informed_inv g0 start end_ s → relax c end_ s n = Some s' →
  informed_inv g0 start end_ s'.
Hypothesis relax_cases : ∀ c n s s',
  informed_inv g0 start end_ s → relax c end_ s n = Some s' →
  s' = s ∨
  ∃ gc gn, in_grid g0 n = true ∧
           Informed.g_score s !! c = Some gc ∧ Informed.g_score s !! n = Some gn ∧
           relaxed is_astar c n end_ gc gn (H n) s s'.
Hypothesis H_consistent : ∀ s c nd n,
  informed_inv g0 start end_ s → get (Informed.grid s) c = Some nd →
  n ∈ Node.neighbors nd → in_grid g0 n = true → H c ≤ H n + 1.

Lemma relaxed_once (X : gset Ref) (L : Z) (c n : Ref) (gc gn : score)
    (s s' : Informed.state) :
  informed_inv g0 start end_ s →
  informed_once is_astar H start X L s →
  (∀ zc, Informed.g_score s !! c = Some (Num zc) → L ≤ zc + H c) →
  H c ≤ H n + 1 →
  Informed.g_score s !! c = Some gc → Informed.g_score s !! n = Some gn →
  relaxed is_astar c n end_ gc gn (H n) s s' →
  informed_once is_astar H start X L s' ∧
  (∀ zc, Informed.g_score s' !! c = Some (Num zc) → L ≤ zc + H c).
Proof.
  intros Hinv Hs Hc Hcons Hgc Hgn Hr.
  destruct (relaxed_heap_ok _ _ _ _ _ _ _ _ _ (proj1 Hs) Hr) as (Hok' & _ & _).
  destruct Hs as (Hok & Hsort & Hlink & Hheap & HX).
  destruct Hinv as (_ & _ & _ & Hg0 & Hpos & _ & _).
  unfold relaxed, score_succ in Hr.
  destruct gc as [zc|]; [|subst s'; by split_and!].
  destruct (score_lt (Num (zc + 1)) gn) eqn:Hlt; [|subst s'; by split_and!].
  destruct Hr as (Hg & _ & Hf & _ & Hrest).
  assert (Hzc : 0 ≤ zc) by (by eapply Hpos).
  assert (HL : L ≤ zc + H c) by (by apply Hc).
  assert (Hns : n ≠ start).
  { intros ->. rewrite Hg0 in Hgn. injection Hgn as <-.
    rewrite score_lt_Num in Hlt. apply bool_decide_eq_true in Hlt. lia. }
  assert (Hnc : n ≠ c).
  { intros ->. rewrite Hgc in Hgn. injection Hgn as <-.
    rewrite score_lt_Num in Hlt. apply bool_decide_eq_true in Hlt. lia. }
  (* the best score of [n] before and after *)
  assert (Hold : ∀ b, best_of is_astar s !! n = Some (Num b) → zc + 1 + H n < b).
  { intros b. rewrite Hlink, Hgn. simpl. destruct gn as [zn|]; [|done].
    simpl. intros [= <-]. rewrite score_lt_Num in Hlt.
    apply bool_decide_eq_true in Hlt. lia. }
  assert (Hbest : best_of is_astar s' = <[n := Num (zc + 1 + H n)]> (best_of is_astar s)).
  { unfold best_of. destruct is_astar; [by rewrite Hf|].
    rewrite Hg, (H_dijkstra eq_refl). do 2 f_equal. lia. }
  assert (HnX : n ∉ X).
  { intros [_ [?|(b & Hb & HbL)]]%HX; [done|]. apply Hold in Hb. lia. }
  assert (Hlink' : ∀ p, best_of is_astar s' !! p
                        = (score_add (H p) <$> Informed.g_score s' !! p)).
  { intros p. rewrite Hbest, Hg. destruct (decide (n = p)) as [<-|Hne].
    - by rewrite !lookup_insert_eq.
    - rewrite !lookup_insert_ne by done. apply Hlink. }
  assert (Hkeep : ∀ e, e ∈ Informed.open_set s →
            L ≤ e.1.1 ∧
            (e.2 = start ∨
             ∃ b, best_of is_astar s' !! e.2 = Some (Num b) ∧ b ≤ e.1.1)).
  { intros e He. destruct (Hheap e He) as [HLe Hb]. split; [done|].
    destruct Hb as [?|(b & Hb & Hbe)]; [by left|]. right. rewrite Hbest.
    destruct (decide (n = e.2)) as [Heq|Hne].
    - rewrite <- Heq in *. rewrite lookup_insert_eq. eexists. split; [done|].
      apply Hold in Hb. lia.
    - rewrite lookup_insert_ne by done. eauto. }
  assert (HX' : ∀ hs : gset Ref, (∀ p, p ∈ hs → p = n ∨ p ∈ Informed.open_set_hash s) →
            ∀ p, p ∈ X →
              ¬ (p ∈ hs) ∧
              (p = start ∨ ∃ b, best_of is_astar s' !! p = Some (Num b) ∧ b ≤ L)).
  { intros hs Hhs p Hp. destruct (HX p Hp) as [Hph Hb]. split.
    - intros [->|?]%Hhs; done.
    - rewrite Hbest, lookup_insert_ne; [done|]. by intros <-. }
  assert (Hc' : ∀ zc', Informed.g_score s' !! c = Some (Num zc') → L ≤ zc' + H c).
  { intros zc'. rewrite Hg, lookup_insert_ne by done. apply Hc. }
  split; [|done].
  case_bool_decide as Hin.
  - destruct Hrest as (Ho & _ & Hh & _). unfold informed_once.
    rewrite Ho, Hh. split_and!; [done..|]. apply HX'. auto.
  - destruct Hrest as (_ & Ho & Hh & _). unfold informed_once.
    rewrite Ho, Hh. split_and!; [done| |done| |].
    + by apply heappush_sorted.
    + intros e [->|He]%elem_of_heappush; [|by apply Hkeep]. simpl.
      assert (Hkey : (if is_astar then zc + 1 + H n else zc + 1) = zc + 1 + H n).
      { destruct is_astar; [done|]. rewrite (H_dijkstra eq_refl). lia. }
      rewrite Hkey. split; [lia|]. right. rewrite Hbest, lookup_insert_eq.
      eexists. split; [done|lia].
    + apply HX'. intros p [->%elem_of_singleton|?]%elem_of_union; auto.
Qed.

Lemma best_of_popped (h : list entry) (c : Ref) (s : Informed.state) :
  best_of is_astar (Informed.popped h c s) = best_of is_astar s.
Proof. unfold best_of. by destruct is_astar. Qed.

Lemma best_of_close (c : Ref) (s : Informed.state) :
  best_of is_astar (Informed.close c start end_ s) = best_of is_astar s.
Proof. unfold best_of, Informed.close. case_bool_decide; by destruct is_astar. Qed.

Lemma once_close (X : gset Ref) (L : Z) (c : Ref) (s : Informed.state) :
  informed_once is_astar H start X L s →
  informed_once is_astar H start X L (Informed.close c start end_ s).
Proof.
  unfold informed_once. rewrite best_of_close.
  unfold Informed.close. by case_bool_decide.
Qed.

(** One iteration: it drops a stale entry, or it expands a cell that was not
    expanded before. *)
Lemma once_step (fuel : nat) (X : gset Ref) (L : Z) (s s' : Informed.state) :
  informed_inv g0 start end_ s →
  informed_once is_astar H start X L s →
  Informed.body (best_of is_astar) relax fuel start end_ s = Some (Continue s') →
  (Informed.expanding (best_of is_astar) end_ s = None ∧
   informed_once is_astar H start X L s') ∨
  (∃ c k, Informed.expanding (best_of is_astar) end_ s = Some c ∧ ¬ (c ∈ X) ∧
          informed_once is_astar H start (X ∪ {[c]}) k s').
Proof.
  intros Hinv Hs Hb.
  apply informed_body_continue in Hb
    as (k & t & c & h & b & Ho & Hin & Hbc & Hcase).
  rewrite best_of_popped in Hbc.
  pose proof Hs as (Hok & Hsort & Hlink & Hheap & HX).
  pose proof (popped_heap_ok s (k, t, c) h Hok Ho) as Hok0. simpl in Hok0.
  rewrite Ho in Hsort, Hheap. apply StronglySorted_inv in Hsort as [Hsort Hleast].
  rewrite Forall_forall in Hleast.
  destruct (Hheap (k, t, c)) as [HLk Hck]; [by left|]. simpl in HLk, Hck.
  destruct Hcase as [[Hlt ->]|(Hlt & Hne & nd & s1 & Hnd & Hfold & ->)].
  - left. split.
    { unfold Informed.expanding. by rewrite Ho, Hbc, Hlt. }
    unfold informed_once. rewrite best_of_popped. simpl. split_and!; [done..| |].
    + intros e He. apply Hheap. by right.
    + intros p Hp. destruct (HX p Hp) as [Hph Hpb]. split; [set_solver|done].
  - right. exists c, k. split.
    { unfold Informed.expanding. rewrite Ho, Hbc, Hlt. by rewrite bool_decide_false. }
    split; [intros Hc; by apply (HX c Hc)|].
    apply once_close.
    assert (Hcs : c = start ∨ barrier_at g0 c = false).
    { destruct Hinv as (_ & _ & _ & _ & _ & Hos & _).
      apply (Hos (k, t, c)). rewrite Ho. by left. }
    assert (Hinv0 : informed_inv g0 start end_ (Informed.popped h c s)).
    { destruct Hinv as (? & ? & ? & ? & ? & Hos & ?).
      unfold informed_inv. simpl. split_and!; try done.
      intros e He. apply Hos. rewrite Ho. by right. }
    eapply (foldM_inv (λ t, informed_inv g0 start end_ t ∧
                            informed_once is_astar H start (X ∪ {[c]}) k t ∧
                            ∀ zc, Informed.g_score t !! c = Some (Num zc) →
                                  k ≤ zc + H c)) in Hfold as (_ & Hdone & _);
      [exact Hdone| |].
    + intros s2 a s3 Ha (Hinv2 & Hs2 & Hc2) Hrel. split; [by eapply relax_inv|].
      destruct (relax_cases _ _ _ _ Hinv2 Hrel)
        as [->|(gc & gn & Hag & Hgc & Hgn & Hr)]; [done|].
      eapply relaxed_once; [exact Hinv2|exact Hs2|exact Hc2| |exact Hgc|exact Hgn|exact Hr].
      by eapply (H_consistent s c nd a).
    + split; [done|]. split.
      * unfold informed_once. rewrite best_of_popped. simpl. split_and!; [done..| |].
        -- intros e He. split; [|apply Hheap; by right].
           pose proof (Hleast e He) as Hle. unfold entry_le in Hle.
           simpl in Hle. lia.
        -- intros p [Hp | ->%elem_of_singleton]%elem_of_union.
           ++ destruct (HX p Hp) as [Hph Hpb]. split; [set_solver|].
              destruct Hpb as [?|(b' & Hb' & Hle)]; [by left|].
              right. exists b'. split; [done|lia].
           ++ split; [set_solver|done].
      * simpl. intros zc Hzc. rewrite Hlink, Hzc in Hbc. simpl in Hbc.
        injection Hbc as <-. rewrite score_lt_Num in Hlt.
        apply bool_decide_eq_false in Hlt. lia.
Qed.

Lemma informed_expansions_NoDup (fuel fuel' : nat) (sched : list signal)
    (X : gset Ref) (L : Z) (s : Informed.state) :
  informed_inv g0 start end_ s →
  informed_once is_astar H start X L s →
  NoDup (expansions Informed.pending
           (Informed.body (best_of is_astar) relax fuel start end_)
           (Informed.expanding (best_of is_astar) end_) fuel' sched s) ∧
  ∀ c, c ∈ expansions Informed.pending
             (Informed.body (best_of is_astar) relax fuel start end_)
             (Informed.expanding (best_of is_astar) end_) fuel' sched s →
       c ∉ X.
Proof.
  revert sched X L s.
  induction fuel' as [|fuel' IH]; intros sched X L s Hinv Hs; simpl.
  { destruct (Informed.pending s); split; try apply NoDup_nil_2;
      by intros c ?%elem_of_nil. }
  destruct (Informed.pending s); [|split; [apply NoDup_nil_2|by intros c ?%elem_of_nil]].
  assert (Hgo :
    NoDup match Informed.body (best_of is_astar) relax fuel start end_ s with
          | Some (Continue s') =>
              option_list (Informed.expanding (best_of is_astar) end_ s) ++
              expansions Informed.pending
                (Informed.body (best_of is_astar) relax fuel start end_)
                (Informed.expanding (best_of is_astar) end_) fuel' (tail sched) s'
          | _ => []
          end ∧
    ∀ c, c ∈ match Informed.body (best_of is_astar) relax fuel start end_ s with
             | Some (Continue s') =>
                 option_list (Informed.expanding (best_of is_astar) end_ s) ++
                 expansions Informed.pending
                   (Informed.body (best_of is_astar) relax fuel start end_)
                   (Informed.expanding (best_of is_astar) end_) fuel' (tail sched) s'
             | _ => []
             end → c ∉ X).
  { destruct (Informed.body _ _ _ _ _ s) as [[r g|s']|] eqn:Hb;
      try (split; [apply NoDup_nil_2|by intros c ?%elem_of_nil]).
    assert (Hinv' : informed_inv g0 start end_ s').
    { eapply informed_body_inv; [|exact Hinv|exact Hb].
      intros c n s1 s2. apply relax_inv. }
    destruct (once_step fuel X L s s' Hinv Hs Hb)
      as [[-> Hs']|(c & k & -> & HcX & Hs')]; simpl.
    - by apply (IH (tail sched) X L s').
    - destruct (IH (tail sched) (X ∪ {[c]}) k s' Hinv' Hs') as [IH1 IH2]. split.
      + apply NoDup_cons. split; [|done]. intros Hc%IH2. set_solver.
      + intros x [->|Hx%IH2]%elem_of_cons; [done|]. set_solver. }
  destruct sched as [|[|] sched]; [done|done|].
  split; [apply NoDup_nil_2|by intros c ?%elem_of_nil].
Qed.

End Once.

Lemma repaints_get_pos (g g' : Cells) (p : Ref) (nd' : Node.t) :
  repaints g g' → get g' p = Some nd' →
  ∃ nd, get g p = Some nd ∧ Node.get_pos nd = Node.get_pos nd' ∧
        Node.neighbors nd = Node.neighbors nd'.
Proof.
  intros H Hnd'. specialize (H p). rewrite Hnd' in H.
  destruct (get g p) as [nd|]; [|done]. destruct H as [H _].
  exists nd. split; [done|].
  pose proof (f_equal Node.row H) as Hr. pose proof (f_equal Node.col H) as Hc.
  pose proof (f_equal Node.neighbors H) as Hn. simpl in *.
  unfold Node.get_pos. by rewrite Hr, Hc, Hn.
Qed.

Lemma heuristic_repaints (g g' : Cells) (end_ n : Ref) (nd e_nd : Node.t) :
  repaints g g' → get g' n = Some nd → get g' end_ = Some e_nd →
  manhattan (Node.get_pos nd) (Node.get_pos e_nd) = heuristic g end_ n.
Proof.
  intros H Hn He.
  destruct (repaints_get_pos g g' n nd H Hn) as (nd0 & Hn0 & Hp & _).
  destruct (repaints_get_pos g g' end_ e_nd H He) as (e0 & He0 & Hpe & _).
  unfold heuristic. by rewrite Hn0, He0, Hp, Hpe.
Qed.

(** On a wired store the heuristic of [astar] is consistent: a step changes
    it by at most one. *)
Lemma wired_consistent (g : Cells) (end_ c n : Ref) (nd : Node.t) :
  wired g → get g c = Some nd → n ∈ Node.neighbors nd → in_grid g n = true →
  heuristic g end_ c ≤ heuristic g end_ n + 1.
Proof.
  intros Hw Hc Hn [ndn Hndn]%bool_decide_eq_true.
  destruct (Hw c nd Hc) as [Hpc Hadj]. destruct (Hw n ndn Hndn) as [Hpn _].
  specialize (Hadj n Hn). unfold heuristic. rewrite Hc, Hndn.
  destruct (get g end_) as [e|]; [|lia]. rewrite Hpc, Hpn.
  unfold adjacent in Hadj. destruct (Node.get_pos e) as [er ec], c as [cr cc].
  unfold manhattan. simpl in Hadj.
  rewrite !elem_of_cons, elem_of_nil in Hadj.
  destruct Hadj as [->|[->|[->|[->|[]]]]]; lia.
Qed.

Lemma dijkstra_relax_once_cases (g : Cells) (start end_ c n : Ref)
    (s s' : Informed.state) :
  informed_inv g start end_ s →
  Informed.dijkstra_relax c end_ s n = Some s' →
  s' = s ∨
  ∃ gc gn, in_grid g n = true ∧
           Informed.g_score s !! c = Some gc ∧ Informed.g_score s !! n = Some gn ∧
           relaxed false c n end_ gc gn 0 s s'.
Proof.
  intros Hinv H. pose proof H as H0. unfold Informed.dijkstra_relax in H.
  destruct (get _ n) as [nd|] eqn:Hnd; [|done]. simpl in H.
  destruct (Node.is_barrier nd) eqn:Hb; [left; congruence|].
  destruct (Informed.g_score s !! c) as [gc|] eqn:Hgc; [|done]. simpl in H.
  destruct (Informed.g_score s !! n) as [gn|] eqn:Hgn; [|done].
  destruct (dijkstra_relax_relaxed c n end_ s nd gc gn) as (s'' & Hs'' & Hr); [done..|].
  right. exists gc, gn. split_and!; [|done|done|congruence].
  rewrite <- (repaints_in_grid g (Informed.grid s)) by apply Hinv.
  apply bool_decide_eq_true. by eexists.
Qed.

Lemma astar_relax_once_cases (g : Cells) (start end_ c n : Ref)
    (s s' : Informed.state) :
  informed_inv g start end_ s →
  Informed.astar_relax c end_ s n = Some s' →
  s' = s ∨
  ∃ gc gn, in_grid g n = true ∧
           Informed.g_score s !! c = Some gc ∧ Informed.g_score s !! n = Some gn ∧
           relaxed true c n end_ gc gn (heuristic g end_ n) s s'.
Proof.
  intros Hinv H. pose proof H as H0. unfold Informed.astar_relax in H.
  destruct (get _ n) as [nd|] eqn:Hnd; [|done]. simpl in H.
  destruct (Node.is_barrier nd) eqn:Hb; [left; congruence|].
  destruct (Informed.g_score s !! c) as [gc|] eqn:Hgc; [|done]. simpl in H.
  destruct (Informed.g_score s !! n) as [gn|] eqn:Hgn; [|done]. simpl in H.
  destruct (score_lt (score_succ gc) gn) eqn:Hlt; [|left; congruence].
  destruct (score_succ gc) as [t|] eqn:Ht; [|done].
  destruct (get _ end_) as [e_nd|] eqn:He; [|done].
  destruct (astar_relax_relaxed c n end_ s nd e_nd gc gn) as (s'' & Hs'' & Hr); [done..|].
  right. exists gc, gn. split_and!; [|done|done|].
  - rewrite <- (repaints_in_grid g (Informed.grid s)) by apply Hinv.
    apply bool_decide_eq_true. by eexists.
  - rewrite <- (heuristic_repaints g (Informed.grid s) end_ n nd e_nd);
      [congruence|apply Hinv|done|done].
Qed.

Lemma score_add_all_infty (h : Z) (g : Cells) (p : Ref) :
  score_add h <$> all_infty g !! p = all_infty g !! p.
Proof.
  destruct (all_infty g !! p) as [[z|]|] eqn:Hp; [|done..].
  by apply all_infty_lookup in Hp.
Qed.

Lemma informed_init_once (is_astar : bool) (H : Ref → Z) (g : Cells)
    (start : Ref) (f : gmap Ref score) :
  let s := {| Informed.grid := g;
              Informed.g_score := <[start := Num 0]> (all_infty g);
              Informed.f_score := f; Informed.count := 0;
              Informed.open_set := [(0, 0, start)]; Informed.came_from := ∅;
              Informed.open_set_hash := {[start]};
              Informed.visited_nodes_count := 0 |} in
  (∀ p, best_of is_astar s !! p = (score_add (H p) <$> Informed.g_score s !! p)) →
  informed_once is_astar H start ∅ 0 s.
Proof.
  intros s Hlink. unfold informed_once. split_and!; [|repeat constructor|done| |].
  - split; [|split]; simpl.
    + intros e ->%list_elem_of_singleton. done.
    + apply NoDup_singleton.
    + intros p. by rewrite elem_of_singleton, list_elem_of_singleton.
  - intros e ->%list_elem_of_singleton. simpl. split; [done|by left].
  - intros p Hp. by apply not_elem_of_empty in Hp.
Qed.

Lemma dijkstra_expansions_NoDup (fuel : nat) (sched : list signal) (g : Cells)
    (start end_ : Ref) :
  NoDup (run_expansions DIJKSTRA fuel sched g start end_).
Proof.
  unfold run_expansions. simpl.
  apply (informed_expansions_NoDup false (λ _, 0) g start end_
           Informed.dijkstra_relax) with (X := ∅) (L := 0).
  - done.
  - intros c n s s'. apply dijkstra_relax_inv.
  - intros c n s s'. apply dijkstra_relax_once_cases.
  - intros. lia.
  - by apply DIJKSTRA_init_inv.
  - apply (informed_init_once false). intros p. simpl.
    destruct (decide (start = p)) as [<-|Hne].
    + by rewrite lookup_insert_eq.
    + rewrite lookup_insert_ne by done. by rewrite score_add_all_infty.
Qed.

Lemma astar_expansions_NoDup (fuel : nat) (sched : list signal) (g : Cells)
    (start end_ : Ref) :
  wired g → NoDup (run_expansions ASTAR fuel sched g start end_).
Proof.
  intros Hw. unfold run_expansions.
  destruct (init ASTAR g start end_) as [s0|] eqn:Hs0; [|apply NoDup_nil_2].
  pose proof (ASTAR_init_inv g start end_ s0 Hs0) as Hinv.
  simpl in Hs0. unfold Informed.astar_init in Hs0.
  destruct (get g start) as [s_nd|] eqn:Hs; [|done].
  destruct (get g end_) as [e_nd|] eqn:He; [|done].
  simpl in Hs0. injection Hs0 as <-. simpl.
  apply (informed_expansions_NoDup true (heuristic g end_) g start end_
           Informed.astar_relax) with (X := ∅) (L := 0).
  - done.
  - intros c n s s'. apply astar_relax_inv.
  - intros c n s s'. apply astar_relax_once_cases.
  - intros s c nd n Hi Hc Hn Hg.
    destruct (repaints_get_pos g (Informed.grid s) c nd) as (nd0 & Hc0 & _ & Hnb);
      [apply Hi|done|].
    apply (wired_consistent g end_ c n nd0); [done|done| |done]. by rewrite Hnb.
  - exact Hinv.
  - apply (informed_init_once true). intros p. simpl.
    destruct (decide (start = p)) as [<-|Hne].
    + rewrite !lookup_insert_eq. simpl. unfold heuristic. by rewrite Hs, He.
    + rewrite !lookup_insert_ne by done. by rewrite score_add_all_infty.
Qed.

(** ** The stores a session prepares *)

Lemma update_all_neighbors_wired (n : Z) (g g' : Cells) :
  square n g → Grid.update_all_neighbors_cells g = Some g' → wired g'.
Proof.
  intros Hsq Hup.
  destruct (update_all_neighbors_frame n g Hsq) as (g'' & Hup' & Hfr & Hnb).
  assert (g'' = g') as -> by congruence.
  pose proof (same_frame_square n g g' Hfr Hsq) as [Hs1 Hs2].
  intros p nd Hnd. destruct (Hs2 p nd Hnd) as (Hr & Hc & _). split.
  - unfold Node.get_pos. rewrite Hr, Hc. by destruct p.
  - assert (Hp : in_bounds n p) by (apply Hs1; by eexists).
    specialize (Hnb p Hp). unfold neighbors_at in Hnb. rewrite Hnd in Hnb.
    injection Hnb as ->. intros q Hq. unfold neighborsOf_spec in Hq.
    apply list_elem_of_In, filter_In in Hq as [Hq _]. by apply list_elem_of_In.
Qed.

Lemma square_clear_path_nodes (n : Z) (g : Cells) (start_node end_node : option Ref) :
  square n g → square n (Grid.clear_path_nodes_cells g start_node end_node).
Proof.
  intros [H1 H2].
  assert (H0 : square n ((λ rw : list Node.t, Grid.clear_node <$> rw) <$> g)).
  { split.
    - intros p. by rewrite get_clear_nodes, fmap_is_Some.
    - intros p nd. rewrite get_clear_nodes.
      destruct (get g p) as [nd0|] eqn:Hp; [|done]. intros [= <-].
      destruct (H2 p nd0 Hp) as (? & ? & ?). unfold Grid.clear_node.
      by destruct (negb _). }
  unfold Grid.clear_path_nodes_cells.
  destruct start_node as [s|], end_node as [e|];
    unfold Node.make_start, Node.make_end;
    repeat apply square_set_color; done.
Qed.

Lemma square_make_barriers (n : Z) (g : Cells) (barriers : list Ref) :
  square n g → square n (foldr (modify Node.make_barrier) g barriers).
Proof.
  intros Hsq. induction barriers as [|b l IH]; simpl; [done|].
  by apply square_set_color.
Qed.

(** The store [prepare] hands to a search is closed, wired and refreshed. *)
Lemma prepare_spec (rows width : Z) (start end_ : Ref)
    (barriers : list Ref) (g : Cells) :
  prepare rows width start end_ barriers = Some g →
  closed g ∧ wired g ∧ refreshed rows g.
Proof.
  unfold prepare, Grid.init. case_bool_decide; [done|]. simpl. intros Hup.
  assert (Hsq : square rows
            (Grid.clear_path_nodes_cells
               (foldr (modify Node.make_barrier)
                  (modify Node.make_end end_
                     (modify Node.make_start start
                        (Grid.make_grid rows (width `div` rows)))) barriers)
               (Some start) (Some end_))).
  { apply square_clear_path_nodes, square_make_barriers.
    unfold Node.make_start, Node.make_end.
    do 2 apply square_set_color. apply make_grid_square. }
  split_and!.
  - by eapply update_all_neighbors_closed.
  - by eapply update_all_neighbors_wired.
  - by eapply update_all_neighbors_refreshed.
Qed.

(** ** [bfs] and [dfs] expand no cell twice *)

Lemma discover_frontier (push : Ref → list Ref → list Ref) (c e : Ref)
    (q : list Ref) (vis : gset Ref) (s s' : Uninformed.state) (n : Ref) :
  (∀ x a l, x ∈ push a l → x = a ∨ x ∈ l) →
  (∀ a l, a ∉ l → NoDup l → NoDup (push a l)) →
  (frontier_ok s ∧ vis ⊆ Uninformed.visited s ∧
   ∀ x, x ∈ Uninformed.frontier s → x ∈ q ∨ x ∉ vis) →
  Uninformed.discover push c e s n = Some s' →
  frontier_ok s' ∧ vis ⊆ Uninformed.visited s' ∧
  ∀ x, x ∈ Uninformed.frontier s' → x ∈ q ∨ x ∉ vis.
Proof.
  intros Hpush Hnd ([Hno Hfr] & Hvis & Hq). unfold Uninformed.discover.
  case_bool_decide as Hv; [by intros [= <-]|].
  destruct (get _ n) as [nd|]; [|done]. simpl.
  destruct (Node.is_barrier nd); [by intros [= <-]|].
  intros [= <-]. unfold frontier_ok. simpl. split_and!.
  - apply Hnd; [|done]. intros Hn. by apply Hv, Hfr.
  - intros p [->|Hp]%Hpush; [set_solver|]. specialize (Hfr p Hp). set_solver.
  - set_solver.
  - intros x [->|Hx]%Hpush; [|by apply Hq]. right. set_solver.
Qed.

Lemma enqueue_NoDup (a : Ref) (l : list Ref) :
  a ∉ l → NoDup l → NoDup (Uninformed.enqueue a l).
Proof.
  intros Ha Hl. unfold Uninformed.enqueue. apply NoDup_app. split_and!; [done| |].
  - intros x Hx ->%list_elem_of_singleton. done.
  - apply NoDup_singleton.
Qed.

Lemma push_NoDup (a : Ref) (l : list Ref) :
  a ∉ l → NoDup l → NoDup (Uninformed.push a l).
Proof. intros Ha Hl. unfold Uninformed.push. by apply NoDup_cons. Qed.

Lemma uninformed_step_frontier (body : nat → Ref → Ref → Uninformed.state →
                                       option (outcome Uninformed.state))
    (fuel : nat) (start end_ : Ref) (s s' : Uninformed.state) :
  body = Uninformed.bfs_body ∨ body = Uninformed.dfs_body →
  frontier_ok s →
  body fuel start end_ s = Some (Continue s') →
  ∃ c q, Uninformed.frontier s = c :: q ∧
         Uninformed.expanding end_ s = Some c ∧
         frontier_ok s' ∧ Uninformed.visited s ⊆ Uninformed.visited s' ∧
         ∀ x, x ∈ Uninformed.frontier s' → x ∈ q ∨ x ∉ Uninformed.visited s.
Proof.
  intros Hbody [Hno Hfr] Hb.
  assert (H0 : ∀ c q, Uninformed.frontier s = c :: q →
            frontier_ok (Uninformed.with_frontier q s) ∧
            Uninformed.visited s ⊆ Uninformed.visited (Uninformed.with_frontier q s) ∧
            ∀ x, x ∈ Uninformed.frontier (Uninformed.with_frontier q s) →
                 x ∈ q ∨ x ∉ Uninformed.visited s).
  { intros c q Hf. rewrite Hf in Hno, Hfr. apply NoDup_cons in Hno as [_ Hno].
    unfold frontier_ok. simpl. split_and!; [done| |done|by left].
    intros p Hp. apply Hfr. by right. }
  assert (Hcl : ∀ c t, Uninformed.frontier (Uninformed.close c start end_ t)
                       = Uninformed.frontier t ∧
                       Uninformed.visited (Uninformed.close c start end_ t)
                       = Uninformed.visited t).
  { intros c t. unfold Uninformed.close. by case_bool_decide. }
  destruct Hbody as [-> | ->].
  - apply bfs_body_continue in Hb as (c & q & nd & s1 & Hf & Hne & _ & Hfold & ->).
    exists c, q. split; [done|]. split.
    { unfold Uninformed.expanding. by rewrite Hf, bool_decide_false. }
    unfold frontier_ok. destruct (Hcl c s1) as [-> ->].
    eapply (foldM_inv (λ t, frontier_ok t ∧
                            Uninformed.visited s ⊆ Uninformed.visited t ∧
                            ∀ x, x ∈ Uninformed.frontier t →
                                 x ∈ q ∨ x ∉ Uninformed.visited s));
      [|exact (H0 c q Hf)|exact Hfold].
    intros t a t' _ Ht Hd.
    eapply discover_frontier; [apply enqueue_elem|apply enqueue_NoDup|done..].
  - apply dfs_body_continue in Hb as (c & q & nd & Hf & Hne & _ & Hfold).
    exists c, q. split; [done|]. split.
    { unfold Uninformed.expanding. by rewrite Hf, bool_decide_false. }
    eapply (foldM_inv (λ t, frontier_ok t ∧
                            Uninformed.visited s ⊆ Uninformed.visited t ∧
                            ∀ x, x ∈ Uninformed.frontier t →
                                 x ∈ q ∨ x ∉ Uninformed.visited s));
      [| |exact Hfold].
    + intros t a t' _ Ht Hd.
      eapply discover_frontier; [apply push_elem|apply push_NoDup|done..].
    + unfold frontier_ok. destruct (Hcl c (Uninformed.with_frontier q s)) as [-> ->].
      exact (H0 c q Hf).
Qed.

Lemma uninformed_expansions_NoDup
    (body : nat → Ref → Ref → Uninformed.state → option (outcome Uninformed.state))
    (fuel : nat) (start end_ : Ref) (fuel' : nat) (sched : list signal)
    (s : Uninformed.state) :
  body = Uninformed.bfs_body ∨ body = Uninformed.dfs_body →
  frontier_ok s →
  NoDup (expansions Uninformed.pending (body fuel start end_)
           (Uninformed.expanding end_) fuel' sched s) ∧
  ∀ c, c ∈ expansions Uninformed.pending (body fuel start end_)
             (Uninformed.expanding end_) fuel' sched s →
       c ∈ Uninformed.frontier s ∨ c ∉ Uninformed.visited s.
Proof.
  intros Hbody. revert sched s.
  induction fuel' as [|fuel' IH]; intros sched s Hs; simpl.
  { destruct (Uninformed.pending s); split; try apply NoDup_nil_2;
      by intros c ?%elem_of_nil. }
  destruct (Uninformed.pending s); [|split; [apply NoDup_nil_2|by intros c ?%elem_of_nil]].
  assert (Hgo :
    NoDup match body fuel start end_ s with
          | Some (Continue s') =>
              option_list (Uninformed.expanding end_ s) ++
              expansions Uninformed.pending (body fuel start end_)
                (Uninformed.expanding end_) fuel' (tail sched) s'
          | _ => []
          end ∧
    ∀ c, c ∈ match body fuel start end_ s with
             | Some (Continue s') =>
                 option_list (Uninformed.expanding end_ s) ++
                 expansions Uninformed.pending (body fuel start end_)
                   (Uninformed.expanding end_) fuel' (tail sched) s'
             | _ => []
             end →
         c ∈ Uninformed.frontier s ∨ c ∉ Uninformed.visited s).
  { destruct (body fuel start end_ s) as [[r g|s']|] eqn:Hb;
      try (split; [apply NoDup_nil_2|by intros c ?%elem_of_nil]).
    destruct (uninformed_step_frontier body fuel start end_ s s' Hbody Hs Hb)
      as (c & q & Hf & -> & Hs' & Hvis & Hq).
    destruct (IH (tail sched) s' Hs') as [IH1 IH2]. simpl.
    destruct Hs as [Hno Hfr]. rewrite Hf in Hno, Hfr |- *.
    apply NoDup_cons in Hno as [Hcq Hno]. split.
    - apply NoDup_cons. split; [|done]. intros [Hc|Hc]%IH2.
      + destruct (Hq c Hc) as [?|Hcv]; [done|]. apply Hcv, Hfr. by left.
      + apply Hc, Hvis, Hfr. by left.
    - intros x [->|Hx]%elem_of_cons; [left; by left|].
      destruct (IH2 x Hx) as [Hx'|Hx'].
      + destruct (Hq x Hx') as [?|?]; [left; by right|by right].
      + right. intros ?. by apply Hx', Hvis. }
  destruct sched as [|[|] sched]; [done|done|].
  split; [apply NoDup_nil_2|by intros c ?%elem_of_nil].
Qed.

(** C4: the count a search reports, however its run ends, is the number of
    the cells it popped and expanded that are neither [start] nor [end]:
    every expansion of such a cell adds one, nothing else adds anything.
    [bfs], [dfs] and [dijkstra] expand no cell twice, and neither does
    [astar] on a wired store, so each such cell is counted once, when it is
    expanded.  On a closed grid, with enough fuel, the search does return. *)
Theorem visited_count_spec (A : search) (fuel : nat) (sched : list signal)
    (g : Cells) (start end_ : Ref) :
  A ∈ algorithms →
  (∀ r g', run A fuel sched g start end_ = Some (r, g') →
     visited_count r
     = counted start end_ (run_expansions A fuel sched g start end_)) ∧
  ((A = ASTAR → wired g) → NoDup (run_expansions A fuel sched g start end_)) ∧
  (closed g → in_grid g start = true → in_grid g end_ = true →
   (enough_fuel g ≤ fuel)%nat →
   ∃ r g', run A fuel sched g start end_ = Some (r, g')).
Proof.
  intros HA. split_and!.
  - destruct (algorithms_counting A HA) as (Hinit & Hcont & Hret & _).
    intros r g'. unfold run, run_expansions.
    destruct (in_grid g start && in_grid g end_); [|done].
    destruct (init A g start end_) as [s|] eqn:Hs; [|done]. simpl.
    intros Hrun. eapply while_loop_count in Hrun; [|apply Hcont|apply Hret].
    simpl in Hrun. rewrite Hrun, (Hinit _ _ _ _ Hs). lia.
  - assert (H0 : frontier_ok (Uninformed.init g start)).
    { split; simpl; [apply NoDup_singleton|].
      intros p ->%list_elem_of_singleton. by apply elem_of_singleton. }
    unfold algorithms in HA. rewrite !elem_of_cons, elem_of_nil in HA.
    destruct HA as [->|[->|[->|[->|[]]]]]; intros Hw.
    + apply (uninformed_expansions_NoDup Uninformed.bfs_body); [by left|done].
    + apply (uninformed_expansions_NoDup Uninformed.dfs_body); [by right|done].
    + apply dijkstra_expansions_NoDup.
    + by apply astar_expansions_NoDup, Hw.
  - intros. by apply run_total.
Qed.

(** ** The iteration in which a run is cancelled *)

Section Cancel.
Context {S : Type}.
Variable pending : S → bool.
Variable grid_of : S → Cells.
Variable count_of : S → Z.
Variable body : S → option (outcome S).

Lemma reaches_front (s s' sk : S) :
  pending s = true → body s = Some (Continue s') →
  reaches pending body s' sk → reaches pending body s sk.
Proof.
  intros Hp Hb Hr. induction Hr.
  - eapply reaches_step; [apply reaches_here|done..].
  - eapply reaches_step; eauto.
Qed.

Lemma iterations_reaches (k : nat) (s sk : S) :
  iterations pending body k s = Some sk → reaches pending body s sk.
Proof.
  revert s. induction k as [|k IH]; intros s; simpl.
  - intros [= <-]. apply reaches_here.
  - destruct (pending s) eqn:Hp; [|done].
    destruct (body s) as [[r g|s']|] eqn:Hb; try done.
    intros Hk. eapply reaches_front; eauto.
Qed.

Lemma quit_at_here (sched : list signal) : quit_at (Quit :: sched) 0.
Proof. by split. Qed.

Lemma quit_at_later (sched : list signal) (k : nat) :
  quit_at (tail sched) k → head sched ≠ Some Quit → quit_at sched (Datatypes.S k).
Proof.
  intros [Ht Hq] Hh. destruct sched as [|[|] sched]; simpl in *.
  - by rewrite lookup_nil in Hq.
  - split; simpl; [by rewrite Ht|done].
  - done.
Qed.

Lemma quit_at_inv (sched : list signal) (k : nat) :
  quit_at sched (Datatypes.S k) →
  ∃ sched', sched = Proceed :: sched' ∧ quit_at sched' k.
Proof.
  intros [Ht Hq]. destruct sched as [|x sched]; [done|].
  simpl in Ht. injection Ht as -> Ht. by exists sched.
Qed.

(** The first quit signal of a schedule is at one place only. *)
Lemma quit_at_unique (sched : list signal) (k k' : nat) :
  quit_at sched k → quit_at sched k' → k = k'.
Proof.
  revert sched k'. induction k as [|k IH]; intros sched k' H H'.
  - destruct H as [_ H]. destruct sched as [|x sched]; [done|].
    injection H as ->. destruct k' as [|k']; [done|].
    by apply quit_at_inv in H' as (? & ? & _).
  - apply quit_at_inv in H as (sched' & -> & H).
    destruct k' as [|k']; [by destruct H' as [_ ?]|].
    apply quit_at_inv in H' as (? & [= <-] & H'). f_equal. by eapply IH.
Qed.

Lemma cancelled_iterations (fuel : nat) (sched : list signal) (s : S) :
  cancelled pending body fuel sched s = true →
  ∃ k sk, quit_at sched k ∧ (k < fuel)%nat ∧
          iterations pending body k s = Some sk ∧ pending sk = true.
Proof.
  revert sched s. induction fuel as [|fuel IH]; intros sched s Hc;
    simpl in Hc; destruct (pending s) eqn:Hp; try done.
  assert (Hgo : head sched ≠ Some Quit →
                match body s with
                | Some (Continue s') => cancelled pending body fuel (tail sched) s'
                | _ => false
                end = true →
                ∃ k sk, quit_at sched k ∧ (k < Datatypes.S fuel)%nat ∧
                        iterations pending body k s = Some sk ∧ pending sk = true).
  { intros Hh. destruct (body s) as [[r g|s']|] eqn:Hb; try done.
    intros (k & sk & Hq & Hk & Hit & Hpk)%IH. exists (Datatypes.S k), sk.
    split_and!; [by apply quit_at_later|lia| |done].
    simpl. by rewrite Hp, Hb. }
  destruct sched as [|[|] sched]; [by apply Hgo|by apply Hgo|].
  exists 0%nat, s. split_and!; [apply quit_at_here|lia|done|done].
Qed.

Lemma iterations_cancelled (k : nat) (fuel : nat) (sched : list signal) (s sk : S) :
  quit_at sched k → (k < fuel)%nat →
  iterations pending body k s = Some sk → pending sk = true →
  cancelled pending body fuel sched s = true ∧
  while_loop pending grid_of count_of body fuel sched s
  = Some ((false, count_of sk, 0), grid_of sk).
Proof.
  revert fuel sched s. induction k as [|k IH]; intros fuel sched s Hq Hk Hit Hpk.
  - injection Hit as ->. destruct Hq as [_ Hq].
    destruct sched as [|x sched]; [done|]. injection Hq as ->.
    destruct fuel as [|fuel]; [lia|]. simpl. by rewrite Hpk.
  - apply quit_at_inv in Hq as (sched' & -> & Hq).
    simpl in Hit. destruct (pending s) eqn:Hp; [|done].
    destruct (body s) as [[r g|s']|] eqn:Hb; try done.
    destruct fuel as [|fuel]; [lia|]. simpl. rewrite Hp, Hb. simpl.
    apply IH; [done|lia|done..].
Qed.

End Cancel.

(** C7: a run is cancelled exactly when the pause block of some iteration
    [k] is the first to see the quit signal while the loop is still running;
    it then returns "not found", a path length of 0, and the count and the
    store of the state the [k] iterations before have left, which one
    schedule and one grid determine.  That count is at most the count the
    uninterrupted run of the same search on the same grid returns, and on a
    closed grid, with enough fuel, the uninterrupted run does return. *)
Theorem cancel_spec (A : search) (fuel : nat) (sched : list signal)
    (g : Cells) (start end_ : Ref) :
  A ∈ algorithms →
  (run_cancelled A fuel sched g start end_ = true ↔
   ∃ k s0 sk, cancelled_at A fuel sched g start end_ k s0 sk) ∧
  (∀ k s0 sk, cancelled_at A fuel sched g start end_ k s0 sk →
     run A fuel sched g start end_ = Some ((false, count_of A sk, 0), grid_of A sk) ∧
     (∀ k' s0' sk', cancelled_at A fuel sched g start end_ k' s0' sk' →
                    k' = k ∧ s0' = s0 ∧ sk' = sk) ∧
     (∀ fuel' r g', run A fuel' [] g start end_ = Some (r, g') →
                    count_of A sk ≤ visited_count r) ∧
     (closed g → ∀ fuel', (enough_fuel g ≤ fuel')%nat →
        ∃ r g', run A fuel' [] g start end_ = Some (r, g') ∧
                count_of A sk ≤ visited_count r)).
Proof.
  intros HA.
  assert (Hle : ∀ s0 sk, init A g start end_ = Some s0 →
            reaches (pending A) (body A fuel start end_) s0 sk →
            ∀ fuel' r g', run A fuel' [] g start end_ = Some (r, g') →
                          count_of A sk ≤ visited_count r).
  { destruct (algorithms_counting A HA) as (Hinit & Hcont & Hret & Hfuel).
    intros s0 sk Hs0 Hr fuel' r g'. unfold run.
    destruct (in_grid g start && in_grid g end_); [|done].
    rewrite Hs0. simpl. intros Hfull.
    eapply reaches_run_other in Hfull as [fuel'' Hfull]; [| |exact Hr].
    - eapply count_le_final in Hfull; [done|apply Hcont|apply Hret].
    - intros s s'. apply Hfuel. }
  split.
  - unfold run_cancelled, cancelled_at. split.
    + destruct (in_grid g start) eqn:Hgs; [|done].
      destruct (in_grid g end_) eqn:Hge; [|done]. simpl.
      destruct (init A g start end_) as [s0|] eqn:Hs0; [|done].
      intros (k & sk & Hq & Hk & Hit & Hpk)%cancelled_iterations.
      exists k, s0, sk. by split_and!.
    + intros (k & s0 & sk & -> & -> & -> & Hq & Hk & Hit & Hpk). simpl.
      by destruct (iterations_cancelled (pending A) (grid_of A) (count_of A)
                     (body A fuel start end_) k fuel sched s0 sk).
  - intros k s0 sk (Hgs & Hge & Hs0 & Hq & Hk & Hit & Hpk).
    pose proof (iterations_reaches _ _ _ _ _ Hit) as Hr.
    split_and!.
    + unfold run. rewrite Hgs, Hge, Hs0. simpl.
      by destruct (iterations_cancelled (pending A) (grid_of A) (count_of A)
                     (body A fuel start end_) k fuel sched s0 sk).
    + intros k' s0' sk' (_ & _ & Hs0' & Hq' & _ & Hit' & _).
      rewrite Hs0 in Hs0'. injection Hs0' as <-.
      pose proof (quit_at_unique sched k k' Hq Hq') as <-.
      rewrite Hit in Hit'. by injection Hit' as <-.
    + intros fuel' r g'. by apply (Hle s0 sk).
    + intros Hclosed fuel' Hfuel'.
      assert (Hgs' : in_grid g start = true) by done.
      destruct (run_total A fuel' [] g start end_ HA Hclosed Hgs' Hge Hfuel')
        as (r & g' & Hfull).
      exists r, g'. split; [done|]. by apply (Hle s0 sk Hs0 Hr fuel' r g').
Qed.


(** C10: in a run of any of the four searches the start and the end cell
    are never repainted while the loop runs, so neither is ever tagged Frontier
    (green) or Visited (red): [make_open] is skipped for [end] and never
    reached for [start], [make_closed] is skipped for both.  A run that finds
    the path returns with [start] orange and [end] turquoise, whatever
    [reconstruct_path] did; any other run returns with both as they were.
    On a closed grid, with enough fuel, the run does return. *)
Theorem start_end_keep_tags (A : search) (fuel : nat) (g : Cells) (start end_ : Ref) :
  A ∈ algorithms →
  (∀ s0 s, init A g start end_ = Some s0 →
     reaches (pending A) (body A fuel start end_) s0 s →
     color_at (grid_of A s) start = color_at g start ∧
     color_at (grid_of A s) end_ = color_at g end_) ∧
  (∀ sched r g', run A fuel sched g start end_ = Some (r, g') →
     if found r
     then color_at g' start = Some ORANGE ∧
          (start ≠ end_ → color_at g' end_ = Some TURQUOISE)
     else color_at g' start = color_at g start ∧
          color_at g' end_ = color_at g end_) ∧
  (closed g → in_grid g start = true → in_grid g end_ = true →
   (enough_fuel g ≤ fuel)%nat →
   ∀ sched, ∃ r g', run A fuel sched g start end_ = Some (r, g')).
Proof.
  intros HA. destruct (algorithms_footprint A fuel g start end_ HA) as (H1 & H2 & _).
  split_and!; [done|done|]. intros. by apply run_total.
Qed.

(** ** The length a search reports *)

Lemma climb_insert_fresh (start : Ref) (cf : gmap Ref Ref) (n c p : Ref)
    (l : list Ref) :
  cf !! n = None → climb start cf p l → climb start (<[n := c]> cf) p l.
Proof.
  intros Hn Hc. induction Hc as [p Hp|p p' l Hp Hne Hc IH].
  - apply climb_end. rewrite lookup_insert_ne; [done|]. by intros <-; rewrite Hn in Hp.
  - eapply climb_step; [|done|done].
    rewrite lookup_insert_ne; [done|]. by intros <-; rewrite Hn in Hp.
Qed.


(** [reconstruct_path] walks the predecessors up to [start]; it collects and
    paints the cells in between and leaves the others alone. *)
Lemma reconstruct_path_climb (start : Ref) (cf : gmap Ref Ref) (cur : Ref)
    (l : list Ref) :
  cf !! start = None →
  climb start cf cur l →
  ∀ fuel g acc pn g1,
    (∀ p nd, get g p = Some nd → Node.is_start nd = true ↔ p = start) →
    reconstruct_path fuel cf cur g acc = Some (pn, g1) →
    pn = acc ++ l ∧
    (∀ p, p ∈ l → color_at g1 p = Some PURPLE) ∧
    (∀ p, ¬ (p ∈ l) → get g1 p = get g p).
Proof.
  intros Hstart Hc. induction Hc as [p Hp|p p' l Hp Hne Hc IH];
    intros fuel g acc pn g1 Hor Hrec.
  - destruct fuel as [|fuel]; simpl in Hrec; rewrite Hp in Hrec; [done|].
    destruct (get g start) as [nd|] eqn:Hnd; [|done]. simpl in Hrec.
    rewrite (proj2 (Hor start nd Hnd) eq_refl) in Hrec. simpl in Hrec.
    destruct fuel; simpl in Hrec; rewrite Hstart in Hrec;
      injection Hrec as <- <-; rewrite app_nil_r;
      (split_and!; [done|by intros p0 ?%elem_of_nil|done]).
  - destruct fuel as [|fuel]; simpl in Hrec; rewrite Hp in Hrec; [done|].
    destruct (get g p') as [nd|] eqn:Hnd; [|done]. simpl in Hrec.
    assert (Hst : Node.is_start nd = false).
    { destruct (Node.is_start nd) eqn:Hst; [|done].
      by apply (Hor p' nd Hnd) in Hst. }
    rewrite Hst in Hrec. simpl in Hrec.
    apply IH in Hrec as (-> & Hpurple & Hother).
    + split_and!.
      * by rewrite <- app_assoc.
      * intros q Hq. destruct (decide (q ∈ l)) as [Hl|Hl]; [by apply Hpurple|].
        apply elem_of_cons in Hq as [->|?]; [|done].
        unfold color_at. rewrite (Hother p' Hl), get_modify_eq, Hnd. done.
      * intros q Hq. apply not_elem_of_cons in Hq as [Hq1 Hq2].
        rewrite (Hother q Hq2). by rewrite get_modify_ne.
    + intros q nq. rewrite get_modify. case_decide as Hq; [subst q|apply Hor].
      rewrite Hnd. simpl. intros [= <-]. unfold Node.make_path, Node.is_start.
      simpl. split; [done|]. by intros ->.
Qed.

(** What [finish] returns when the predecessors of [end] lead to [start]. *)
Lemma finish_climb (fuel : nat) (cf : gmap Ref Ref) (start end_ : Ref)
    (g : Cells) (n : Z) (r : result) (g' : Cells) :
  cf !! start = None →
  (∀ p nd, get g p = Some nd → Node.is_start nd = true ↔ p = start) →
  finish fuel cf start end_ g n = Some (r, g') →
  (end_ = start → path_length r = 1) ∧
  (∀ l, climb start cf end_ l →
     path_length r = Z.of_nat (length l) + 1 ∧
     ∀ p, p ∈ l → p ≠ end_ → color_at g' p = Some PURPLE).
Proof.
  intros Hstart Hor (pn & g1 & Hrec & -> & ->)%finish_inv. split.
  - intros ->. destruct fuel; simpl in Hrec; rewrite Hstart in Hrec;
      by injection Hrec as <- <-.
  - intros l Hl.
    destruct (reconstruct_path_climb start cf end_ l Hstart Hl fuel g [] pn g1 Hor Hrec)
      as (-> & Hpurple & _).
    split; [done|]. intros p Hp Hpe. unfold_make.
    assert (Hps : p ≠ start).
    { clear -Hl Hp. induction Hl as [|q q' l Hq Hne Hl IH]; [by apply elem_of_nil in Hp|].
      apply elem_of_cons in Hp as [->|Hp]; [done|by apply IH]. }
    rewrite !color_at_paint_ne by done. by apply Hpurple.
Qed.

(** In a store repainted from one where [start] is the only orange cell,
    [is_start] tells [start]. *)
Lemma repaints_is_start (g g' : Cells) (start : Ref) :
  color_at g start = Some ORANGE →
  (∀ p, color_at g p = Some ORANGE → p = start) →
  repaints g g' → color_at g' start = color_at g start →
  ∀ p nd, get g' p = Some nd → Node.is_start nd = true ↔ p = start.
Proof.
  intros Hs Huniq Hrep Hcs p nd Hnd. unfold Node.is_start.
  rewrite bool_decide_eq_true. split.
  - intros Hc. apply Huniq. apply (repaints_orange g g'); [done|].
    unfold color_at. by rewrite Hnd, <- Hc.
  - intros ->. rewrite Hs in Hcs. unfold color_at in Hcs. rewrite Hnd in Hcs.
    by injection Hcs.
Qed.

(** *** The tree of [bfs] and [dfs] *)

Lemma uninformed_init_tree (g : Cells) (start : Ref) :
  uninformed_tree g start (Uninformed.init g start).
Proof.
  unfold uninformed_tree. simpl. split_and!.
  - done.
  - intros p. rewrite elem_of_singleton, lookup_empty. split; [by left|].
    by intros [?|[? ?]].
  - intros p ->%list_elem_of_singleton. by apply elem_of_singleton.
  - intros n c. by rewrite lookup_empty.
  - intros p. rewrite lookup_empty. by intros [? ?].
Qed.

Lemma discover_tree (push : Ref → list Ref → list Ref) (g : Cells)
    (start end_ current : Ref) (s s' : Uninformed.state) (n : Ref) :
  (∀ x a q, x ∈ push a q → x = a ∨ x ∈ q) →
  linked g current n →
  uninformed_tree g start s ∧ current ∈ Uninformed.visited s →
  Uninformed.discover push current end_ s n = Some s' →
  uninformed_tree g start s' ∧ current ∈ Uninformed.visited s'.
Proof.
  intros Hpush Hlink [(Hstart & Hvis & Hfr & Hcf & Hclimb) Hcur].
  unfold Uninformed.discover. case_bool_decide as Hv; [by intros [= <-]|].
  destruct (get _ n) as [nd|] eqn:Hnd; [|done]. simpl.
  destruct (Node.is_barrier nd) eqn:Hb; [by intros [= <-]|].
  intros [= <-].
  assert (Hns : n ≠ start) by (intros ->; apply Hv, Hvis; by left).
  assert (Hnone : Uninformed.came_from s !! n = None).
  { destruct (Uninformed.came_from s !! n) eqn:Hn; [|done].
    destruct Hv. apply Hvis. right. by eexists. }
  unfold uninformed_tree. simpl. split; [split_and!|set_solver].
  - by rewrite lookup_insert_ne.
  - intros p. rewrite elem_of_union, elem_of_singleton, Hvis.
    destruct (decide (n = p)) as [<-|Hnp].
    + rewrite lookup_insert_eq. split; [right; by eexists|by left].
    + rewrite lookup_insert_ne by done. split; [intros [?|?]; done|by right].
  - intros p [->|Hp]%Hpush; [set_solver|]. specialize (Hfr p Hp). set_solver.
  - intros m c. destruct (decide (n = m)) as [<-|Hnm].
    + rewrite lookup_insert_eq. intros [= <-]. split; [set_solver|done].
    + rewrite lookup_insert_ne by done. intros Hm.
      destruct (Hcf m c Hm) as [Hc1 Hc2]. split; [set_solver|done].
  - intros p. destruct (decide (n = p)) as [<-|Hnp].
    + intros _. destruct (decide (current = start)) as [->|Hcs].
      * exists []. apply climb_end. by rewrite lookup_insert_eq.
      * destruct (Hclimb current) as [l Hl].
        { apply Hvis in Hcur as [?|?]; done. }
        exists (current :: l). eapply climb_step; [by rewrite lookup_insert_eq|done|].
        by apply climb_insert_fresh.
    + rewrite lookup_insert_ne by done. intros [l Hl]%Hclimb.
      exists l. by apply climb_insert_fresh.
Qed.

Lemma uninformed_close_tree (g : Cells) (c start end_ : Ref) (s : Uninformed.state) :
  uninformed_tree g start (Uninformed.close c start end_ s) ↔ uninformed_tree g start s.
Proof. unfold Uninformed.close. by case_bool_decide. Qed.

Lemma with_frontier_tree (g : Cells) (start c : Ref) (q : list Ref)
    (s : Uninformed.state) :
  Uninformed.frontier s = c :: q → uninformed_tree g start s →
  uninformed_tree g start (Uninformed.with_frontier q s) ∧
  c ∈ Uninformed.visited s.
Proof.
  intros Hf (Hstart & Hvis & Hfr & Hcf & Hclimb). rewrite Hf in Hfr.
  split; [|apply Hfr; by left].
  unfold uninformed_tree. simpl. split_and!; try done.
  intros p Hp. apply Hfr. by right.
Qed.

Lemma bfs_body_tree (g : Cells) (fuel : nat) (start end_ : Ref)
    (s s' : Uninformed.state) :
  uninformed_inv g start end_ s ∧ uninformed_tree g start s →
  Uninformed.bfs_body fuel start end_ s = Some (Continue s') →
  uninformed_inv g start end_ s' ∧ uninformed_tree g start s'.
Proof.
  intros [Hinv Ht] Hb. split; [by eapply bfs_body_inv|].
  apply bfs_body_continue in Hb as (c & q & nd & s1 & Hf & Hne & Hnd & Hfold & ->).
  destruct (with_frontier_tree g start c q s Hf Ht) as [Ht0 Hc].
  destruct (repaints_get g _ c nd (proj1 Hinv) Hnd) as (n0 & Hn0 & Hnb).
  apply uninformed_close_tree.
  eapply (foldM_inv (λ t, uninformed_tree g start t ∧ c ∈ Uninformed.visited t))
    in Hfold as [H1 _]; [exact H1| |by split].
  intros s2 a s3 Ha H2 H3.
  eapply discover_tree; [apply enqueue_elem| |exact H2|exact H3].
  exists n0. split; [done|]. by rewrite <- Hnb.
Qed.

Lemma dfs_body_tree (g : Cells) (fuel : nat) (start end_ : Ref)
    (s s' : Uninformed.state) :
  uninformed_inv g start end_ s ∧ uninformed_tree g start s →
  Uninformed.dfs_body fuel start end_ s = Some (Continue s') →
  uninformed_inv g start end_ s' ∧ uninformed_tree g start s'.
Proof.
  intros [Hinv Ht] Hb. split; [by eapply dfs_body_inv|].
  apply dfs_body_continue in Hb as (c & q & nd & Hf & Hne & Hnd & Hfold).
  destruct (with_frontier_tree g start c q s Hf Ht) as [Ht0 Hc].
  destruct (with_frontier_inv g start end_ c q s Hf Hinv) as [Hinv0 Hcb].
  pose proof (uninformed_close_inv g start end_ c _ Hcb Hinv0) as Hinv1.
  destruct (repaints_get g _ c nd (proj1 Hinv1) Hnd) as (n0 & Hn0 & Hnb).
  eapply (foldM_inv (λ t, uninformed_tree g start t ∧ c ∈ Uninformed.visited t))
    in Hfold as [H1 _]; [exact H1| |].
  - intros s2 a s3 Ha H2 H3. rewrite elem_of_reverse in Ha.
    eapply discover_tree; [apply push_elem| |exact H2|exact H3].
    exists n0. split; [done|]. by rewrite <- Hnb.
  - split; [by apply uninformed_close_tree|].
    unfold Uninformed.close. by case_bool_decide.
Qed.

(** *** The tree of [dijkstra] and [astar] *)

Lemma informed_init_tree (g : Cells) (start : Ref) (f : gmap Ref score) :
  informed_tree g start
    {| Informed.grid := g;
       Informed.g_score := <[start := Num 0]> (all_infty g);
       Informed.f_score := f; Informed.count := 0;
       Informed.open_set := [(0, 0, start)]; Informed.came_from := ∅;
       Informed.open_set_hash := {[start]};
       Informed.visited_nodes_count := 0 |}.
Proof.
  unfold informed_tree. simpl. split_and!.
  - done.
  - intros p c. by rewrite lookup_empty.
  - intros p z. destruct (decide (start = p)) as [<-|Hne]; [by left|].
    rewrite lookup_insert_ne by done. by intros ?%all_infty_lookup.
  - intros e ->%list_elem_of_singleton. simpl. exists 0. by rewrite lookup_insert_eq.
Qed.

Lemma relaxed_tree (is_astar : bool) (g : Cells) (start end_ c n : Ref)
    (gc gn : score) (h : Z) (s s' : Informed.state) :
  linked g c n →
  Informed.g_score s !! c = Some gc → Informed.g_score s !! n = Some gn →
  informed_inv g start end_ s → informed_tree g start s →
  relaxed is_astar c n end_ gc gn h s s' →
  informed_tree g start s'.
Proof.
  intros Hlink Hgc Hgn Hinv (Hstart & Hcf & Hdom & Hheap). unfold relaxed.
  destruct gc as [a|]; [|by intros ->]. unfold score_succ.
  destruct (score_lt (Num (a + 1)) gn) eqn:Hlt; [|by intros ->].
  destruct Hinv as (_ & _ & _ & Hg0 & Hpos & _).
  assert (Ha : 0 ≤ a) by (by eapply Hpos).
  assert (Hns : n ≠ start).
  { intros ->. rewrite Hg0 in Hgn. injection Hgn as <-.
    unfold score_lt in Hlt. apply bool_decide_eq_true in Hlt. lia. }
  assert (Hcn : c ≠ n).
  { intros ->. rewrite Hgc in Hgn. injection Hgn as <-.
    unfold score_lt in Hlt. apply bool_decide_eq_true in Hlt. lia. }
  intros (Hg & Hcame & _ & _ & Hrest).
  assert (Hopen : ∀ e, e ∈ Informed.open_set s' → e.2 = n ∨ e ∈ Informed.open_set s).
  { case_bool_decide.
    - destruct Hrest as (-> & _). by right.
    - destruct Hrest as (_ & -> & _).
      intros e [->|He]%elem_of_heappush; [by left|by right]. }
  unfold informed_tree. rewrite Hg, Hcame. split_and!.
  - by rewrite lookup_insert_ne.
  - intros p c'. destruct (decide (n = p)) as [<-|Hnp].
    + rewrite lookup_insert_eq. intros [= <-]. split; [|done].
      exists a, (a + 1). rewrite lookup_insert_eq, lookup_insert_ne by done.
      split_and!; [done|done|lia].
    + rewrite lookup_insert_ne by done. intros Hpc.
      destruct (Hcf p c' Hpc) as [(a' & b' & Ha' & Hb' & Hab') Hl]. split; [|done].
      destruct (decide (n = c')) as [<-|Hnc].
      * exists (a + 1), b'. rewrite lookup_insert_eq, lookup_insert_ne by done.
        split_and!; [done|done|].
        rewrite Hgn in Ha'. injection Ha' as ->.
        unfold score_lt in Hlt. apply bool_decide_eq_true in Hlt. lia.
      * exists a', b'. by rewrite !lookup_insert_ne by done.
  - intros p z. destruct (decide (n = p)) as [<-|Hnp].
    + rewrite !lookup_insert_eq. intros _. right. by eexists.
    + rewrite !lookup_insert_ne by done. apply Hdom.
  - intros e [He|He]%Hopen.
    + rewrite He, lookup_insert_eq. eauto.
    + destruct (Hheap e He) as [z Hz]. destruct (decide (n = e.2)) as [<-|Hne].
      * rewrite lookup_insert_eq. eauto.
      * rewrite lookup_insert_ne by done. eauto.
Qed.

Lemma informed_body_tree (best : Informed.state → gmap Ref score)
    (relax : Ref → Ref → Informed.state → Ref → option Informed.state)
    (g : Cells) (fuel : nat) (start end_ : Ref) (s s' : Informed.state) :
  (∀ c n s s', c = start ∨ barrier_at g c = false →
     informed_inv g start end_ s → relax c end_ s n = Some s' →
     informed_inv g start end_ s') →
  (∀ c n s s', linked g c n →
     informed_inv g start end_ s → informed_tree g start s →
     relax c end_ s n = Some s' → informed_tree g start s') →
  informed_inv g start end_ s ∧ informed_tree g start s →
  Informed.body best relax fuel start end_ s = Some (Continue s') →
  informed_inv g start end_ s' ∧ informed_tree g start s'.
Proof.
  intros Hrinv Hrtree [Hinv Ht] Hb. split; [by eapply informed_body_inv|].
  apply informed_body_continue in Hb
    as (k & t & c & h & b & Ho & _ & _ & Hcase).
  destruct (popped_inv g start end_ s (k, t, c) h Ho Hinv) as [Hinv0 Hcb].
  simpl in Hinv0, Hcb.
  assert (Ht0 : informed_tree g start (Informed.popped h c s)).
  { destruct Ht as (Hstart & Hcf & Hdom & Hheap).
    unfold informed_tree. simpl. split_and!; try done.
    intros e He. apply Hheap. rewrite Ho. by right. }
  destruct Hcase as [[_ ->]|(_ & _ & nd & s1 & Hnd & Hfold & ->)]; [done|].
  destruct (repaints_get g _ c nd (proj1 Hinv) Hnd) as (n0 & Hn0 & Hnb).
  assert (H1 : informed_inv g start end_ s1 ∧ informed_tree g start s1).
  { eapply (foldM_inv (λ t, informed_inv g start end_ t ∧ informed_tree g start t));
      [| |exact Hfold]; [|by split].
    intros s2 a s3 Ha [H2 H2'] H3. split; [by eapply Hrinv|].
    eapply Hrtree; [|exact H2|exact H2'|exact H3].
    exists n0. split; [done|]. by rewrite <- Hnb. }
  destruct H1 as [_ (Hstart & Hcf & Hdom & Hheap)].
  unfold Informed.close. case_bool_decide; done.
Qed.

Lemma dijkstra_relax_tree (g : Cells) (start end_ c n : Ref)
    (s s' : Informed.state) :
  linked g c n →
  informed_inv g start end_ s → informed_tree g start s →
  Informed.dijkstra_relax c end_ s n = Some s' → informed_tree g start s'.
Proof.
  intros Hl Hinv Ht Hr.
  destruct (dijkstra_relax_once_cases g start end_ c n s s' Hinv Hr)
    as [->|(gc & gn & _ & Hgc & Hgn & Hrel)]; [done|].
  by eapply relaxed_tree.
Qed.

Lemma astar_relax_tree (g : Cells) (start end_ c n : Ref)
    (s s' : Informed.state) :
  linked g c n →
  informed_inv g start end_ s → informed_tree g start s →
  Informed.astar_relax c end_ s n = Some s' → informed_tree g start s'.
Proof.
  intros Hl Hinv Ht Hr.
  destruct (astar_relax_once_cases g start end_ c n s s' Hinv Hr)
    as [->|(gc & gn & _ & Hgc & Hgn & Hrel)]; [done|].
  by eapply relaxed_tree.
Qed.

(** A cell with a cost, other than [start], climbs to [start]. *)
Lemma climb_of_scores (g : Cells) (start end_ : Ref) (s : Informed.state) :
  informed_inv g start end_ s → informed_tree g start s →
  ∀ (m : nat) p z, Informed.g_score s !! p = Some (Num z) → z ≤ Z.of_nat m →
    p ≠ start → ∃ l, climb start (Informed.came_from s) p l.
Proof.
  intros (_ & _ & _ & _ & Hpos & _) (Hstart & Hcf & Hdom & _) m.
  induction m as [|m IH]; intros p z Hz Hm Hp;
    (destruct (Hdom p z Hz) as [?|[c Hc]]; [done|]);
    destruct (Hcf p c Hc) as [(a & b & Ha & Hb & Hab) _];
    rewrite Hz in Hb; injection Hb as <-; pose proof (Hpos c a Ha) as Ha0; [lia|].
  destruct (decide (c = start)) as [->|Hcs].
  - exists []. by apply climb_end.
  - destruct (IH c a Ha) as [l Hl]; [lia|done|].
    exists (c :: l). by eapply climb_step.
Qed.

(** *** From the tree to what a run returns *)

Section PathLength.
Variable A : search.
Variable cf_of : state A → gmap Ref Ref.
Variables (g : Cells) (start end_ : Ref) (fuel : nat).
Variable I : state A → Prop.

Hypothesis Hinit : ∀ s0, init A g start end_ = Some s0 → I s0.
Hypothesis Hstep : ∀ s s',
  I s → body A fuel start end_ s = Some (Continue s') → I s'.
Hypothesis Hfacts : ∀ s, I s →
  repaints g (grid_of A s) ∧
  color_at (grid_of A s) start = color_at g start.
Hypothesis Hret : ∀ s r g',
  I s → body A fuel start end_ s = Some (Return r g') →
  finish fuel (cf_of s) start end_ (grid_of A s) (count_of A s) = Some (r, g') ∧
  cf_of s !! start = None ∧
  (∀ n c, cf_of s !! n = Some c → linked g c n) ∧
  (end_ = start ∨ ∃ l, climb start (cf_of s) end_ l).


End PathLength.


(** ** The claims on a small session *)

Lemma only_start_orange_spec (g : Cells) (start : Ref) :
  only_start_orange g start = true →
  ∀ p, color_at g p = Some ORANGE → p = start.
Proof.
  unfold only_start_orange. rewrite forallb_forall. intros H p Hp.
  assert (Hin : In p (all_refs g)).
  { apply list_elem_of_In, elem_of_all_refs. unfold color_at in Hp.
    by destruct (get g p). }
  specialize (H p Hin). rewrite (bool_decide_true _ Hp) in H. simpl in H.
  by apply bool_decide_eq_true in H.
Qed.

Lemma demo_grid_prepared :
  closed demo_grid ∧ wired demo_grid ∧ refreshed 5 demo_grid.
Proof.
  apply (prepare_spec 5 600 demo_start demo_end [(1, 1); (3, 0); (3, 1)]).
  vm_compute. reflexivity.
Qed.

Lemma BFS_algorithm : BFS ∈ algorithms.
Proof. left. Defined.

Lemma DIJKSTRA_algorithm : DIJKSTRA ∈ algorithms.
Proof. right. right. left. Defined.

Lemma ASTAR_algorithm : ASTAR ∈ algorithms.
Proof. right. right. right. left. Defined.

Lemma demo_fuel : (enough_fuel demo_grid ≤ 700)%nat.
Proof. apply Nat.leb_le. vm_compute. reflexivity. Qed.

Lemma visited_count_spec_witness :
  ∃ r g', run ASTAR 700 [] demo_grid demo_start demo_end = Some (r, g') ∧
          visited_count r
          = counted demo_start demo_end
              (run_expansions ASTAR 700 [] demo_grid demo_start demo_end) ∧
          NoDup (run_expansions ASTAR 700 [] demo_grid demo_start demo_end).
Proof.
  destruct (visited_count_spec ASTAR 700 [] demo_grid demo_start demo_end
              ASTAR_algorithm) as (Hcount & Hnodup & Htotal).
  destruct (Htotal (proj1 demo_grid_prepared) eq_refl eq_refl demo_fuel) as (r & g' & Hrun).
  exists r, g'. split; [exact Hrun|]. split.
  - exact (Hcount r g' Hrun).
  - apply Hnodup. intros _. exact (proj1 (proj2 demo_grid_prepared)).
Defined.

Lemma cancel_spec_witness :
  run_cancelled BFS 100 [Proceed; Proceed; Proceed; Quit]
    demo_grid demo_start demo_end = true ∧
  match iterations (pending BFS) (body BFS 100 demo_start demo_end) 3
          (Uninformed.init demo_grid demo_start) with
  | Some sk =>
      count_of BFS sk = 2 ∧
      run BFS 100 [Proceed; Proceed; Proceed; Quit] demo_grid demo_start demo_end
      = Some ((false, 2, 0), grid_of BFS sk) ∧
      ∃ r g', run BFS 700 [] demo_grid demo_start demo_end = Some (r, g') ∧
              2 ≤ visited_count r
  | None => False
  end.
Proof.
  destruct (cancel_spec BFS 100 [Proceed; Proceed; Proceed; Quit]
              demo_grid demo_start demo_end BFS_algorithm) as [Hiff Hres].
  destruct (iterations (pending BFS) (body BFS 100 demo_start demo_end) 3
              (Uninformed.init demo_grid demo_start)) as [sk|] eqn:Hit.
  - assert (Hc : count_of BFS sk = 2).
    { vm_compute in Hit. injection Hit as <-. reflexivity. }
    assert (Hp : pending BFS sk = true).
    { vm_compute in Hit. injection Hit as <-. reflexivity. }
    assert (Hat : cancelled_at BFS 100 [Proceed; Proceed; Proceed; Quit]
                    demo_grid demo_start demo_end 3
                    (Uninformed.init demo_grid demo_start) sk).
    { unfold cancelled_at. split; [reflexivity|]. split; [reflexivity|].
      split; [reflexivity|]. split; [split; reflexivity|].
      split; [lia|]. split; [exact Hit|exact Hp]. }
    split.
    + apply Hiff. exists 3%nat, (Uninformed.init demo_grid demo_start), sk. exact Hat.
    + destruct (Hres 3%nat _ sk Hat) as (Hrun & _ & _ & Htotal).
      rewrite Hc in Hrun, Htotal. split; [exact Hc|]. split; [exact Hrun|].
      exact (Htotal (proj1 demo_grid_prepared) 700%nat demo_fuel).
  - vm_compute in Hit. discriminate Hit.
Defined.

Lemma rerun_same_result_witness :
  match run DIJKSTRA 100 [] demo_grid demo_start demo_end with
  | Some (r, g') =>
      r = (true, 20, 7) ∧
      (∃ g'', run DIJKSTRA 100 []
                (Grid.clear_path_nodes_cells g' (Some demo_start) (Some demo_end))
                demo_start demo_end = Some (r, g'')) ∧
      ∃ g2 g'',
        Grid.update_all_neighbors_cells
          (Grid.clear_path_nodes_cells g' (Some demo_start) (Some demo_end))
        = Some g2 ∧
        run DIJKSTRA 100 [] g2 demo_start demo_end = Some (r, g'')
  | None => False
  end.
Proof.
  destruct (run DIJKSTRA 100 [] demo_grid demo_start demo_end) as [[r g']|] eqn:Hrun.
  - split.
    + vm_compute in Hrun. injection Hrun as <- _. reflexivity.
    + destruct (rerun_same_result DIJKSTRA 100 [] demo_grid demo_start demo_end r g'
                  DIJKSTRA_algorithm) as [H1 H2].
      * reflexivity.
      * reflexivity.
      * apply only_start_orange_spec. vm_compute. reflexivity.
      * exact Hrun.
      * split; [exact H1|]. exact (H2 5 (proj2 (proj2 demo_grid_prepared))).
  - vm_compute in Hrun. discriminate Hrun.
Defined.

Lemma start_end_keep_tags_witness :
  ∃ r g', run BFS 700 [] demo_grid demo_start demo_end = Some (r, g') ∧
          found r = true ∧
          color_at g' demo_start = Some ORANGE ∧
          color_at g' demo_end = Some TURQUOISE.
Proof.
  destruct (start_end_keep_tags BFS 700 demo_grid demo_start demo_end BFS_algorithm)
    as (_ & Hcol & Htotal).
  destruct (Htotal (proj1 demo_grid_prepared) eq_refl eq_refl demo_fuel [])
    as (r & g' & Hrun).
  exists r, g'. split; [exact Hrun|].
  assert (Hf : found r = true).
  { assert (Hrun' : run BFS 700 [] demo_grid demo_start demo_end
                    = Some ((true, 20, 7), g')).
    { rewrite Hrun. f_equal. f_equal. vm_compute in Hrun. by injection Hrun as <- _. }
    rewrite Hrun in Hrun'. by injection Hrun' as ->. }
  split; [exact Hf|].
  pose proof (Hcol [] r g' Hrun) as H. rewrite Hf in H. destruct H as [H1 H2].
  split; [exact H1|]. apply H2. discriminate.
Defined.

(** ** C1 and C2: what the searches report *)

(** C1, on the 5 x 5 grid without barriers, from (0,0) to the adjacent
    (0,1): the path found is the two cells start, end, and every search
    reports a path length of 1.  [reconstruct_path] leaves out both ends of
    the path (its docstring says: the start only), and the caller adds 1. *)
Theorem adjacent_start_end_path_length :
  run_all 100 5 600 (0, 0) (0, 1) [] =
  Some ((true, 1, 1), (true, 23, 1), (true, 1, 1), (true, 0, 1)).
Proof. vm_compute. reflexivity. Qed.

(** The spec's 5 x 5 scenario: 9 cells from corner to corner, 8 reported. *)
Lemma corner_to_corner_path_length :
  run_all 100 5 600 (0, 0) (4, 4) [] =
  Some ((true, 23, 8), (true, 15, 16), (true, 23, 8), (true, 23, 8)).
Proof. vm_compute. reflexivity. Qed.

(** C2, on the 5 x 5 grid with barriers at (1,1), (3,0), (3,1), from (0,1)
    to (4,0): BFS and Dijkstra report 7, A* reports 9.  The cell (2,2) is
    first reached with cost 5 and pushed with priority 9; it is then relaxed
    to cost 3 while pending, so nothing is pushed, and its only entry is
    popped as stale (9 > 7) and dropped: (2,2) is never expanded. *)
Theorem astar_misses_shortest_path :
  run_all 100 5 600 (0, 1) (4, 0) [(1, 1); (3, 0); (3, 1)] =
  Some ((true, 20, 7), (true, 12, 7), (true, 20, 7), (true, 14, 9)).
Proof. vm_compute. reflexivity. Qed.

(** The same defect can lose the path altogether: on this 6 x 6 grid BFS
    finds the end, A* exhausts its heap. *)
Lemma astar_misses_existing_path :
  run_all 100 6 600 (5, 3) (0, 1)
    [(0, 2); (1, 5); (2, 0); (2, 1); (2, 2); (2, 3); (3, 5); (4, 1); (4, 3); (5, 1)] =
  Some ((true, 22, 9), (true, 11, 9), (true, 22, 9), (false, 12, 0)).
Proof. vm_compute. reflexivity. Qed.

(** * More of the code *)

(** ** The fuel does not matter *)

Lemma reconstruct_path_fuel_mono (fuel fuel' : nat) (cf : gmap Ref Ref) (cur : Ref)
    (g : Cells) (pn : list Ref) (x : list Ref * Cells) :
  (fuel ≤ fuel')%nat →
  reconstruct_path fuel cf cur g pn = Some x →
  reconstruct_path fuel' cf cur g pn = Some x.
Proof.
  revert fuel' cur g pn. induction fuel as [|fuel IH]; intros fuel' cur g pn Hle;
    simpl; destruct (cf !! cur) as [v|] eqn:Hv; try done.
  - intros [= <-]. destruct fuel'; simpl; by rewrite Hv.
  - destruct fuel' as [|fuel']; [lia|]. simpl. rewrite Hv.
    destruct (get g v) as [nd|]; [|done]. simpl.
    destruct (negb (Node.is_start nd)); apply IH; lia.
  - intros [= <-]. destruct fuel'; simpl; by rewrite Hv.
Qed.

Lemma finish_fuel_mono (fuel fuel' : nat) (cf : gmap Ref Ref) (start end_ : Ref)
    (g : Cells) (n : Z) (x : result * Cells) :
  (fuel ≤ fuel')%nat →
  finish fuel cf start end_ g n = Some x → finish fuel' cf start end_ g n = Some x.
Proof.
  intros Hle. unfold finish.
  destruct (reconstruct_path fuel cf end_ g []) as [[pn g1]|] eqn:Hr; [|done].
  by rewrite (reconstruct_path_fuel_mono fuel fuel' _ _ _ _ _ Hle Hr).
Qed.

Lemma body_fuel_mono (A : search) (fuel fuel' : nat) (start end_ : Ref)
    (s : state A) (o : outcome (state A)) :
  A ∈ algorithms → (fuel ≤ fuel')%nat →
  body A fuel start end_ s = Some o → body A fuel' start end_ s = Some o.
Proof.
  unfold algorithms. rewrite !elem_of_cons, elem_of_nil.
  intros [->|[->|[->|[->|[]]]]] Hle; simpl.
  - unfold Uninformed.bfs_body. destruct (Uninformed.frontier s) as [|c q]; [done|].
    case_bool_decide; [|done].
    destruct (finish fuel _ _ _ _ _) as [[r g]|] eqn:Hf; [|done].
    by rewrite (finish_fuel_mono fuel fuel' _ _ _ _ _ _ Hle Hf).
  - unfold Uninformed.dfs_body. destruct (Uninformed.frontier s) as [|c q]; [done|].
    case_bool_decide; [|done].
    destruct (finish fuel _ _ _ _ _) as [[r g]|] eqn:Hf; [|done].
    by rewrite (finish_fuel_mono fuel fuel' _ _ _ _ _ _ Hle Hf).
  - unfold Informed.dijkstra_body, Informed.body.
    destruct (heappop _) as [[[[k t] c] h]|]; [|done]. simpl.
    case_bool_decide; [|done]. destruct (_ !! c) as [b|]; [|done]. simpl.
    destruct (score_lt b (Num k)); [done|]. case_bool_decide; [|done].
    destruct (finish fuel _ _ _ _ _) as [[r g]|] eqn:Hf; [|done].
    by rewrite (finish_fuel_mono fuel fuel' _ _ _ _ _ _ Hle Hf).
  - unfold Informed.astar_body, Informed.body.
    destruct (heappop _) as [[[[k t] c] h]|]; [|done]. simpl.
    case_bool_decide; [|done]. destruct (_ !! c) as [b|]; [|done]. simpl.
    destruct (score_lt b (Num k)); [done|]. case_bool_decide; [|done].
    destruct (finish fuel _ _ _ _ _) as [[r g]|] eqn:Hf; [|done].
    by rewrite (finish_fuel_mono fuel fuel' _ _ _ _ _ _ Hle Hf).
Qed.

Lemma while_loop_fuel_mono {S : Type} (pending : S → bool) (grid_of : S → Cells)
    (count_of : S → Z) (body body' : S → option (outcome S))
    (n n' : nat) (sched : list signal) (s : S) (x : result * Cells) :
  (∀ s o, body s = Some o → body' s = Some o) →
  (n ≤ n')%nat →
  while_loop pending grid_of count_of body n sched s = Some x →
  while_loop pending grid_of count_of body' n' sched s = Some x.
Proof.
  intros Hb. revert n' sched s. induction n as [|n IH]; intros n' sched s Hle;
    rewrite !while_loop_unfold; destruct (pending s); try done.
  destruct n' as [|n']; [lia|].
  assert (Hgo : match body s with
                | None => None
                | Some (Return r g) => Some (r, g)
                | Some (Continue s') =>
                    while_loop pending grid_of count_of body n (tail sched) s'
                end = Some x →
                match body' s with
                | None => None
                | Some (Return r g) => Some (r, g)
                | Some (Continue s') =>
                    while_loop pending grid_of count_of body' n' (tail sched) s'
                end = Some x).
  { destruct (body s) as [o|] eqn:Ho; [|done]. rewrite (Hb s o Ho).
    destruct o as [r g|s']; [done|]. apply IH. lia. }
  destruct sched as [|[|] sched]; [by apply Hgo|by apply Hgo|done].
Qed.

Lemma run_fuel_mono (A : search) (fuel fuel' : nat) (sched : list signal)
    (g : Cells) (start end_ : Ref) (x : result * Cells) :
  A ∈ algorithms → (fuel ≤ fuel')%nat →
  run A fuel sched g start end_ = Some x → run A fuel' sched g start end_ = Some x.
Proof.
  intros HA Hle. unfold run. destruct (in_grid g start && in_grid g end_); [|done].
  destruct (init A g start end_) as [s0|]; [|done]. simpl.
  apply while_loop_fuel_mono; [|done]. intros s o. by apply body_fuel_mono.
Qed.

(** On a closed grid every search returns, whatever the pauses, within
    [enough_fuel] iterations; more fuel gives the same result. *)
Theorem search_terminates_same_result (A : search) (fuel : nat)
    (sched : list signal) (g : Cells) (start end_ : Ref) :
  A ∈ algorithms → closed g →
  in_grid g start = true → in_grid g end_ = true →
  (enough_fuel g ≤ fuel)%nat →
  ∃ r g', run A (enough_fuel g) sched g start end_ = Some (r, g') ∧
          run A fuel sched g start end_ = Some (r, g').
Proof.
  intros HA Hc Hs He Hfuel.
  destruct (run_total A (enough_fuel g) sched g start end_ HA Hc Hs He)
    as (r & g' & Hrun); [done|].
  exists r, g'. split; [done|]. by eapply run_fuel_mono.
Qed.

(** ** What a search leaves of the store *)

(** A search changes colours only: on a store whose start and end carry
    their colours it leaves every position and neighbour list as it was, no
    cell becomes a barrier or stops being one, and no cell but [start] ends
    orange. *)
Theorem search_only_repaints (A : search) (fuel : nat) (sched : list signal)
    (g : Cells) (start end_ : Ref) (r : result) (g' : Cells) :
  A ∈ algorithms →
  color_at g start = Some ORANGE → color_at g end_ = Some TURQUOISE →
  run A fuel sched g start end_ = Some (r, g') →
  ∀ p, in_grid g' p = in_grid g p ∧
       Node.get_pos <$> get g' p = Node.get_pos <$> get g p ∧
       neighbors_at g' p = neighbors_at g p ∧
       barrier_at g' p = barrier_at g p ∧
       (color_at g' p = Some ORANGE → color_at g p = Some ORANGE).
Proof.
  intros HA Hs He Hrun p.
  destruct (algorithms_footprint A fuel g start end_ HA) as (_ & _ & Hrep).
  specialize (Hrep sched r g' Hs He Hrun).
  split_and!.
  - by apply repaints_in_grid.
  - specialize (Hrep p). destruct (get g p) as [n|], (get g' p) as [n'|]; try done.
    destruct Hrep as [H _]. simpl. f_equal. unfold Node.get_pos.
    pose proof (f_equal Node.row H). pose proof (f_equal Node.col H).
    simpl in *. congruence.
  - specialize (Hrep p). unfold neighbors_at.
    destruct (get g p) as [n|], (get g' p) as [n'|]; try done.
    destruct Hrep as [H _]. simpl. f_equal. by apply (f_equal Node.neighbors) in H.
  - by apply repaints_barrier_at.
  - by apply repaints_orange.
Qed.

(** A search reads of the store the positions, the neighbour lists and which
    cells are black or orange: on two stores that agree on these it returns
    the same result, and leaves stores that agree on them again.  The greens,
    reds and purples of an earlier run do not matter. *)
Theorem search_reads_view_only (A : search) (fuel : nat) (sched : list signal)
    (g1 g2 : Cells) (start end_ : Ref) (r : result) (g1' : Cells) :
  A ∈ algorithms → same_view g1 g2 →
  run A fuel sched g1 start end_ = Some (r, g1') →
  ∃ g2', run A fuel sched g2 start end_ = Some (r, g2') ∧ same_view g1' g2'.
Proof. apply run_sim. Qed.

(** ** Edge cases of the searches *)

(** Which schedules let the first iteration run. *)
Lemma all_infty_start (g : Cells) (start : Ref) :
  <[start := Num 0]> (all_infty g) !! start = Some (Num 0).
Proof. apply lookup_insert_eq. Qed.

(** [start] is [end]: every search pops it at once and returns "found", a
    count of 0 and a length of 1; the cell is painted turquoise and then
    orange, so it ends tagged as the start. *)
Theorem start_is_end (A : search) (fuel : nat) (sched : list signal)
    (g : Cells) (p : Ref) :
  A ∈ algorithms → in_grid g p = true → head sched ≠ Some Quit →
  run A (S fuel) sched g p p
  = Some ((true, 0, 1), modify Node.make_start p (modify Node.make_end p g)) ∧
  color_at (modify Node.make_start p (modify Node.make_end p g)) p = Some ORANGE.
Proof.
  unfold algorithms. rewrite !elem_of_cons, elem_of_nil.
  intros HA Hp Hq. split.
  2:{ unfold Node.make_start. apply color_at_paint_eq. by rewrite in_grid_modify. }
  assert (Hfin : ∀ n, finish (S fuel) ∅ p p g n
            = Some ((true, n, 1), modify Node.make_start p (modify Node.make_end p g))).
  { intros n. unfold finish. simpl. by rewrite lookup_empty. }
  unfold run. rewrite Hp. simpl.
  destruct HA as [->|[->|[->|[->|[]]]]]; simpl.
  - unfold Uninformed.bfs_body. simpl. rewrite bool_decide_true by done.
    rewrite Hfin. simpl. by destruct sched as [|[|] ?].
  - unfold Uninformed.dfs_body. simpl. rewrite bool_decide_true by done.
    rewrite Hfin. simpl. by destruct sched as [|[|] ?].
  - unfold Informed.dijkstra_body, Informed.body. simpl.
    rewrite bool_decide_true by set_solver. rewrite all_infty_start. simpl.
    rewrite bool_decide_true by done. rewrite Hfin. simpl.
    by destruct sched as [|[|] ?].
  - unfold Informed.astar_init. apply bool_decide_eq_true in Hp as [nd Hnd].
    rewrite Hnd. simpl.
    unfold Informed.astar_body, Informed.body. simpl.
    rewrite bool_decide_true by set_solver. rewrite lookup_insert_eq. simpl.
    assert (Hm : score_lt (Num (manhattan (Node.get_pos nd) (Node.get_pos nd))) (Num 0)
                 = false).
    { unfold score_lt. apply bool_decide_eq_false. unfold manhattan.
      destruct (Node.get_pos nd). lia. }
    rewrite Hm. rewrite bool_decide_true by done. rewrite Hfin. simpl.
    by destruct sched as [|[|] ?].
Qed.

(** [start] has no neighbour and is not [end]: every search expands it,
    finds its frontier empty and returns "not found", a count of 0 and a
    length of 0, with the store as it was. *)
Theorem walled_in_start (A : search) (fuel : nat) (sched : list signal)
    (g : Cells) (start end_ : Ref) :
  A ∈ algorithms →
  neighbors_at g start = Some [] → in_grid g end_ = true → start ≠ end_ →
  head sched ≠ Some Quit →
  run A (S fuel) sched g start end_ = Some ((false, 0, 0), g).
Proof.
  unfold algorithms. rewrite !elem_of_cons, elem_of_nil.
  intros HA Hn He Hne Hq. unfold neighbors_at in Hn.
  destruct (get g start) as [nd|] eqn:Hnd; [|done]. injection Hn as Hn.
  assert (Hs : in_grid g start = true) by (apply bool_decide_eq_true; by eexists).
  unfold run. rewrite Hs, He. simpl.
  destruct HA as [->|[->|[->|[->|[]]]]]; simpl.
  - unfold Uninformed.bfs_body. simpl. rewrite bool_decide_false by done.
    rewrite Hnd. simpl. rewrite Hn. simpl.
    unfold Uninformed.close. rewrite bool_decide_false by tauto.
    destruct sched as [|[|] ?]; try done; by destruct fuel.
  - unfold Uninformed.dfs_body. simpl. rewrite bool_decide_false by done.
    unfold Uninformed.close. rewrite bool_decide_false by tauto. simpl.
    rewrite Hnd. simpl. rewrite Hn. simpl.
    destruct sched as [|[|] ?]; try done; by destruct fuel.
  - unfold Informed.dijkstra_body, Informed.body. simpl.
    rewrite bool_decide_true by set_solver. rewrite all_infty_start. simpl.
    rewrite bool_decide_false by done. rewrite Hnd. simpl. rewrite Hn. simpl.
    unfold Informed.close. rewrite bool_decide_false by tauto.
    destruct sched as [|[|] ?]; try done; by destruct fuel.
  - unfold Informed.astar_init. rewrite Hnd.
    apply bool_decide_eq_true in He as [e_nd He]. rewrite He. simpl.
    unfold Informed.astar_body, Informed.body. simpl.
    rewrite bool_decide_true by set_solver. rewrite lookup_insert_eq. simpl.
    assert (Hm : score_lt (Num (manhattan (Node.get_pos nd) (Node.get_pos e_nd)))
                   (Num 0) = false).
    { unfold score_lt. apply bool_decide_eq_false. unfold manhattan.
      destruct (Node.get_pos nd), (Node.get_pos e_nd). lia. }
    rewrite Hm. rewrite bool_decide_false by done. rewrite Hnd. simpl.
    rewrite Hn. simpl.
    unfold Informed.close. rewrite bool_decide_false by tauto.
    destruct sched as [|[|] ?]; try done; by destruct fuel.
Qed.

(** ** The shape of a result *)

Section Expanded.
Variable A : search.
Variables (g : Cells) (start end_ : Ref) (fuel : nat).
Variable I : state A → Prop.

Hypothesis Hstep : ∀ s s',
  I s → body A fuel start end_ s = Some (Continue s') → I s'.
Hypothesis Hexp : ∀ s s' c,
  I s → body A fuel start end_ s = Some (Continue s') →
  expanding A end_ s = Some c → in_grid g c = true.

Lemma expansions_in_grid (fuel' : nat) (sched : list signal) (s : state A) (c : Ref) :
  I s →
  c ∈ expansions (pending A) (body A fuel start end_) (expanding A end_)
        fuel' sched s →
  in_grid g c = true.
Proof.
  revert sched s. induction fuel' as [|fuel' IH]; intros sched s Hs; simpl.
  { destruct (pending A s); by intros ?%elem_of_nil. }
  destruct (pending A s); [|by intros ?%elem_of_nil].
  assert (Hgo :
    c ∈ match body A fuel start end_ s with
        | Some (Continue s') =>
            option_list (expanding A end_ s) ++
            expansions (pending A) (body A fuel start end_) (expanding A end_)
              fuel' (tail sched) s'
        | _ => []
        end → in_grid g c = true).
  { destruct (body A fuel start end_ s) as [[r g'|s']|] eqn:Hb;
      try (by intros ?%elem_of_nil).
    intros [Hc|Hc]%elem_of_app.
    - destruct (expanding A end_ s) as [c'|] eqn:He; [|by apply elem_of_nil in Hc].
      apply list_elem_of_singleton in Hc as ->. by eapply Hexp.
    - eapply IH; [|done]. by eapply Hstep. }
  destruct sched as [|[|] sched]; [done|done|by intros ?%elem_of_nil].
Qed.
End Expanded.

Lemma uninformed_expanding_in_grid (g : Cells) (start end_ : Ref)
    (body : nat → Ref → Ref → Uninformed.state → option (outcome Uninformed.state))
    (fuel : nat) (s s' : Uninformed.state) (c : Ref) :
  body = Uninformed.bfs_body ∨ body = Uninformed.dfs_body →
  uninformed_inv g start end_ s →
  body fuel start end_ s = Some (Continue s') →
  Uninformed.expanding end_ s = Some c → in_grid g c = true.
Proof.
  intros Hbody Hinv Hb He. unfold Uninformed.expanding in He.
  destruct Hbody as [-> | ->].
  - apply bfs_body_continue in Hb as (c' & q & nd & s1 & Hf & Hne & Hnd & _).
    rewrite Hf, bool_decide_false in He by done. injection He as <-.
    rewrite <- (repaints_in_grid g (Uninformed.grid s)) by apply Hinv.
    apply bool_decide_eq_true. by eexists.
  - apply dfs_body_continue in Hb as (c' & q & nd & Hf & Hne & Hnd & _).
    rewrite Hf, bool_decide_false in He by done. injection He as <-.
    rewrite <- (repaints_in_grid g (Uninformed.grid s)) by apply Hinv.
    apply bool_decide_eq_true. unfold Uninformed.close in Hnd.
    case_bool_decide; simpl in Hnd; [|by eexists].
    rewrite get_modify_eq in Hnd. destruct (get (Uninformed.grid s) c'); [by eexists|done].
Qed.

Lemma informed_expanding_in_grid (best : Informed.state → gmap Ref score)
    (relax : Ref → Ref → Informed.state → Ref → option Informed.state)
    (g : Cells) (start end_ : Ref) (fuel : nat) (s s' : Informed.state) (c : Ref) :
  (∀ s h c, best (Informed.popped h c s) = best s) →
  informed_inv g start end_ s →
  Informed.body best relax fuel start end_ s = Some (Continue s') →
  Informed.expanding best end_ s = Some c → in_grid g c = true.
Proof.
  intros Hbest Hinv Hb He. unfold Informed.expanding in He.
  apply informed_body_continue in Hb
    as (k & t & c' & h & b & Ho & _ & Hbc & Hcase).
  rewrite Hbest in Hbc. rewrite Ho, Hbc in He.
  destruct Hcase as [[Hlt _]|(Hlt & Hne & nd & s1 & Hnd & _)]; rewrite Hlt in He; [done|].
  rewrite bool_decide_false in He by done. injection He as <-.
  rewrite <- (repaints_in_grid g (Informed.grid s)) by apply Hinv.
  apply bool_decide_eq_true. by eexists.
Qed.

Lemma run_expansions_in_grid (A : search) (fuel : nat) (sched : list signal)
    (g : Cells) (start end_ c : Ref) :
  A ∈ algorithms →
  c ∈ run_expansions A fuel sched g start end_ → in_grid g c = true.
Proof.
  unfold algorithms. rewrite !elem_of_cons, elem_of_nil.
  unfold run_expansions.
  intros [->|[->|[->|[->|[]]]]];
    (destruct (init _ g start end_) as [s0|] eqn:H0; [|by intros ?%elem_of_nil]).
  - apply (expansions_in_grid BFS g start end_ fuel (uninformed_inv g start end_)).
    + apply bfs_body_inv.
    + intros s s' c'. apply (uninformed_expanding_in_grid g start end_ Uninformed.bfs_body).
      by left.
    + injection H0 as <-. apply uninformed_init_inv.
  - apply (expansions_in_grid DFS g start end_ fuel (uninformed_inv g start end_)).
    + apply dfs_body_inv.
    + intros s s' c'. apply (uninformed_expanding_in_grid g start end_ Uninformed.dfs_body).
      by right.
    + injection H0 as <-. apply uninformed_init_inv.
  - apply (expansions_in_grid DIJKSTRA g start end_ fuel (informed_inv g start end_)).
    + apply DIJKSTRA_step_inv.
    + intros s s' c'. by apply informed_expanding_in_grid.
    + by apply DIJKSTRA_init_inv.
  - apply (expansions_in_grid ASTAR g start end_ fuel (informed_inv g start end_)).
    + apply ASTAR_step_inv.
    + intros s s' c'. by apply informed_expanding_in_grid.
    + by apply ASTAR_init_inv.
Qed.

Lemma counted_bound (g : Cells) (start end_ : Ref) (l : list Ref) :
  NoDup l → (∀ c, c ∈ l → in_grid g c = true) → in_grid g start = true →
  counted start end_ l < Z.of_nat (cell_count g).
Proof.
  intros Hnd Hl Hs. unfold counted, cell_count.
  set (l' := filter (λ c, c ≠ start ∧ c ≠ end_) l).
  assert (Hnd' : NoDup l') by (by apply NoDup_filter).
  assert (Hsub : list_to_set l' ⊆ cells g ∖ {[start]}).
  { intros c Hc. apply elem_of_list_to_set in Hc.
    apply list_elem_of_filter in Hc as [[Hc1 _] Hc2].
    apply elem_of_difference. split; [|set_solver].
    apply elem_of_cells. by apply Hl. }
  apply subseteq_size in Hsub. rewrite size_list_to_set in Hsub by done.
  assert (Hsz : size (cells g) = S (size (cells g ∖ {[start]}))).
  { assert (Heq : cells g = {[start]} ∪ (cells g ∖ {[start]})).
    { apply set_eq. intros x. rewrite elem_of_union, elem_of_singleton,
        elem_of_difference, elem_of_singleton.
      destruct (decide (x = start)) as [->|]; [|tauto].
      split; [by left|]. intros _. by apply elem_of_cells. }
    rewrite Heq at 1. rewrite size_union by set_solver.
    by rewrite size_singleton. }
  lia.
Qed.

(** What a search returns: "found" comes with a length of at least 1, "not
    found" with a length of 0; the count of visited cells is never negative
    and, [start] not being counted, smaller than the number of cells. *)
Theorem result_shape (A : search) (fuel : nat) (sched : list signal)
    (g : Cells) (start end_ : Ref) (r : result) (g' : Cells) :
  A ∈ algorithms → (A = ASTAR → wired g) →
  run A fuel sched g start end_ = Some (r, g') →
  (if found r then 1 ≤ path_length r else path_length r = 0) ∧
  0 ≤ visited_count r < Z.of_nat (cell_count g).
Proof.
  intros HA Hw Hrun. split.
  - revert Hrun. unfold run. destruct (in_grid g start && in_grid g end_); [|done].
    destruct (init A g start end_) as [s0|]; [|done]. simpl.
    apply (while_loop_inv _ _ _ _ (λ _, True)
             (λ rg, if found rg.1 then 1 ≤ path_length rg.1 else path_length rg.1 = 0));
      [done| |done|done].
    intros s r' g'' _ _ Hb.
    assert (Hfin : ∃ cf n, finish fuel cf start end_ (grid_of A s) n = Some (r', g'')).
    { unfold algorithms in HA. rewrite !elem_of_cons, elem_of_nil in HA.
      destruct HA as [->|[->|[->|[->|[]]]]]; do 2 eexists;
        [by apply BFS_return|by apply DFS_return
        |by apply DIJKSTRA_return|by apply ASTAR_return]. }
    destruct Hfin as (cf & n & (pn & g1 & _ & -> & _)%finish_inv). simpl.
    unfold path_length. simpl. lia.
  - assert (Hs : in_grid g start = true).
    { unfold run in Hrun. by destruct (in_grid g start). }
    assert (Hcount : visited_count r
                     = counted start end_ (run_expansions A fuel sched g start end_)).
    { destruct (algorithms_counting A HA) as (Hinit & Hcont & Hret & _).
      revert Hrun. unfold run, run_expansions.
      destruct (in_grid g start && in_grid g end_); [|done].
      destruct (init A g start end_) as [s|] eqn:Hs0; [|done]. simpl.
      intros Hrun. eapply while_loop_count in Hrun; [|apply Hcont|apply Hret].
      simpl in Hrun. rewrite Hrun, (Hinit _ _ _ _ Hs0). lia. }
    rewrite Hcount. split; [apply counted_nonneg|].
    apply counted_bound; [|intros c; by apply run_expansions_in_grid|done].
    unfold algorithms in HA. rewrite !elem_of_cons, elem_of_nil in HA.
    assert (H0 : frontier_ok (Uninformed.init g start)).
    { split; simpl; [apply NoDup_singleton|].
      intros p ->%list_elem_of_singleton. by apply elem_of_singleton. }
    destruct HA as [->|[->|[->|[->|[]]]]].
    + apply (uninformed_expansions_NoDup Uninformed.bfs_body); [by left|done].
    + apply (uninformed_expansions_NoDup Uninformed.dfs_body); [by right|done].
    + apply dijkstra_expansions_NoDup.
    + by apply astar_expansions_NoDup, Hw.
Qed.

(** ** [bfs] and [dfs] find the end exactly when it can be reached *)

Lemma foldM_inv_keep {A S} (P : S → Prop) (Q : S → Prop)
    (f : S → A → option S) (l : list A) :
  (∀ s a s', a ∈ l → P s → f s a = Some s' → P s' ∧ (Q s → Q s')) →
  ∀ s s', P s → foldM f s l = Some s' → Q s → Q s'.
Proof.
  induction l as [|a l IH]; intros Hf s s' Hs Hfold Hq; simpl in Hfold.
  - by injection Hfold as <-.
  - destruct (f s a) as [s1|] eqn:Hs1; simpl in Hfold; [|done].
    destruct (Hf s a s1) as [H1 Hq1]; [left|done|done|].
    apply (IH (λ s a s' Ha, Hf s a s' (list_elem_of_further _ _ _ Ha)) s1 s');
      auto.
Qed.

Lemma foldM_inv_all {A S} (P : S → Prop) (Q : A → S → Prop)
    (f : S → A → option S) (l : list A) :
  (∀ s a s', a ∈ l → P s → f s a = Some s' →
     P s' ∧ Q a s' ∧ ∀ b, Q b s → Q b s') →
  ∀ s s', P s → foldM f s l = Some s' → P s' ∧ ∀ a, a ∈ l → Q a s'.
Proof.
  induction l as [|a l IH]; intros Hf s s' Hs Hfold; simpl in Hfold.
  - injection Hfold as <-. split; [done|]. by intros a ?%elem_of_nil.
  - destruct (f s a) as [s1|] eqn:Hs1; simpl in Hfold; [|done].
    destruct (Hf s a s1) as (H1 & Hq & _); [left|done|done|].
    assert (Hf' : ∀ s a s', a ∈ l → P s → f s a = Some s' →
                    P s' ∧ Q a s' ∧ ∀ b, Q b s → Q b s').
    { intros t b t' Hb. apply Hf. by right. }
    destruct (IH Hf' s1 s' H1 Hfold) as [H2 Hall].
    split; [done|]. intros b [->|Hb]%elem_of_cons; [|by apply Hall].
    apply (foldM_inv_keep P (Q a) f l) with (s := s1); [|done..].
    intros t x t' Hx Ht Hfx. destruct (Hf' t x t' Hx Ht Hfx) as (? & _ & Hm).
    split; [done|apply Hm].
Qed.

Section LoopExit.
Context {S : Type}.
Variable pending : S → bool.
Variable grid_of : S → Cells.
Variable count_of : S → Z.
Variable body : S → option (outcome S).
Variable I : S → Prop.
Hypothesis Hstep : ∀ s s', I s → pending s = true → body s = Some (Continue s') → I s'.

(** A run that meets no quit signal ends when the frontier is empty or when
    the body returns. *)
Lemma while_loop_exit (fuel : nat) (sched : list signal) (s : S)
    (rg : result * Cells) :
  I s → ¬ (Quit ∈ sched) →
  while_loop pending grid_of count_of body fuel sched s = Some rg →
  (∃ s', I s' ∧ pending s' = false ∧ rg = ((false, count_of s', 0), grid_of s')) ∨
  (∃ s', I s' ∧ pending s' = true ∧ body s' = Some (Return rg.1 rg.2)).
Proof.
  revert sched s. induction fuel as [|fuel IH]; intros sched s Hs Hq Hrun;
    rewrite while_loop_unfold in Hrun; destruct (pending s) eqn:Hp; try done;
    try (injection Hrun as <-; left; by exists s).
  assert (Hq' : ¬ (Quit ∈ tail sched)).
  { intros Hin. apply Hq. destruct sched; [done|]. by right. }
  assert (Hgo : match body s with
                | None => None
                | Some (Return r g) => Some (r, g)
                | Some (Continue s') =>
                    while_loop pending grid_of count_of body fuel (tail sched) s'
                end = Some rg →
    (∃ s', I s' ∧ pending s' = false ∧ rg = ((false, count_of s', 0), grid_of s')) ∨
    (∃ s', I s' ∧ pending s' = true ∧ body s' = Some (Return rg.1 rg.2))).
  { destruct (body s) as [[r g|s']|] eqn:Hb; [| |done].
    - intros [= <-]. right. by exists s.
    - apply IH; [by eapply Hstep|done]. }
  destruct sched as [|[|] sched]; [by apply Hgo|by apply Hgo|].
  destruct Hq. left.
Qed.
End LoopExit.

Lemma uninformed_init_cover (g : Cells) (start end_ : Ref) :
  uninformed_cover g start end_ (Uninformed.init g start).
Proof.
  unfold uninformed_cover. simpl. split_and!.
  - by apply elem_of_singleton.
  - intros p ->%list_elem_of_singleton. by apply elem_of_singleton.
  - intros p ->%elem_of_singleton. exists 0%nat. constructor.
  - intros c ->%elem_of_singleton. left. by left.
  - intros ->%elem_of_singleton. by left.
Qed.

Lemma discover_cover (push : Ref → list Ref → list Ref) (g : Cells)
    (start end_ c : Ref) (s s' : Uninformed.state) (n : Ref) :
  (∀ x a q, x ∈ push a q ↔ x = a ∨ x ∈ q) →
  linked g c n →
  uninformed_inv g start end_ s ∧ cover_but g start end_ c s →
  Uninformed.discover push c end_ s n = Some s' →
  cover_but g start end_ c s' ∧
  (n ∈ Uninformed.visited s' ∨ barrier_at g n = true) ∧
  ∀ b, b ∈ Uninformed.visited s ∨ barrier_at g b = true →
       b ∈ Uninformed.visited s' ∨ barrier_at g b = true.
Proof.
  intros Hpush Hlink [Hinv (Hs & Hfr & Hreach & Hcl & He & Hc)].
  unfold Uninformed.discover. case_bool_decide as Hv.
  { intros [= <-]. split_and!; [done|by left|done]. }
  destruct (get _ n) as [nd|] eqn:Hnd; [|done]. simpl.
  assert (Hbar : barrier_at g n = Node.is_barrier nd).
  { rewrite <- (repaints_barrier_at g (Uninformed.grid s)) by apply Hinv.
    unfold barrier_at, color_at. rewrite Hnd. simpl. unfold Node.is_barrier.
    apply bool_decide_ext. split; [by intros [= ?]|by intros ->]. }
  destruct (Node.is_barrier nd) eqn:Hb.
  { intros [= <-]. split_and!; [done|by right|done]. }
  intros [= <-]. unfold cover_but. simpl. split_and!.
  - set_solver.
  - intros p [->|Hp]%Hpush; [set_solver|]. specialize (Hfr p Hp). set_solver.
  - intros p [->%elem_of_singleton|Hp]%elem_of_union; [|by apply Hreach].
    destruct (Hreach c Hc) as [k Hk]. exists (S k). by eapply reach_step.
  - intros v [->%elem_of_singleton|Hv']%elem_of_union.
    + right. left. apply Hpush. by left.
    + destruct (Hcl v Hv') as [?|[?|Hcv]]; [by left|right; left; apply Hpush; by right|].
      right. right. intros m Hm Hbm. specialize (Hcv m Hm Hbm). set_solver.
  - intros [->%elem_of_singleton|Hev]%elem_of_union.
    + right. apply Hpush. by left.
    + destruct (He Hev) as [?|?]; [by left|right; apply Hpush; by right].
  - set_solver.
  - left. set_solver.
  - intros b [?|?]; [left; set_solver|by right].
Qed.

Lemma enqueue_elem_iff (x a : Ref) (q : list Ref) :
  x ∈ Uninformed.enqueue a q ↔ x = a ∨ x ∈ q.
Proof.
  unfold Uninformed.enqueue. rewrite elem_of_app, list_elem_of_singleton. tauto.
Qed.

Lemma push_elem_iff (x a : Ref) (q : list Ref) :
  x ∈ Uninformed.push a q ↔ x = a ∨ x ∈ q.
Proof. unfold Uninformed.push. by rewrite elem_of_cons. Qed.

Lemma cover_but_done (g : Cells) (start end_ c : Ref) (s : Uninformed.state)
    (nbs : list Ref) :
  c ≠ end_ →
  (∀ n, linked g c n → n ∈ nbs) →
  cover_but g start end_ c s →
  (∀ a, a ∈ nbs → a ∈ Uninformed.visited s ∨ barrier_at g a = true) →
  uninformed_cover g start end_ s.
Proof.
  intros Hne Hnbs (Hs & Hfr & Hreach & Hcl & He & Hc) Hall.
  unfold uninformed_cover. split_and!; [done..| |].
  - intros v Hv. destruct (Hcl v Hv) as [->|[?|?]]; [|by left|by right].
    right. intros n Hn Hb. destruct (Hall n (Hnbs n Hn)) as [?|Hb']; [done|].
    by rewrite Hb in Hb'.
  - intros Hev. by destruct (He Hev).
Qed.

Lemma popped_cover_but (g : Cells) (start end_ c : Ref) (q : list Ref)
    (s : Uninformed.state) :
  Uninformed.frontier s = c :: q →
  uninformed_cover g start end_ s →
  cover_but g start end_ c (Uninformed.with_frontier q s).
Proof.
  intros Hf (Hs & Hfr & Hreach & Hcl & He). rewrite Hf in Hfr, Hcl, He.
  unfold cover_but. simpl. split_and!; [done| |done| | |].
  - intros p Hp. apply Hfr. by right.
  - intros v Hv. destruct (Hcl v Hv) as [[->|?]%elem_of_cons|?]; auto.
  - intros Hev. pose proof (He Hev) as [Hx|?]%elem_of_cons; auto.
  - apply Hfr. by left.
Qed.

Lemma cover_but_close (g : Cells) (start end_ c c' : Ref) (s : Uninformed.state) :
  cover_but g start end_ c (Uninformed.close c' start end_ s) ↔
  cover_but g start end_ c s.
Proof. unfold Uninformed.close. by case_bool_decide. Qed.

Lemma uninformed_cover_close (g : Cells) (start end_ c' : Ref) (s : Uninformed.state) :
  uninformed_cover g start end_ (Uninformed.close c' start end_ s) ↔
  uninformed_cover g start end_ s.
Proof. unfold Uninformed.close. by case_bool_decide. Qed.

Lemma bfs_body_cover (g : Cells) (fuel : nat) (start end_ : Ref)
    (s s' : Uninformed.state) :
  uninformed_inv g start end_ s ∧ uninformed_cover g start end_ s →
  Uninformed.bfs_body fuel start end_ s = Some (Continue s') →
  uninformed_inv g start end_ s' ∧ uninformed_cover g start end_ s'.
Proof.
  intros [Hinv Hcov] Hb. split; [by eapply bfs_body_inv|].
  apply bfs_body_continue in Hb as (c & q & nd & s1 & Hf & Hne & Hnd & Hfold & ->).
  destruct (with_frontier_inv g start end_ c q s Hf Hinv) as [Hinv0 Hcb].
  pose proof (popped_cover_but g start end_ c q s Hf Hcov) as Hcov0.
  destruct (repaints_get g _ c nd (proj1 Hinv) Hnd) as (n0 & Hn0 & Hnb).
  apply uninformed_cover_close.
  eapply (foldM_inv_all
            (λ t, uninformed_inv g start end_ t ∧ cover_but g start end_ c t)
            (λ a t, a ∈ Uninformed.visited t ∨ barrier_at g a = true))
    in Hfold as [[_ H1] H2]; [| |by split].
  - apply (cover_but_done g start end_ c s1 (Node.neighbors nd)); [done| |done|done].
    intros n (nd' & Hnd' & Hn). rewrite Hn0 in Hnd'. injection Hnd' as <-.
    by rewrite Hnb.
  - intros t a t' Ha [Ht1 Ht2] Hd.
    destruct (discover_cover Uninformed.enqueue g start end_ c t t' a) as (? & ? & ?);
      [apply enqueue_elem_iff| |by split|done|].
    { exists n0. split; [done|]. by rewrite <- Hnb. }
    split_and!; [|done..].
    eapply discover_inv; [apply enqueue_elem|done..].
Qed.

Lemma dfs_body_cover (g : Cells) (fuel : nat) (start end_ : Ref)
    (s s' : Uninformed.state) :
  uninformed_inv g start end_ s ∧ uninformed_cover g start end_ s →
  Uninformed.dfs_body fuel start end_ s = Some (Continue s') →
  uninformed_inv g start end_ s' ∧ uninformed_cover g start end_ s'.
Proof.
  intros [Hinv Hcov] Hb. split; [by eapply dfs_body_inv|].
  apply dfs_body_continue in Hb as (c & q & nd & Hf & Hne & Hnd & Hfold).
  destruct (with_frontier_inv g start end_ c q s Hf Hinv) as [Hinv0 Hcb].
  pose proof (uninformed_close_inv g start end_ c _ Hcb Hinv0) as Hinv1.
  pose proof (popped_cover_but g start end_ c q s Hf Hcov) as Hcov0.
  apply (cover_but_close g start end_ c c) in Hcov0.
  destruct (repaints_get g _ c nd (proj1 Hinv1) Hnd) as (n0 & Hn0 & Hnb).
  eapply (foldM_inv_all
            (λ t, uninformed_inv g start end_ t ∧ cover_but g start end_ c t)
            (λ a t, a ∈ Uninformed.visited t ∨ barrier_at g a = true))
    in Hfold as [[_ H1] H2]; [| |by split].
  - apply (cover_but_done g start end_ c s' (reverse (Node.neighbors nd)));
      [done| |done|done].
    intros n (nd' & Hnd' & Hn). rewrite Hn0 in Hnd'. injection Hnd' as <-.
    rewrite elem_of_reverse. by rewrite Hnb.
  - intros t a t' Ha [Ht1 Ht2] Hd. rewrite elem_of_reverse in Ha.
    destruct (discover_cover Uninformed.push g start end_ c t t' a) as (? & ? & ?);
      [apply push_elem_iff| |by split|done|].
    { exists n0. split; [done|]. by rewrite <- Hnb. }
    split_and!; [|done..].
    eapply discover_inv; [apply push_elem|done..].
Qed.

Lemma cover_closed_reach (g : Cells) (start end_ : Ref) (s : Uninformed.state) :
  uninformed_cover g start end_ s → Uninformed.frontier s = [] →
  ∀ p k, reach g start p k → p ∈ Uninformed.visited s.
Proof.
  intros (Hs & _ & _ & Hcl & _) Hf p k Hr.
  induction Hr as [|c n k Hr IH Hl Hb]; [done|].
  destruct (Hcl c IH) as [Hc|Hc]; [by rewrite Hf in Hc; apply elem_of_nil in Hc|].
  by apply Hc.
Qed.

(** [bfs] and [dfs], run without a quit signal, report "found" exactly when
    [end] can be reached from [start] along the neighbour lists through cells
    that are no barriers. *)
Theorem uninformed_finds_iff_reachable (A : search) (fuel : nat)
    (sched : list signal) (g : Cells) (start end_ : Ref) (r : result) (g' : Cells) :
  A = BFS ∨ A = DFS → ¬ (Quit ∈ sched) →
  run A fuel sched g start end_ = Some (r, g') →
  found r = true ↔ ∃ k, reach g start end_ k.
Proof.
  intros HA Hq. unfold run. destruct (in_grid g start && in_grid g end_); [|done].
  assert (Hgen : ∀ body : nat → Ref → Ref → Uninformed.state →
                         option (outcome Uninformed.state),
    (∀ s s', uninformed_inv g start end_ s ∧ uninformed_cover g start end_ s →
       body fuel start end_ s = Some (Continue s') →
       uninformed_inv g start end_ s' ∧ uninformed_cover g start end_ s') →
    (∀ s r g', body fuel start end_ s = Some (Return r g') →
       found r = true ∧ ∃ q, Uninformed.frontier s = end_ :: q) →
    while_loop Uninformed.pending Uninformed.grid Uninformed.visited_nodes_count
      (body fuel start end_) fuel sched (Uninformed.init g start) = Some (r, g') →
    found r = true ↔ ∃ k, reach g start end_ k).
  { intros body Hstep Hret Hrun.
    apply (while_loop_exit _ _ _ _
             (λ s, uninformed_inv g start end_ s ∧ uninformed_cover g start end_ s))
      in Hrun as [(s' & [_ Hcov] & Hp & Hrg)|(s' & [_ Hcov] & Hp & Hb)];
      [| |by intros s s' Hs _; apply Hstep
       |by split; [apply uninformed_init_inv|apply uninformed_init_cover]|done].
    - injection Hrg as -> _. split; [done|]. intros [k Hk]. exfalso.
      unfold Uninformed.pending in Hp.
      destruct (Uninformed.frontier s') eqn:Hf; [|done].
      pose proof (cover_closed_reach g start end_ s' Hcov Hf end_ k Hk) as He.
      destruct Hcov as (_ & _ & _ & _ & Hend). specialize (Hend He).
      rewrite Hf in Hend. by apply elem_of_nil in Hend.
    - simpl in Hb. destruct (Hret s' r g' Hb) as [-> [q Hfq]]. split; [|done].
      intros _. destruct Hcov as (_ & Hfr & Hreach & _).
      apply Hreach, Hfr. rewrite Hfq. by left. }
  destruct HA as [-> | ->]; simpl.
  - apply (Hgen Uninformed.bfs_body); [apply bfs_body_cover|].
    intros s r' g'' Hb. pose proof (bfs_body_return _ _ _ _ _ _ Hb) as (q & Hf & Hfin).
    split; [|by eexists].
    by apply finish_inv in Hfin as (? & ? & _ & -> & _).
  - apply (Hgen Uninformed.dfs_body); [apply dfs_body_cover|].
    intros s r' g'' Hb. pose proof (dfs_body_return _ _ _ _ _ _ Hb) as (q & Hf & Hfin).
    split; [|by eexists].
    by apply finish_inv in Hfin as (? & ? & _ & -> & _).
Qed.

(** ** The path that is found: a walk, and for [bfs] and [dijkstra] a
    shortest one *)

Lemma levels_lower_bound (g : Cells) (start : Ref) (D : Ref → option Z)
    (F : Ref → Prop) (m : Z) :
  D start = Some 0 →
  (∀ c d, D c = Some d → F c → m ≤ d) →
  (∀ c d, D c = Some d →
     F c ∨ ∀ n, linked g c n → barrier_at g n = false →
                ∃ dn, D n = Some dn ∧ dn ≤ d + 1) →
  ∀ p k, reach g start p k →
    (∃ d, D p = Some d ∧ d ≤ Z.of_nat k) ∨ m ≤ Z.of_nat k.
Proof.
  intros H0 HF Hcl p k Hr. induction Hr as [|c n k Hr IH Hl Hb].
  - left. exists 0. split; [done|lia].
  - destruct IH as [(d & Hd & Hdk)|Hm]; [|right; lia].
    destruct (Hcl c d Hd) as [Hf|Hn].
    + right. specialize (HF c d Hd Hf). lia.
    + destruct (Hn n Hl Hb) as (dn & Hdn & Hle). left. exists dn.
      split; [done|lia].
Qed.

Lemma climb_depth (start : Ref) (cf : gmap Ref Ref) (D : Ref → option Z)
    (p : Ref) (l : list Ref) :
  D start = Some 0 →
  (∀ n c, cf !! n = Some c → ∃ a, D c = Some a ∧ D n = Some (a + 1)) →
  climb start cf p l → D p = Some (Z.of_nat (length l) + 1).
Proof.
  intros H0 Hcf Hc. induction Hc as [p Hp|p p' l Hp Hne Hc IH].
  - destruct (Hcf p start Hp) as (a & Ha & Hn). rewrite H0 in Ha.
    injection Ha as <-. by rewrite Hn.
  - destruct (Hcf p p' Hp) as (a & Ha & Hn). rewrite IH in Ha.
    injection Ha as <-. rewrite Hn. f_equal. simpl length. lia.
Qed.

Lemma climb_reach (g : Cells) (start : Ref) (cf : gmap Ref Ref) (p : Ref)
    (l : list Ref) :
  (∀ n c, cf !! n = Some c → linked g c n) →
  (∀ n c, cf !! n = Some c → c = start ∨ barrier_at g c = false) →
  climb start cf p l → barrier_at g p = false →
  reach g start p (S (length l)).
Proof.
  intros Hlink Hbar Hc. induction Hc as [p Hp|p p' l Hp Hne Hc IH]; intros Hb.
  - eapply reach_step; [apply reach_start|by apply Hlink|done].
  - simpl. eapply reach_step; [|by apply Hlink|done].
    apply IH. by destruct (Hbar p p' Hp).
Qed.

Section Found.
Variable A : search.
Variable cf_of : state A → gmap Ref Ref.
Variables (g : Cells) (start end_ : Ref) (fuel : nat).
Variable I : state A → Prop.

Hypothesis Hinit : ∀ s0, init A g start end_ = Some s0 → I s0.
Hypothesis Hstep : ∀ s s',
  I s → body A fuel start end_ s = Some (Continue s') → I s'.

(** A run that reports "found" returned from the body of the loop. *)
Lemma found_state (sched : list signal) (r : result) (g' : Cells) :
  run A fuel sched g start end_ = Some (r, g') → found r = true →
  ∃ s, I s ∧ body A fuel start end_ s = Some (Return r g').
Proof.
  unfold run. destruct (in_grid g start && in_grid g end_); [|done].
  destruct (init A g start end_) as [s0|] eqn:H0; [|done]. simpl.
  apply (while_loop_inv _ _ _ _ I
           (λ rg, found rg.1 = true →
                  ∃ s, I s ∧ body A fuel start end_ s = Some (Return rg.1 rg.2)));
    [| |by eauto|by auto].
  - by intros s _ ?.
  - intros s r' g'' Hs _ Hb _. by exists s.
Qed.

(** A run that meets no quit signal ends with an empty frontier or returns
    from the body. *)
Lemma run_exit (sched : list signal) (r : result) (g' : Cells) :
  ¬ (Quit ∈ sched) →
  run A fuel sched g start end_ = Some (r, g') →
  (∃ s, I s ∧ pending A s = false ∧ found r = false) ∨
  (∃ s, I s ∧ body A fuel start end_ s = Some (Return r g')).
Proof.
  intros Hq. unfold run. destruct (in_grid g start && in_grid g end_); [|done].
  destruct (init A g start end_) as [s0|] eqn:H0; [|done]. simpl. intros Hrun.
  apply (while_loop_exit _ _ _ _ I) in Hrun
    as [(s & Hs & Hp & Hrg)|(s & Hs & Hp & Hb)]; [| |by eauto|by auto|done].
  - left. exists s. split_and!; [done..|]. by injection Hrg as ->.
  - right. by exists s.
Qed.

Hypothesis Hfacts : ∀ s, I s →
  repaints g (grid_of A s) ∧
  color_at (grid_of A s) start = color_at g start.
Hypothesis Hret : ∀ s r g',
  I s → body A fuel start end_ s = Some (Return r g') →
  finish fuel (cf_of s) start end_ (grid_of A s) (count_of A s) = Some (r, g') ∧
  cf_of s !! start = None ∧
  (∀ n c, cf_of s !! n = Some c →
          linked g c n ∧ (c = start ∨ barrier_at g c = false)) ∧
  (end_ = start ∨ (barrier_at g end_ = false ∧ ∃ l, climb start (cf_of s) end_ l)).

(** The length that is returned is the number of steps of a walk from
    [start] to [end] along the predecessors. *)
Lemma found_walk (sched : list signal) (r : result) (g' : Cells) :
  color_at g start = Some ORANGE →
  (∀ p, color_at g p = Some ORANGE → p = start) →
  start ≠ end_ →
  run A fuel sched g start end_ = Some (r, g') → found r = true →
  ∃ s l, I s ∧ body A fuel start end_ s = Some (Return r g') ∧
         climb start (cf_of s) end_ l ∧
         path_length r = Z.of_nat (length l) + 1 ∧
         reach g start end_ (S (length l)).
Proof.
  intros Hs Huniq Hne Hrun Hfound.
  destruct (found_state sched r g' Hrun Hfound) as (s & HIs & Hb).
  destruct (Hret s r g' HIs Hb) as (Hfin & Hstart & Hlinks & Hend).
  destruct (Hfacts s HIs) as [Hrep Hcs].
  pose proof (repaints_is_start g (grid_of A s) start Hs Huniq Hrep Hcs) as Hor.
  destruct (finish_climb fuel (cf_of s) start end_ (grid_of A s) (count_of A s)
              r g' Hstart Hor Hfin) as [_ Hclimb].
  destruct Hend as [->|[Hbe [l Hl]]]; [done|].
  destruct (Hclimb l Hl) as [Hlen _].
  exists s, l. split_and!; [done..|].
  apply (climb_reach g start (cf_of s)); [|  |done|done].
  - intros n c Hnc. by destruct (Hlinks n c Hnc).
  - intros n c Hnc. by destruct (Hlinks n c Hnc).
Qed.
End Found.

Lemma uninformed_return_facts (g : Cells) (start end_ : Ref) (s : Uninformed.state)
    (q : list Ref) :
  uninformed_inv g start end_ s → uninformed_tree g start s →
  Uninformed.frontier s = end_ :: q →
  Uninformed.came_from s !! start = None ∧
  (∀ n c, Uninformed.came_from s !! n = Some c →
          linked g c n ∧ (c = start ∨ barrier_at g c = false)) ∧
  (end_ = start ∨
   (barrier_at g end_ = false ∧ ∃ l, climb start (Uninformed.came_from s) end_ l)).
Proof.
  intros (_ & _ & _ & _ & Hfrb & Hcfb) (Hstart & Hvis & Hfr & Hcf & Hclimb) Hf.
  split_and!; [done| |].
  - intros n c Hnc. split; [by destruct (Hcf n c Hnc)|by eapply Hcfb].
  - assert (He : end_ ∈ Uninformed.visited s) by (apply Hfr; rewrite Hf; left).
    apply Hvis in He as [->|He]; [by left|].
    destruct (decide (end_ = start)) as [?|Hne]; [by left|right]. split.
    + destruct (Hfrb end_) as [?|?]; [rewrite Hf; by left|done|done].
    + by apply Hclimb.
Qed.

Lemma informed_return_facts (g : Cells) (start end_ : Ref) (s : Informed.state)
    (k t : Z) (h : list entry) :
  informed_inv g start end_ s → informed_tree g start s →
  Informed.open_set s = (k, t, end_) :: h →
  Informed.came_from s !! start = None ∧
  (∀ n c, Informed.came_from s !! n = Some c →
          linked g c n ∧ (c = start ∨ barrier_at g c = false)) ∧
  (end_ = start ∨
   (barrier_at g end_ = false ∧ ∃ l, climb start (Informed.came_from s) end_ l)).
Proof.
  intros Hinv Ht Ho.
  pose proof Hinv as (_ & _ & _ & _ & Hpos & Hos & Hcfb).
  pose proof Ht as (Hstart & Hcf & Hdom & Hheap).
  split_and!; [done| |].
  - intros n c Hnc. split; [by destruct (Hcf n c Hnc)|by eapply Hcfb].
  - destruct (decide (end_ = start)) as [?|Hne]; [by left|right]. split.
    + destruct (Hos (k, t, end_)) as [?|?]; [rewrite Ho; by left|done|done].
    + destruct (Hheap (k, t, end_)) as [z Hz]; [rewrite Ho; by left|].
      apply (climb_of_scores g start end_ s Hinv Ht (Z.to_nat z) end_ z); [done| |done].
      specialize (Hpos _ _ Hz). lia.
Qed.

Lemma found_walk_any (A : search) (fuel : nat) (sched : list signal)
    (g : Cells) (start end_ : Ref) (r : result) (g' : Cells) :
  A ∈ algorithms →
  color_at g start = Some ORANGE →
  (∀ p, color_at g p = Some ORANGE → p = start) →
  start ≠ end_ →
  run A fuel sched g start end_ = Some (r, g') → found r = true →
  1 ≤ path_length r ∧ reach g start end_ (Z.to_nat (path_length r)).
Proof.
  intros HA Hs Huniq Hne Hrun Hfound.
  assert (Hw : ∃ l : list Ref, path_length r = Z.of_nat (length l) + 1 ∧
                               reach g start end_ (S (length l))).
  { unfold algorithms in HA. rewrite !elem_of_cons, elem_of_nil in HA.
    destruct HA as [->|[->|[->|[->|[]]]]].
    - destruct (found_walk BFS Uninformed.came_from g start end_ fuel
                  (λ s, uninformed_inv g start end_ s ∧ uninformed_tree g start s))
        with (sched := sched) (r := r) (g' := g')
        as (s & l & _ & _ & _ & ? & ?); [| | | |done..|by exists l].
      + intros s0 [= <-]. split; [apply uninformed_init_inv|apply uninformed_init_tree].
      + apply bfs_body_tree.
      + intros s [Hinv _].
        by destruct (uninformed_inv_facts g start end_ s Hinv) as (? & ? & _).
      + intros s r' g'' [Hinv Ht] Hb.
        apply bfs_body_return in Hb as (q & Hf & Hfin). split; [done|].
        by eapply uninformed_return_facts.
    - destruct (found_walk DFS Uninformed.came_from g start end_ fuel
                  (λ s, uninformed_inv g start end_ s ∧ uninformed_tree g start s))
        with (sched := sched) (r := r) (g' := g')
        as (s & l & _ & _ & _ & ? & ?); [| | | |done..|by exists l].
      + intros s0 [= <-]. split; [apply uninformed_init_inv|apply uninformed_init_tree].
      + apply dfs_body_tree.
      + intros s [Hinv _].
        by destruct (uninformed_inv_facts g start end_ s Hinv) as (? & ? & _).
      + intros s r' g'' [Hinv Ht] Hb.
        apply dfs_body_return in Hb as (q & Hf & Hfin). split; [done|].
        by eapply uninformed_return_facts.
    - destruct (found_walk DIJKSTRA Informed.came_from g start end_ fuel
                  (λ s, informed_inv g start end_ s ∧ informed_tree g start s))
        with (sched := sched) (r := r) (g' := g')
        as (s & l & _ & _ & _ & ? & ?); [| | | |done..|by exists l].
      + intros s0 Hs0. split; [by apply DIJKSTRA_init_inv|].
        injection Hs0 as <-. apply informed_init_tree.
      + intros s s'. apply informed_body_tree.
        * intros c n s1 s2. apply dijkstra_relax_inv.
        * intros c n s1 s2. apply dijkstra_relax_tree.
      + intros s [Hinv _].
        by destruct (informed_inv_facts g start end_ s Hinv) as (? & ? & _).
      + intros s r' g'' [Hinv Ht] Hb.
        apply informed_body_return in Hb as (k & t & h & b & Ho & _ & _ & _ & Hfin).
        split; [done|]. by eapply informed_return_facts.
    - destruct (found_walk ASTAR Informed.came_from g start end_ fuel
                  (λ s, informed_inv g start end_ s ∧ informed_tree g start s))
        with (sched := sched) (r := r) (g' := g')
        as (s & l & _ & _ & _ & ? & ?); [| | | |done..|by exists l].
      + intros s0 Hs0. split; [by apply ASTAR_init_inv|].
        simpl in Hs0. unfold Informed.astar_init in Hs0.
        destruct (get g start); [|done]. destruct (get g end_); [|done].
        injection Hs0 as <-. apply informed_init_tree.
      + intros s s'. apply informed_body_tree.
        * intros c n s1 s2. apply astar_relax_inv.
        * intros c n s1 s2. apply astar_relax_tree.
      + intros s [Hinv _].
        by destruct (informed_inv_facts g start end_ s Hinv) as (? & ? & _).
      + intros s r' g'' [Hinv Ht] Hb.
        apply informed_body_return in Hb as (k & t & h & b & Ho & _ & _ & _ & Hfin).
        split; [done|]. by eapply informed_return_facts. }
  destruct Hw as (l & -> & Hreach). split; [lia|].
  by replace (Z.to_nat (Z.of_nat (length l) + 1)) with (S (length l)) by lia.
Qed.

(** *** [dijkstra] *)

Lemma dijkstra_init_levels (g : Cells) (start end_ : Ref) :
  dijkstra_levels g end_ None 0 (Informed.dijkstra_init g start).
Proof.
  unfold dijkstra_levels. simpl. split_and!.
  - split; [|split]; simpl.
    + by intros e ->%list_elem_of_singleton.
    + apply NoDup_singleton.
    + intros p. by rewrite elem_of_singleton, list_elem_of_singleton.
  - repeat constructor.
  - intros e ->%list_elem_of_singleton. simpl. by rewrite lookup_insert_eq.
  - intros p z. rewrite lookup_insert. case_decide; [intros [= <-]; lia|].
    by intros ?%all_infty_lookup.
  - intros c zc. rewrite lookup_insert. case_decide as Hc.
    + intros _. right. left. by apply elem_of_singleton.
    + by intros ?%all_infty_lookup.
  - intros p c. by rewrite lookup_empty.
  - intros z. rewrite lookup_insert. case_decide as Hc.
    + intros _. right. by apply elem_of_singleton.
    + by intros ?%all_infty_lookup.
Qed.

(** With the costs in levels a relaxation only ever gives a cost to a cell
    that had none: no cost is lowered, and no entry of the heap goes stale. *)
Lemma dijkstra_relax_levels (g : Cells) (start end_ c n : Ref) (k : Z)
    (s s' : Informed.state) :
  linked g c n →
  informed_inv g start end_ s →
  dijkstra_levels g end_ (Some c) k s →
  Informed.g_score s !! c = Some (Num k) →
  Informed.dijkstra_relax c end_ s n = Some s' →
  (dijkstra_levels g end_ (Some c) k s' ∧
   Informed.g_score s' !! c = Some (Num k)) ∧
  (barrier_at g n = true ∨
   ∃ zn, Informed.g_score s' !! n = Some (Num zn) ∧ zn ≤ k + 1) ∧
  ∀ b, barrier_at g b = true ∨
       (∃ zn, Informed.g_score s !! b = Some (Num zn) ∧ zn ≤ k + 1) →
       barrier_at g b = true ∨
       (∃ zn, Informed.g_score s' !! b = Some (Num zn) ∧ zn ≤ k + 1).
Proof.
  intros Hl Hinv Hlev Hgc Hrel.
  assert (Hok' : heap_ok s' ∧ StronglySorted entry_le (Informed.open_set s')).
  { destruct (dijkstra_relax_cases c n end_ s s' Hrel) as [->|(gc & gn & Hr)].
    - split; apply Hlev.
    - split; [by eapply relaxed_heap_ok; [apply Hlev|]|].
      eapply relaxed_sorted; [apply Hlev|done]. }
  destruct Hlev as (Hok & Hsort & HA & HB & HC & HD & HE).
  unfold Informed.dijkstra_relax in Hrel.
  destruct (get _ n) as [nd|] eqn:Hnd; [|done]. simpl in Hrel.
  assert (Hbar : barrier_at g n = Node.is_barrier nd).
  { rewrite <- (repaints_barrier_at g (Informed.grid s)) by apply Hinv.
    unfold barrier_at, color_at. rewrite Hnd. simpl. unfold Node.is_barrier.
    apply bool_decide_ext. split; [by intros [= ?]|by intros ->]. }
  destruct (Node.is_barrier nd) eqn:Hb.
  { injection Hrel as <-. split_and!; [done..|by left|done]. }
  rewrite Hgc in Hrel. simpl in Hrel. unfold score_succ in Hrel.
  destruct (Informed.g_score s !! n) as [gn|] eqn:Hgn; [|done]. simpl in Hrel.
  destruct (score_lt (Num (k + 1)) gn) eqn:Hlt.
  2:{ injection Hrel as <-. split_and!; [done..| |done]. right.
      destruct gn as [y|]; [|done]. rewrite score_lt_Num in Hlt.
      apply bool_decide_eq_false in Hlt. exists y. split; [done|lia]. }
  destruct gn as [y|].
  { rewrite score_lt_Num in Hlt. apply bool_decide_eq_true in Hlt.
    specialize (HB n y Hgn). lia. }
  assert (Hnh : ¬ (n ∈ Informed.open_set_hash s)).
  { destruct Hok as (_ & _ & Hhash). rewrite Hhash.
    intros (e & -> & He)%list_elem_of_fmap. destruct (HA e He) as [Hge _].
    congruence. }
  assert (Hk : 0 ≤ k).
  { destruct Hinv as (_ & _ & _ & _ & Hpos & _). by eapply Hpos. }
  assert (Hfin : ∀ p z, Informed.g_score s !! p = Some (Num z) → p ≠ n).
  { intros p z Hp ->. congruence. }
  unfold Informed.push_if_new in Hrel. simpl in Hrel.
  rewrite bool_decide_false in Hrel by done. injection Hrel as <-.
  unfold dijkstra_levels. simpl. split_and!; try apply Hok'.
  - intros e [->|He]%elem_of_heappush; simpl.
    + rewrite lookup_insert_eq. split; [done|lia].
    + destruct (HA e He) as [Hge HLe]. split; [|done].
      rewrite lookup_insert_ne; [done|]. intros Hn. by apply (Hfin _ _ Hge).
  - intros p z. destruct (decide (n = p)) as [<-|Hp].
    + rewrite lookup_insert_eq. intros Hz. injection Hz as Hz. lia.
    + rewrite lookup_insert_ne by done. apply HB.
  - intros v zv. destruct (decide (n = v)) as [<-|Hv].
    + intros _. right. left. set_solver.
    + rewrite lookup_insert_ne by done.
      intros Hgv. destruct (HC v zv Hgv) as [?|[?|Hcl]]; [by left|right; left; set_solver|].
      right. right. intros m Hm Hbm. destruct (Hcl m Hm Hbm) as (zm & Hzm & Hle).
      exists zm. split; [|done]. rewrite lookup_insert_ne; [done|].
      intros Hn. by apply (Hfin _ _ Hzm).
  - intros p c0. destruct (decide (n = p)) as [<-|Hp].
    + rewrite !lookup_insert_eq. intros [= <-]. exists k.
      split; [|done]. rewrite lookup_insert_ne; [done|].
      intros Hn. by apply (Hfin _ _ Hgc).
    + rewrite (lookup_insert_ne (Informed.came_from s)) by done.
      intros Hpc. destruct (HD p c0 Hpc) as (a & Ha & Hpa). exists a.
      rewrite !lookup_insert_ne; [done|done|]. intros Hn. by apply (Hfin _ _ Ha).
  - intros z. destruct (decide (n = end_)) as [<-|He].
    + intros _. right. set_solver.
    + rewrite lookup_insert_ne by done.
      intros Hz. destruct (HE z Hz) as [?|?]; [by left|right; set_solver].
  - rewrite lookup_insert_ne; [done|]. intros Hn. by apply (Hfin _ _ Hgc).
  - right. exists (k + 1). rewrite lookup_insert_eq. split; [done|lia].
  - intros b [?|(zn & Hzn & Hle)]; [by left|right]. exists zn. split; [|done].
    rewrite lookup_insert_ne; [done|]. intros Hn. by apply (Hfin _ _ Hzn).
Qed.

(** The entry that is popped is never stale. *)
Lemma dijkstra_levels_head (g : Cells) (end_ : Ref) (L k t : Z) (c : Ref)
    (h : list entry) (s : Informed.state) :
  dijkstra_levels g end_ None L s →
  Informed.open_set s = (k, t, c) :: h →
  Informed.g_score s !! c = Some (Num k) ∧
  dijkstra_levels g end_ None k s.
Proof.
  intros (Hok & Hsort & HA & HB & HC & HD & HE) Ho.
  destruct (HA (k, t, c)) as [Hgc HLk]; [rewrite Ho; by left|]. simpl in *.
  split; [done|]. unfold dijkstra_levels. split_and!; [done..| | |done|done|done].
  - intros e He. destruct (HA e He) as [? _]. split; [done|].
    rewrite Ho in Hsort, He. apply StronglySorted_inv in Hsort as [_ Hleast].
    rewrite Forall_forall in Hleast.
    apply elem_of_cons in He as [->|He]; [done|].
    specialize (Hleast e He). unfold entry_le in Hleast. simpl in Hleast. lia.
  - intros p z Hp. specialize (HB p z Hp). lia.
Qed.

Lemma dijkstra_body_levels (g : Cells) (fuel : nat) (start end_ : Ref)
    (s s' : Informed.state) :
  informed_inv g start end_ s ∧ (∃ L, dijkstra_levels g end_ None L s) →
  Informed.dijkstra_body fuel start end_ s = Some (Continue s') →
  informed_inv g start end_ s' ∧ (∃ L, dijkstra_levels g end_ None L s').
Proof.
  intros [Hinv [L Hlev]] Hb.
  split.
  { eapply informed_body_inv; [|exact Hinv|exact Hb].
    intros c n s1 s2. apply dijkstra_relax_inv. }
  unfold Informed.dijkstra_body in Hb.
  apply informed_body_continue in Hb
    as (k & t & c & h & b & Ho & Hin & Hbc & Hcase). simpl in Hbc.
  destruct (dijkstra_levels_head g end_ L k t c h s Hlev Ho) as [Hgc Hlevk].
  rewrite Hgc in Hbc. injection Hbc as <-. rewrite score_lt_Num in Hcase.
  destruct Hcase as [[Hlt _]|(_ & Hne & nd & s1 & Hnd & Hfold & ->)].
  { apply bool_decide_eq_true in Hlt. lia. }
  exists k.
  destruct Hlevk as (Hok & Hsort & HA & HB & HC & HD & HE).
  assert (Hcs : c = start ∨ barrier_at g c = false).
  { destruct Hinv as (_ & _ & _ & _ & _ & Hos & _).
    apply (Hos (k, t, c)). rewrite Ho. by left. }
  assert (Hinv0 : informed_inv g start end_ (Informed.popped h c s)).
  { destruct Hinv as (? & ? & ? & ? & ? & Hos & ?).
    unfold informed_inv. simpl. split_and!; try done.
    intros e He. apply Hos. rewrite Ho. by right. }
  assert (Hlev0 : dijkstra_levels g end_ (Some c) k (Informed.popped h c s)).
  { pose proof (popped_heap_ok s (k, t, c) h Hok Ho) as Hok0. simpl in Hok0.
    unfold dijkstra_levels. simpl. split_and!; [done| | |done| |done|].
    - rewrite Ho in Hsort. by apply StronglySorted_inv in Hsort as [? _].
    - intros e He. apply HA. rewrite Ho. by right.
    - intros v zv Hv. destruct (HC v zv Hv) as [?|[Hvh|?]]; [done| |by right; right].
      destruct (decide (v = c)) as [->|Hvc]; [by left|right; left; set_solver].
    - intros z Hz. destruct (HE z Hz) as [?|Heh]; [done|]. right. set_solver. }
  destruct (repaints_get g (Informed.grid s) c nd (proj1 Hinv) Hnd)
    as (n0 & Hn0 & Hnb).
  eapply (foldM_inv_all
            (λ t, informed_inv g start end_ t ∧
                  dijkstra_levels g end_ (Some c) k t ∧
                  Informed.g_score t !! c = Some (Num k))
            (λ a t, barrier_at g a = true ∨
                    ∃ zn, Informed.g_score t !! a = Some (Num zn) ∧ zn ≤ k + 1))
    in Hfold as [(_ & Hlev1 & Hgc1) Hall]; [| |by split_and!].
  - destruct Hlev1 as (Hok1 & Hsort1 & HA1 & HB1 & HC1 & HD1 & HE1).
    assert (Hgoal : dijkstra_levels g end_ None k s1).
    { unfold dijkstra_levels. split_and!; [done..| |done|].
      - intros v zv Hv. right.
        destruct (HC1 v zv Hv) as [[= ->]|[?|?]]; [|by left|by right].
        right. intros n (nd' & Hnd' & Hn) Hbn. rewrite Hn0 in Hnd'.
        injection Hnd' as <-. rewrite <- Hnb in Hn.
        destruct (Hall n Hn) as [Hbn'|(zn & Hzn & Hle)]; [congruence|].
        rewrite Hgc1 in Hv. injection Hv as <-. eauto.
      - intros z Hz. right. by destruct (HE1 z Hz) as [[= ?]|?]. }
    unfold Informed.close. by case_bool_decide.
  - intros t0 a t1 Ha (Hi0 & Hl0 & Hg0) Hrel.
    destruct (dijkstra_relax_levels g start end_ c a k t0 t1) as ([? ?] & ? & ?);
      [|done..|].
    { exists n0. split; [done|]. by rewrite <- Hnb. }
    split_and!; [|done..]. by eapply dijkstra_relax_inv.
Qed.

(** When [dijkstra] pops [end], no walk to [end] is shorter than its cost. *)
Lemma dijkstra_levels_bound (g : Cells) (start end_ : Ref) (L k t : Z)
    (h : list entry) (s : Informed.state) :
  informed_inv g start end_ s →
  dijkstra_levels g end_ None L s →
  Informed.open_set s = (k, t, end_) :: h →
  Informed.g_score s !! end_ = Some (Num k) ∧
  ∀ j, reach g start end_ j → k ≤ Z.of_nat j.
Proof.
  intros Hinv Hlev Ho.
  destruct (dijkstra_levels_head g end_ L k t end_ h s Hlev Ho)
    as [Hge (Hok & Hsort & HA & HB & HC & HD & HE)].
  split; [done|]. intros j Hj.
  destruct (levels_lower_bound g start
              (λ p, match Informed.g_score s !! p with
                    | Some (Num z) => Some z
                    | _ => None
                    end)
              (λ p, p ∈ Informed.open_set_hash s) k) with (p := end_) (k := j)
    as [(d & Hd & Hle)|?]; [| | |done| |done].
  - destruct Hinv as (_ & _ & _ & -> & _). done.
  - intros c d Hc Hch. destruct (Informed.g_score s !! c) as [[z|]|] eqn:Hz; [|done..].
    injection Hc as ->. destruct Hok as (_ & _ & Hhash).
    apply Hhash in Hch as (e & -> & He)%list_elem_of_fmap.
    destruct (HA e He) as [Hge' ?]. rewrite Hz in Hge'. injection Hge' as ->. done.
  - intros c d Hc. destruct (Informed.g_score s !! c) as [[z|]|] eqn:Hz; [|done..].
    injection Hc as ->. destruct (HC c d Hz) as [?|[?|Hcl]]; [done|by left|right].
    intros n Hn Hbn. destruct (Hcl n Hn Hbn) as (zn & -> & ?). eauto.
  - rewrite Hge in Hd. by injection Hd as <-.
Qed.

Lemma dijkstra_came_from_depth (g : Cells) (start end_ : Ref) (L : Z)
    (s : Informed.state) (p : Ref) (l : list Ref) :
  informed_inv g start end_ s →
  dijkstra_levels g end_ None L s →
  climb start (Informed.came_from s) p l →
  Informed.g_score s !! p = Some (Num (Z.of_nat (length l) + 1)).
Proof.
  intros Hinv (_ & _ & _ & _ & _ & HD & _) Hc.
  assert (Hd : match Informed.g_score s !! p with
               | Some (Num z) => Some z
               | _ => None
               end = Some (Z.of_nat (length l) + 1)).
  { apply (climb_depth start (Informed.came_from s)
             (λ p, match Informed.g_score s !! p with
                   | Some (Num z) => Some z
                   | _ => None
                   end)); [| |done].
    - by destruct Hinv as (_ & _ & _ & -> & _).
    - intros n c Hnc. destruct (HD n c Hnc) as (a & -> & ->). eauto. }
  destruct (Informed.g_score s !! p) as [[z|]|]; [|done..].
  by injection Hd as ->.
Qed.

Lemma dijkstra_I_init (g : Cells) (start end_ : Ref) :
  dijkstra_I g start end_ (Informed.dijkstra_init g start).
Proof.
  split; [split|].
  - by apply (DIJKSTRA_init_inv g start end_).
  - apply informed_init_tree.
  - exists 0. apply dijkstra_init_levels.
Qed.

Lemma dijkstra_I_step (g : Cells) (fuel : nat) (start end_ : Ref)
    (s s' : Informed.state) :
  dijkstra_I g start end_ s →
  Informed.dijkstra_body fuel start end_ s = Some (Continue s') →
  dijkstra_I g start end_ s'.
Proof.
  intros [[Hinv Ht] Hlev] Hb. split.
  - eapply (informed_body_tree Informed.g_score Informed.dijkstra_relax);
      [| |by split|exact Hb].
    + intros c n s1 s2. apply dijkstra_relax_inv.
    + intros c n s1 s2. apply dijkstra_relax_tree.
  - by destruct (dijkstra_body_levels g fuel start end_ s s' (conj Hinv Hlev) Hb).
Qed.

Lemma dijkstra_shortest (fuel : nat) (sched : list signal)
    (g : Cells) (start end_ : Ref) (r : result) (g' : Cells) :
  color_at g start = Some ORANGE →
  (∀ p, color_at g p = Some ORANGE → p = start) →
  start ≠ end_ →
  dijkstra fuel sched g start end_ = Some (r, g') → found r = true →
  reach g start end_ (Z.to_nat (path_length r)) ∧
  ∀ k, reach g start end_ k → path_length r ≤ Z.of_nat k.
Proof.
  intros Hs Huniq Hne Hrun Hfound.
  destruct (found_walk DIJKSTRA Informed.came_from g start end_ fuel
              (dijkstra_I g start end_))
    with (sched := sched) (r := r) (g' := g')
    as (s & l & [[Hinv Ht] [L Hlev]] & Hb & Hl & Hlen & Hreach); [| | | |done..|].
  - intros s0 [= <-]. apply dijkstra_I_init.
  - apply dijkstra_I_step.
  - intros s [[Hinv _] _].
    by destruct (informed_inv_facts g start end_ s Hinv) as (? & ? & _).
  - intros s r' g'' [[Hinv Ht] _] Hb.
    apply informed_body_return in Hb as (k & t & h & b & Ho & _ & _ & _ & Hfin).
    split; [done|]. by eapply informed_return_facts.
  - split.
    + rewrite Hlen.
      by replace (Z.to_nat (Z.of_nat (length l) + 1)) with (S (length l)) by lia.
    + intros j Hj.
      apply informed_body_return in Hb as (k & t & h & b & Ho & _ & _ & _ & _).
      destruct (dijkstra_levels_bound g start end_ L k t h s Hinv Hlev Ho)
        as [Hge Hmin].
      rewrite (dijkstra_came_from_depth g start end_ L s end_ l Hinv Hlev Hl) in Hge.
      injection Hge as <-. rewrite Hlen. by apply Hmin.
Qed.

(** A relaxation of [dijkstra] never writes over a cost: a cell that has one
    keeps it. *)
Lemma dijkstra_relax_keeps_costs (g : Cells) (start end_ c n : Ref) (k : Z)
    (s s' : Informed.state) :
  informed_inv g start end_ s →
  dijkstra_levels g end_ (Some c) k s →
  Informed.g_score s !! c = Some (Num k) →
  Informed.dijkstra_relax c end_ s n = Some s' →
  ∀ p z, Informed.g_score s !! p = Some (Num z) →
         Informed.g_score s' !! p = Some (Num z).
Proof.
  intros Hinv (_ & _ & _ & HB & _) Hgc Hrel.
  destruct (dijkstra_relax_once_cases g start end_ c n s s' Hinv Hrel)
    as [->|(gc & gn & _ & Hgc' & Hgn & Hr)]; [done|].
  rewrite Hgc in Hgc'. injection Hgc' as <-.
  unfold relaxed in Hr. simpl in Hr.
  destruct (score_lt (Num (k + 1)) gn) eqn:Hlt; [|by subst].
  destruct Hr as (Hg' & _). intros p z Hp. rewrite Hg'.
  destruct (decide (n = p)) as [->|Hnp]; [|by rewrite lookup_insert_ne].
  rewrite Hgn in Hp. injection Hp as ->.
  rewrite score_lt_Num in Hlt. apply bool_decide_eq_true in Hlt.
  specialize (HB p z Hgn). lia.
Qed.

Lemma dijkstra_body_keeps_costs (g : Cells) (fuel : nat) (start end_ : Ref)
    (s s' : Informed.state) :
  informed_inv g start end_ s → (∃ L, dijkstra_levels g end_ None L s) →
  Informed.dijkstra_body fuel start end_ s = Some (Continue s') →
  ∀ p z, Informed.g_score s !! p = Some (Num z) →
         Informed.g_score s' !! p = Some (Num z).
Proof.
  intros Hinv [L Hlev] Hb.
  unfold Informed.dijkstra_body in Hb.
  apply informed_body_continue in Hb
    as (k & t & c & h & b & Ho & Hin & Hbc & Hcase). simpl in Hbc.
  destruct (dijkstra_levels_head g end_ L k t c h s Hlev Ho) as [Hgc Hlevk].
  rewrite Hgc in Hbc. injection Hbc as <-. rewrite score_lt_Num in Hcase.
  destruct Hcase as [[Hlt _]|(_ & Hne & nd & s1 & Hnd & Hfold & ->)].
  { apply bool_decide_eq_true in Hlt. lia. }
  destruct Hlevk as (Hok & Hsort & HA & HB & HC & HD & HE).
  assert (Hcs : c = start ∨ barrier_at g c = false).
  { destruct Hinv as (_ & _ & _ & _ & _ & Hos & _).
    apply (Hos (k, t, c)). rewrite Ho. by left. }
  assert (Hinv0 : informed_inv g start end_ (Informed.popped h c s)).
  { destruct Hinv as (? & ? & ? & ? & ? & Hos & ?).
    unfold informed_inv. simpl. split_and!; try done.
    intros e He. apply Hos. rewrite Ho. by right. }
  assert (Hlev0 : dijkstra_levels g end_ (Some c) k (Informed.popped h c s)).
  { pose proof (popped_heap_ok s (k, t, c) h Hok Ho) as Hok0. simpl in Hok0.
    unfold dijkstra_levels. simpl. split_and!; [done| | |done| |done|].
    - rewrite Ho in Hsort. by apply StronglySorted_inv in Hsort as [? _].
    - intros e He. apply HA. rewrite Ho. by right.
    - intros v zv Hv. destruct (HC v zv Hv) as [?|[Hvh|?]]; [done| |by right; right].
      destruct (decide (v = c)) as [->|Hvc]; [by left|right; left; set_solver].
    - intros z Hz. destruct (HE z Hz) as [?|Heh]; [done|]. right. set_solver. }
  destruct (repaints_get g (Informed.grid s) c nd (proj1 Hinv) Hnd)
    as (n0 & Hn0 & Hnb).
  assert (Hkeep : ∀ p z, Informed.g_score s !! p = Some (Num z) →
                         Informed.g_score s1 !! p = Some (Num z)).
  { eapply (foldM_inv
              (λ t, (informed_inv g start end_ t ∧
                     dijkstra_levels g end_ (Some c) k t ∧
                     Informed.g_score t !! c = Some (Num k)) ∧
                    ∀ p z, Informed.g_score s !! p = Some (Num z) →
                           Informed.g_score t !! p = Some (Num z)))
      in Hfold as [_ Hk]; [exact Hk| |by split_and!].
    intros t0 a t1 Ha [(Hi0 & Hl0 & Hg0) Hk0] Hrel.
    destruct (dijkstra_relax_levels g start end_ c a k t0 t1) as ([? ?] & _);
      [|done..|].
    { exists n0. split; [done|]. by rewrite <- Hnb. }
    split; [split; [by eapply dijkstra_relax_inv|by split]|].
    intros p z Hp.
    by apply (dijkstra_relax_keeps_costs g start end_ c a k t0 t1), Hk0. }
  intros p z Hp. unfold Informed.close. case_bool_decide; simpl; by apply Hkeep.
Qed.

Lemma dijkstra_found_iff_reachable (fuel : nat) (sched : list signal)
    (g : Cells) (start end_ : Ref) (r : result) (g' : Cells) :
  ¬ (Quit ∈ sched) →
  dijkstra fuel sched g start end_ = Some (r, g') →
  found r = true ↔ ∃ k, reach g start end_ k.
Proof.
  intros Hq Hrun.
  destruct (run_exit DIJKSTRA g start end_ fuel (dijkstra_I g start end_))
    with (sched := sched) (r := r) (g' := g')
    as [(s & [[Hinv Ht] [L Hlev]] & Hp & Hf)|(s & [[Hinv Ht] [L Hlev]] & Hb)];
    [| |done..| |].
  - intros s0 [= <-]. apply dijkstra_I_init.
  - apply dijkstra_I_step.
  - rewrite Hf. split; [done|]. intros [k Hk]. exfalso.
    simpl in Hp. unfold Informed.pending in Hp.
    destruct (Informed.open_set s) eqn:Ho; [|done].
    destruct Hlev as (Hok & _ & _ & _ & HC & _ & HE).
    assert (Hempty : ∀ p, ¬ (p ∈ Informed.open_set_hash s)).
    { intros p. destruct Hok as (_ & _ & Hhash). rewrite Hhash, Ho.
      by intros ?%elem_of_nil. }
    assert (Hall : ∀ p j, reach g start p j →
                          ∃ z, Informed.g_score s !! p = Some (Num z)).
    { intros p j Hr. induction Hr as [|c n j Hr IH Hl Hbn].
      - destruct Hinv as (_ & _ & _ & -> & _). eauto.
      - destruct IH as [z Hz].
        destruct (HC c z Hz) as [?|[?%Hempty|Hcl]]; [done|done|].
        destruct (Hcl n Hl Hbn) as (zn & ? & _). eauto. }
    destruct (Hall end_ k Hk) as [z Hz].
    destruct (HE z Hz) as [?|?%Hempty]; done.
  - pose proof Hb as Hb0.
    apply informed_body_return in Hb as (k & t & h & b & Ho & _ & _ & _ & Hfin).
    apply finish_inv in Hfin as (pn & g1 & _ & -> & _). split; [|done]. intros _.
    destruct (informed_return_facts g start end_ s k t h Hinv Ht Ho)
      as (_ & Hlinks & [->|[Hbe [l Hl]]]).
    + exists 0%nat. constructor.
    + exists (S (length l)).
      apply (climb_reach g start (Informed.came_from s)); [| |done|done].
      * intros n c Hnc. by destruct (Hlinks n c Hnc).
      * intros n c Hnc. by destruct (Hlinks n c Hnc).
Qed.

(** [dijkstra], run without a quit signal, reports "found" exactly when [end]
    can be reached from [start].  In every state of the run an entry of the
    heap carries the current cost of its cell, so that no entry is ever
    stale, and an iteration leaves every cost that is set as it is: no cost
    is ever lowered. *)
Theorem dijkstra_finds_iff_reachable (fuel : nat) (sched : list signal)
    (g : Cells) (start end_ : Ref) (r : result) (g' : Cells) :
  ¬ (Quit ∈ sched) →
  dijkstra fuel sched g start end_ = Some (r, g') →
  (found r = true ↔ ∃ k, reach g start end_ k) ∧
  ∀ s, reaches Informed.pending (Informed.dijkstra_body fuel start end_)
         (Informed.dijkstra_init g start) s →
       (∀ e, e ∈ Informed.open_set s →
             Informed.g_score s !! e.2 = Some (Num e.1.1)) ∧
       (∀ s', Informed.dijkstra_body fuel start end_ s = Some (Continue s') →
              ∀ p z, Informed.g_score s !! p = Some (Num z) →
                     Informed.g_score s' !! p = Some (Num z)).
Proof.
  intros Hq Hrun. split; [by eapply dijkstra_found_iff_reachable|].
  intros s Hs.
  assert (HI : dijkstra_I g start end_ s).
  { eapply (reaches_inv Informed.pending (Informed.dijkstra_body fuel start end_)
              (dijkstra_I g start end_)); [|apply dijkstra_I_init|exact Hs].
    intros s1 s2 H1 _ Hb. by eapply dijkstra_I_step. }
  destruct HI as [[Hinv _] [L Hlev]]. split.
  - intros e He. destruct Hlev as (_ & _ & HA & _). by destruct (HA e He).
  - intros s' Hb. eapply dijkstra_body_keeps_costs; eauto.
Qed.

(** *** [bfs] *)

Lemma bfs_init_levels (g : Cells) (start : Ref) :
  bfs_levels g start None {[start := 0]} 0 (Uninformed.init g start).
Proof.
  unfold bfs_levels. simpl. split_and!.
  - by rewrite lookup_singleton_eq.
  - intros p. rewrite elem_of_singleton. split.
    + intros ->. by rewrite lookup_singleton_eq.
    + intros [d Hd]. by apply lookup_singleton_Some in Hd as [-> _].
  - intros n c. by rewrite lookup_empty.
  - exists [start], []. split_and!; [done| |by intros p ?%elem_of_nil].
    intros p ->%list_elem_of_singleton. by rewrite lookup_singleton_eq.
  - intros p d [-> <-]%lookup_singleton_Some. lia.
  - intros c dc [-> <-]%lookup_singleton_Some. right. left. by left.
Qed.

Lemma discover_seen (push : Ref → list Ref → list Ref) (g : Cells)
    (start end_ c : Ref) (s s' : Uninformed.state) (n : Ref) :
  uninformed_inv g start end_ s →
  Uninformed.discover push c end_ s n = Some s' →
  (n ∈ Uninformed.visited s' ∨ barrier_at g n = true) ∧
  ∀ b, b ∈ Uninformed.visited s ∨ barrier_at g b = true →
       b ∈ Uninformed.visited s' ∨ barrier_at g b = true.
Proof.
  intros Hinv. unfold Uninformed.discover. case_bool_decide as Hv.
  { intros [= <-]. split; [by left|done]. }
  destruct (get _ n) as [nd|] eqn:Hnd; [|done]. simpl.
  assert (Hbar : barrier_at g n = Node.is_barrier nd).
  { rewrite <- (repaints_barrier_at g (Uninformed.grid s)) by apply Hinv.
    unfold barrier_at, color_at. rewrite Hnd. simpl. unfold Node.is_barrier.
    apply bool_decide_ext. split; [by intros [= ?]|by intros ->]. }
  destruct (Node.is_barrier nd) eqn:Hb.
  { intros [= <-]. split; [by right|done]. }
  intros [= <-]. simpl. split; [left; set_solver|].
  intros b [?|?]; [left; set_solver|by right].
Qed.

Lemma discover_levels (g : Cells) (start end_ c n : Ref) (D : gmap Ref Z) (dc : Z)
    (s s' : Uninformed.state) :
  uninformed_inv g start end_ s →
  bfs_levels g start (Some c) D dc s → D !! c = Some dc →
  Uninformed.discover Uninformed.enqueue c end_ s n = Some s' →
  ∃ D', bfs_levels g start (Some c) D' dc s' ∧ D' !! c = Some dc.
Proof.
  intros Hinv Hlev Hc. unfold Uninformed.discover. case_bool_decide as Hv.
  { intros [= <-]. by exists D. }
  destruct (get _ n) as [nd|] eqn:Hnd; [|done]. simpl.
  destruct (Node.is_barrier nd) eqn:Hb.
  { intros [= <-]. by exists D. }
  intros [= <-]. exists (<[n := dc + 1]> D).
  destruct Hlev as (H0 & Hdom & Hcf & (q1 & q2 & Hq & Hq1 & Hq2) & Hmax & Hcl).
  assert (Hnone : D !! n = None).
  { destruct (D !! n) eqn:Hn; [|done]. destruct Hv. apply Hdom. by eexists. }
  assert (Hfin : ∀ p d, D !! p = Some d → n ≠ p).
  { intros p d Hp ->. congruence. }
  split; [|rewrite lookup_insert_ne; [done|by eapply Hfin]].
  unfold bfs_levels. simpl. split_and!.
  - rewrite lookup_insert_ne; [done|by eapply Hfin].
  - intros p. rewrite elem_of_union, elem_of_singleton, Hdom.
    destruct (decide (n = p)) as [<-|Hp].
    + rewrite lookup_insert_eq. split; [by eexists|by left].
    + rewrite lookup_insert_ne by done. split; [by intros [->|?]|by right].
  - intros p c0. destruct (decide (n = p)) as [<-|Hp].
    + rewrite !lookup_insert_eq. intros [= <-]. exists dc. split; [|done].
      rewrite lookup_insert_ne; [done|by eapply Hfin].
    + rewrite (lookup_insert_ne (Uninformed.came_from s)) by done.
      intros Hpc. destruct (Hcf p c0 Hpc) as (a & Ha & Hpa). exists a.
      rewrite !lookup_insert_ne; [done|done|by eapply Hfin].
  - exists q1, (q2 ++ [n]). split_and!.
    + unfold Uninformed.enqueue. by rewrite Hq, app_assoc.
    + intros p Hp. rewrite lookup_insert_ne; [by apply Hq1|].
      eapply Hfin. by apply Hq1.
    + intros p [Hp| ->%list_elem_of_singleton]%elem_of_app.
      * rewrite lookup_insert_ne; [by apply Hq2|]. eapply Hfin. by apply Hq2.
      * by rewrite lookup_insert_eq.
  - intros p d. destruct (decide (n = p)) as [<-|Hp].
    + rewrite lookup_insert_eq. intros Hd. injection Hd as Hd. lia.
    + rewrite lookup_insert_ne by done. apply Hmax.
  - intros v dv. destruct (decide (n = v)) as [<-|Hvn].
    + intros _. right. left. apply enqueue_elem_iff. by left.
    + rewrite lookup_insert_ne by done. intros Hdv.
      destruct (Hcl v dv Hdv) as [?|[?|Hn]];
        [by left|right; left; apply enqueue_elem_iff; by right|].
      right. right. intros m Hm Hbm. destruct (Hn m Hm Hbm) as (dm & Hdm & Hle).
      exists dm. split; [|done]. rewrite lookup_insert_ne; [done|by eapply Hfin].
Qed.

(** The head of the queue has the least depth. *)
Lemma bfs_levels_head (g : Cells) (start : Ref) (D : gmap Ref Z) (m : Z)
    (c : Ref) (q : list Ref) (s : Uninformed.state) :
  bfs_levels g start None D m s →
  Uninformed.frontier s = c :: q →
  ∃ dc, D !! c = Some dc ∧
        bfs_levels g start (Some c) D dc (Uninformed.with_frontier q s) ∧
        ∀ p d, p ∈ Uninformed.frontier s → D !! p = Some d → dc ≤ d.
Proof.
  intros (H0 & Hdom & Hcf & (q1 & q2 & Hq & Hq1 & Hq2) & Hmax & Hcl) Hf.
  rewrite Hf in Hq.
  assert (Hclose : ∀ v dv, D !! v = Some dv →
            Some v = Some c ∨ v ∈ q ∨
            ∀ n, linked g v n → barrier_at g n = false →
                 ∃ dn, D !! n = Some dn ∧ dn ≤ dv + 1).
  { intros v dv Hv. destruct (Hcl v dv Hv) as [?|[Hvf|?]]; [done| |by right; right].
    rewrite Hf in Hvf. apply elem_of_cons in Hvf as [->|?]; [by left|by right; left]. }
  destruct q1 as [|c1 q1'].
  - simpl in Hq. subst q2. exists (m + 1). split; [apply Hq2; by left|].
    split.
    + unfold bfs_levels. simpl. split_and!; [done..| | |done].
      * exists q, []. split_and!; [by rewrite app_nil_r| |by intros p ?%elem_of_nil].
        intros p Hp. apply Hq2. by right.
      * intros p d Hp. specialize (Hmax p d Hp). lia.
    + intros p d Hp Hd. rewrite Hf in Hp. rewrite (Hq2 p Hp) in Hd.
      injection Hd as <-. lia.
  - simpl in Hq. injection Hq as <- ->. exists m. split; [apply Hq1; by left|].
    split.
    + unfold bfs_levels. simpl. split_and!; [done..| |done|done].
      exists q1', q2. split_and!; [done| |done]. intros p Hp. apply Hq1. by right.
    + intros p d Hp Hd. rewrite Hf in Hp.
      rewrite app_comm_cons in Hp. apply elem_of_app in Hp as [Hp|Hp].
      * rewrite (Hq1 p Hp) in Hd. injection Hd as <-. lia.
      * rewrite (Hq2 p Hp) in Hd. injection Hd as <-. lia.
Qed.

Lemma bfs_body_levels (g : Cells) (fuel : nat) (start end_ : Ref)
    (s s' : Uninformed.state) :
  uninformed_inv g start end_ s ∧ (∃ D m, bfs_levels g start None D m s) →
  Uninformed.bfs_body fuel start end_ s = Some (Continue s') →
  uninformed_inv g start end_ s' ∧ (∃ D m, bfs_levels g start None D m s').
Proof.
  intros [Hinv (D & m & Hlev)] Hb. split; [by eapply bfs_body_inv|].
  apply bfs_body_continue in Hb as (c & q & nd & s1 & Hf & Hne & Hnd & Hfold & ->).
  destruct (with_frontier_inv g start end_ c q s Hf Hinv) as [Hinv0 Hcb].
  destruct (bfs_levels_head g start D m c q s Hlev Hf) as (dc & Hdc & Hlev0 & _).
  destruct (repaints_get g _ c nd (proj1 Hinv) Hnd) as (n0 & Hn0 & Hnb).
  eapply (foldM_inv_all
            (λ t, uninformed_inv g start end_ t ∧
                  ∃ D', bfs_levels g start (Some c) D' dc t ∧ D' !! c = Some dc)
            (λ a t, a ∈ Uninformed.visited t ∨ barrier_at g a = true))
    in Hfold as [[_ (D' & Hlev1 & Hdc')] Hall]; [| |by eauto].
  - exists D', dc.
    destruct Hlev1 as (H0 & Hdom & Hcf & Hq & Hmax & Hcl).
    assert (Hgoal : bfs_levels g start None D' dc s1).
    { unfold bfs_levels. split_and!; [done..|].
      intros v dv Hv. right.
      destruct (Hcl v dv Hv) as [[= ->]|[?|?]]; [|by left|by right].
      right. intros n (nd' & Hnd' & Hn) Hbn. rewrite Hn0 in Hnd'.
      injection Hnd' as <-. rewrite <- Hnb in Hn.
      destruct (Hall n Hn) as [Hvis|Hbn']; [|congruence].
      apply Hdom in Hvis as [dn Hdn]. exists dn. split; [done|].
      rewrite Hdc' in Hv. injection Hv as <-. by apply (Hmax n). }
    unfold Uninformed.close. by case_bool_decide.
  - intros t0 a t1 Ha [Hi0 (D0 & Hl0 & Hd0)] Hd.
    destruct (discover_seen Uninformed.enqueue g start end_ c t0 t1 a Hi0 Hd)
      as [? ?].
    split_and!; [|by eapply discover_levels|done|done].
    eapply discover_inv; [apply enqueue_elem|done..].
Qed.

Lemma bfs_I_step (g : Cells) (fuel : nat) (start end_ : Ref)
    (s s' : Uninformed.state) :
  bfs_I g start end_ s →
  Uninformed.bfs_body fuel start end_ s = Some (Continue s') →
  bfs_I g start end_ s'.
Proof.
  intros [[Hinv Ht] Hlev] Hb. split.
  - by apply (bfs_body_tree g fuel start end_ s s').
  - by destruct (bfs_body_levels g fuel start end_ s s' (conj Hinv Hlev) Hb).
Qed.

Lemma bfs_shortest (fuel : nat) (sched : list signal)
    (g : Cells) (start end_ : Ref) (r : result) (g' : Cells) :
  color_at g start = Some ORANGE →
  (∀ p, color_at g p = Some ORANGE → p = start) →
  start ≠ end_ →
  bfs fuel sched g start end_ = Some (r, g') → found r = true →
  reach g start end_ (Z.to_nat (path_length r)) ∧
  ∀ k, reach g start end_ k → path_length r ≤ Z.of_nat k.
Proof.
  intros Hs Huniq Hne Hrun Hfound.
  destruct (found_walk BFS Uninformed.came_from g start end_ fuel
              (bfs_I g start end_))
    with (sched := sched) (r := r) (g' := g')
    as (s & l & [[Hinv Ht] (D & m & Hlev)] & Hb & Hl & Hlen & Hreach);
    [| | | |done..|].
  - intros s0 [= <-]. split; [split|].
    + apply uninformed_init_inv.
    + apply uninformed_init_tree.
    + exists {[start := 0]}, 0. apply bfs_init_levels.
  - apply bfs_I_step.
  - intros s [[Hinv _] _].
    by destruct (uninformed_inv_facts g start end_ s Hinv) as (? & ? & _).
  - intros s r' g'' [[Hinv Ht] _] Hb.
    apply bfs_body_return in Hb as (q & Hf & Hfin). split; [done|].
    by eapply uninformed_return_facts.
  - split.
    + rewrite Hlen.
      by replace (Z.to_nat (Z.of_nat (length l) + 1)) with (S (length l)) by lia.
    + intros j Hj. apply bfs_body_return in Hb as (q & Hf & _).
      destruct (bfs_levels_head g start D m end_ q s Hlev Hf)
        as (de & Hde & _ & Hleast).
      destruct Hlev as (H0 & Hdom & Hcf & _ & _ & Hcl).
      assert (Hdepth : D !! end_ = Some (Z.of_nat (length l) + 1)).
      { by apply (climb_depth start (Uninformed.came_from s) (λ p, D !! p)). }
      rewrite Hde in Hdepth. injection Hdepth as ->. rewrite Hlen.
      destruct (levels_lower_bound g start (λ p, D !! p)
                  (λ p, p ∈ Uninformed.frontier s) (Z.of_nat (length l) + 1))
        with (p := end_) (k := j) as [(d & Hd & Hle)|?]; [done| | |done| |done].
      * intros c d Hc Hcf'. by eapply Hleast.
      * intros c d Hc. destruct (Hcl c d Hc) as [?|[?|?]]; [done|by left|by right].
      * rewrite Hde in Hd. by injection Hd as <-.
Qed.

(** *** What the four searches report, compared *)

(** A search that finds [end] returns the number of steps of a walk from
    [start] to [end] that follows the neighbour lists and steps on no
    barrier. *)
Theorem found_path_is_walk (A : search) (fuel : nat) (sched : list signal)
    (g : Cells) (start end_ : Ref) (r : result) (g' : Cells) :
  A ∈ algorithms →
  color_at g start = Some ORANGE →
  (∀ p, color_at g p = Some ORANGE → p = start) →
  start ≠ end_ →
  run A fuel sched g start end_ = Some (r, g') → found r = true →
  1 ≤ path_length r ∧ reach g start end_ (Z.to_nat (path_length r)).
Proof. apply found_walk_any. Qed.

(** No walk from [start] to [end] has fewer steps than the length [bfs] and
    [dijkstra] return. *)
Theorem bfs_dijkstra_path_is_shortest (A : search) (fuel : nat)
    (sched : list signal) (g : Cells) (start end_ : Ref) (r : result)
    (g' : Cells) :
  A = BFS ∨ A = DIJKSTRA →
  color_at g start = Some ORANGE →
  (∀ p, color_at g p = Some ORANGE → p = start) →
  start ≠ end_ →
  run A fuel sched g start end_ = Some (r, g') → found r = true →
  ∀ k, reach g start end_ k → path_length r ≤ Z.of_nat k.
Proof.
  intros [-> | ->] Hs Huniq Hne Hrun Hfound.
  - by destruct (bfs_shortest fuel sched g start end_ r g').
  - by destruct (dijkstra_shortest fuel sched g start end_ r g').
Qed.


(** ** utils/heuristics.py *)

(** [manhattan] and [diagonal] are distances: zero between a point and
    itself only, symmetric, and subject to the triangle inequality;
    [diagonal] is at most [manhattan], which is at most twice [diagonal]. *)
Theorem heuristics_are_metrics (p q r : Z * Z) :
  (0 ≤ diagonal p q ≤ manhattan p q ∧ manhattan p q ≤ 2 * diagonal p q) ∧
  (manhattan p q = 0 ↔ p = q) ∧ (diagonal p q = 0 ↔ p = q) ∧
  manhattan p q = manhattan q p ∧ diagonal p q = diagonal q p ∧
  manhattan p r ≤ manhattan p q + manhattan q r ∧
  diagonal p r ≤ diagonal p q + diagonal q r.
Proof.
  destruct p as [x1 y1], q as [x2 y2], r as [x3 y3].
  unfold manhattan, diagonal. split_and!; try lia.
  - split; [intros H; f_equal; lia|intros [= -> ->]; lia].
  - split; [intros H; f_equal; lia|intros [= -> ->]; lia].
Qed.

Lemma wired_reach_manhattan (g : Cells) (p q : Ref) (k : nat) :
  wired g → reach g p q k → manhattan p q ≤ Z.of_nat k.
Proof.
  intros Hw Hr. induction Hr as [|c n k Hr IH (nd & Hnd & Hn) _].
  - destruct p. unfold manhattan. lia.
  - destruct (Hw c nd Hnd) as [_ Hadj]. specialize (Hadj n Hn).
    unfold adjacent in Hadj. rewrite !elem_of_cons, elem_of_nil in Hadj.
    destruct p as [pr pc], c as [cr cc]. unfold manhattan in *. simpl in Hadj.
    destruct Hadj as [->|[->|[->|[->|[]]]]]; lia.
Qed.

(** What [astar] adds to the cost of a cell never overestimates: on a store
    whose neighbour lists hold adjacent cells, no walk from the cell to [end]
    has fewer steps than the Manhattan distance of the two positions. *)
Theorem heuristic_never_overestimates (g : Cells) (p end_ : Ref) (k : nat) :
  wired g → reach g p end_ k →
  0 ≤ heuristic g end_ p ≤ Z.of_nat k ∧ diagonal p end_ ≤ Z.of_nat k.
Proof.
  intros Hw Hr. pose proof (wired_reach_manhattan g p end_ k Hw Hr) as Hm.
  assert (Hd : 0 ≤ diagonal p end_ ≤ manhattan p end_).
  { destruct p, end_. unfold diagonal, manhattan. lia. }
  split; [|lia]. unfold heuristic.
  destruct (get g p) as [nd|] eqn:Hp; [|lia].
  destruct (get g end_) as [e|] eqn:He; [|lia].
  destruct (Hw p nd Hp) as [-> _]. destruct (Hw end_ e He) as [-> _]. lia.
Qed.

(** ** grid.py: pixels and indices *)

Lemma make_grid_get (rows gap : Z) (p : Ref) (nd : Node.t) :
  get (Grid.make_grid rows gap) p = Some nd →
  (0 ≤ p.1 < rows ∧ 0 ≤ p.2 < rows) ∧ nd = Node.init p.1 p.2 gap rows.
Proof.
  intros Hnd. destruct (make_grid_square rows gap) as [Hs _].
  assert (Hp : in_bounds rows p) by (apply Hs; by eexists).
  apply bool_decide_unpack in Hp. split; [done|].
  destruct p as [i j]. simpl in *.
  rewrite make_grid_lookup in Hnd by lia. by injection Hnd as <-.
Qed.

Lemma div_cell (gap a i : Z) : 0 < gap → i * gap ≤ a < i * gap + gap ↔ a `div` gap = i.
Proof.
  intros Hg. pose proof (Z.div_mod a gap ltac:(lia)) as Hdm.
  pose proof (Z.mod_pos_bound a gap Hg) as Hm. split.
  - intros H. symmetry. apply (Z.div_unique a gap i (a - i * gap)); lia.
  - intros <-. lia.
Qed.

(** [get_clicked_pos] undoes the geometry of [Node.__init__]: on a grid
    with a positive [gap] a pixel lies in the square of the node at
    (row, col), whose corner is (x, y) = (col * gap, row * gap), exactly when
    [get_clicked_pos] returns (row, col), the indices at which [get_node]
    finds that node.  When [gap] is 0, which is when
    [0 <= width < rows] (or [rows < width <= 0]), the grid is built all the
    same and every call of [get_clicked_pos] raises. *)
Theorem get_clicked_pos_spec (rows width : Z) (G : Grid.t) :
  Grid.init rows width = Some G →
  (Grid.gap G = 0 ↔ 0 ≤ width < rows ∨ rows < width ≤ 0) ∧
  (∀ pos, Grid.get_clicked_pos G pos = None ↔ Grid.gap G = 0) ∧
  (0 < Grid.gap G →
   ∀ p nd px py, get (Grid.grid_nodes G) p = Some nd →
     Node.get_pos nd = p ∧
     Grid.get_node G p.1 p.2 = Some (p, nd) ∧
     (Node.x nd ≤ px < Node.x nd + Node.size nd ∧
      Node.y nd ≤ py < Node.y nd + Node.size nd ↔
      Grid.get_clicked_pos G (px, py) = Some p)).
Proof.
  unfold Grid.init. case_bool_decide as H0; [done|]. intros [= <-]. simpl.
  split_and!.
  - by apply Z.div_small_iff.
  - intros [px py]. unfold Grid.get_clicked_pos. simpl.
    case_bool_decide; split; done.
  - intros Hgap p nd px py Hnd.
    apply make_grid_get in Hnd as [[Hi Hj] ->]. destruct p as [i j]. simpl in *.
    split_and!.
    + done.
    + unfold Grid.get_node. simpl. rewrite py_getitem2_nonneg by lia.
      rewrite make_grid_lookup by lia. done.
    + unfold Grid.get_clicked_pos. simpl. rewrite bool_decide_false by lia.
      rewrite (div_cell _ px j Hgap), (div_cell _ py i Hgap). split.
      * by intros [-> ->].
      * by intros [= -> ->].
Qed.

Lemma py_getitem_wrap {A} (l : list A) (n i : Z) :
  0 < n → length l = Z.to_nat n →
  if bool_decide (- n ≤ i < n)
  then 0 ≤ wrap_index n i < n ∧
       ∃ a, l !! Z.to_nat (wrap_index n i) = Some a ∧
            py_getitem l i = Some (wrap_index n i, a)
  else py_getitem l i = None.
Proof.
  intros Hn Hl. unfold py_getitem, wrap_index. rewrite Hl, Z2Nat.id by lia.
  destruct (decide (0 ≤ i)) as [Hi|Hi].
  - rewrite (bool_decide_true (0 ≤ i)), (bool_decide_false (i < 0)) by lia.
    case_bool_decide as Hr.
    + split; [lia|]. destruct (lookup_lt_is_Some_2 l (Z.to_nat i)) as [a Ha]; [lia|].
      exists a. by rewrite Ha.
    + rewrite lookup_ge_None_2; [done|lia].
  - rewrite (bool_decide_false (0 ≤ i)), (bool_decide_true (i < 0)) by lia.
    case_bool_decide as Hr.
    + rewrite (bool_decide_true (0 ≤ i + n)) by lia. split; [lia|].
      destruct (lookup_lt_is_Some_2 l (Z.to_nat (i + n))) as [a Ha]; [lia|].
      exists a. by rewrite Ha.
    + by rewrite (bool_decide_false (0 ≤ i + n)) by lia.
Qed.

(** [get_node] indexes as Python lists do: on a grid of [n] rows of [n]
    nodes an index from [-n] up to [-1] is not refused, it counts from the
    end; any other index outside [0 .. n-1] raises. *)
Theorem get_node_indices (G : Grid.t) (n r c : Z) :
  0 < n → length (Grid.grid_nodes G) = Z.to_nat n →
  (∀ rw, rw ∈ Grid.grid_nodes G → length rw = Z.to_nat n) →
  if bool_decide (- n ≤ r < n ∧ - n ≤ c < n)
  then ∃ nd, get (Grid.grid_nodes G) (wrap_index n r, wrap_index n c) = Some nd ∧
             Grid.get_node G r c
             = Some ((wrap_index n r, wrap_index n c), nd)
  else Grid.get_node G r c = None.
Proof.
  intros Hn Hlen Hrows. unfold Grid.get_node, py_getitem2.
  pose proof (py_getitem_wrap (Grid.grid_nodes G) n r Hn Hlen) as Hr.
  destruct (bool_decide (- n ≤ r < n)) eqn:Hrr.
  - destruct Hr as (Hwr & rw & Hrw & ->). simpl.
    assert (Hl : length rw = Z.to_nat n).
    { apply Hrows. by eapply list_elem_of_lookup_2. }
    pose proof (py_getitem_wrap rw n c Hn Hl) as Hc.
    apply bool_decide_eq_true in Hrr.
    destruct (bool_decide (- n ≤ c < n)) eqn:Hcc.
    + apply bool_decide_eq_true in Hcc. rewrite bool_decide_true by done.
      destruct Hc as (Hwc & nd & Hnd & ->). simpl. exists nd. split; [|done].
      apply get_Some. simpl. split_and!; [lia..|]. eauto.
    + apply bool_decide_eq_false in Hcc. rewrite bool_decide_false by tauto.
      by rewrite Hc.
  - apply bool_decide_eq_false in Hrr. rewrite bool_decide_false by tauto.
    by rewrite Hr.
Qed.

(** ** The neighbour lists of a refreshed grid *)

Lemma elem_of_neighborsOf_spec (n : Z) (g : Cells) (p q : Ref) :
  q ∈ neighborsOf_spec n g p ↔
  q ∈ adjacent p ∧ in_bounds n q ∧ barrier_at g q = false.
Proof.
  unfold neighborsOf_spec. rewrite list_elem_of_In, filter_In, <- list_elem_of_In.
  rewrite andb_true_iff, negb_true_iff. by rewrite Is_true_true.
Qed.

Lemma adjacent_sym (p q : Ref) : q ∈ adjacent p → p ∈ adjacent q.
Proof.
  destruct p as [pr pc], q as [qr qc]. unfold adjacent. simpl.
  rewrite !elem_of_cons, !elem_of_nil.
  intros [[= -> ->]|[[= -> ->]|[[= -> ->]|[[= -> ->]|[]]]]].
  - right. left. f_equal; lia.
  - left. f_equal; lia.
  - do 3 right. left. f_equal; lia.
  - do 2 right. left. f_equal; lia.
Qed.

(** After [update_all_neighbors] the steps between nodes that are no
    barriers can be taken both ways, and each covers a Manhattan distance of
    1: the searches run on an undirected grid graph. *)
Theorem refreshed_grid_is_undirected (n : Z) (g : Cells) (p q : Ref) :
  refreshed n g → linked g p q → barrier_at g p = false →
  linked g q p ∧ barrier_at g q = false ∧ manhattan p q = 1.
Proof.
  intros [[Hs1 Hs2] Hnb] (nd & Hnd & Hq) Hbp.
  assert (Hp : in_bounds n p) by (apply Hs1; by eexists).
  pose proof (Hnb p Hp) as Hnp. unfold neighbors_at in Hnp. rewrite Hnd in Hnp.
  injection Hnp as Hnp. rewrite Hnp in Hq.
  apply elem_of_neighborsOf_spec in Hq as (Hadj & Hqb & Hbq).
  split_and!; [|done|].
  - destruct (proj2 (Hs1 q) Hqb) as [ndq Hndq]. exists ndq. split; [done|].
    pose proof (Hnb q Hqb) as Hnq. unfold neighbors_at in Hnq. rewrite Hndq in Hnq.
    injection Hnq as ->. apply elem_of_neighborsOf_spec.
    split_and!; [by apply adjacent_sym|done|done].
  - destruct p as [pr pc], q as [qr qc]. unfold adjacent in Hadj. simpl in Hadj.
    rewrite !elem_of_cons, elem_of_nil in Hadj. unfold manhattan.
    destruct Hadj as [[= -> ->]|[[= -> ->]|[[= -> ->]|[[= -> ->]|[]]]]]; lia.
Qed.

Lemma node_eq_but_neighbors (a b : Node.t) :
  Node.set_neighbors [] a = Node.set_neighbors [] b →
  Node.neighbors a = Node.neighbors b → a = b.
Proof.
  destruct a, b. unfold Node.set_neighbors. simpl. intros [= -> -> -> -> -> -> ->] ->.
  done.
Qed.

Lemma neighborsOf_spec_ext (n : Z) (g g' : Cells) (p : Ref) :
  (∀ q, barrier_at g' q = barrier_at g q) →
  neighborsOf_spec n g' p = neighborsOf_spec n g p.
Proof.
  intros H. unfold neighborsOf_spec. apply filter_ext. intros q. by rewrite H.
Qed.

Lemma same_frame_barrier_at (g g' : Cells) (p : Ref) :
  same_frame g g' → barrier_at g' p = barrier_at g p.
Proof. intros H. unfold barrier_at. by rewrite (same_frame_color g g'). Qed.

(** [update_all_neighbors] is idempotent, and "Clear Path" does not disturb
    it: on a square grid a second refresh leaves every node as the first
    made it, and a refresh after [clear_path_nodes] (called with a start and
    an end that are no barriers) computes the same neighbour lists again. *)
Theorem update_all_neighbors_idempotent (n : Z) (g g1 : Cells) (s e : Ref) :
  square n g → Grid.update_all_neighbors_cells g = Some g1 →
  barrier_at g s = false → barrier_at g e = false →
  (∃ g2, Grid.update_all_neighbors_cells g1 = Some g2 ∧
         ∀ p, get g2 p = get g1 p) ∧
  (∃ g3, Grid.update_all_neighbors_cells
           (Grid.clear_path_nodes_cells g1 (Some s) (Some e)) = Some g3 ∧
         ∀ p, neighbors_at g3 p = neighbors_at g1 p).
Proof.
  intros Hsq Hup Hbs Hbe.
  destruct (update_all_neighbors_frame n g Hsq) as (g1' & Hup1 & Hfr1 & Hnb1).
  assert (g1' = g1) as -> by congruence.
  pose proof (same_frame_square n g g1 Hfr1 Hsq) as Hsq1.
  assert (Hout : ∀ g' p, square n g' → ¬ in_bounds n p → neighbors_at g' p = None).
  { intros g' p [Hs1 _] Hp. unfold neighbors_at.
    destruct (get g' p) eqn:Hg; [|done]. destruct Hp. apply Hs1. by eexists. }
  split.
  - destruct (update_all_neighbors_frame n g1 Hsq1) as (g2 & Hup2 & Hfr2 & Hnb2).
    exists g2. split; [done|]. intros p. specialize (Hfr2 p).
    destruct (get g2 p) as [n2|] eqn:H2, (get g1 p) as [n1|] eqn:H1; try done.
    apply (inj Some) in Hfr2. f_equal.
    apply node_eq_but_neighbors; [exact Hfr2|].
    assert (Hp : in_bounds n p) by (apply Hsq1; by eexists).
    pose proof (Hnb2 p Hp) as Ha. pose proof (Hnb1 p Hp) as Hb.
    unfold neighbors_at in Ha, Hb. rewrite H2 in Ha. rewrite H1 in Hb.
    injection Ha as ->. injection Hb as ->.
    apply neighborsOf_spec_ext. intros q. by apply same_frame_barrier_at.
  - pose proof (square_clear_path_nodes n g1 (Some s) (Some e) Hsq1) as Hsqc.
    destruct (update_all_neighbors_frame n _ Hsqc) as (g3 & Hup3 & Hfr3 & Hnb3).
    exists g3. split; [done|]. intros p.
    destruct (in_bounds n p) eqn:Hpb.
    + assert (Hp : in_bounds n p) by (by rewrite Hpb).
      rewrite (Hnb3 p Hp), (Hnb1 p Hp). f_equal. apply neighborsOf_spec_ext.
      intros q.
      rewrite <- (same_frame_barrier_at g g1 q Hfr1).
      rewrite <- (same_frame_barrier_at g g1 s Hfr1) in Hbs.
      rewrite <- (same_frame_barrier_at g g1 e Hfr1) in Hbe.
      assert (Hs1 : barrier_at g1 s = false) by (by rewrite Hbs).
      assert (He1 : barrier_at g1 e = false) by (by rewrite Hbe).
      clear Hbs Hbe. unfold barrier_at, color_at in *. rewrite get_clear_path_nodes.
      destruct (get g1 q) as [nq|] eqn:Hq; [|done]. simpl.
      apply bool_decide_ext.
      destruct (decide (e = q)) as [->|Hne].
      { rewrite Hq in He1. simpl in He1. apply bool_decide_eq_false in He1.
        simpl. split; [done|]. intros Hc. by destruct He1. }
      destruct (decide (s = q)) as [->|Hns].
      { rewrite Hq in Hs1. simpl in Hs1. apply bool_decide_eq_false in Hs1.
        simpl. split; [done|]. intros Hc. by destruct Hs1. }
      unfold Grid.clear_node, Node.is_start, Node.is_end, Node.is_barrier.
      destruct (bool_decide (Node.color nq = ORANGE)) eqn:Ho; simpl; [done|].
      destruct (bool_decide (Node.color nq = TURQUOISE)) eqn:Ht; simpl; [done|].
      destruct (bool_decide (Node.color nq = BLACK)) eqn:Hb; simpl; [done|].
      apply bool_decide_eq_false in Hb.
      split; [intros Hc; discriminate Hc|intros [= Hc]; by destruct Hb].
    + assert (Hp : ¬ in_bounds n p) by (rewrite Hpb; exact id).
      rewrite (Hout g3 p), (Hout g1 p); [done|done|done| |done].
      by eapply same_frame_square.
Qed.

(** ** The colours a search paints with *)

Lemma tints_refl (g : Cells) : tints g g.
Proof. intros p. by left. Qed.

Lemma tints_paint (g g1 : Cells) (p : Ref) (c : Color) :
  tints g g1 → tint c → tints g (modify (Node.set_color c) p g1).
Proof.
  intros H Hc q. rewrite color_at_modify. case_decide as Hq; [|apply H].
  destruct (H q) as [Hsame|(c' & Hc' & _)].
  - destruct (color_at g1 q) eqn:Hq1; simpl; [right; eauto|by left].
  - rewrite Hc'. simpl. right. eauto.
Qed.

Lemma discover_tints (push : Ref → list Ref → list Ref) (g : Cells)
    (c e : Ref) (s s' : Uninformed.state) (n : Ref) :
  tints g (Uninformed.grid s) →
  Uninformed.discover push c e s n = Some s' → tints g (Uninformed.grid s').
Proof.
  intros H. unfold Uninformed.discover. case_bool_decide; [by intros [= <-]|].
  destruct (get _ n); [|done]. simpl. destruct (Node.is_barrier _); [by intros [= <-]|].
  intros [= <-]. simpl. case_bool_decide; [|done].
  apply tints_paint; [done|]. by left.
Qed.

Lemma uninformed_close_tints (g : Cells) (c start e : Ref) (s : Uninformed.state) :
  tints g (Uninformed.grid s) → tints g (Uninformed.grid (Uninformed.close c start e s)).
Proof.
  intros H. unfold Uninformed.close. case_bool_decide; [|done]. simpl.
  apply tints_paint; [done|]. right. by left.
Qed.

Lemma bfs_body_tints (g : Cells) (fuel : nat) (start end_ : Ref)
    (s s' : Uninformed.state) :
  tints g (Uninformed.grid s) →
  Uninformed.bfs_body fuel start end_ s = Some (Continue s') →
  tints g (Uninformed.grid s').
Proof.
  intros Hs (c & q & nd & s1 & Hf & Hne & _ & Hfold & ->)%bfs_body_continue.
  apply uninformed_close_tints.
  eapply (foldM_inv (λ t, tints g (Uninformed.grid t))); [| |exact Hfold]; [|done].
  intros s2 a s3 _ H2 H3. by eapply discover_tints.
Qed.

Lemma dfs_body_tints (g : Cells) (fuel : nat) (start end_ : Ref)
    (s s' : Uninformed.state) :
  tints g (Uninformed.grid s) →
  Uninformed.dfs_body fuel start end_ s = Some (Continue s') →
  tints g (Uninformed.grid s').
Proof.
  intros Hs (c & q & nd & Hf & Hne & _ & Hfold)%dfs_body_continue.
  eapply (foldM_inv (λ t, tints g (Uninformed.grid t))); [| |exact Hfold].
  - intros s2 a s3 _ H2 H3. by eapply discover_tints.
  - by apply (uninformed_close_tints g c start end_ (Uninformed.with_frontier q s)).
Qed.

Lemma relaxed_tints (is_astar : bool) (g : Cells) (c n end_ : Ref)
    (gc gn : score) (h : Z) (s s' : Informed.state) :
  tints g (Informed.grid s) → relaxed is_astar c n end_ gc gn h s s' →
  tints g (Informed.grid s').
Proof.
  intros H. unfold relaxed. destruct (score_succ gc); [|by intros ->].
  destruct (score_lt _ gn); [|by intros ->].
  intros (_ & _ & _ & _ & Hrest). case_bool_decide.
  - destruct Hrest as (_ & _ & _ & ->). done.
  - destruct Hrest as (_ & _ & _ & ->). case_bool_decide; [|done].
    apply tints_paint; [done|]. by left.
Qed.

Lemma informed_body_tints (best : Informed.state → gmap Ref score)
    (relax : Ref → Ref → Informed.state → Ref → option Informed.state)
    (g : Cells) (fuel : nat) (start end_ : Ref) (s s' : Informed.state) :
  (∀ c n s s', tints g (Informed.grid s) → relax c end_ s n = Some s' →
     tints g (Informed.grid s')) →
  tints g (Informed.grid s) →
  Informed.body best relax fuel start end_ s = Some (Continue s') →
  tints g (Informed.grid s').
Proof.
  intros Hrelax Hs Hb.
  apply informed_body_continue in Hb
    as (k & t & c & h & b & Ho & _ & _ & [[_ ->]|(_ & _ & nd & s1 & _ & Hfold & ->)]);
    [done|].
  assert (H1 : tints g (Informed.grid s1)).
  { eapply (foldM_inv (λ t, tints g (Informed.grid t))); [| |exact Hfold]; [|done].
    intros s2 a s3 _ H2 H3. by eapply Hrelax. }
  unfold Informed.close. case_bool_decide; [|done]. simpl.
  apply tints_paint; [done|]. right. by left.
Qed.

Lemma reconstruct_path_tints (g0 : Cells) (fuel : nat) (cf : gmap Ref Ref)
    (cur : Ref) (g : Cells) (pn pn' : list Ref) (g1 : Cells) :
  tints g0 g → reconstruct_path fuel cf cur g pn = Some (pn', g1) → tints g0 g1.
Proof.
  revert cur g pn. induction fuel as [|fuel IH]; intros cur g pn Ht; simpl;
    destruct (cf !! cur) as [v|]; try done; try (by intros [= _ <-]).
  destruct (get g v) as [nd|]; [|done]. simpl.
  destruct (Node.is_start nd); simpl; [by apply IH|].
  apply IH. apply tints_paint; [done|]. right. by right.
Qed.

Section Tints.
Variable A : search.
Variable cf_of : state A → gmap Ref Ref.
Variables (g : Cells) (start end_ : Ref) (fuel : nat).

Hypothesis Hinit : ∀ s0, init A g start end_ = Some s0 → grid_of A s0 = g.
Hypothesis Hstep : ∀ s s',
  tints g (grid_of A s) → body A fuel start end_ s = Some (Continue s') →
  tints g (grid_of A s').
Hypothesis Hret : ∀ s r g',
  body A fuel start end_ s = Some (Return r g') →
  finish fuel (cf_of s) start end_ (grid_of A s) (count_of A s) = Some (r, g').

Lemma run_tints (sched : list signal) (r : result) (g' : Cells) :
  run A fuel sched g start end_ = Some (r, g') →
  ∀ p, color_at g' p = color_at g p ∨
       (∃ c, color_at g' p = Some c ∧ tint c) ∨
       (found r = true ∧
        ((p = end_ ∧ p ≠ start ∧ color_at g' p = Some TURQUOISE) ∨
         (p = start ∧ color_at g' p = Some ORANGE))).
Proof.
  unfold run. destruct (in_grid g start && in_grid g end_); [|done].
  destruct (init A g start end_) as [s0|] eqn:H0; [|done]. simpl.
  apply (while_loop_inv _ _ _ _ (λ s, tints g (grid_of A s))
           (λ rg, ∀ p, color_at rg.2 p = color_at g p ∨
                       (∃ c, color_at rg.2 p = Some c ∧ tint c) ∨
                       (found rg.1 = true ∧
                        ((p = end_ ∧ p ≠ start ∧ color_at rg.2 p = Some TURQUOISE) ∨
                         (p = start ∧ color_at rg.2 p = Some ORANGE)))));
    [| |by eauto|].
  - intros s Hs p. simpl. destruct (Hs p); auto.
  - intros s r' g'' Hs _ Hb p. apply Hret in Hb.
    apply finish_inv in Hb as (pn & g1 & Hrec & -> & ->). simpl.
    pose proof (reconstruct_path_tints g fuel _ _ _ _ _ _ Hs Hrec p) as Hp.
    unfold Node.make_start, Node.make_end. rewrite !color_at_modify.
    destruct (color_at g1 p) as [c|] eqn:Hc.
    + destruct (decide (start = p)) as [<-|Hsp]; simpl.
      * right. right. split; [done|]. right. split; [done|].
        by case_decide.
      * destruct (decide (end_ = p)) as [<-|Hep]; simpl.
        -- right. right. split; [done|]. left. done.
        -- destruct Hp as [?|?]; auto.
    + destruct Hp as [Hp|(c & ? & _)]; [|done]. left. rewrite <- Hp.
      by repeat case_decide.
  - rewrite (Hinit s0 eq_refl). apply tints_refl.
Qed.
End Tints.

Lemma algorithms_tints (A : search) (fuel : nat) (sched : list signal)
    (g : Cells) (start end_ : Ref) (r : result) (g' : Cells) :
  A ∈ algorithms →
  run A fuel sched g start end_ = Some (r, g') →
  ∀ p, color_at g' p = color_at g p ∨
       (∃ c, color_at g' p = Some c ∧ tint c) ∨
       (found r = true ∧
        ((p = end_ ∧ p ≠ start ∧ color_at g' p = Some TURQUOISE) ∨
         (p = start ∧ color_at g' p = Some ORANGE))).
Proof.
  unfold algorithms. rewrite !elem_of_cons, elem_of_nil.
  intros [->|[->|[->|[->|[]]]]].
  - apply (run_tints BFS Uninformed.came_from);
      [by intros s0 [= <-]|apply bfs_body_tints|apply BFS_return].
  - apply (run_tints DFS Uninformed.came_from);
      [by intros s0 [= <-]|apply dfs_body_tints|apply DFS_return].
  - apply (run_tints DIJKSTRA Informed.came_from);
      [by intros s0 [= <-]| |apply DIJKSTRA_return].
    intros s s'. apply informed_body_tints.
    intros c n s1 s2 H1 [->|(gc & gn & Hr)]%dijkstra_relax_cases; [done|].
    by eapply relaxed_tints.
  - apply (run_tints ASTAR Informed.came_from); [| |apply ASTAR_return].
    + intros s0. simpl. unfold Informed.astar_init.
      destruct (get g start); [|done]. destruct (get g end_); [|done].
      by intros [= <-].
    + intros s s'. apply informed_body_tints.
      intros c n s1 s2 H1 [->|(gc & gn & h & Hr)]%astar_relax_cases; [done|].
      by eapply relaxed_tints.
Qed.

(** A search paints in green, red and purple only: whatever the store, a
    node ends with the colour it had or with one of these three, unless the
    search finds the path, which tags [end] turquoise and [start] orange. *)
Theorem search_paints (A : search) (fuel : nat) (sched : list signal)
    (g : Cells) (start end_ : Ref) (r : result) (g' : Cells) :
  A ∈ algorithms →
  run A fuel sched g start end_ = Some (r, g') →
  ∀ p, color_at g' p = color_at g p ∨
       color_at g' p = Some GREEN ∨ color_at g' p = Some RED ∨
       color_at g' p = Some PURPLE ∨
       (found r = true ∧
        ((p = end_ ∧ p ≠ start ∧ color_at g' p = Some TURQUOISE) ∨
         (p = start ∧ color_at g' p = Some ORANGE))).
Proof.
  intros HA Hrun p.
  destruct (algorithms_tints A fuel sched g start end_ r g' HA Hrun p)
    as [?|[(c & Hc & [ -> | [ -> | -> ]])|?]]; auto 6.
Qed.

(** "Clear Path" undoes a search: on a store where [start] is orange, [end]
    turquoise and every other node white or black, [clear_path_nodes] after
    a search gives back every node as it was before the search. *)
Theorem clear_path_undoes_search (A : search) (fuel : nat) (sched : list signal)
    (g : Cells) (start end_ : Ref) (r : result) (g' : Cells) :
  A ∈ algorithms → clean g start end_ → start ≠ end_ →
  run A fuel sched g start end_ = Some (r, g') →
  ∀ p, get (Grid.clear_path_nodes_cells g' (Some start) (Some end_)) p = get g p.
Proof.
  intros HA (Hs & He & Hclean) Hne Hrun p.
  destruct (algorithms_footprint A fuel g start end_ HA) as (_ & _ & Hrep).
  specialize (Hrep sched r g' Hs He Hrun p).
  pose proof (algorithms_tints A fuel sched g start end_ r g' HA Hrun p) as Ht.
  rewrite get_clear_path_nodes. unfold color_at in *.
  destruct (get g p) as [n|] eqn:Hn, (get g' p) as [n'|] eqn:Hn'; simpl; try done.
  destruct Hrep as [Hw [Hbl _]]. f_equal.
  assert (Hset : ∀ c, Node.set_color c n' = Node.set_color c n).
  { intros c. by rewrite <- (set_color_set_color c WHITE n'), Hw. }
  destruct (decide (end_ = p)) as [->|Hpe].
  { rewrite Hn in He. injection He as He. rewrite Hset. by apply set_color_same. }
  destruct (decide (start = p)) as [->|Hps].
  { rewrite Hn in Hs. injection Hs as Hs. rewrite Hset. by apply set_color_same. }
  specialize (Hclean p (Node.color n)). rewrite Hn in Hclean. simpl in Hclean.
  destruct Hclean as [Hc|Hc]; [done|done|done| |].
  - (* white before *)
    assert (Hnb : Node.color n' ≠ BLACK).
    { intros Hb. apply Hbl in Hb. by rewrite Hc in Hb. }
    simpl in Ht.
    assert (Hnp : Grid.clear_node n' = Node.set_color WHITE n').
    { unfold Grid.clear_node, Node.is_start, Node.is_end, Node.is_barrier.
      destruct Ht as [[= Ht]|[(c & [= Ht] & Htint)|(_ & [(? & _)|(? & _)])]];
        try done.
      - rewrite Ht, Hc. done.
      - rewrite Ht. by destruct Htint as [ -> | [ -> | -> ]]. }
    rewrite Hnp, Hset. by apply set_color_same.
  - (* black before *)
    assert (Hb : Node.color n' = BLACK) by (by apply Hbl).
    unfold Grid.clear_node, Node.is_barrier. rewrite Hb. simpl.
    rewrite orb_true_r. simpl.
    rewrite <- (set_color_same n' BLACK Hb), Hset. by apply set_color_same.
Qed.

(** ** main.py: what a session keeps *)

Lemma repaints_square (n : Z) (g g' : Cells) :
  square n g → repaints g g' → square n g'.
Proof.
  intros [H1 H2] Hrep. split.
  - intros p. rewrite <- H1. specialize (Hrep p).
    destruct (get g p), (get g' p); try done; split; intros [? ?]; eauto; done.
  - intros p nd' Hnd'. specialize (Hrep p). rewrite Hnd' in Hrep.
    destruct (get g p) as [nd|] eqn:Hnd; [|done]. destruct Hrep as [Hw _].
    destruct (H2 p nd Hnd) as (Hr & Hc & Ht).
    pose proof (f_equal Node.row Hw). pose proof (f_equal Node.col Hw).
    pose proof (f_equal Node.total_rows Hw). simpl in *. by split_and!; congruence.
Qed.


Ltac session_simpl :=
  cbn [Visualizer.cells Visualizer.with_cells Visualizer.with_start
       Visualizer.with_end Visualizer.reset_stats Visualizer.rows
       Visualizer.grid_width Visualizer.grid_obj Visualizer.start
       Visualizer.end_ Visualizer.selected_algorithm Visualizer.paused
       Visualizer.last_visited_count Visualizer.last_path_length
       Grid.rows Grid.width Grid.gap Grid.grid_nodes vis running last_event] in *.

Lemma session_ok_paint (ROWS width : Z) (v : Visualizer.t) (p : Ref) (c : Color) :
  session_ok ROWS width v → c ≠ ORANGE → c ≠ TURQUOISE →
  Some p ≠ Visualizer.start v → Some p ≠ Visualizer.end_ v →
  session_ok ROWS width
    (Visualizer.with_cells (modify (Node.set_color c) p (Visualizer.cells v)) v).
Proof.
  intros (Hr & Hw & Hg & Hsq & Hs & He) Hco Hct Hps Hpe.
  unfold session_ok, Visualizer.cells in *. simpl. split_and!; [done..|by apply square_set_color| |].
  - intros q. rewrite color_at_modify. case_decide as Hq; [subst q|apply Hs].
    split; [by intros ?; destruct Hps|].
    destruct (color_at _ p); simpl; [|done]. intros [= ?]. by destruct Hco.
  - intros q. rewrite color_at_modify. case_decide as Hq; [subst q|apply He].
    split; [by intros ?; destruct Hpe|].
    destruct (color_at _ p); simpl; [|done]. intros [= ?]. by destruct Hct.
Qed.

Lemma session_ok_reset_stats (ROWS width : Z) (v : Visualizer.t) :
  session_ok ROWS width v → session_ok ROWS width (Visualizer.reset_stats v).
Proof. done. Qed.

Lemma session_ok_set_start_node (ROWS width : Z) (v : Visualizer.t) (node : Ref) :
  session_ok ROWS width v → in_grid (Visualizer.cells v) node = true →
  Visualizer.start v = None → Some node ≠ Visualizer.end_ v →
  session_ok ROWS width (Visualizer.set_start_node node v).
Proof.
  intros (Hr & Hw & Hg & Hsq & Hs & He) Hin Hnone Hne.
  unfold Visualizer.set_start_node. rewrite Hnone.
  unfold session_ok, Node.make_start, Visualizer.cells in *. simpl.
  split_and!; [done..|by apply square_set_color| |].
  - intros q. rewrite color_at_modify. case_decide as Hq; [subst q|].
    + apply bool_decide_eq_true in Hin as [nd Hnd]. unfold color_at.
      by rewrite Hnd.
    + split; [by intros [= ?]|]. intros Ho%Hs. congruence.
  - intros q. rewrite color_at_modify. case_decide as Hq; [subst q|apply He].
    split; [by intros ?; destruct Hne|].
    by destruct (color_at _ node).
Qed.

Lemma session_ok_set_end_node (ROWS width : Z) (v : Visualizer.t) (node : Ref) :
  session_ok ROWS width v → in_grid (Visualizer.cells v) node = true →
  Visualizer.end_ v = None → Some node ≠ Visualizer.start v →
  session_ok ROWS width (Visualizer.set_end_node node v).
Proof.
  intros (Hr & Hw & Hg & Hsq & Hs & He) Hin Hnone Hne.
  unfold Visualizer.set_end_node. rewrite Hnone.
  unfold session_ok, Node.make_end, Visualizer.cells in *. simpl.
  split_and!; [done..|by apply square_set_color| |].
  - intros q. rewrite color_at_modify. case_decide as Hq; [subst q|apply Hs].
    split; [by intros ?; destruct Hne|].
    by destruct (color_at _ node).
  - intros q. rewrite color_at_modify. case_decide as Hq; [subst q|].
    + apply bool_decide_eq_true in Hin as [nd Hnd]. unfold color_at.
      by rewrite Hnd.
    + split; [by intros [= ?]|]. intros Ho%He. congruence.
Qed.

Lemma session_ok_unset_start (ROWS width : Z) (v : Visualizer.t) (node : Ref) :
  session_ok ROWS width v → Visualizer.start v = Some node →
  session_ok ROWS width
    (Visualizer.with_start None
       (Visualizer.with_cells (modify Node.reset node (Visualizer.cells v)) v)).
Proof.
  intros (Hr & Hw & Hg & Hsq & Hs & He) Hnode.
  unfold session_ok, Node.reset, Visualizer.cells in *. simpl.
  split_and!; [done..|by apply square_set_color| |].
  - intros q. rewrite color_at_modify. split; [done|]. case_decide as Hq; [subst q|].
    + by destruct (color_at _ node).
    + intros Ho%Hs. congruence.
  - intros q. rewrite color_at_modify. case_decide as Hq; [subst q|apply He].
    apply Hs in Hnode. rewrite Hnode. simpl. split; [|done].
    intros Ht%He. rewrite Hnode in Ht. done.
Qed.

Lemma session_ok_unset_end (ROWS width : Z) (v : Visualizer.t) (node : Ref) :
  session_ok ROWS width v → Visualizer.end_ v = Some node →
  session_ok ROWS width
    (Visualizer.with_end None
       (Visualizer.with_cells (modify Node.reset node (Visualizer.cells v)) v)).
Proof.
  intros (Hr & Hw & Hg & Hsq & Hs & He) Hnode.
  unfold session_ok, Node.reset, Visualizer.cells in *. simpl.
  split_and!; [done..|by apply square_set_color| |].
  - intros q. rewrite color_at_modify. case_decide as Hq; [subst q|apply Hs].
    apply He in Hnode. rewrite Hnode. simpl. split; [|done].
    intros Ht%Hs. rewrite Hnode in Ht. done.
  - intros q. rewrite color_at_modify. split; [done|]. case_decide as Hq; [subst q|].
    + by destruct (color_at _ node).
    + intros Ho%He. congruence.
Qed.

(** What [clear_path] leaves when both nodes are set: a clean store. *)
Lemma session_clear_path (ROWS width : Z) (v : Visualizer.t) (s e : Ref) :
  session_ok ROWS width v →
  Visualizer.start v = Some s → Visualizer.end_ v = Some e →
  s ≠ e ∧
  clean (Grid.clear_path_nodes_cells (Visualizer.cells v) (Some s) (Some e)) s e ∧
  ∀ p, color_at (Grid.clear_path_nodes_cells (Visualizer.cells v) (Some s) (Some e)) p
       = Some ORANGE ↔ p = s.
Proof.
  intros (Hr & Hw & Hg & Hsq & Hs & He) Hstart Hend.
  pose proof (proj1 (Hs s) Hstart) as Hso. pose proof (proj1 (He e) Hend) as Het.
  assert (Hne : s ≠ e) by (intros ->; rewrite Hso in Het; done).
  assert (Hcol : ∀ p, color_at (Grid.clear_path_nodes_cells (Visualizer.cells v)
                                  (Some s) (Some e)) p
                 = (λ nd, if decide (e = p) then TURQUOISE
                          else if decide (s = p) then ORANGE
                          else Node.color (Grid.clear_node nd))
                   <$> get (Visualizer.cells v) p).
  { intros p. unfold color_at. rewrite get_clear_path_nodes.
    destruct (get _ p); simpl; [|done]. by repeat case_decide. }
  assert (Hother : ∀ p nd, p ≠ s → p ≠ e → get (Visualizer.cells v) p = Some nd →
            Node.color (Grid.clear_node nd) = WHITE ∨
            Node.color (Grid.clear_node nd) = BLACK).
  { intros p nd Hps Hpe Hnd.
    assert (Hno : Node.color nd ≠ ORANGE).
    { intros Hc. apply Hps. assert (Some p = Some s); [|congruence].
      rewrite <- Hstart. symmetry. apply Hs. unfold color_at. by rewrite Hnd, <- Hc. }
    assert (Hnt : Node.color nd ≠ TURQUOISE).
    { intros Hc. apply Hpe. assert (Some p = Some e); [|congruence].
      rewrite <- Hend. symmetry. apply He. unfold color_at. by rewrite Hnd, <- Hc. }
    unfold Grid.clear_node, Node.is_start, Node.is_end, Node.is_barrier.
    rewrite (bool_decide_false (Node.color nd = ORANGE)),
      (bool_decide_false (Node.color nd = TURQUOISE)) by done. simpl.
    case_bool_decide; simpl; [by right|by left]. }
  split; [done|]. split; [split_and!|].
  - rewrite Hcol. unfold color_at in Hso. destruct (get _ s); [|done]. simpl.
    rewrite decide_False by done. by rewrite decide_True.
  - rewrite Hcol. unfold color_at in Het. destruct (get _ e); [|done]. simpl.
    by rewrite decide_True.
  - intros p c Hps Hpe. rewrite Hcol.
    destruct (get _ p) as [nd|] eqn:Hnd; [|done]. simpl.
    rewrite !decide_False by done. intros [= <-]. by eapply Hother.
  - intros p. rewrite Hcol. split.
    + destruct (get _ p) as [nd|] eqn:Hnd; [|done]. simpl.
      destruct (decide (e = p)); [done|]. destruct (decide (s = p)); [done|].
      intros [= Hc]. destruct (Hother p nd) as [H|H]; [done|done|done|..];
        by rewrite H in Hc.
    + intros ->. unfold color_at in Hso. destruct (get _ s); [|done]. simpl.
      rewrite decide_False by done. by rewrite decide_True.
Qed.

Lemma session_ok_clear_path (ROWS width : Z) (v : Visualizer.t) :
  session_ok ROWS width v → session_ok ROWS width (Visualizer.clear_path v).
Proof.
  intros Hok. unfold Visualizer.clear_path. apply session_ok_reset_stats.
  destruct (Visualizer.start v) as [s|] eqn:Hstart; [|done].
  destruct (Visualizer.end_ v) as [e|] eqn:Hend; [|done].
  destruct (session_clear_path ROWS width v s e Hok Hstart Hend)
    as (Hne & (Hcs & Hce & Hcl) & Hor).
  destruct Hok as (Hr & Hw & Hg & Hsq & Hs & He).
  unfold session_ok. session_simpl. rewrite Hstart, Hend.
  split_and!; [done..|by apply square_clear_path_nodes| |].
  - intros p. rewrite Hor. split; [by intros [= ->]|by intros ->].
  - intros p. split; [by intros [= <-]|]. intros Hp.
    destruct (decide (p = e)) as [->|Hpe]; [done|].
    destruct (decide (p = s)) as [->|Hps]; [rewrite Hcs in Hp; done|].
    by destruct (Hcl p TURQUOISE Hps Hpe Hp).
Qed.

Lemma session_ok_reset_grid (ROWS width : Z) (v v' : Visualizer.t) :
  session_ok ROWS width v → Visualizer.reset_grid v = Some v' →
  session_ok ROWS width v'.
Proof.
  intros (Hr & Hw & Hg & Hsq & Hs & He). unfold Visualizer.reset_grid.
  rewrite Hr, Hw. unfold Grid.init. case_bool_decide; [done|]. simpl.
  intros [= <-]. unfold session_ok, Visualizer.cells. simpl.
  split_and!; [done..|apply make_grid_square| |].
  - intros p. split; [done|]. unfold color_at.
    destruct (get _ p) as [nd|] eqn:Hnd; [|done].
    by apply make_grid_get in Hnd as [_ ->].
  - intros p. split; [done|]. unfold color_at.
    destruct (get _ p) as [nd|] eqn:Hnd; [|done].
    by apply make_grid_get in Hnd as [_ ->].
Qed.

Lemma session_ok_init (ROWS width : Z) (v : Visualizer.t) :
  Visualizer.init ROWS width = Some v → session_ok ROWS width v.
Proof.
  unfold Visualizer.init, Grid.init. case_bool_decide; [done|]. simpl.
  intros [= <-]. unfold session_ok, Visualizer.cells. simpl.
  split_and!; [done..|apply make_grid_square| |].
  - intros p. split; [done|]. unfold color_at.
    destruct (get _ p) as [nd|] eqn:Hnd; [|done].
    by apply make_grid_get in Hnd as [_ ->].
  - intros p. split; [done|]. unfold color_at.
    destruct (get _ p) as [nd|] eqn:Hnd; [|done].
    by apply make_grid_get in Hnd as [_ ->].
Qed.

Lemma selected_algorithm_spec (name : String.string) (A : search) :
  selected name = Some A → A ∈ algorithms.
Proof.
  unfold selected, algorithms.
  repeat (destruct (String.eqb name _); [intros [= <-]; set_solver|]). done.
Qed.

(** The store the start button hands to the search. *)
Lemma session_prepared (ROWS width : Z) (v : Visualizer.t) (s e : Ref) (g : Cells) :
  session_ok ROWS width v →
  Visualizer.start v = Some s → Visualizer.end_ v = Some e →
  Grid.update_all_neighbors_cells
    (Grid.clear_path_nodes_cells (Visualizer.cells v) (Some s) (Some e)) = Some g →
  s ≠ e ∧ clean g s e ∧ (∀ p, color_at g p = Some ORANGE → p = s) ∧
  closed g ∧ wired g ∧ refreshed ROWS g ∧
  in_grid g s = true ∧ in_grid g e = true.
Proof.
  intros Hok Hstart Hend Hup.
  destruct (session_clear_path ROWS width v s e Hok Hstart Hend)
    as (Hne & (Hcs & Hce & Hcl) & Hor).
  destruct Hok as (Hr & Hw & Hg & Hsq & Hs & He).
  pose proof (square_clear_path_nodes ROWS _ (Some s) (Some e) Hsq) as Hsq1.
  destruct (update_all_neighbors_frame ROWS _ Hsq1) as (g'' & Hup' & Hfr & _).
  assert (g'' = g) as -> by congruence.
  assert (Hc : ∀ p, color_at g p
                    = color_at (Grid.clear_path_nodes_cells (Visualizer.cells v)
                                  (Some s) (Some e)) p)
    by (intros p; by apply same_frame_color).
  split; [done|]. split_and!.
  - split_and!; [by rewrite Hc..|]. intros p c ? ?. rewrite Hc. by apply Hcl.
  - intros p. rewrite Hc. apply Hor.
  - by eapply update_all_neighbors_closed.
  - by eapply update_all_neighbors_wired.
  - by eapply update_all_neighbors_refreshed.
  - apply bool_decide_eq_true. rewrite <- Hc in Hcs. unfold color_at in Hcs.
    by destruct (get g s).
  - apply bool_decide_eq_true. rewrite <- Hc in Hce. unfold color_at in Hce.
    by destruct (get g e).
Qed.

(** A search started on a clean store leaves the tags as the session needs
    them. *)
Lemma search_keeps_session (A : search) (fuel : nat) (sched : list signal)
    (n : Z) (g : Cells) (s e : Ref) (r : result) (g' : Cells) :
  A ∈ algorithms → square n g → clean g s e → s ≠ e →
  (∀ p, color_at g p = Some ORANGE → p = s) →
  run A fuel sched g s e = Some (r, g') →
  square n g' ∧
  (∀ p, color_at g' p = Some ORANGE ↔ p = s) ∧
  (∀ p, color_at g' p = Some TURQUOISE ↔ p = e).
Proof.
  intros HA Hsq (Hcs & Hce & Hcl) Hne Huniq Hrun.
  destruct (algorithms_footprint A fuel g s e HA) as (_ & Hcol & Hrep).
  specialize (Hrep sched r g' Hcs Hce Hrun). specialize (Hcol sched r g' Hrun).
  pose proof (algorithms_tints A fuel sched g s e r g' HA Hrun) as Ht.
  assert (Hs' : color_at g' s = Some ORANGE).
  { destruct (found r); [by destruct Hcol|]. destruct Hcol as [-> _]. done. }
  assert (He' : color_at g' e = Some TURQUOISE).
  { destruct (found r); [destruct Hcol as [_ H]; by apply H|].
    destruct Hcol as [_ ->]. done. }
  split; [by eapply repaints_square|]. split.
  - intros p. split; [|by intros ->].
    intros Hp. apply Huniq. by eapply repaints_orange.
  - intros p. split; [|by intros ->]. intros Hp.
    destruct (decide (p = e)) as [|Hpe]; [done|exfalso].
    destruct (Ht p) as [Hsame|[(c & Hc & Htint)|(_ & [(? & _)|(-> & Ho)])]].
    + rewrite Hp in Hsame. symmetry in Hsame.
      destruct (decide (p = s)) as [->|Hps]; [rewrite Hcs in Hsame; done|].
      by destruct (Hcl p TURQUOISE Hps Hpe Hsame).
    + rewrite Hp in Hc. injection Hc as <-. by destruct Htint as [?|[?|?]].
    + done.
    + rewrite Hp in Ho. done.
Qed.

Lemma session_ok_press_start (ROWS width : Z) (fuel : nat) (sig : list signal)
    (v v' : Visualizer.t) :
  session_ok ROWS width v → press_start fuel sig v = Some v' →
  session_ok ROWS width v'.
Proof.
  intros Hok. unfold press_start.
  destruct (Visualizer.start v) as [s|] eqn:Hstart; [|by intros [= <-]].
  destruct (Visualizer.end_ v) as [e|] eqn:Hend; [|by intros [= <-]].
  pose proof (session_ok_clear_path ROWS width v Hok) as Hok1.
  assert (Hcells : Visualizer.cells (Visualizer.clear_path v)
                   = Grid.clear_path_nodes_cells (Visualizer.cells v) (Some s) (Some e)).
  { unfold Visualizer.clear_path. by rewrite Hstart, Hend. }
  assert (Hs1 : Visualizer.start (Visualizer.clear_path v) = Some s).
  { unfold Visualizer.clear_path. by rewrite Hstart, Hend. }
  assert (He1 : Visualizer.end_ (Visualizer.clear_path v) = Some e).
  { unfold Visualizer.clear_path. by rewrite Hstart, Hend. }
  set (v1 := Visualizer.clear_path v) in *. clearbody v1.
  destruct (Grid.update_all_neighbors_cells _) as [g|] eqn:Hup; [|done]. simpl.
  rewrite Hcells in Hup.
  destruct (session_prepared ROWS width v s e g Hok Hstart Hend Hup)
    as (Hne & Hclean & Huniq & _ & _ & [Hsq _] & _ & _).
  assert (Hok2 : session_ok ROWS width (Visualizer.with_cells g v1)).
  { destruct Hok1 as (Hr & Hw & Hg & _ & Hs & He).
    unfold session_ok. session_simpl. rewrite Hs1, He1.
    destruct Hclean as (Hcs & Hce & Hcl).
    split_and!; [done..| |].
    - intros p. split; [by intros [= <-]|]. intros ?%Huniq. by subst.
    - intros p. split; [by intros [= <-]|]. intros Hp.
      destruct (decide (p = e)) as [->|Hpe]; [done|].
      destruct (decide (p = s)) as [->|Hps]; [rewrite Hcs in Hp; done|].
      by destruct (Hcl p TURQUOISE Hps Hpe Hp). }
  destruct (selected _) as [A|] eqn:HA; [|by intros [= <-]].
  apply selected_algorithm_spec in HA.
  destruct (run A fuel _ g s e) as [[r g']|] eqn:Hrun; [|done]. simpl.
  intros [= <-].
  destruct (search_keeps_session A fuel _ ROWS g s e r g' HA Hsq Hclean Hne Huniq Hrun)
    as (Hsq' & Hor & Htu).
  destruct Hok1 as (Hr & Hw & Hg & _ & _ & _).
  unfold session_ok. session_simpl. rewrite Hs1, He1.
  split_and!; [done..| |].
  - intros p. rewrite Hor. split; [by intros [= <-]|by intros ->].
  - intros p. rewrite Htu. split; [by intros [= <-]|by intros ->].
Qed.

Lemma session_ok_handle_event (ROWS width : Z) (fuel : nat) (sig : list signal)
    (st st' : main_state) (e : event) :
  session_ok ROWS width (vis st) → handle_event fuel sig st e = Some st' →
  session_ok ROWS width (vis st').
Proof.
  intros Hok. unfold handle_event.
  set (v1 := if bool_decide (type e = UI_DROP_DOWN_MENU_CHANGED)
             then if bool_decide (ui_element e = algo_dropdown)
                  then with_selected (text e) (vis st) else vis st
             else vis st).
  assert (Hok1 : session_ok ROWS width v1).
  { unfold v1. by repeat case_bool_decide. }
  clearbody v1.
  destruct (if bool_decide (type e = UI_BUTTON_PRESSED) then _ else _)
    as [v2|] eqn:Hv2; [|done]. simpl. intros [= <-]. simpl.
  case_bool_decide; [|by injection Hv2 as <-].
  destruct (ui_element e); try (by injection Hv2 as <-).
  - by eapply session_ok_press_start.
  - injection Hv2 as <-. by apply session_ok_clear_path.
  - by eapply session_ok_reset_grid.
Qed.

(** A node [get_node] finds at indices within the rows. *)
Lemma session_get_node (ROWS width : Z) (v : Visualizer.t) (rc : Z * Z)
    (node : Ref) (nd : Node.t) :
  in_rows ROWS rc = true →
  Grid.get_node (Visualizer.grid_obj v) rc.1 rc.2 = Some (node, nd) →
  node = rc ∧ get (Visualizer.cells v) node = Some nd.
Proof.
  unfold in_rows. intros [H1 H2]%andb_true_iff.
  apply bool_decide_eq_true in H1, H2. unfold Grid.get_node.
  rewrite py_getitem2_nonneg by lia. unfold Visualizer.cells.
  destruct rc as [r c]. simpl in *.
  destruct (get _ (r, c)) as [nd'|] eqn:Hnd; [|done]. simpl.
  by intros [= <- <-].
Qed.

Lemma in_grid_get (g : Cells) (p : Ref) (nd : Node.t) :
  get g p = Some nd → in_grid g p = true.
Proof. intros H. apply bool_decide_eq_true. by eexists. Qed.

Lemma session_ok_left_click (ROWS width : Z) (pos : Z * Z) (v v' : Visualizer.t) :
  session_ok ROWS width v → left_click ROWS pos v = Some v' →
  session_ok ROWS width v'.
Proof.
  intros Hok. unfold left_click.
  destruct (Grid.get_clicked_pos _ pos) as [rc|]; [|done]. simpl.
  destruct (in_rows ROWS rc) eqn:Hin; [|by intros [= <-]].
  destruct (Grid.get_node _ _ _) as [[node nd]|] eqn:Hnode; [|done]. simpl.
  destruct (session_get_node ROWS width v rc node nd Hin Hnode) as [_ Hnd].
  apply in_grid_get in Hnd.
  destruct (bool_decide (Visualizer.start v = None) && _) eqn:H1.
  { apply andb_true_iff in H1 as [Ha%bool_decide_eq_true Hb%bool_decide_eq_true].
    intros [= <-]. by apply session_ok_set_start_node. }
  destruct (bool_decide (Visualizer.end_ v = None) && _) eqn:H2.
  { apply andb_true_iff in H2 as [Ha%bool_decide_eq_true Hb%bool_decide_eq_true].
    intros [= <-]. by apply session_ok_set_end_node. }
  destruct (bool_decide (Some node ≠ Visualizer.start v) && _) eqn:H3;
    [|by intros [= <-]].
  apply andb_true_iff in H3 as [Ha%bool_decide_eq_true Hb%bool_decide_eq_true].
  intros [= <-]. by apply session_ok_paint.
Qed.

Lemma session_ok_right_click (ROWS width : Z) (pos : Z * Z) (v v' : Visualizer.t) :
  session_ok ROWS width v → right_click ROWS pos v = Some v' →
  session_ok ROWS width v'.
Proof.
  intros Hok. unfold right_click.
  destruct (Grid.get_clicked_pos _ pos) as [rc|]; [|done]. simpl.
  destruct (in_rows ROWS rc) eqn:Hin; [|by intros [= <-]].
  destruct (Grid.get_node _ _ _) as [[node nd]|] eqn:Hnode; [|done]. simpl.
  case_bool_decide as H1.
  { intros [= <-]. by apply session_ok_unset_start. }
  case_bool_decide as H2.
  { intros [= <-]. by apply session_ok_unset_end. }
  intros [= <-]. by apply session_ok_paint.
Qed.

Lemma session_ok_drag (ROWS width : Z) (pos : Z * Z) (buttons : bool * bool * bool)
    (v v' : Visualizer.t) :
  session_ok ROWS width v → drag ROWS pos buttons v = Some v' →
  session_ok ROWS width v'.
Proof.
  intros Hok. unfold drag.
  destruct (Grid.get_clicked_pos _ pos) as [rc|]; [|done]. simpl.
  destruct (in_rows ROWS rc) eqn:Hin; [|by intros [= <-]].
  destruct (Grid.get_node _ _ _) as [[node nd]|] eqn:Hnode; [|done]. simpl.
  destruct buttons.1.1.
  { destruct (_ && _ && _) eqn:H1; [|by intros [= <-]].
    apply andb_true_iff in H1 as [[Ha%bool_decide_eq_true Hb%bool_decide_eq_true]
                                    %andb_true_iff _].
    intros [= <-]. by apply session_ok_paint. }
  destruct buttons.2; [|by intros [= <-]].
  destruct (_ && _) eqn:H1; [|by intros [= <-]].
  apply andb_true_iff in H1 as [Ha%bool_decide_eq_true Hb%bool_decide_eq_true].
  intros [= <-]. by apply session_ok_paint.
Qed.

Lemma session_ok_mouse (ROWS width : Z) (pos : Z * Z) (buttons : bool * bool * bool)
    (ev : option event) (v v' : Visualizer.t) :
  session_ok ROWS width v → mouse ROWS pos buttons ev v = Some v' →
  session_ok ROWS width v'.
Proof.
  intros Hok. unfold mouse. destruct (_ && _); [|by intros [= <-]].
  destruct (button_down buttons.1.1 ev) as [d1|]; [|done]. simpl.
  destruct d1.
  - destruct (left_click ROWS pos v) as [v1|] eqn:H1; [|done]. simpl.
    apply session_ok_drag. by eapply session_ok_left_click.
  - destruct (button_down buttons.2 ev) as [d3|]; [|done]. simpl.
    destruct d3.
    + destruct (right_click ROWS pos v) as [v1|] eqn:H1; [|done]. simpl.
      apply session_ok_drag. by eapply session_ok_right_click.
    + simpl. by apply session_ok_drag.
Qed.

Lemma session_ok_frame (ROWS width : Z) (fuel : nat) (i : input)
    (st st' : main_state) :
  session_ok ROWS width (vis st) → frame fuel ROWS i st = Some st' →
  session_ok ROWS width (vis st').
Proof.
  intros Hok. unfold frame.
  destruct (foldM _ st (events i)) as [st1|] eqn:Hfold; [|done]. simpl.
  assert (Hok1 : session_ok ROWS width (vis st1)).
  { eapply (foldM_inv (λ t, session_ok ROWS width (vis t))); [| |exact Hfold]; [|done].
    intros s2 a s3 _ H2 H3. by eapply session_ok_handle_event. }
  destruct (mouse _ _ _ _ _) as [v|] eqn:Hm; [|done]. simpl.
  intros [= <-]. simpl. by eapply session_ok_mouse.
Qed.

Lemma main_loop_ok (ROWS width : Z) (fuel : nat) (inputs : list input)
    (st0 st : main_state) :
  session_ok ROWS width (vis st0) →
  main_loop fuel ROWS inputs st0 = Some st →
  session_ok ROWS width (vis st).
Proof.
  revert st0. induction inputs as [|i rest IH]; intros st0 Hok; simpl.
  - destruct (running st0); by intros [= <-].
  - destruct (running st0); [|by intros [= <-]].
    destruct (frame fuel ROWS i st0) as [st1|] eqn:Hf; [|done]. simpl.
    apply IH. by eapply session_ok_frame.
Qed.

Lemma main_ok (fuel : nat) (ROWS width : Z) (inputs : list input)
    (st : main_state) :
  main fuel ROWS width inputs = Some st → session_ok ROWS width (vis st).
Proof.
  unfold main. destruct (Visualizer.init ROWS width) as [v|] eqn:Hinit; [|done].
  simpl. apply session_ok_init in Hinit. by apply main_loop_ok.
Qed.

(** Whatever the events, the clicks and the searches of a session, after
    every turn of the main loop the grid is the [ROWS] x [ROWS] grid that
    was built, the start node, if one is set, is its one orange node and the
    end node its one turquoise node; the two are never the same node. *)
Theorem session_keeps_tags (fuel : nat) (ROWS width : Z) (inputs : list input)
    (st : main_state) :
  main fuel ROWS width inputs = Some st →
  session_ok ROWS width (vis st) ∧
  (∀ s e, Visualizer.start (vis st) = Some s → Visualizer.end_ (vis st) = Some e →
          s ≠ e).
Proof.
  intros Hrun%main_ok. split; [done|].
  intros s e Hs He ->. destruct Hrun as (_ & _ & _ & _ & H1 & H2).
  apply H1 in Hs. apply H2 in He. rewrite Hs in He. done.
Qed.

(** ** main.py: a session does not raise *)

Lemma size_list_to_set_le (l : list Ref) :
  (size (list_to_set l : gset Ref) ≤ length l)%nat.
Proof.
  induction l as [|a l IH]; [by rewrite list_to_set_nil, size_empty|].
  rewrite list_to_set_cons, size_union_alt, size_singleton. simpl.
  pose proof (subseteq_size (list_to_set l ∖ {[a]}) (list_to_set l : gset Ref)
                ltac:(set_solver)). lia.
Qed.

(** A square grid of side [n] has at most [n * n] nodes. *)
Lemma square_cell_count (n : Z) (g : Cells) :
  square n g → (cell_count g ≤ Z.to_nat (n * n))%nat.
Proof.
  intros [Hs _]. unfold cell_count.
  assert (Hsub : cells g ⊆ list_to_set (list_prod (seqZ 0 n) (seqZ 0 n))).
  { intros p Hp. apply elem_of_cells, bool_decide_eq_true, Hs, bool_decide_unpack in Hp.
    apply elem_of_list_to_set, list_elem_of_In. destruct p as [i j].
    apply in_prod_iff. rewrite <- !list_elem_of_In, !elem_of_seqZ. simpl in Hp. lia. }
  apply subseteq_size in Hsub.
  pose proof (size_list_to_set_le (list_prod (seqZ 0 n) (seqZ 0 n))) as Hle.
  rewrite length_prod, !length_seqZ in Hle.
  assert (Z.to_nat n * Z.to_nat n ≤ Z.to_nat (n * n))%nat; [|lia].
  destruct (decide (0 ≤ n)); [by rewrite Z2Nat.inj_mul|].
  replace (Z.to_nat n) with 0%nat by lia. lia.
Qed.

Lemma session_fuel (n : Z) (g : Cells) (fuel : nat) :
  square n g → (Z.to_nat (n * n) * Z.to_nat (n * n) + 2 ≤ fuel)%nat →
  (enough_fuel g ≤ fuel)%nat.
Proof.
  intros Hsq Hf. pose proof (square_cell_count n g Hsq). unfold enough_fuel. nia.
Qed.

(** The start button: what the search is run on, and what it leaves in the
    visualizer. *)
Lemma press_start_spec (ROWS width : Z) (fuel : nat) (sig : list signal)
    (v : Visualizer.t) (s e : Ref) (A : search) :
  session_ok ROWS width v →
  Visualizer.start v = Some s → Visualizer.end_ v = Some e →
  selected (Visualizer.selected_algorithm v) = Some A →
  (Z.to_nat (ROWS * ROWS) * Z.to_nat (ROWS * ROWS) + 2 ≤ fuel)%nat →
  ∃ g r g' v',
    Grid.update_all_neighbors_cells
      (Grid.clear_path_nodes_cells (Visualizer.cells v) (Some s) (Some e)) = Some g ∧
    (s ≠ e ∧ clean g s e ∧ (∀ p, color_at g p = Some ORANGE → p = s) ∧
     closed g ∧ wired g ∧ refreshed ROWS g) ∧
    run A fuel [] g s e = Some (r, g') ∧
    press_start fuel sig v = Some v' ∧
    Visualizer.cells v' = g' ∧
    Visualizer.last_visited_count v' = visited_count r ∧
    Visualizer.last_path_length v' = path_length r ∧
    Visualizer.paused v' = false ∧
    Visualizer.start v' = Some s ∧ Visualizer.end_ v' = Some e ∧
    Visualizer.selected_algorithm v' = Visualizer.selected_algorithm v.
Proof.
  intros Hok Hstart Hend HA Hfuel.
  pose proof Hok as (Hr & Hw & Hg & Hsq & Hs & He).
  pose proof (square_clear_path_nodes ROWS _ (Some s) (Some e) Hsq) as Hsq1.
  destruct (update_all_neighbors_frame ROWS _ Hsq1) as (g & Hup & _ & _).
  destruct (session_prepared ROWS width v s e g Hok Hstart Hend Hup)
    as (Hne & Hclean & Huniq & Hclosed & Hwired & Hrefr & Hins & Hine).
  destruct (run_total A fuel [] g s e) as (r & g' & Hrun);
    [by eapply selected_algorithm_spec|done|done|done| |].
  { eapply session_fuel; [apply Hrefr|done]. }
  exists g, r, g'. eexists. split; [done|]. split; [done|]. split; [done|].
  unfold press_start. rewrite Hstart, Hend.
  unfold Visualizer.clear_path. rewrite Hstart, Hend. session_simpl.
  rewrite Hup. cbn [mbind option_bind]. session_simpl. rewrite HA.
  rewrite Hrun. cbn [mbind option_bind]. session_simpl.
  split; [reflexivity|]. session_simpl. done.
Qed.

Lemma press_start_total (ROWS width : Z) (fuel : nat) (sig : list signal)
    (v : Visualizer.t) :
  session_ok ROWS width v →
  (Z.to_nat (ROWS * ROWS) * Z.to_nat (ROWS * ROWS) + 2 ≤ fuel)%nat →
  is_Some (press_start fuel sig v).
Proof.
  intros Hok Hfuel.
  destruct (Visualizer.start v) as [s|] eqn:Hstart;
    [|unfold press_start; rewrite Hstart; by eexists].
  destruct (Visualizer.end_ v) as [e|] eqn:Hend;
    [|unfold press_start; rewrite Hstart, Hend; by eexists].
  destruct (selected (Visualizer.selected_algorithm v)) as [A|] eqn:HA.
  - destruct (press_start_spec ROWS width fuel sig v s e A)
      as (g & r & g' & v' & _ & _ & _ & -> & _); [done..|]. by eexists.
  - pose proof Hok as (Hr & Hw & Hg & Hsq & Hs & He).
    pose proof (square_clear_path_nodes ROWS _ (Some s) (Some e) Hsq) as Hsq1.
    destruct (update_all_neighbors_frame ROWS _ Hsq1) as (g & Hup & _ & _).
    unfold press_start. rewrite Hstart, Hend.
    unfold Visualizer.clear_path. rewrite Hstart, Hend. session_simpl.
    rewrite Hup. cbn [mbind option_bind]. session_simpl. rewrite HA. by eexists.
Qed.

Lemma handle_event_total (ROWS width : Z) (fuel : nat) (sig : list signal)
    (st : main_state) (e : event) :
  ROWS ≠ 0 → session_ok ROWS width (vis st) →
  (Z.to_nat (ROWS * ROWS) * Z.to_nat (ROWS * ROWS) + 2 ≤ fuel)%nat →
  ∃ st', handle_event fuel sig st e = Some st' ∧ last_event st' = Some e.
Proof.
  intros H0 Hok Hfuel. unfold handle_event.
  set (v1 := if bool_decide (type e = UI_DROP_DOWN_MENU_CHANGED)
             then if bool_decide (ui_element e = algo_dropdown)
                  then with_selected (text e) (vis st) else vis st
             else vis st).
  assert (Hok1 : session_ok ROWS width v1).
  { unfold v1. by repeat case_bool_decide. }
  clearbody v1.
  assert (Hv2 : is_Some (if bool_decide (type e = UI_BUTTON_PRESSED) then
                           match ui_element e with
                           | start_button => press_start fuel sig v1
                           | clear_button => Some (Visualizer.clear_path v1)
                           | clear_all_button => Visualizer.reset_grid v1
                           | pause_button => Some (toggle_pause v1)
                           | _ => Some v1
                           end
                         else Some v1)).
  { case_bool_decide; [|by eexists]. destruct (ui_element e); try (by eexists).
    - by eapply press_start_total.
    - destruct Hok1 as (Hr & Hw & _). unfold Visualizer.reset_grid, Grid.init.
      rewrite Hr, Hw. rewrite bool_decide_false by done. by eexists. }
  destruct Hv2 as [v2 ->]. eexists. split; done.
Qed.

Lemma left_right_total (ROWS width : Z) (pos : Z * Z) (v : Visualizer.t) :
  session_ok ROWS width v → width `div` ROWS ≠ 0 →
  is_Some (left_click ROWS pos v) ∧ is_Some (right_click ROWS pos v) ∧
  ∀ buttons, is_Some (drag ROWS pos buttons v).
Proof.
  intros (Hr & Hw & Hg & Hsq & Hs & He) Hgap.
  assert (Hpos : ∃ rc, Grid.get_clicked_pos (Visualizer.grid_obj v) pos = Some rc).
  { unfold Grid.get_clicked_pos. destruct pos as [px py]. rewrite Hg.
    rewrite bool_decide_false by done. by eexists. }
  destruct Hpos as [rc Hrc].
  assert (Hnode : in_rows ROWS rc = true →
            ∃ nd, Grid.get_node (Visualizer.grid_obj v) rc.1 rc.2 = Some (rc, nd)).
  { unfold in_rows. intros [H1 H2]%andb_true_iff.
    apply bool_decide_eq_true in H1, H2. unfold Grid.get_node.
    rewrite py_getitem2_nonneg by lia.
    destruct Hsq as [Hsq _]. destruct (proj2 (Hsq rc)) as [nd Hnd].
    { apply bool_decide_pack. lia. }
    exists nd. unfold Visualizer.cells in Hnd. destruct rc as [r c]. simpl in *.
    by rewrite Hnd. }
  unfold left_click, right_click, drag. rewrite Hrc. cbn [mbind option_bind].
  destruct (in_rows ROWS rc) eqn:Hin; [|split_and!; by eexists].
  destruct (Hnode eq_refl) as [nd ->]. cbn [mbind option_bind].
  split_and!.
  - repeat (destruct (_ && _); [by eexists|]). by eexists.
  - repeat (case_bool_decide; [by eexists|]). by eexists.
  - intros buttons. destruct buttons.1.1.
    + destruct (_ && _ && _); by eexists.
    + destruct buttons.2; [|by eexists]. destruct (_ && _); by eexists.
Qed.

Lemma mouse_total (ROWS width : Z) (i : input) (ev : option event)
    (v : Visualizer.t) :
  session_ok ROWS width v → width `div` ROWS ≠ 0 →
  (needs_event i = true → is_Some ev) →
  is_Some (mouse ROWS (mouse_pos i) (pressed i) ev v).
Proof.
  intros Hok Hgap Hev. unfold mouse.
  destruct (_ && _) eqn:Harea; [|by eexists].
  unfold needs_event in Hev. rewrite Harea in Hev. simpl in Hev.
  destruct (left_right_total ROWS width (mouse_pos i) v Hok Hgap)
    as ([vl Hl] & [vr Hr] & Hd).
  assert (Hdrag : ∀ v1, session_ok ROWS width v1 →
            is_Some (drag ROWS (mouse_pos i) (pressed i) v1)).
  { intros v1 Hok1.
    by destruct (left_right_total ROWS width (mouse_pos i) v1 Hok1 Hgap) as (_ & _ & H). }
  clear Harea. unfold button_down.
  destruct (pressed i).1.1 eqn:Hp1.
  - destruct Hev as [e ->]; [done|]. cbn [mbind option_bind].
    destruct (bool_decide (type e = MOUSEBUTTONDOWN)).
    + rewrite Hl. cbn [mbind option_bind]. apply Hdrag.
      by eapply session_ok_left_click.
    + destruct (pressed i).2 eqn:Hp3; cbn [mbind option_bind]; by apply Hdrag.
  - cbn [mbind option_bind]. destruct (pressed i).2 eqn:Hp3.
    + destruct Hev as [e ->]; [done|]. cbn [mbind option_bind].
      destruct (bool_decide (type e = MOUSEBUTTONDOWN)).
      * rewrite Hr. cbn [mbind option_bind]. apply Hdrag.
        by eapply session_ok_right_click.
      * cbn [mbind option_bind]. by apply Hdrag.
    + cbn [mbind option_bind]. by apply Hdrag.
Qed.

Lemma events_total (ROWS width : Z) (fuel : nat) (sig : list signal)
    (l : list event) (st : main_state) :
  ROWS ≠ 0 → session_ok ROWS width (vis st) →
  (Z.to_nat (ROWS * ROWS) * Z.to_nat (ROWS * ROWS) + 2 ≤ fuel)%nat →
  ∃ st', foldM (handle_event fuel sig) st l = Some st' ∧
         session_ok ROWS width (vis st') ∧
         (is_Some (last_event st) ∨ l ≠ [] → is_Some (last_event st')).
Proof.
  intros H0 Hok Hfuel. revert st Hok.
  induction l as [|e l IH]; intros st Hok; simpl.
  - exists st. split_and!; [done..|]. by intros [?|?].
  - destruct (handle_event_total ROWS width fuel sig st e H0 Hok Hfuel)
      as (st1 & Hst1 & Hev).
    rewrite Hst1. simpl.
    destruct (IH st1) as (st' & Hst' & Hok' & Hev').
    { by eapply session_ok_handle_event. }
    exists st'. split_and!; [done..|]. intros _. apply Hev'. left.
    rewrite Hev. by eexists.
Qed.

(** A session does not raise and every search it starts returns: with
    [0 < ROWS <= width], fuel for [ROWS^4 + 2] iterations of a search, and no
    mouse button held down over the grid before the first event has been
    fetched, [main] runs through every turn. *)
Theorem session_never_raises (fuel : nat) (ROWS width : Z) (inputs : list input) :
  0 < ROWS ≤ width →
  (Z.to_nat (ROWS * ROWS) * Z.to_nat (ROWS * ROWS) + 2 ≤ fuel)%nat →
  events_first false inputs →
  ∃ st, main fuel ROWS width inputs = Some st.
Proof.
  intros HR Hfuel Hev.
  assert (H0 : ROWS ≠ 0) by lia.
  assert (Hgap : width `div` ROWS ≠ 0).
  { intros Hz. apply Z.div_small_iff in Hz; lia. }
  unfold main.
  destruct (Visualizer.init ROWS width) as [v|] eqn:Hinit.
  2:{ unfold Visualizer.init, Grid.init in Hinit.
      by rewrite bool_decide_false in Hinit by done. }
  simpl. apply session_ok_init in Hinit.
  assert (Hloop : ∀ (bound : bool) st0,
            session_ok ROWS width (vis st0) →
            (bound = true → is_Some (last_event st0)) →
            events_first bound inputs →
            ∃ st, main_loop fuel ROWS inputs st0 = Some st).
  { clear Hev. induction inputs as [|i rest IH]; intros bound st0 Hok Hb Hev; simpl.
    - destruct (running st0); by eexists.
    - destruct (running st0); [|by eexists].
      destruct Hev as [Hneed Hrest].
      destruct (events_total ROWS width fuel (quits i) (events i) st0 H0 Hok Hfuel)
        as (st1 & Hst1 & Hok1 & Hev1).
      assert (Hbound : bound || bool_decide (events i ≠ []) = true →
                is_Some (last_event st1)).
      { intros [Hbd|Hne%bool_decide_eq_true]%orb_true_iff; apply Hev1; auto. }
      destruct (mouse_total ROWS width i (last_event st1) (vis st1) Hok1 Hgap)
        as [v1 Hv1]; [by intros ?%Hneed%Hbound|].
      unfold frame. rewrite Hst1. cbn [mbind option_bind]. rewrite Hv1.
      cbn [mbind option_bind].
      eapply (IH _ _ _ _ Hrest). }
  apply (Hloop false); [done|done|done].
  Unshelve.
  - simpl. by eapply session_ok_mouse.
  - simpl. exact Hbound.
Qed.

(** The start button runs the selected search on a clean, refreshed grid and
    without pause: whatever the store held and whether or not "Pause" was
    pressed, the search starts from the store [clear_path_nodes] and
    [update_all_neighbors] leave (start orange, end turquoise, every other
    node white or black, the neighbour lists up to date), it is never paused
    or cancelled, it returns, and its counts are what the visualizer shows. *)
Theorem start_button_runs_search (ROWS width : Z) (fuel : nat) (sig : list signal)
    (v : Visualizer.t) (s e : Ref) (A : search) :
  session_ok ROWS width v →
  Visualizer.start v = Some s → Visualizer.end_ v = Some e →
  selected (Visualizer.selected_algorithm v) = Some A →
  (Z.to_nat (ROWS * ROWS) * Z.to_nat (ROWS * ROWS) + 2 ≤ fuel)%nat →
  ∃ g r g' v',
    Grid.update_all_neighbors_cells
      (Grid.clear_path_nodes_cells (Visualizer.cells v) (Some s) (Some e)) = Some g ∧
    (s ≠ e ∧ clean g s e ∧ (∀ p, color_at g p = Some ORANGE → p = s) ∧
     closed g ∧ wired g ∧ refreshed ROWS g) ∧
    run A fuel [] g s e = Some (r, g') ∧
    press_start fuel sig v = Some v' ∧
    Visualizer.cells v' = g' ∧
    Visualizer.last_visited_count v' = visited_count r ∧
    Visualizer.last_path_length v' = path_length r ∧
    Visualizer.paused v' = false ∧
    Visualizer.start v' = Some s ∧ Visualizer.end_ v' = Some e ∧
    Visualizer.selected_algorithm v' = Visualizer.selected_algorithm v.
Proof. apply press_start_spec. Qed.
(** * The relaxation rule and the clearing of the path *)

(** ** C3: the relaxation of every neighbour *)

Lemma relaxed_fun (is_astar : bool) (c n end_ : Ref) (gc gn : score) (h : Z)
    (s s1 s2 : Informed.state) :
  relaxed is_astar c n end_ gc gn h s s1 →
  relaxed is_astar c n end_ gc gn h s s2 → s1 = s2.
Proof.
  unfold relaxed. destruct (score_succ gc) as [t|]; [|congruence].
  destruct (score_lt (Num t) gn); [|congruence].
  destruct s1 as [g1 gs1 fs1 c1 o1 cf1 h1 v1], s2 as [g2 gs2 fs2 c2 o2 cf2 h2 v2].
  simpl. intros (-> & -> & -> & -> & H1) (-> & -> & -> & -> & H2).
  destruct (bool_decide (n ∈ Informed.open_set_hash s)).
  - destruct H1 as (-> & -> & -> & ->), H2 as (-> & -> & -> & ->). done.
  - destruct H1 as (-> & -> & -> & ->), H2 as (-> & -> & -> & ->). done.
Qed.

Lemma relax_of_step (is_astar : bool) (c end_ n : Ref) (s s' : Informed.state) :
  relax_of is_astar c end_ s n = Some s' → relax_step is_astar c end_ n s s'.
Proof.
  unfold relax_step. destruct is_astar; simpl.
  - unfold Informed.astar_relax.
    destruct (get (Informed.grid s) n) as [nd|] eqn:Hnd; [|done]. simpl.
    intros H. exists nd. split; [done|].
    destruct (Node.is_barrier nd) eqn:Hb; [congruence|].
    destruct (Informed.g_score s !! c) as [gc|] eqn:Hgc; [|done]. simpl in H.
    destruct (Informed.g_score s !! n) as [gn|] eqn:Hgn; [|done]. simpl in H.
    exists gc, gn. split; [done|]. split; [done|].
    unfold relaxed. destruct (score_succ gc) as [t|] eqn:Ht.
    + destruct (score_lt (Num t) gn) eqn:Hlt; [|congruence].
      destruct (get (Informed.grid s) end_) as [e_nd|] eqn:He; [|done].
      simpl in H. injection H as <-.
      unfold heuristic. rewrite Hnd, He.
      unfold Informed.push_if_new. simpl. case_bool_decide; simpl; done.
    + destruct (score_lt Infty gn) eqn:Hlt; [done|congruence].
  - unfold Informed.dijkstra_relax.
    destruct (get (Informed.grid s) n) as [nd|] eqn:Hnd; [|done]. simpl.
    intros H. exists nd. split; [done|].
    destruct (Node.is_barrier nd) eqn:Hb; [congruence|].
    destruct (Informed.g_score s !! c) as [gc|] eqn:Hgc; [|done]. simpl in H.
    destruct (Informed.g_score s !! n) as [gn|] eqn:Hgn; [|done]. simpl in H.
    exists gc, gn. split; [done|]. split; [done|].
    unfold relaxed. destruct (score_succ gc) as [t|] eqn:Ht.
    + destruct (score_lt (Num t) gn) eqn:Hlt; [|congruence].
      injection H as <-.
      unfold Informed.push_if_new. simpl. case_bool_decide; simpl; done.
    + destruct (score_lt Infty gn) eqn:Hlt; [done|congruence].
Qed.

(** The relaxation returns: its dictionary reads are of cells that have a
    cost, and [astar] reads the position of [end]. *)
Lemma relax_of_returns (is_astar : bool) (c end_ n : Ref) (s : Informed.state)
    (nd : Node.t) (gc gn : score) :
  get (Informed.grid s) n = Some nd →
  (Node.is_barrier nd = false →
   Informed.g_score s !! c = Some gc ∧ Informed.g_score s !! n = Some gn ∧
   (is_astar = true → is_Some (get (Informed.grid s) end_))) →
  ∃ s', relax_of is_astar c end_ s n = Some s'.
Proof.
  intros Hnd H. destruct is_astar; simpl.
  - unfold Informed.astar_relax. rewrite Hnd. simpl.
    destruct (Node.is_barrier nd); [eauto|].
    destruct (H eq_refl) as (-> & -> & [e_nd He]); [done|]. simpl.
    destruct (score_succ gc) as [t|]; simpl.
    + destruct (score_lt (Num t) gn); [|eauto]. rewrite He. simpl. eauto.
    + destruct (score_lt Infty gn) eqn:Hlt; [|eauto]. by destruct gn.
  - unfold Informed.dijkstra_relax. rewrite Hnd. simpl.
    destruct (Node.is_barrier nd); [eauto|].
    destruct (H eq_refl) as (-> & -> & _). simpl.
    destruct (score_succ gc) as [t|]; simpl.
    + destruct (score_lt (Num t) gn); eauto.
    + destruct (score_lt Infty gn) eqn:Hlt; [|eauto]. by destruct gn.
Qed.

Lemma relax_step_returns (is_astar : bool) (c end_ n : Ref)
    (s s' : Informed.state) :
  (is_astar = true → is_Some (get (Informed.grid s) end_)) →
  relax_step is_astar c end_ n s s' →
  relax_of is_astar c end_ s n = Some s'.
Proof.
  intros He (nd & Hnd & H).
  destruct (relax_of_returns is_astar c end_ n s nd
              (default Infty (Informed.g_score s !! c))
              (default Infty (Informed.g_score s !! n)) Hnd)
    as [s'' Hs''].
  { intros Hb. rewrite Hb in H. destruct H as (gc & gn & -> & -> & _). done. }
  rewrite Hs''. f_equal.
  apply relax_of_step in Hs'' as (nd' & Hnd' & H').
  rewrite Hnd in Hnd'. injection Hnd' as <-.
  destruct (Node.is_barrier nd); [congruence|].
  destruct H as (gc & gn & Hgc & Hgn & Hr), H' as (gc' & gn' & Hgc' & Hgn' & Hr').
  rewrite Hgc in Hgc'. injection Hgc' as <-.
  rewrite Hgn in Hgn'. injection Hgn' as <-.
  by eapply relaxed_fun.
Qed.

Lemma relax_step_end (is_astar : bool) (c end_ n : Ref) (s s' : Informed.state) :
  relax_step is_astar c end_ n s s' →
  is_Some (get (Informed.grid s) end_) → is_Some (get (Informed.grid s') end_).
Proof.
  intros (nd & Hnd & H) He.
  destruct (Node.is_barrier nd); [by subst|].
  destruct H as (gc & gn & _ & _ & Hr). unfold relaxed in Hr.
  destruct (score_succ gc) as [t|]; [|by subst].
  destruct (score_lt (Num t) gn); [|by subst].
  destruct Hr as (_ & _ & _ & _ & Hr).
  destruct (bool_decide (n ∈ Informed.open_set_hash s)).
  - destruct Hr as (_ & _ & _ & ->). done.
  - destruct Hr as (_ & _ & _ & ->). case_bool_decide; [|done].
    rewrite get_modify. case_decide; [|done]. destruct He as [x ->]. by eexists.
Qed.

Lemma fold_relax_all (is_astar : bool) (c end_ : Ref) (ns : list Ref)
    (s s' : Informed.state) :
  foldM (relax_of is_astar c end_) s ns = Some s' →
  relax_all is_astar c end_ ns s s'.
Proof.
  revert s. induction ns as [|n ns IH]; intros s; simpl.
  - by intros [= <-].
  - destruct (relax_of is_astar c end_ s n) as [s1|] eqn:H1; [|done]. simpl.
    intros H. exists s1. split; [by apply relax_of_step|by apply IH].
Qed.

Lemma relax_all_fold (is_astar : bool) (c end_ : Ref) (ns : list Ref)
    (s s' : Informed.state) :
  (is_astar = true → is_Some (get (Informed.grid s) end_)) →
  relax_all is_astar c end_ ns s s' →
  foldM (relax_of is_astar c end_) s ns = Some s'.
Proof.
  revert s. induction ns as [|n ns IH]; intros s He; simpl.
  - by intros ->.
  - intros (s1 & H1 & H). rewrite (relax_step_returns _ _ _ _ _ _ He H1). simpl.
    apply IH; [|done]. intros Ha. eapply relax_step_end; eauto.
Qed.

Lemma body_iteration_spec (is_astar : bool) (fuel : nat) (start end_ : Ref)
    (s s' : Informed.state) :
  Informed.body (best_of is_astar) (relax_of is_astar) fuel start end_ s
  = Some (Continue s') →
  iteration_spec is_astar start end_ s s'.
Proof.
  intros Hb. apply informed_body_continue in Hb
    as (k & t & c & h & b & Ho & Hin & Hbc & Hcase).
  exists k, t, c, h, b. split_and!; [done|done|by destruct is_astar|].
  destruct Hcase as [[-> ->]|(-> & Hne & nd & s1 & Hnd & Hfold & ->)]; [done|].
  split; [done|]. exists nd, s1. split_and!; [done| |done].
  by apply fold_relax_all.
Qed.

Lemma iteration_spec_body (is_astar : bool) (fuel : nat) (start end_ : Ref)
    (s s' : Informed.state) :
  (is_astar = true → is_Some (get (Informed.grid s) end_)) →
  iteration_spec is_astar start end_ s s' →
  Informed.body (best_of is_astar) (relax_of is_astar) fuel start end_ s
  = Some (Continue s').
Proof.
  intros He (k & t & c & h & b & Ho & Hin & Hbc & Hcase).
  unfold Informed.body. rewrite Ho. simpl. rewrite bool_decide_true by done.
  assert (Hbc' : best_of is_astar (Informed.popped h c s) !! c = Some b)
    by (by destruct is_astar).
  rewrite Hbc'. simpl.
  destruct (score_lt b (Num k)); [by subst|].
  destruct Hcase as (Hne & nd & s1 & Hnd & Hall & ->).
  rewrite bool_decide_false by done. rewrite Hnd. simpl.
  by rewrite (relax_all_fold is_astar c end_ _ (Informed.popped h c s) s1 He Hall).
Qed.

(** On a grid whose neighbour lists are current no list holds a barrier, in
    no state of a run. *)
Lemma refreshed_neighbours_open (rows : Z) (g g1 : Cells) (c n : Ref) (nd : Node.t) :
  refreshed rows g → repaints g g1 →
  get g1 c = Some nd → n ∈ Node.neighbors nd →
  ∃ nd', get g1 n = Some nd' ∧ Node.is_barrier nd' = false.
Proof.
  intros [[Hsq _] Hn] Hrep Hnd Hin.
  destruct (repaints_get g g1 c nd Hrep Hnd) as (n0 & Hn0 & Hnb).
  assert (Hc : in_bounds rows c) by (apply Hsq; by eexists).
  specialize (Hn c Hc). unfold neighbors_at in Hn. rewrite Hn0 in Hn.
  injection Hn as Hn. rewrite Hnb, Hn in Hin.
  apply elem_of_neighborsOf_spec in Hin as (_ & Hb & Hbar).
  assert (Hg : in_grid g n = true).
  { apply bool_decide_eq_true. by apply Hsq. }
  rewrite <- (repaints_in_grid g g1 n Hrep) in Hg.
  apply bool_decide_eq_true in Hg as [nd' Hnd']. exists nd'. split; [done|].
  rewrite <- (repaints_barrier_at g g1 n Hrep) in Hbar.
  unfold barrier_at, color_at in Hbar. rewrite Hnd' in Hbar. simpl in Hbar.
  unfold Node.is_barrier. apply bool_decide_eq_false in Hbar.
  apply bool_decide_eq_false. intros Hblack. apply Hbar. by rewrite Hblack.
Qed.

(** C3: in [dijkstra] and in [astar], an iteration that expands a cell [c]
    passes every node of the neighbour list of [c], in the order of the list,
    through the relaxation, and the relaxation of a node [n] that is no
    barrier follows the rule: [g[n]], the predecessor of [n] and, in [astar],
    [f[n]] are updated exactly when [g[c] + 1 < g[n]]; [n] is pushed, with the
    sequence number [count + 1], only when it is not in [open_set_hash], and
    otherwise the heap is left as it is.  A listed node that is a barrier is
    passed over; in a run on a grid whose neighbour lists are current no list
    holds one.  The relaxation and the iteration return whenever the cells
    they read have a cost.  In every state of a run the sequence numbers in
    the heap are at most [count], so the number of a push is larger than all
    of them, and [open_set_hash] is the set of the nodes with an entry.  A
    popped entry whose priority is larger than the best score of its node is
    dropped: the iteration changes nothing else. *)
Theorem relaxation_rule :
  (∀ fuel start end_ s s',
     Informed.dijkstra_body fuel start end_ s = Some (Continue s') ↔
     iteration_spec false start end_ s s') ∧
  (∀ fuel start end_ s s',
     (Informed.astar_body fuel start end_ s = Some (Continue s') →
      iteration_spec true start end_ s s') ∧
     (is_Some (get (Informed.grid s) end_) →
      iteration_spec true start end_ s s' →
      Informed.astar_body fuel start end_ s = Some (Continue s'))) ∧
  (∀ is_astar c n end_ s nd gc gn,
     get (Informed.grid s) n = Some nd →
     Informed.g_score s !! c = Some gc → Informed.g_score s !! n = Some gn →
     (is_astar = true → is_Some (get (Informed.grid s) end_)) →
     ∃ s', relax_of is_astar c end_ s n = Some s' ∧
           relax_step is_astar c end_ n s s' ∧
           ∀ s'', relax_step is_astar c end_ n s s'' → s'' = s') ∧
  (∀ rows g fuel start end_ s c nd n,
     refreshed rows g →
     reaches Informed.pending (Informed.dijkstra_body fuel start end_)
       (Informed.dijkstra_init g start) s →
     get (Informed.grid s) c = Some nd → n ∈ Node.neighbors nd →
     ∃ nd', get (Informed.grid s) n = Some nd' ∧ Node.is_barrier nd' = false) ∧
  (∀ rows g fuel start end_ s0 s c nd n,
     refreshed rows g →
     Informed.astar_init g start end_ = Some s0 →
     reaches Informed.pending (Informed.astar_body fuel start end_) s0 s →
     get (Informed.grid s) c = Some nd → n ∈ Node.neighbors nd →
     ∃ nd', get (Informed.grid s) n = Some nd' ∧ Node.is_barrier nd' = false) ∧
  (∀ is_astar c n end_ gc gn h s s',
     heap_ok s → relaxed is_astar c n end_ gc gn h s s' →
     heap_ok s' ∧ Informed.count s ≤ Informed.count s' ∧
     ∀ e, e ∈ Informed.open_set s' → ¬ (e ∈ Informed.open_set s) →
          e.2 = n ∧ ¬ (n ∈ Informed.open_set_hash s) ∧
          e.1.2 = Informed.count s' ∧
          ∀ e0, e0 ∈ Informed.open_set s → e0.1.2 < e.1.2) ∧
  (∀ g fuel start end_ s,
     reaches Informed.pending (Informed.dijkstra_body fuel start end_)
       (Informed.dijkstra_init g start) s → heap_ok s) ∧
  (∀ g fuel start end_ s0 s,
     Informed.astar_init g start end_ = Some s0 →
     reaches Informed.pending (Informed.astar_body fuel start end_) s0 s →
     heap_ok s) ∧
  (∀ fuel start end_ s k t c h b,
     Informed.open_set s = (k, t, c) :: h → c ∈ Informed.open_set_hash s →
     Informed.g_score s !! c = Some b → score_lt b (Num k) = true →
     Informed.dijkstra_body fuel start end_ s
     = Some (Continue (Informed.popped h c s))) ∧
  (∀ fuel start end_ s k t c h b,
     Informed.open_set s = (k, t, c) :: h → c ∈ Informed.open_set_hash s →
     Informed.f_score s !! c = Some b → score_lt b (Num k) = true →
     Informed.astar_body fuel start end_ s
     = Some (Continue (Informed.popped h c s))).
Proof.
  split_and!.
  - intros fuel start end_ s s'. split.
    + apply (body_iteration_spec false).
    + by apply (iteration_spec_body false).
  - intros fuel start end_ s s'. split.
    + apply (body_iteration_spec true).
    + intros He. by apply (iteration_spec_body true).
  - intros is_astar c n end_ s nd gc gn Hnd Hgc Hgn He.
    destruct (relax_of_returns is_astar c end_ n s nd gc gn Hnd) as [s' Hs']; [done|].
    exists s'. split; [done|]. split; [by apply relax_of_step|].
    intros s'' Hs''. apply (relax_step_returns _ _ _ _ _ _ He) in Hs''. congruence.
  - intros rows g fuel start end_ s c nd n Hg Hs.
    apply (refreshed_neighbours_open rows g); [done|].
    assert (Hinv : informed_inv g start end_ s); [|apply Hinv].
    eapply (reaches_inv Informed.pending (Informed.dijkstra_body fuel start end_)
              (informed_inv g start end_)); [|by apply (DIJKSTRA_init_inv g start end_)|exact Hs].
    intros s1 s2 H1 _. by apply (DIJKSTRA_step_inv g fuel start end_).
  - intros rows g fuel start end_ s0 s c nd n Hg H0 Hs.
    apply (refreshed_neighbours_open rows g); [done|].
    assert (Hinv : informed_inv g start end_ s); [|apply Hinv].
    eapply (reaches_inv Informed.pending (Informed.astar_body fuel start end_)
              (informed_inv g start end_)); [|by apply (ASTAR_init_inv g start end_)|exact Hs].
    intros s1 s2 H1 _. by apply (ASTAR_step_inv g fuel start end_).
  - apply relaxed_heap_ok.
  - apply dijkstra_heap_ok.
  - apply astar_heap_ok.
  - intros. by eapply stale_entry_skipped.
  - intros. by eapply stale_entry_skipped.
Qed.

Lemma relaxation_rule_witness :
  match Informed.dijkstra_body 100 demo_start demo_end
          (Informed.dijkstra_init demo_grid demo_start) with
  | Some (Continue s') =>
      iteration_spec false demo_start demo_end
        (Informed.dijkstra_init demo_grid demo_start) s' ∧
      neighbors_at demo_grid demo_start = Some [(0, 2); (0, 0)] ∧
      Informed.count s' = 2 ∧
      Informed.g_score s' !! (0, 2) = Some (Num 1) ∧
      Informed.came_from s' !! (0, 0) = Some demo_start
  | _ => False
  end.
Proof.
  destruct (Informed.dijkstra_body 100 demo_start demo_end
              (Informed.dijkstra_init demo_grid demo_start))
    as [[r g|s']|] eqn:Hb.
  - vm_compute in Hb. discriminate Hb.
  - split.
    + exact (proj1 (proj1 relaxation_rule 100%nat demo_start demo_end
                      (Informed.dijkstra_init demo_grid demo_start) s') Hb).
    + vm_compute in Hb. injection Hb as <-. repeat split.
  - vm_compute in Hb. discriminate Hb.
Defined.

(** ** C6: what [clear_path_nodes] does to every node *)

(** C6, amended: for every grid and whatever nodes are given as start and
    end, [clear_path_nodes] changes nothing of a node but its colour; the
    node given as end becomes turquoise and the node given as start (unless
    it is also the one given as end) orange, whatever colour they had; every
    other node that is neither orange, turquoise nor black becomes white, and
    every other orange, turquoise or black node stays as it is.  So a barrier
    keeps its colour exactly when it is not the node given as start or end;
    and when the given start is orange and the given end turquoise, as in
    every call of the session, every orange, turquoise or black node is left
    as it is. *)
Theorem clear_path_nodes_spec (g : Cells) (start_node end_node : option Ref)
    (p : Ref) (nd : Node.t) :
  get g p = Some nd →
  ∃ nd', get (Grid.clear_path_nodes_cells g start_node end_node) p = Some nd' ∧
         nd' = Node.set_color (Node.color nd') nd ∧
         (end_node = Some p → Node.color nd' = TURQUOISE) ∧
         (end_node ≠ Some p → start_node = Some p → Node.color nd' = ORANGE) ∧
         (end_node ≠ Some p → start_node ≠ Some p →
            (protected (Node.color nd) → nd' = nd) ∧
            (¬ protected (Node.color nd) → nd' = Node.set_color WHITE nd)) ∧
         (Node.color nd = BLACK →
            (Node.color nd' = BLACK ↔ start_node ≠ Some p ∧ end_node ≠ Some p)) ∧
         ((start_node = Some p → Node.color nd = ORANGE) →
          (end_node = Some p → Node.color nd = TURQUOISE) →
            (protected (Node.color nd) → nd' = nd) ∧
            (¬ protected (Node.color nd) → nd' = Node.set_color WHITE nd)).
Proof.
  intros Hnd.
  set (n1 := if decide (start_node = Some p)
             then Node.make_start (Grid.clear_node nd) else Grid.clear_node nd).
  set (n2 := if decide (end_node = Some p) then Node.make_end n1 else n1).
  assert (Hget : get (Grid.clear_path_nodes_cells g start_node end_node) p = Some n2).
  { unfold Grid.clear_path_nodes_cells.
    assert (H1 : get (match start_node with
                      | Some s => modify Node.make_start s
                                    ((λ rw : list Node.t, Grid.clear_node <$> rw) <$> g)
                      | None => (λ rw : list Node.t, Grid.clear_node <$> rw) <$> g
                      end) p = Some n1).
    { unfold n1. destruct start_node as [s|].
      - rewrite get_modify, get_clear_nodes, Hnd. simpl.
        destruct (decide (s = p)) as [->|Hsp].
        + by rewrite decide_True.
        + rewrite decide_False; [done|]. by intros [= ?].
      - rewrite get_clear_nodes, Hnd. simpl. by destruct (decide (None = Some p)). }
    unfold n2. destruct end_node as [e|].
    - rewrite get_modify, H1. simpl.
      destruct (decide (e = p)) as [->|Hep].
      + by rewrite decide_True.
      + rewrite decide_False; [done|]. by intros [= ?].
    - rewrite H1. by destruct (decide (None = Some p)). }
  assert (Hcases : protected (Node.color nd) ∧ Grid.clear_node nd = nd ∨
                   ¬ protected (Node.color nd) ∧
                   Grid.clear_node nd = Node.set_color WHITE nd).
  { assert (Hdec : protected (Node.color nd) ∨ ¬ protected (Node.color nd)).
    { unfold protected.
      destruct (decide (Node.color nd = ORANGE)), (decide (Node.color nd = TURQUOISE)),
        (decide (Node.color nd = BLACK)); tauto. }
    destruct Hdec as [H|H]; [left|right]; (split; [done|]).
    - by apply clear_node_protected.
    - by apply clear_node_other. }
  assert (Hshape : ∀ m, Grid.clear_node nd = m → m = Node.set_color (Node.color m) nd).
  { intros m <-. destruct Hcases as [[_ ->]|[_ ->]]; [by destruct nd|done]. }
  exists n2. split; [exact Hget|]. unfold n2, n1.
  destruct (decide (end_node = Some p)) as [He|He],
           (decide (start_node = Some p)) as [Hs|Hs].
  - split_and!; try done.
    + unfold Node.make_end, Node.make_start. rewrite !set_color_set_color. simpl.
      rewrite (Hshape _ eq_refl) at 1. by rewrite set_color_set_color.
    + intros Hb. split; [|tauto]. simpl. intros Hc. exfalso. by vm_compute in Hc.
    + intros Ho Ht. rewrite (Ho Hs) in Ht. specialize (Ht He).
      exfalso. by vm_compute in Ht.
  - split_and!; try done.
    + unfold Node.make_end. simpl.
      rewrite (Hshape _ eq_refl) at 1. by rewrite set_color_set_color.
    + intros Hb. split; [|tauto]. simpl. intros Hc. exfalso. by vm_compute in Hc.
    + intros _ Ht. specialize (Ht He). split; [|intros Hn; destruct Hn; right; by left].
      intros _. unfold Node.make_end.
      rewrite clear_node_protected by (right; by left). by apply set_color_same.
  - split_and!; try done.
    + unfold Node.make_start. simpl.
      rewrite (Hshape _ eq_refl) at 1. by rewrite set_color_set_color.
    + intros Hb. split; [|tauto]. simpl. intros Hc. exfalso. by vm_compute in Hc.
    + intros Ho _. specialize (Ho Hs). split; [|intros Hn; destruct Hn; by left].
      intros _. unfold Node.make_start.
      rewrite clear_node_protected by (by left). by apply set_color_same.
  - split_and!; try done.
    + by apply Hshape.
    + intros _ _. destruct Hcases as [[H ->]|[H ->]]; split; done.
    + intros Hb. split; [done|]. intros _.
      rewrite clear_node_protected; [done|]. right; by right.
    + intros _ _. destruct Hcases as [[H ->]|[H ->]]; split; done.
Qed.

(** C6 as first stated fails: a barrier that is given as the start node does
    not stay a barrier, it is painted orange. *)
Theorem clear_path_nodes_repaints_barrier :
  ¬ (∀ (g : Cells) (start_node end_node : option Ref) (p : Ref),
       color_at g p = Some BLACK →
       color_at (Grid.clear_path_nodes_cells g start_node end_node) p = Some BLACK).
Proof.
  intros H.
  specialize (H (modify Node.make_barrier (0, 0) (Grid.make_grid 3 200))
                (Some (0, 0)) None (0, 0) eq_refl).
  by vm_compute in H.
Qed.

Lemma clear_path_nodes_spec_witness :
  ∃ nd', get (Grid.clear_path_nodes_cells
                (modify Node.make_closed (0, 1)
                   (modify Node.make_barrier (1, 1) (Grid.make_grid 3 200)))
                (Some (1, 1)) (Some (2, 2))) (1, 1) = Some nd' ∧
         Node.color nd' = ORANGE ∧
         ¬ (Node.color nd' = BLACK).
Proof.
  destruct (clear_path_nodes_spec
              (modify Node.make_closed (0, 1)
                 (modify Node.make_barrier (1, 1) (Grid.make_grid 3 200)))
              (Some (1, 1)) (Some (2, 2)) (1, 1)
              (Node.set_color BLACK (Node.init 1 1 200 3)) eq_refl)
    as (nd' & Hget & _ & _ & Ho & _ & Hb & _).
  exists nd'. split; [exact Hget|]. split.
  - apply Ho; [discriminate|reflexivity].
  - intros Hc. apply (Hb eq_refl) in Hc as [Hc _]. by apply Hc.
Defined.

(** ** The further properties on the small sessions *)

Lemma DFS_algorithm : DFS ∈ algorithms.
Proof. right. left. Defined.

Lemma demo_only_start_orange :
  ∀ p, color_at demo_grid p = Some ORANGE → p = demo_start.
Proof. apply only_start_orange_spec. vm_compute. reflexivity. Qed.

Lemma demo_run_bfs :
  ∃ g', run BFS 700 [] demo_grid demo_start demo_end = Some ((true, 20, 7), g').
Proof. eexists. vm_compute. reflexivity. Qed.

Lemma demo_run_dfs :
  ∃ r g', run DFS 700 [] demo_grid demo_start demo_end = Some (r, g') ∧
          found r = true.
Proof. do 2 eexists. split; [vm_compute; reflexivity|reflexivity]. Qed.

Lemma demo_run_dijkstra :
  ∃ g', run DIJKSTRA 700 [] demo_grid demo_start demo_end
        = Some ((true, 20, 7), g').
Proof. eexists. vm_compute. reflexivity. Qed.

Lemma demo_run_astar :
  ∃ r g', run ASTAR 700 [] demo_grid demo_start demo_end = Some (r, g') ∧
          found r = true.
Proof. do 2 eexists. split; [vm_compute; reflexivity|reflexivity]. Qed.

Lemma no_quit_nil : ¬ (Quit ∈ @nil signal).
Proof. apply not_elem_of_nil. Qed.

(** Painting a cell that is neither black nor orange in a colour that is
    neither changes nothing a search reads. *)
Lemma same_view_tint (g : Cells) (p : Ref) (nd : Node.t) (c : Color) :
  get g p = Some nd →
  Node.color nd ≠ BLACK → Node.color nd ≠ ORANGE → c ≠ BLACK → c ≠ ORANGE →
  same_view g (modify (Node.set_color c) p g).
Proof.
  intros Hnd Hb Ho Hcb Hco q. rewrite get_modify. case_decide as Hq; [|done].
  subst q. rewrite Hnd. simpl. f_equal. unfold view.
  rewrite set_color_set_color. unfold Node.is_barrier, Node.is_start. simpl.
  by rewrite !bool_decide_false.
Qed.

Lemma search_terminates_same_result_witness :
  ∃ r g', run DFS (enough_fuel demo_grid) [] demo_grid demo_start demo_end
          = Some (r, g') ∧
          run DFS 700 [] demo_grid demo_start demo_end = Some (r, g').
Proof.
  exact (search_terminates_same_result DFS 700 [] demo_grid demo_start demo_end
           DFS_algorithm (proj1 demo_grid_prepared) eq_refl eq_refl demo_fuel).
Defined.

Lemma search_only_repaints_witness :
  ∃ r g', run ASTAR 700 [] demo_grid demo_start demo_end = Some (r, g') ∧
          in_grid g' (2, 2) = in_grid demo_grid (2, 2) ∧
          neighbors_at g' (2, 2) = neighbors_at demo_grid (2, 2) ∧
          barrier_at g' (1, 1) = barrier_at demo_grid (1, 1).
Proof.
  destruct demo_run_astar as (r & g' & Hrun & _). exists r, g'.
  split; [exact Hrun|].
  pose proof (search_only_repaints ASTAR 700 [] demo_grid demo_start demo_end r g'
                ASTAR_algorithm eq_refl eq_refl Hrun) as H.
  split; [exact (proj1 (H (2, 2)))|].
  split; [exact (proj1 (proj2 (proj2 (H (2, 2)))))|].
  exact (proj1 (proj2 (proj2 (proj2 (H (1, 1)))))).
Defined.

Lemma search_reads_view_only_witness :
  ∃ r g1' g2',
    run BFS 700 [] demo_grid demo_start demo_end = Some (r, g1') ∧
    run BFS 700 [] (modify (Node.set_color GREEN) (2, 2) demo_grid)
      demo_start demo_end = Some (r, g2') ∧
    same_view g1' g2'.
Proof.
  destruct demo_run_bfs as (g1' & Hrun).
  destruct (search_reads_view_only BFS 700 [] demo_grid
              (modify (Node.set_color GREEN) (2, 2) demo_grid)
              demo_start demo_end (true, 20, 7) g1' BFS_algorithm)
    as (g2' & Hrun2 & Hv).
  - apply (same_view_tint demo_grid (2, 2) (Node.set_neighbors
             [(3, 2); (1, 2); (2, 3); (2, 1)] (Node.init 2 2 120 5)) GREEN);
      [vm_compute; reflexivity|discriminate..].
  - exact Hrun.
  - exists (true, 20, 7), g1', g2'. split; [exact Hrun|]. split; [exact Hrun2|exact Hv].
Defined.

Lemma start_is_end_witness :
  run DIJKSTRA 1 [] demo_grid demo_start demo_start
  = Some ((true, 0, 1),
          modify Node.make_start demo_start
            (modify Node.make_end demo_start demo_grid)) ∧
  color_at (modify Node.make_start demo_start
              (modify Node.make_end demo_start demo_grid)) demo_start
  = Some ORANGE.
Proof.
  apply (start_is_end DIJKSTRA 0 [] demo_grid demo_start DIJKSTRA_algorithm eq_refl).
  discriminate.
Defined.

Lemma walled_in_start_witness :
  run BFS 1 [] walled_grid (0, 0) (4, 4) = Some ((false, 0, 0), walled_grid).
Proof.
  apply (walled_in_start BFS 0 [] walled_grid (0, 0) (4, 4) BFS_algorithm).
  - vm_compute. reflexivity.
  - reflexivity.
  - discriminate.
  - discriminate.
Defined.

Lemma result_shape_witness :
  ∃ r g', run ASTAR 700 [] demo_grid demo_start demo_end = Some (r, g') ∧
          (if found r then 1 ≤ path_length r else path_length r = 0) ∧
          0 ≤ visited_count r < Z.of_nat (cell_count demo_grid).
Proof.
  destruct demo_run_astar as (r & g' & Hrun & _). exists r, g'.
  split; [exact Hrun|].
  apply (result_shape ASTAR 700 [] demo_grid demo_start demo_end r g'
           ASTAR_algorithm); [|exact Hrun].
  intros _. exact (proj1 (proj2 demo_grid_prepared)).
Defined.


Lemma uninformed_finds_iff_reachable_witness :
  ∃ r g', run DFS 700 [] demo_grid demo_start demo_end = Some (r, g') ∧
          (found r = true ↔ ∃ k, reach demo_grid demo_start demo_end k).
Proof.
  destruct demo_run_dfs as (r & g' & Hrun & _). exists r, g'.
  split; [exact Hrun|].
  exact (uninformed_finds_iff_reachable DFS 700 [] demo_grid demo_start demo_end
           r g' (or_intror eq_refl) no_quit_nil Hrun).
Defined.

Lemma dijkstra_finds_iff_reachable_witness :
  ∃ r g', dijkstra 700 [] walled_grid (0, 0) (4, 4) = Some (r, g') ∧
          found r = false ∧
          (found r = true ↔ ∃ k, reach walled_grid (0, 0) (4, 4) k) ∧
          ∀ e, e ∈ Informed.open_set (Informed.dijkstra_init walled_grid (0, 0)) →
               Informed.g_score (Informed.dijkstra_init walled_grid (0, 0)) !! e.2
               = Some (Num e.1.1).
Proof.
  assert (Hrun : dijkstra 700 [] walled_grid (0, 0) (4, 4)
                 = Some ((false, 0, 0), walled_grid))
    by (vm_compute; reflexivity).
  exists (false, 0, 0), walled_grid. split; [exact Hrun|]. split; [reflexivity|].
  destruct (dijkstra_finds_iff_reachable 700 [] walled_grid (0, 0) (4, 4)
              (false, 0, 0) walled_grid no_quit_nil Hrun) as [Hiff Hall].
  split; [exact Hiff|].
  exact (proj1 (Hall (Informed.dijkstra_init walled_grid (0, 0))
                  (reaches_here _ _ _))).
Defined.

Lemma found_path_is_walk_witness :
  ∃ r g', run ASTAR 700 [] demo_grid demo_start demo_end = Some (r, g') ∧
          1 ≤ path_length r ∧
          reach demo_grid demo_start demo_end (Z.to_nat (path_length r)).
Proof.
  destruct demo_run_astar as (r & g' & Hrun & Hf). exists r, g'.
  split; [exact Hrun|].
  apply (found_path_is_walk ASTAR 700 [] demo_grid demo_start demo_end r g'
           ASTAR_algorithm eq_refl demo_only_start_orange);
    [discriminate|exact Hrun|exact Hf].
Defined.

Lemma bfs_dijkstra_path_is_shortest_witness :
  ∃ g', run DIJKSTRA 700 [] demo_grid demo_start demo_end
        = Some ((true, 20, 7), g') ∧
        ∀ k, reach demo_grid demo_start demo_end k → 7 ≤ Z.of_nat k.
Proof.
  destruct demo_run_dijkstra as (g' & Hrun). exists g'. split; [exact Hrun|].
  apply (bfs_dijkstra_path_is_shortest DIJKSTRA 700 [] demo_grid demo_start demo_end
           (true, 20, 7) g' (or_intror eq_refl) eq_refl demo_only_start_orange);
    [discriminate|exact Hrun|reflexivity].
Defined.


Lemma only_white_or_black_spec (g : Cells) (start end_ : Ref) :
  color_at g start = Some ORANGE → color_at g end_ = Some TURQUOISE →
  only_white_or_black g start end_ = true → clean g start end_.
Proof.
  intros Hs He H. split_and!; [done..|]. intros p c Hps Hpe Hc.
  unfold only_white_or_black in H. rewrite forallb_forall in H.
  assert (Hin : In p (all_refs g)).
  { apply list_elem_of_In, elem_of_all_refs. unfold color_at in Hc.
    by destruct (get g p). }
  specialize (H p Hin). rewrite (bool_decide_false (p = start)) in H by done.
  rewrite (bool_decide_false (p = end_)) in H by done. simpl in H.
  apply orb_true_iff in H as [H|H]; apply bool_decide_eq_true in H;
    rewrite Hc in H; injection H as ->; auto.
Qed.

Lemma demo_grid_clean : clean demo_grid demo_start demo_end.
Proof. apply only_white_or_black_spec; vm_compute; reflexivity. Qed.

Lemma demo_reach : reach demo_grid demo_start demo_end 7.
Proof.
  destruct demo_run_bfs as [g' Hrun].
  by destruct (found_walk_any BFS 700 [] demo_grid demo_start demo_end (true, 20, 7) g'
                 BFS_algorithm eq_refl demo_only_start_orange ltac:(discriminate)
                 Hrun eq_refl).
Qed.

Lemma heuristic_never_overestimates_witness :
  0 ≤ heuristic demo_grid demo_end demo_start ≤ 7 ∧
  diagonal demo_start demo_end ≤ 7.
Proof.
  exact (heuristic_never_overestimates demo_grid demo_start demo_end 7
           (proj1 (proj2 demo_grid_prepared)) demo_reach).
Defined.

Lemma get_clicked_pos_spec_witness :
  Grid.init 5 600 = Some demo_Grid ∧
  Grid.get_clicked_pos demo_Grid (130, 10) = Some (0, 1) ∧
  Grid.get_node demo_Grid 0 1 = Some ((0, 1), Node.init 0 1 120 5).
Proof.
  assert (Hinit : Grid.init 5 600 = Some demo_Grid) by reflexivity.
  split; [exact Hinit|].
  destruct (get_clicked_pos_spec 5 600 demo_Grid Hinit) as (_ & _ & H).
  destruct (H ltac:(reflexivity) (0, 1) (Node.init 0 1 120 5) 130 10 eq_refl)
    as (_ & Hnode & Hpos).
  split; [|exact Hnode]. apply Hpos. simpl. lia.
Defined.

Lemma get_node_indices_witness :
  ∃ nd, get (Grid.grid_nodes demo_Grid) (4, 4) = Some nd ∧
        Grid.get_node demo_Grid (-1) (-1) = Some ((4, 4), nd).
Proof.
  apply (get_node_indices demo_Grid 5 (-1) (-1)).
  - lia.
  - reflexivity.
  - intros rw Hrw. by apply (make_grid_row_length 5 120).
Defined.

Lemma refreshed_grid_is_undirected_witness :
  linked demo_grid (0, 2) demo_start ∧ barrier_at demo_grid (0, 2) = false ∧
  manhattan demo_start (0, 2) = 1.
Proof.
  apply (refreshed_grid_is_undirected 5 demo_grid demo_start (0, 2)
           (proj2 (proj2 demo_grid_prepared))).
  - eexists. split; [vm_compute; reflexivity|]. set_solver.
  - reflexivity.
Defined.

Lemma update_all_neighbors_idempotent_witness :
  match Grid.update_all_neighbors_cells (Grid.make_grid 5 120) with
  | Some g1 =>
      (∃ g2, Grid.update_all_neighbors_cells g1 = Some g2 ∧
             ∀ p, get g2 p = get g1 p) ∧
      (∃ g3, Grid.update_all_neighbors_cells
               (Grid.clear_path_nodes_cells g1 (Some (0, 1)) (Some (4, 0)))
             = Some g3 ∧
             ∀ p, neighbors_at g3 p = neighbors_at g1 p)
  | None => False
  end.
Proof.
  destruct (Grid.update_all_neighbors_cells (Grid.make_grid 5 120)) as [g1|] eqn:Hup.
  - apply (update_all_neighbors_idempotent 5 (Grid.make_grid 5 120) g1 (0, 1) (4, 0)
             (make_grid_square 5 120) Hup); reflexivity.
  - vm_compute in Hup. discriminate Hup.
Defined.

Lemma search_paints_witness :
  ∃ r g', run DFS 700 [] demo_grid demo_start demo_end = Some (r, g') ∧
          (color_at g' (2, 2) = color_at demo_grid (2, 2) ∨
           color_at g' (2, 2) = Some GREEN ∨ color_at g' (2, 2) = Some RED ∨
           color_at g' (2, 2) = Some PURPLE ∨
           (found r = true ∧
            (((2, 2) = demo_end ∧ (2, 2) ≠ demo_start ∧
              color_at g' (2, 2) = Some TURQUOISE) ∨
             ((2, 2) = demo_start ∧ color_at g' (2, 2) = Some ORANGE)))).
Proof.
  destruct demo_run_dfs as (r & g' & Hrun & _). exists r, g'.
  split; [exact Hrun|].
  exact (search_paints DFS 700 [] demo_grid demo_start demo_end r g'
           DFS_algorithm Hrun (2, 2)).
Defined.

Lemma clear_path_undoes_search_witness :
  ∃ r g', run ASTAR 700 [] demo_grid demo_start demo_end = Some (r, g') ∧
          ∀ p, get (Grid.clear_path_nodes_cells g' (Some demo_start) (Some demo_end)) p
               = get demo_grid p.
Proof.
  destruct demo_run_astar as (r & g' & Hrun & _). exists r, g'.
  split; [exact Hrun|].
  apply (clear_path_undoes_search ASTAR 700 [] demo_grid demo_start demo_end r g'
           ASTAR_algorithm demo_grid_clean); [discriminate|exact Hrun].
Defined.

Lemma demo_events_first : events_first false demo_inputs.
Proof. simpl. repeat split; intros; try done. Qed.

Lemma demo_session_fuel : (Z.to_nat (5 * 5) * Z.to_nat (5 * 5) + 2 ≤ 700)%nat.
Proof. apply Nat.leb_le. vm_compute. reflexivity. Qed.

Lemma session_keeps_tags_witness :
  match main 700 5 600 demo_inputs with
  | Some st =>
      session_ok 5 600 (vis st) ∧
      Visualizer.start (vis st) = Some (0, 1) ∧
      Visualizer.end_ (vis st) = Some (4, 0) ∧ running st = false
  | None => False
  end.
Proof.
  destruct (main 700 5 600 demo_inputs) as [st|] eqn:Hmain.
  - split; [exact (proj1 (session_keeps_tags 700 5 600 demo_inputs st Hmain))|].
    vm_compute in Hmain. injection Hmain as <-. repeat split.
  - vm_compute in Hmain. discriminate Hmain.
Defined.

Lemma session_never_raises_witness :
  ∃ st, main 700 5 600 demo_inputs = Some st.
Proof.
  apply session_never_raises; [lia|exact demo_session_fuel|exact demo_events_first].
Defined.

Lemma start_button_runs_search_witness :
  match main 700 5 600 demo_setup with
  | Some st =>
      Visualizer.paused (vis st) = true ∧
      ∃ g r g' v',
        run ASTAR 700 [] g (0, 1) (4, 0) = Some (r, g') ∧
        press_start 700 [Quit] (vis st) = Some v' ∧
        Visualizer.cells v' = g' ∧
        Visualizer.last_visited_count v' = visited_count r ∧
        Visualizer.last_path_length v' = path_length r ∧
        Visualizer.paused v' = false
  | None => False
  end.
Proof.
  destruct (main 700 5 600 demo_setup) as [st|] eqn:Hmain.
  - pose proof (main_ok 700 5 600 demo_setup st Hmain) as Hok.
    assert (Hst : Visualizer.paused (vis st) = true ∧
                  Visualizer.start (vis st) = Some (0, 1) ∧
                  Visualizer.end_ (vis st) = Some (4, 0) ∧
                  selected (Visualizer.selected_algorithm (vis st)) = Some ASTAR).
    { vm_compute in Hmain. injection Hmain as <-. repeat split. }
    destruct Hst as (Hp & Hs & He & HA). split; [exact Hp|].
    destruct (start_button_runs_search 5 600 700 [Quit] (vis st) (0, 1) (4, 0) ASTAR
                Hok Hs He HA demo_session_fuel)
      as (g & r & g' & v' & _ & _ & Hrun & Hpress & Hc & Hv & Hl & Hpa & _).
    exists g, r, g', v'. repeat split; assumption.
  - vm_compute in Hmain. discriminate Hmain.
Defined.
